(* ===== verification/_CoqProject ===== *)
-Q . S2P
Prelude.v
Constants.v
Primitives.v
Buffer.v
Wire.v
Slots.v
Queue.v
HashTables.v
GenTable.v
PathTable.v
Lora.v
AnnounceFlow.v
AnnounceTables.v
FlowTables.v
Discovery.v
Config.v
Crypto.v
Ifac.v
Identity.v
KnownDestinations.v
Proofs.v
Tunnel.v
Records.v
Ratchets.v
RatchetRuns.v
PeerRatchets.v
RatchetDelivery.v
Links.v
Msgpack.v
ResourcePolicy.v
Resource.v
ResourceSender.v
ResourceReceiver.v
ResourceTransfer.v
ResourceExample.v
Auto.v
LinkSession.v
LinkTransfer.v
Outbound.v
Model.v
Node.v
Forward.v
Announcing.v
Ingest.v
Hosts.v
NodeFacts.v
NodeSteps.v
NodeRuns.v
NodeTotal.v
NodeExample.v
Rebroadcast.v
Trace.v
Lifetimes.v
Returns.v
Delivery.v
Receiving.v
Journey.v
