(* ===== verification/Prelude.v ===== *)
(** * A verification development of rsReticulumLite

    rsReticulumLite (src/src/*.rs) is a no_std, allocation-free Rust
    implementation of a Reticulum transport relay and of the primitives an
    endpoint on a microcontroller needs: fixed-capacity tables, packet parsing
    and rewriting, announce relaying, LoRa framing, encryption, links.

    ** How the program fits together, and where each part is modelled

    A relay receives bytes from an interface, strips the interface access code
    (ifac.rs), reassembles LoRa frames (lora.rs), parses the header (wire.rs),
    drops duplicates by packet hash (tables.rs), and then either consults its
    path, reverse or link table (tables.rs) to forward the packet, or handles an
    announce: validate it (identity.rs), admit it at the ingress rate
    (announce_admission.rs), update the path table, cache it and schedule its
    rebroadcast under the announce cap (announce_cap.rs). Path requests for
    unknown destinations open a recursive discovery (discovery.rs). Endpoints
    encrypt to destinations and over links (crypto.rs, link.rs), prove receipt
    (proof.rs), and remember peers (known_destinations.rs).

    - [Prelude]: results with panics as a value, the state-and-error monad, machine
      integers as [Z] with their widths, slices and big-endian bytes with their
      lemmas, the tactics [bool_hyps] and [obind_inv], the hint databases.
    - [Constants], [Buffer], [Wire]: constants.rs, packet_buffer.rs, wire.rs.
    - [Primitives]: the third-party cryptography (sha2, hmac, hkdf, aes/cbc,
      x25519-dalek, ed25519-dalek) as type classes whose laws are the documented
      behaviour the program relies on; [Toy] instances serve the witnesses.
    - [Slots], [Queue], [HashTables], [GenTable], [PathTable], [AnnounceTables],
      [FlowTables]: tables.rs. [Slots] has the searches and eviction scans, and
      [GenTable] the generation-stamped tables, that the others share.
    - [Lora]: lora.rs. [AnnounceFlow]: announce_admission.rs, announce_cap.rs and
      announce_state.rs. [Discovery]: discovery.rs. [Config]: config.rs.
    - [Crypto], [Ifac], [Identity]: crypto.rs, ifac.rs, identity.rs.
    - [KnownDestinations], [Proofs], [Tunnel], [Links]: known_destinations.rs,
      proof.rs, tunnel.rs, link.rs.
    - [Records], [Ratchets], [RatchetRuns], [PeerRatchets]: ratchet.rs. [Records]
      has loops with checked bodies and blobs of fixed-width records (the class
      [FixedWidth]); [Ratchets] the ring of own keys, [RatchetRuns] what it
      promises a host over rounds and restarts, [PeerRatchets] the peers' keys,
      [RatchetDelivery] a message from the announce of a key to its decryption.
    - [Msgpack], [ResourcePolicy], [Resource]: resource.rs. [Msgpack] has the
      advertisement on the wire, [ResourcePolicy] the window and the retries of
      an advertisement, [Resource] part requests, the sender and the receiver.
      [ResourceSender] and [ResourceReceiver] are the lemmas on the two ends,
      [ResourceTransfer] puts them together, [ResourceExample] computes two
      small transfers.
    - [Auto]: auto.rs, with the standard library's text of an IPv6 address.
    - [LinkSession]: link_session.rs; the peer's round-trip time is decoded with
      the specification floats of the standard library. [LinkTransfer] carries a
      resource over a link from the handshake to the proof.
    - [Outbound], [Model]: the data of transport.rs, and the two kinds of
      interface state of model.rs (an endpoint's and a router's) as instances of
      the class [Model], with its laws as the class [ModelLaws]; everything about
      a node is proved from the class.
    - [Node], [Forward], [Announcing], [Ingest], [Hosts]: transport.rs and
      transport/router.rs. [Node] has the state, the queries and the outbound
      queue; [Forward] data, link and proof forwarding; [Announcing] announces,
      path requests and the tick; [Ingest] the entry point for received frames;
      [Hosts] what only the host calls.
    - [NodeFacts], [NodeSteps], [NodeRuns], [NodeTotal]: the lemmas on a node.
      Every operation is a run of small steps ([node_step]): a queue step, one
      table operation, one counter; a route is only learned and a link only
      validated on given evidence. The invariant of all tables ([node_ok]) is
      proved once per step; [NodeRuns] shows each operation to be such a run and
      [NodeTotal] that none panics.
    - [NodeExample]: a small endpoint and router, with an announce, a link
      request and a link proof, on which the witnesses compute.
    - [Rebroadcast], [Trace], [Lifetimes], [Returns], [Delivery], [Receiving], [Journey]: the
      properties of a node: the loops of the tick and the targets of announces;
      all sequences of host events; life times of queued frames; data and its
      proof; queueing, polling and retained delivery; what a received frame must
      be to have an effect; and a message across a chain of nodes with its receipt.

    A struct is a [Record], an enum an [Inductive], and each method a definition
    of the same name in a Module named after the type. A method taking
    [&mut self] or an output slice is a function from the state to a result and
    the state left behind, also on the error paths ([st]); indexing and slicing
    out of range is the result [Panic], and a theorem that a call succeeds or
    fails with a given error says it does not panic. A const generic capacity
    is the length of the array. [usize] is taken to be 64 bits wide.

    ** What the theorems show

    - Wire format: round trips, totality on arbitrary bytes, and that what a
      relay rewrites leaves the packet hashes and the link id alone.
    - Tables: reachability invariants, what each insertion may displace, that a
      generation never comes to name another entry, and that the ring queue
      refines a list.
    - Announces: an announce is accepted exactly when it binds destination, key
      and signature; routes are replaced exactly when newer; rebroadcasts are
      released once each and in order; the announce cap and the admission rate
      are bounds over whole runs.
    - LoRa: framing round trip, airtime in range and monotone, the airtime budget
      over any run.
    - Cryptography: round trips for tokens, ECIES, access codes, proofs, link
      handshake and identification; exactness of what verification accepts; no
      panic on arbitrary input.
    - Stores: export and import round trips, all-or-nothing import, eviction.
    - Ratchets: a prepared rotation commits to exactly the list it stands for, a
      key is kept until it expires over any rounds and restarts, loading is exact
      and all or nothing, the peer table refines a newest-first list; a message to
      an announced key can be read for thirty days.
    - Resource transfer: an advertisement survives the wire; whatever arrives, a
      receiver does not panic and hands out only the advertised data; parts in
      any order, repeated or mixed with other bytes, give the payload and a
      proof the sender accepts; a request is answered with exactly the missing
      parts; without loss four rounds are enough for eight parts; and all of
      it over a link whose handshake was made by this code.
    - Automatic interfaces: the text of an address fits its bound, is written
      whole or refused, and reads back to the address.
    - Link sessions: what an inbound packet can do in each state, what no call
      ever takes back, exact timers, and traffic under the agreed key.
    - Transport: over every sequence of host events, that a router never panics,
      that each of its routes was announced and each link it relays was proved;
      that foreign frames have no effect; that a queued frame is only sent for
      the route or link it was queued for; that a proof returns once along the
      way of its data; that interfaces share the queue fairly; that retained
      frames reach each target once; that the tick ends; and, across any chain of
      nodes, that a message arrives unchanged and its proof returns to the sender.

    ** Bounds and fuel

    Loops over arrays are structural. The loops of the program that are not have
    fuel: expiring the queue and dropping finished frames, one more than the
    frames queued (each round removes one); the rebroadcasts of a tick and the
    release of gated announces, one more than the scheduled announces (each
    round leaves fewer due, or owed to the interface). [expire_loop_spec],
    [drop_finished_spec], [tick_loop_done] and [release_slot_fuel] show that this
    is enough and that more would change nothing. Counting the leading received
    parts of a resource takes as many rounds as there are parts ([advance_spec]). [AnnounceTables.drain] counts
    calls, and the theorem about it asks for more than announces owed. Runs are
    lists of events or the reflexive transitive closure of a step relation.
    The clock is taken to stay ten minutes short of the end of its 64 bits, where
    deadlines would saturate.

    ** Not modelled

    Zeroization of secrets, [Debug] formatting, [const] assertions and re-exports
    have no behaviour in this model. The cryptographic primitives themselves are
    interfaces.
    The program leaves sending and receiving to its host; where a theorem is
    about an exchange ([ResourceTransfer.round], [LinkTransfer],
    [Journey]), the host's part is a definition
    of the development.
*)

From Stdlib Require Export ZArith Lia.
From stdpp Require Export base list numbers option sets relations.

Set Default Proof Using "Type".

(** * Results, with panics as a value *)

(** A Rust call either returns [Ok], returns [Err], or panics (an index or a
    slice out of range, an arithmetic overflow in a checked build). *)
Inductive outcome (E A : Type) : Type :=
| Ok (a : A)
| Err (e : E)
| Panic.
Arguments Ok {E A} a.
Arguments Err {E A} e.
Arguments Panic {E A}.

Declare Scope outcome_scope.
Delimit Scope outcome_scope with outcome.
Open Scope outcome_scope.

(** The [?] operator. *)
Definition obind {E A B : Type} (c : outcome E A) (k : A → outcome E B) : outcome E B :=
  match c with
  | Ok a => k a
  | Err e => Err e
  | Panic => Panic
  end.

(** [Result::map] and [Result::map_err]. *)
Definition omap_ok {E A B : Type} (f : A → B) (c : outcome E A) : outcome E B :=
  obind c (λ a, Ok (f a)).

Definition omap_err {E F A : Type} (f : E → F) (c : outcome E A) : outcome F A :=
  match c with
  | Ok a => Ok a
  | Err e => Err (f e)
  | Panic => Panic
  end.

Notation "'let*' p ':=' c 'in' k" := (obind c (λ p, k))
  (at level 10, p pattern, c at level 100, k at level 200) : outcome_scope.

(** [Option::ok_or]. *)
Definition ok_or {E A : Type} (o : option A) (e : E) : outcome E A :=
  match o with Some a => Ok a | None => Err e end.

(** An access that panics when it is out of range. *)
Definition or_panic {E A : Type} (o : option A) : outcome E A :=
  match o with Some a => Ok a | None => Panic end.

Definition no_panic {E A : Type} (c : outcome E A) : Prop := c ≠ Panic.

(** A method taking [&mut self] and returning a [Result]: the state it leaves
    behind is part of the result on every path, errors included. *)
Definition st (S E A : Type) : Type := S → outcome E A * S.

Definition st_ret {S E A} (a : A) : st S E A := λ s, (Ok a, s).
Definition st_err {S E A} (e : E) : st S E A := λ s, (Err e, s).
Definition st_bind {S E A B} (c : st S E A) (k : A → st S E B) : st S E B :=
  λ s, match c s with
       | (Ok a, s') => k a s'
       | (Err e, s') => (Err e, s')
       | (Panic, s') => (Panic, s')
       end.
Definition st_lift {S E A} (c : outcome E A) : st S E A := λ s, (c, s).

Notation "'let!' p ':=' c 'in' k" := (st_bind c (λ p, k))
  (at level 10, p pattern, c at level 100, k at level 200) : outcome_scope.
Notation "c ;;; k" := (st_bind c (λ _, k))
  (at level 65, right associativity) : outcome_scope.

(** * Machine integers, as [Z] with their widths written out *)

Definition u8_max : Z := 255.
Definition u16_max : Z := 65535.
Definition u32_max : Z := 4294967295.
Definition u64_max : Z := 18446744073709551615.

Definition in_u8 (x : Z) : Prop := (0 ≤ x ≤ u8_max)%Z.
Definition in_u16 (x : Z) : Prop := (0 ≤ x ≤ u16_max)%Z.
Definition in_u32 (x : Z) : Prop := (0 ≤ x ≤ u32_max)%Z.
Definition in_u64 (x : Z) : Prop := (0 ≤ x ≤ u64_max)%Z.

Definition sat_add64 (a b : Z) : Z := Z.min (a + b) u64_max.
Definition sat_mul64 (a b : Z) : Z := Z.min (a * b) u64_max.
Definition sat_add8 (a b : Z) : Z := Z.min (a + b) u8_max.
Definition sat_add32 (a b : Z) : Z := Z.min (a + b) u32_max.
(** [saturating_sub] on any unsigned width. *)
Definition sat_sub (a b : Z) : Z := Z.max (a - b) 0.
Definition checked_add64 (a b : Z) : option Z :=
  if (a + b <=? u64_max)%Z then Some (a + b)%Z else None.
(** [div_ceil] for a positive divisor. *)
Definition div_ceil (a b : Z) : Z := ((a + b - 1) / b)%Z.

(** [!x] of a byte. *)
Definition not8 (x : Z) : Z := Z.lxor x 255.

Definition is_byte (b : Z) : Prop := (0 ≤ b < 256)%Z.
Definition bytes (l : list Z) : Prop := Forall is_byte l.
Definition zeros (n : nat) : list Z := replicate n 0%Z.

(** Boolean test of a byte-string or key equality. *)
Notation "x =k y" := (bool_decide (x = y)) (at level 70, no associativity) : outcome_scope.

(** [to_be_bytes] truncated to the low [n] bytes, and [from_be_bytes]. *)
Fixpoint be_bytes (n : nat) (z : Z) : list Z :=
  match n with
  | O => []
  | S n' => Z.land (Z.shiftr z (8 * Z.of_nat n')) 255 :: be_bytes n' z
  end.

Definition be_step (acc b : Z) : Z := (Z.shiftl acc 8 + b)%Z.
Definition of_be (l : list Z) : Z := fold_left be_step l 0%Z.

(** * Slices *)

(** [l[i..j]] for [i ≤ j ≤ l.len()]. *)
Definition slice {A} (l : list A) (i j : nat) : list A := take (j - i) (drop i l).

(** [l[i..j]] with the bounds check of the language. *)
Definition slice_get {E A} (l : list A) (i j : nat) : outcome E (list A) :=
  if (i <=? j) && (j <=? length l) then Ok (slice l i j) else Panic.

Definition index {E A} (l : list A) (i : nat) : outcome E A := or_panic (l !! i).

(** [l[off..off + d.len()].copy_from_slice(d)]. *)
Definition splice {A} (off : nat) (d l : list A) : list A :=
  take off l ++ d ++ drop (off + length d) l.

Definition copy_into {E A} (l : list A) (off : nat) (d : list A) : outcome E (list A) :=
  if off + length d <=? length l then Ok (splice off d l) else Panic.

(** [copy_from_slice] into an array of length [n]: the lengths must agree. *)
Definition to_array {E A} (n : nat) (d : list A) : outcome E (list A) :=
  if length d =? n then Ok d else Panic.

(** [l[i] = x]. *)
Definition store {E A} (l : list A) (i : nat) (x : A) : outcome E (list A) :=
  if i <? length l then Ok (<[i := x]> l) else Panic.

(** * Tactics and hint databases *)

Create HintDb lite.
Create HintDb lite_bytes.

(** Splits every boolean test and [match] of the goal and the hypotheses that
    matter, clearing the impossible branches. *)
Ltac bool_hyps :=
  repeat match goal with
  | H : (_ && _)%bool = true |- _ => apply andb_true_iff in H; destruct H
  | H : (_ && _)%bool = false |- _ => apply andb_false_iff in H
  | H : (_ || _)%bool = false |- _ => apply orb_false_iff in H; destruct H
  | H : (_ || _)%bool = true |- _ => apply orb_true_iff in H
  | H : negb _ = true |- _ => apply negb_true_iff in H
  | H : negb _ = false |- _ => apply negb_false_iff in H
  | H : (_ <=? _) = true |- _ => apply Nat.leb_le in H
  | H : (_ <=? _) = false |- _ => apply Nat.leb_gt in H
  | H : (_ <? _) = true |- _ => apply Nat.ltb_lt in H
  | H : (_ <? _) = false |- _ => apply Nat.ltb_ge in H
  | H : (_ =? _) = true |- _ => apply Nat.eqb_eq in H
  | H : (_ =? _) = false |- _ => apply Nat.eqb_neq in H
  | H : (_ <=? _)%Z = true |- _ => apply Z.leb_le in H
  | H : (_ <=? _)%Z = false |- _ => apply Z.leb_gt in H
  | H : (_ <? _)%Z = true |- _ => apply Z.ltb_lt in H
  | H : (_ <? _)%Z = false |- _ => apply Z.ltb_ge in H
  | H : (_ =? _)%Z = true |- _ => apply Z.eqb_eq in H
  | H : (_ =? _)%Z = false |- _ => apply Z.eqb_neq in H
  | H : bool_decide _ = true |- _ => apply bool_decide_eq_true in H
  | H : bool_decide _ = false |- _ => apply bool_decide_eq_false in H
  end.

Ltac case_if :=
  match goal with
  | |- context [if ?b then _ else _] => destruct b eqn:?
  | H : context [if ?b then _ else _] |- _ => destruct b eqn:?
  end; bool_hyps.

(** Inverts a chain of [let*] that ended in [Ok]. *)
Lemma obind_Ok_inv {E A B} (c : outcome E A) (k : A → outcome E B) b :
  obind c k = Ok b → ∃ a, c = Ok a ∧ k a = Ok b.
Proof. destruct c; simpl; naive_solver. Qed.

Lemma obind_Panic_inv {E A B} (c : outcome E A) (k : A → outcome E B) :
  obind c k = Panic → c = Panic ∨ ∃ a, c = Ok a ∧ k a = Panic.
Proof. destruct c; simpl; naive_solver. Qed.

Lemma obind_assoc {E A B C} (c : outcome E A) (k : A → outcome E B) (h : B → outcome E C) :
  obind (obind c k) h = obind c (λ a, obind (k a) h).
Proof. by destruct c. Qed.

Lemma obind_no_panic {E A B} (c : outcome E A) (k : A → outcome E B) :
  no_panic c → (∀ a, c = Ok a → no_panic (k a)) → no_panic (obind c k).
Proof. unfold no_panic. destruct c; simpl; naive_solver. Qed.

Lemma no_panic_Ok {E A} (a : A) : no_panic (E := E) (Ok a).
Proof. done. Qed.
Lemma no_panic_Err {E A} (e : E) : no_panic (A := A) (Err e).
Proof. done. Qed.
#[export] Hint Resolve no_panic_Ok no_panic_Err obind_no_panic : lite.

Lemma Ok_inj {E A} (a b : A) : @Ok E A a = Ok b → a = b.
Proof. congruence. Qed.

Ltac obind_inv :=
  repeat match goal with
  | H : obind _ _ = Ok _ |- _ =>
      let x := fresh "x" in let Hx := fresh "Hx" in
      apply obind_Ok_inv in H; destruct H as (x & Hx & H)
  | H : Ok _ = Ok _ |- _ => apply Ok_inj in H
  | H : Err _ = Ok _ |- _ => discriminate H
  | H : Panic = Ok _ |- _ => discriminate H
  end.

(** * Invariants of a step relation *)

Lemma rtc_preserves {A} (R : relation A) (P : A → Prop) x y :
  (∀ a b, P a → R a b → P b) → P x → rtc R x y → P y.
Proof. intros HR HP Hxy. induction Hxy as [|a b c Hab _ IH]; eauto. Qed.

(** * Lemmas on slices *)

Section slices.
Context {A : Type}.
Implicit Types l d : list A.

Lemma length_slice l i j : i ≤ j → j ≤ length l → length (slice l i j) = j - i.
Proof. intros. unfold slice. rewrite length_take, length_drop. lia. Qed.

Lemma slice_get_Ok {E} l i j :
  i ≤ j → j ≤ length l → slice_get (E := E) l i j = Ok (slice l i j).
Proof.
  intros. unfold slice_get.
  by rewrite (proj2 (Nat.leb_le _ _)), (proj2 (Nat.leb_le _ _)) by lia.
Qed.

Lemma slice_get_inv {E} l i j r :
  slice_get (E := E) l i j = Ok r → i ≤ j ∧ j ≤ length l ∧ r = slice l i j.
Proof. unfold slice_get. case_if; naive_solver. Qed.

Lemma index_Ok {E} l i x : l !! i = Some x → index (E := E) l i = Ok x.
Proof. unfold index. by intros ->. Qed.

Lemma index_lt {E} l i : i < length l → ∃ x, l !! i = Some x ∧ index (E := E) l i = Ok x.
Proof. intros [x Hx]%lookup_lt_is_Some. exists x. split; [done|]. by apply index_Ok. Qed.

Lemma to_array_Ok {E} n d : length d = n → to_array (E := E) n d = Ok d.
Proof. unfold to_array. intros ->. by rewrite Nat.eqb_refl. Qed.

Lemma copy_into_Ok {E} l off d :
  off + length d ≤ length l → copy_into (E := E) l off d = Ok (splice off d l).
Proof. intros. unfold copy_into. by rewrite (proj2 (Nat.leb_le _ _)) by lia. Qed.

Lemma store_Ok {E} l i x : i < length l → store (E := E) l i x = Ok (<[i := x]> l).
Proof. intros. unfold store. by rewrite (proj2 (Nat.ltb_lt _ _)) by lia. Qed.

Lemma length_splice off d l : off + length d ≤ length l → length (splice off d l) = length l.
Proof.
  intros. unfold splice. rewrite !length_app, length_take, length_drop. lia.
Qed.

Lemma take_splice off d l :
  off ≤ length l → take (off + length d) (splice off d l) = take off l ++ d.
Proof.
  intros. unfold splice. rewrite app_assoc, take_app_le; rewrite ?length_app, ?length_take.
  - apply take_ge. rewrite length_app, length_take. lia.
  - lia.
Qed.

Lemma take_splice_le k off d l : k ≤ off → off ≤ length l → take k (splice off d l) = take k l.
Proof.
  intros. unfold splice. rewrite take_app_le by (rewrite length_take; lia).
  rewrite take_take. f_equal. lia.
Qed.

Lemma drop_splice_ge k off d l :
  off + length d ≤ k → off ≤ length l → drop k (splice off d l) = drop k l.
Proof.
  intros. unfold splice. rewrite app_assoc, drop_app_ge by (rewrite length_app, length_take; lia).
  rewrite drop_drop. f_equal. rewrite length_app, length_take. lia.
Qed.

Lemma slice_splice off d l :
  off ≤ length l → slice (splice off d l) off (off + length d) = d.
Proof.
  intros. unfold slice, splice. rewrite drop_app_ge by (rewrite length_take; lia).
  rewrite length_take, (Nat.min_l off) by lia.
  replace (off - off) with 0 by lia. rewrite drop_0.
  replace (off + length d - off) with (length d) by lia.
  by rewrite take_app_length.
Qed.

(** Writing behind a known prefix. *)
Lemma splice_app n a d r : length a = n → splice n d (a ++ r) = a ++ d ++ drop (length d) r.
Proof.
  intros <-. unfold splice. rewrite take_app_length. do 2 f_equal.
  rewrite drop_app_ge by lia. f_equal. lia.
Qed.

Lemma splice_0 d l : splice 0 d l = d ++ drop (length d) l.
Proof. done. Qed.

(** Two adjacent writes are one. *)
Lemma splice_splice pos d1 d2 l :
  pos + length d1 + length d2 ≤ length l →
  splice (pos + length d1) d2 (splice pos d1 l) = splice pos (d1 ++ d2) l.
Proof.
  intros Hl. unfold splice at 1. rewrite take_splice by lia. unfold splice.
  rewrite length_app, <- !app_assoc. do 3 f_equal.
  rewrite app_assoc, drop_app_ge by (rewrite length_app, length_take; lia).
  rewrite drop_drop. f_equal. rewrite length_app, length_take. lia.
Qed.

Lemma slice_full l : slice l 0 (length l) = l.
Proof. unfold slice. rewrite drop_0, Nat.sub_0_r. by apply take_ge. Qed.

Lemma slice_app_l l1 l2 i j : i ≤ j → j ≤ length l1 → slice (l1 ++ l2) i j = slice l1 i j.
Proof.
  intros. unfold slice. rewrite drop_app_le by lia.
  apply take_app_le. rewrite length_drop. lia.
Qed.

Lemma slice_app_r l1 l2 i j :
  length l1 ≤ i → slice (l1 ++ l2) i j = slice l2 (i - length l1) (j - length l1).
Proof.
  intros. unfold slice. rewrite drop_app_ge by lia. f_equal. lia.
Qed.

Lemma slice_app_exact l1 l2 l3 i j :
  length l1 = i → length l1 + length l2 = j → slice (l1 ++ l2 ++ l3) i j = l2.
Proof.
  intros <- <-. rewrite slice_app_r by lia.
  rewrite slice_app_l by lia. rewrite Nat.sub_diag.
  replace (length l1 + length l2 - length l1) with (length l2) by lia. apply slice_full.
Qed.

Lemma drop_app_exact l1 l2 i : length l1 = i → drop i (l1 ++ l2) = l2.
Proof. intros <-. apply drop_app_length. Qed.

Lemma slice_to_end l i : slice l i (length l) = drop i l.
Proof. unfold slice. apply take_ge. rewrite length_drop. lia. Qed.

Lemma take_slice_app l i j : i ≤ j → take i l ++ slice l i j = take j l.
Proof.
  intros. unfold slice. rewrite <- (take_drop i (take j l)).
  rewrite take_take, Nat.min_l, skipn_firstn_comm by lia. done.
Qed.

Lemma slice_slice_app l i j k : i ≤ j → j ≤ k → slice l i j ++ slice l j k = slice l i k.
Proof.
  intros. unfold slice. rewrite <- (take_drop (j - i) (take (k - i) (drop i l))).
  rewrite take_take, Nat.min_l, skipn_firstn_comm, drop_drop by lia.
  f_equal. f_equal; [lia|]. f_equal. lia.
Qed.

Lemma slice_drop_app l i j : i ≤ j → slice l i j ++ drop j l = drop i l.
Proof.
  intros. unfold slice. rewrite <- (take_drop (j - i) (drop i l)) at 2.
  rewrite drop_drop. do 2 f_equal. lia.
Qed.

End slices.

(** * Lemmas on bytes and big-endian integers *)

Lemma bytes_app l1 l2 : bytes (l1 ++ l2) ↔ bytes l1 ∧ bytes l2.
Proof. apply Forall_app. Qed.

Lemma bytes_take n l : bytes l → bytes (take n l).
Proof. apply Forall_take. Qed.
Lemma bytes_drop n l : bytes l → bytes (drop n l).
Proof. apply Forall_drop. Qed.
Lemma bytes_slice i j l : bytes l → bytes (slice l i j).
Proof. intros. by apply bytes_take, bytes_drop. Qed.
Lemma bytes_zeros n : bytes (zeros n).
Proof. apply Forall_replicate. unfold is_byte. lia. Qed.
Lemma bytes_lookup l i b : bytes l → l !! i = Some b → is_byte b.
Proof. intros. by eapply Forall_lookup_1. Qed.

Lemma bytes_check (l : list Z) : forallb (λ b, (0 <=? b) && (b <? 256))%Z l = true → bytes l.
Proof.
  intros Hl. apply Forall_forall. intros b Hb. rewrite forallb_forall in Hl.
  specialize (Hl b (proj1 (list_elem_of_In _ _) Hb)). unfold is_byte. lia.
Qed.
#[export] Hint Resolve bytes_take bytes_drop bytes_slice bytes_zeros bytes_lookup : lite_bytes.

Lemma land_255_mod z : Z.land z 255 = (z mod 256)%Z.
Proof. change 255%Z with (Z.ones 8). by rewrite Z.land_ones by lia. Qed.

(** Two bit fields that do not overlap. *)
Lemma lor_shiftl a b n :
  (0 ≤ n)%Z → (0 ≤ a < 2 ^ n)%Z → (0 ≤ b)%Z → Z.lor a (Z.shiftl b n) = (a + b * 2 ^ n)%Z.
Proof.
  intros Hn Ha Hb. rewrite <- Z.shiftl_mul_pow2, <- Z.add_lor_land by done.
  assert (Hz : Z.land a (Z.shiftl b n) = 0%Z); [|lia].
  apply Z.bits_inj'. intros i Hi. rewrite Z.land_spec, Z.bits_0.
  destruct (Z.lt_ge_cases i n).
  - by rewrite Z.shiftl_spec_low, andb_false_r.
  - rewrite <- (Z.mod_small a (2 ^ n)) by done. by rewrite Z.mod_pow2_bits_high by lia.
Qed.

Lemma be_bytes_cons n z :
  be_bytes (S n) z = ((z / 256 ^ Z.of_nat n) mod 256)%Z :: be_bytes n z.
Proof.
  cbn [be_bytes]. rewrite land_255_mod, Z.shiftr_div_pow2 by lia.
  rewrite Z.pow_mul_r by lia. done.
Qed.

Lemma length_be_bytes n z : length (be_bytes n z) = n.
Proof. induction n; simpl; lia. Qed.

Lemma bytes_be_bytes n z : bytes (be_bytes n z).
Proof.
  induction n as [|n IH]; [constructor|]. rewrite be_bytes_cons. constructor; [|done].
  unfold is_byte. apply Z.mod_pos_bound. lia.
Qed.
#[export] Hint Resolve bytes_be_bytes : lite_bytes.

Lemma pow256_pos n : (0 < 256 ^ Z.of_nat n)%Z.
Proof. apply Z.pow_pos_nonneg; lia. Qed.

Lemma pow256_S n : (256 ^ Z.of_nat (S n) = 256 * 256 ^ Z.of_nat n)%Z.
Proof. rewrite Nat2Z.inj_succ, Z.pow_succ_r by lia. done. Qed.

Lemma be_step_eq a b : be_step a b = (a * 256 + b)%Z.
Proof. unfold be_step. rewrite Z.shiftl_mul_pow2 by lia. done. Qed.

Lemma fold_be_step l a :
  (fold_left be_step l a = a * 256 ^ Z.of_nat (length l) + of_be l)%Z.
Proof.
  unfold of_be. revert a. induction l as [|b l IH]; intros a; simpl length.
  - simpl. lia.
  - cbn [fold_left]. rewrite (IH (be_step a b)), (IH (be_step 0 b)), pow256_S, !be_step_eq. lia.
Qed.

Lemma of_be_cons b l : (of_be (b :: l) = b * 256 ^ Z.of_nat (length l) + of_be l)%Z.
Proof. unfold of_be at 1. cbn [fold_left]. by rewrite fold_be_step, be_step_eq. Qed.

Lemma of_be_app l1 l2 : (of_be (l1 ++ l2) = of_be l1 * 256 ^ Z.of_nat (length l2) + of_be l2)%Z.
Proof. unfold of_be at 1. rewrite fold_left_app. apply fold_be_step. Qed.

Lemma of_be_bound l : bytes l → (0 ≤ of_be l < 256 ^ Z.of_nat (length l))%Z.
Proof.
  induction 1 as [|b l Hb Hl IH]; [done|].
  rewrite of_be_cons. simpl length. rewrite pow256_S. unfold is_byte in Hb.
  pose proof (pow256_pos (length l)). nia.
Qed.

Lemma of_be_zeros n l : of_be (zeros n ++ l) = of_be l.
Proof.
  induction n as [|n IH]; [done|]. unfold zeros in *. simpl. rewrite of_be_cons. lia.
Qed.

Lemma of_be_be_bytes_mod n z : of_be (be_bytes n z) = (z mod 256 ^ Z.of_nat n)%Z.
Proof.
  induction n as [|n IH]; [by rewrite Z.mod_1_r|].
  rewrite be_bytes_cons, of_be_cons, length_be_bytes, IH, pow256_S.
  pose proof (pow256_pos n). rewrite (Z.mul_comm 256), Z.rem_mul_r by lia. lia.
Qed.

Lemma of_be_be_bytes n z : (0 ≤ z < 256 ^ Z.of_nat n)%Z → of_be (be_bytes n z) = z.
Proof. intros. by rewrite of_be_be_bytes_mod, Z.mod_small. Qed.

Lemma be_bytes_shift n k z : be_bytes n (k * 256 ^ Z.of_nat n + z) = be_bytes n z.
Proof.
  revert k. induction n as [|n IH]; intros k; [done|].
  pose proof (pow256_pos n).
  rewrite !be_bytes_cons, pow256_S. f_equal.
  - replace (k * (256 * 256 ^ Z.of_nat n) + z)%Z with (z + (k * 256) * 256 ^ Z.of_nat n)%Z by lia.
    rewrite Z.div_add, Z.mod_add by lia. done.
  - replace (k * (256 * 256 ^ Z.of_nat n) + z)%Z with ((k * 256) * 256 ^ Z.of_nat n + z)%Z by lia.
    apply IH.
Qed.

Lemma be_bytes_of_be l : bytes l → be_bytes (length l) (of_be l) = l.
Proof.
  induction 1 as [|b l Hb Hl IH]; [done|].
  pose proof (of_be_bound l Hl). simpl length.
  rewrite of_be_cons, be_bytes_cons, be_bytes_shift, IH. f_equal.
  rewrite Z.div_add_l, (Z.div_small (of_be l)), Z.add_0_r by lia.
  by apply Z.mod_small.
Qed.

Lemma of_be_inj l1 l2 : bytes l1 → bytes l2 → length l1 = length l2 → of_be l1 = of_be l2 → l1 = l2.
Proof.
  intros H1 H2 Hlen Heq. rewrite <- (be_bytes_of_be l1), <- (be_bytes_of_be l2) by done.
  by rewrite Hlen, Heq.
Qed.

(** Case analysis of a byte, for facts about bit fields of a single byte. *)
Lemma byte_cases_bool (f : Z → bool) :
  forallb f (seqZ 0 256) = true → ∀ b, is_byte b → f b = true.
Proof.
  intros H b Hb. rewrite forallb_forall in H. apply H.
  apply list_elem_of_In, elem_of_seqZ. unfold is_byte in Hb. lia.
Qed.

(** A property of every byte, decided by evaluation. *)
Ltac byte_check :=
  apply byte_cases_bool; vm_compute; reflexivity.

Lemma in_u8_byte x : in_u8 x ↔ is_byte x.
Proof. unfold in_u8, is_byte, u8_max. lia. Qed.

(** * Lemmas on saturating and checked arithmetic *)

Lemma sat_add64_range a b : (0 ≤ a)%Z → (0 ≤ b)%Z → in_u64 (sat_add64 a b).
Proof. unfold in_u64, sat_add64, u64_max. lia. Qed.

Lemma checked_add64_Some a b c : checked_add64 a b = Some c ↔ c = (a + b)%Z ∧ (c ≤ u64_max)%Z.
Proof. unfold checked_add64. case_if; naive_solver lia. Qed.

Lemma div_ceil_spec a b : (0 ≤ a)%Z → (0 < b)%Z →
  (b * (div_ceil a b - 1) < a ≤ b * div_ceil a b)%Z ∨ (a = 0 ∧ div_ceil a b = 0)%Z.
Proof.
  intros Ha Hb. unfold div_ceil.
  pose proof (Z.div_mod (a + b - 1) b ltac:(lia)).
  pose proof (Z.mod_pos_bound (a + b - 1) b Hb). nia.
Qed.

Ltac unfold_u64 := unfold in_u64, in_u32, in_u16, in_u8, u64_max, u32_max, u16_max, u8_max in *.
Ltac unfold_sat := unfold sat_add64, sat_mul64, sat_add32, sat_add8, sat_sub, checked_add64 in *; unfold_u64.
