(* ===== verification/Constants.v ===== *)
(** Protocol constants (src/src/constants.rs). Lengths, sizes and counts are
    [nat], as they bound list lengths; times, hop counts and other machine
    integers are [Z]. *)

From S2P Require Import Prelude.

Definition MTU : nat := 500.
Definition HEADER_MINSIZE : nat := 19.
Definition HEADER_MAXSIZE : nat := 35.
Definition MDU : nat := 464.

Definition DESTINATION_LENGTH : nat := 16.
Definition TRANSPORT_ID_LENGTH : nat := 16.
Definition PACKET_HASH_LENGTH : nat := 32.
Definition NAME_HASH_LENGTH : nat := 10.
Definition RANDOM_HASH_LENGTH : nat := 10.
Definition PUBLIC_KEY_LENGTH : nat := 64.
Definition PRIVATE_KEY_LENGTH : nat := 64.
Definition SIGNATURE_LENGTH : nat := 64.

Definition LORA_FRAME_PAYLOAD_MAX : nat := 254.
Definition LORA_SPLIT_FRAME_PAYLOAD_MAX : nat := LORA_FRAME_PAYLOAD_MAX * 2.

Definition WIRE_MTU_MAX : nat := MTU + SIGNATURE_LENGTH.

(** Path finding: hop limit, rebroadcast retries and life times in seconds. *)
Definition PATHFINDER_M : Z := 128.
Definition PATHFINDER_R : Z := 1.
Definition PATHFINDER_G_SECS : Z := 5.
Definition LOCAL_REBROADCASTS_MAX : Z := 2.
Definition PATHFINDER_E_SECS : Z := 604800.
Definition AP_PATH_TIME_SECS : Z := 86400.
Definition ROAMING_PATH_TIME_SECS : Z := 21600.
Definition REVERSE_TIMEOUT_SECS : Z := 480.
Definition LINK_TIMEOUT_SECS : Z := 900.
Definition PATH_REQUEST_DUPLICATE_GATE_SECS : Z := 120.
Definition QUEUED_ANNOUNCE_LIFE_SECS : Z := 86400.

(** Largest announce application data: what an announce without a ratchet
    leaves of the MTU (src/src/identity.rs). *)
Definition ANNOUNCE_FIXED_NO_RATCHET : nat :=
  PUBLIC_KEY_LENGTH + NAME_HASH_LENGTH + RANDOM_HASH_LENGTH + SIGNATURE_LENGTH.
Definition MAX_ANNOUNCE_APP_DATA : nat := MTU - HEADER_MINSIZE - ANNOUNCE_FIXED_NO_RATCHET.

(** Interface access codes (src/src/ifac.rs). *)
Definition IFAC_KEY_LENGTH : nat := 64.
Definition IFAC_LORA_DEFAULT_SIZE : Z := 8.

(** Unfolds every size constant, so that [lia] sees numerals. *)
Ltac sizes :=
  unfold MAX_ANNOUNCE_APP_DATA, ANNOUNCE_FIXED_NO_RATCHET, IFAC_KEY_LENGTH, WIRE_MTU_MAX, LORA_SPLIT_FRAME_PAYLOAD_MAX, LORA_FRAME_PAYLOAD_MAX,
    SIGNATURE_LENGTH, PRIVATE_KEY_LENGTH, PUBLIC_KEY_LENGTH, RANDOM_HASH_LENGTH,
    NAME_HASH_LENGTH, PACKET_HASH_LENGTH, TRANSPORT_ID_LENGTH, DESTINATION_LENGTH,
    MDU, HEADER_MAXSIZE, HEADER_MINSIZE, MTU in *.
