(* ===== verification/Primitives.v ===== *)
(** Interfaces of the third-party cryptographic crates the program calls
    (sha2, hmac, hkdf, aes/cbc, x25519-dalek, ed25519-dalek).

    None of their code is in the repository, so each is a class of operations
    with the documented behaviour the program relies on as its laws. Every
    definition that calls such a crate takes the class as an argument. The
    [toy] instances at the end are concrete functions that satisfy the laws;
    only witnesses use them. *)

From S2P Require Import Prelude.

(** sha2: [Sha256::digest]. Feeding several chunks to one hasher digests their
    concatenation. *)
Class Sha256 := {
  sha256_digest : list Z → list Z;
  sha256_length : ∀ d, length (sha256_digest d) = 32;
  sha256_bytes : ∀ d, bytes (sha256_digest d)
}.

(** hmac with SHA-256: key, message. *)
Class Hmac := {
  hmac_sha256 : list Z → list Z → list Z;
  hmac_length : ∀ k m, length (hmac_sha256 k m) = 32;
  hmac_bytes : ∀ k m, bytes (hmac_sha256 k m)
}.

(** AES-256-CBC without padding: key, IV, whole blocks. *)
Class AesCbc := {
  cbc_encrypt : list Z → list Z → list Z → list Z;
  cbc_decrypt : list Z → list Z → list Z → list Z;
  cbc_encrypt_length : ∀ k iv p, length (cbc_encrypt k iv p) = length p;
  cbc_decrypt_length : ∀ k iv c, length (cbc_decrypt k iv c) = length c;
  cbc_decrypt_encrypt : ∀ k iv p,
    length p `mod` 16 = 0 → cbc_decrypt k iv (cbc_encrypt k iv p) = p
}.

(** hkdf with SHA-256 and empty info: salt, input key, output length. An output
    over 255 digests is refused. *)
Class HkdfSha256 := {
  hkdf_expand : list Z → list Z → nat → option (list Z);
  hkdf_length : ∀ salt ikm n okm, hkdf_expand salt ikm n = Some okm → length okm = n;
  hkdf_bytes : ∀ salt ikm n okm, hkdf_expand salt ikm n = Some okm → bytes okm;
  hkdf_accepts : ∀ salt ikm n, n ≤ 255 * 32 → is_Some (hkdf_expand salt ikm n)
}.

(** x25519-dalek: public key of a private scalar, shared secret. *)
Class X25519 := {
  x_public : list Z → list Z;
  x_shared : list Z → list Z → list Z;
  x_public_length : ∀ a, length (x_public a) = 32;
  x_shared_length : ∀ a b, length (x_shared a b) = 32;
  x_shared_comm : ∀ a b, x_shared a (x_public b) = x_shared b (x_public a)
}.

(** ed25519-dalek: verifying key of a seed, signature, key decoding, verification. *)
Class Ed25519 := {
  ed_public : list Z → list Z;
  ed_sign : list Z → list Z → list Z;
  ed_key_ok : list Z → bool;
  ed_verify : list Z → list Z → list Z → bool;
  ed_public_length : ∀ s, length (ed_public s) = 32;
  ed_sign_length : ∀ s m, length (ed_sign s m) = 64;
  ed_sign_bytes : ∀ s m, bytes (ed_sign s m);
  ed_public_ok : ∀ s, ed_key_ok (ed_public s) = true;
  ed_verify_sign : ∀ s m, ed_verify (ed_public s) m (ed_sign s m) = true
}.

(** * Concrete instances for witnesses *)

Module Toy.

Definition pad (n : nat) (l : list Z) : list Z := take n (l ++ zeros n).
Definition digest (n : nat) (l : list Z) : list Z :=
  be_bytes n (fold_left (λ a b, 31 * a + b + 7)%Z l 1%Z).

Lemma length_pad n l : length (pad n l) = n.
Proof. unfold pad, zeros. rewrite length_take, length_app, length_replicate. lia. Qed.

#[refine] Definition sha256 : Sha256 := {| sha256_digest := digest 32 |}.
Proof.
  - intros. apply length_be_bytes.
  - intros. apply bytes_be_bytes.
Defined.

#[refine] Definition hmac : Hmac := {| hmac_sha256 := λ k m, digest 32 (k ++ m) |}.
Proof.
  - intros. apply length_be_bytes.
  - intros. apply bytes_be_bytes.
Defined.

#[refine] Definition aes : AesCbc :=
  {| cbc_encrypt := λ _ _ p, reverse p; cbc_decrypt := λ _ _ c, reverse c |}.
Proof.
  - intros. apply length_reverse.
  - intros. apply length_reverse.
  - intros. apply reverse_involutive.
Defined.

#[refine] Definition hkdf : HkdfSha256 :=
  {| hkdf_expand := λ salt ikm n, if (n <=? 255 * 32) then Some (digest n (salt ++ ikm ++ zeros 100)) else None |}.
Proof.
  - intros salt ikm n okm H. case_if; simplify_eq. apply length_be_bytes.
  - intros salt ikm n okm H. case_if; simplify_eq. apply bytes_be_bytes.
  - intros salt ikm n H. case_if; [eauto|lia].
Defined.

#[refine] Definition x25519 : X25519 :=
  {| x_public := λ a, pad 32 a; x_shared := λ a b, zip_with Z.lxor (pad 32 a) (pad 32 b) |}.
Proof.
  - intros. apply length_pad.
  - intros. rewrite length_zip_with, !length_pad. lia.
  - intros a b.
    assert (∀ l, pad 32 (pad 32 l) = pad 32 l) as Hidem.
    { intros l. unfold pad at 1. rewrite take_app_le by (rewrite length_pad; lia).
      apply take_ge. rewrite length_pad. lia. }
    rewrite !Hidem.
    assert (∀ l k, zip_with Z.lxor l k = zip_with Z.lxor k l) as Hcomm.
    { induction l; destruct k; simpl; f_equal; auto using Z.lxor_comm. }
    apply Hcomm.
Defined.

#[refine] Definition ed25519 : Ed25519 :=
  {| ed_public := λ s, pad 32 s;
     ed_sign := λ s m, digest 64 (pad 32 s ++ m);
     ed_key_ok := λ _, true;
     ed_verify := λ p m sg, bool_decide (sg = digest 64 (p ++ m)) |}.
Proof.
  - intros. apply length_pad.
  - intros. apply length_be_bytes.
  - intros. apply bytes_be_bytes.
  - done.
  - intros. by apply bool_decide_eq_true_2.
Defined.

End Toy.
