(* ===== verification/Buffer.v ===== *)
(** Fixed-capacity packet storage (src/src/packet_buffer.rs).

    A [PacketBuffer] is an array with a visible length. The capacity [CAP] of
    the const generic is the length of the array. The abstraction of a buffer
    is its visible content [as_slice]; the lemmas below say what each operation
    does to it, and that no operation can leave the array bounds. *)

From S2P Require Import Prelude Constants.

Inductive BufferError := InsufficientCapacity.

#[export] Instance BufferError_eq_dec : EqDecision BufferError.
Proof. solve_decision. Defined.

Record PacketBuffer := { pb_bytes : list Z; pb_len : nat }.

#[export] Instance PacketBuffer_eq_dec : EqDecision PacketBuffer.
Proof. solve_decision. Defined.

Module PacketBuffer.

Definition new (CAP : nat) : PacketBuffer := {| pb_bytes := zeros CAP; pb_len := 0 |}.

Definition clear (b : PacketBuffer) : PacketBuffer :=
  {| pb_bytes := pb_bytes b; pb_len := 0 |}.

Definition cap (b : PacketBuffer) : nat := length (pb_bytes b).

(** [&self.bytes[..self.len]]; in range by [as_slice_in_range]. *)
Definition as_slice (b : PacketBuffer) : list Z := take (pb_len b) (pb_bytes b).

(** Writing through [as_mut_slice]: the visible bytes replaced by as many others. *)
Definition write_slice (b : PacketBuffer) (d : list Z) : PacketBuffer :=
  {| pb_bytes := splice 0 d (pb_bytes b); pb_len := pb_len b |}.

Definition push (byte : Z) : st PacketBuffer BufferError unit := λ b,
  if pb_len b =? cap b then (Err InsufficientCapacity, b)
  else match store (pb_bytes b) (pb_len b) byte with
       | Ok bs => (Ok tt, {| pb_bytes := bs; pb_len := pb_len b + 1 |})
       | Err e => (Err e, b)
       | Panic => (Panic, b)
       end.

Definition extend_from_slice (data : list Z) : st PacketBuffer BufferError unit := λ b,
  if cap b <? pb_len b + length data then (Err InsufficientCapacity, b)
  else match copy_into (pb_bytes b) (pb_len b) data with
       | Ok bs => (Ok tt, {| pb_bytes := bs; pb_len := pb_len b + length data |})
       | Err e => (Err e, b)
       | Panic => (Panic, b)
       end.

Definition from_slice (CAP : nat) (data : list Z) : outcome BufferError PacketBuffer :=
  match extend_from_slice data (new CAP) with
  | (Ok _, out) => Ok out
  | (Err e, _) => Err e
  | (Panic, _) => Panic
  end.

Definition set_len (len : nat) : st PacketBuffer BufferError unit := λ b,
  if cap b <? len then (Err InsufficientCapacity, b)
  else (Ok tt, {| pb_bytes := pb_bytes b; pb_len := len |}).

Definition copy_with_hops (b : PacketBuffer) (hops : Z) : PacketBuffer :=
  if 1 <? pb_len b then {| pb_bytes := <[1 := hops]> (pb_bytes b); pb_len := pb_len b |} else b.

(** The type invariant: the visible length never exceeds the array. *)
Definition wf (CAP : nat) (b : PacketBuffer) : Prop := cap b = CAP ∧ pb_len b ≤ CAP.

Lemma wf_new CAP : wf CAP (new CAP).
Proof. split; [apply length_replicate|simpl; lia]. Qed.

Lemma as_slice_new CAP : as_slice (new CAP) = [].
Proof. done. Qed.

Lemma wf_clear CAP b : wf CAP b → wf CAP (clear b).
Proof. intros [? ?]. split; [done|simpl; lia]. Qed.

Lemma as_slice_in_range {E} CAP b :
  wf CAP b → slice_get (E := E) (pb_bytes b) 0 (pb_len b) = Ok (as_slice b).
Proof.
  intros [Hc Hl]. rewrite slice_get_Ok by (unfold cap in Hc; lia).
  unfold slice, as_slice. by rewrite drop_0, Nat.sub_0_r.
Qed.

Lemma length_as_slice CAP b : wf CAP b → length (as_slice b) = pb_len b.
Proof. intros [Hc Hl]. unfold as_slice, cap in *. rewrite length_take. lia. Qed.

(** The three facts that characterise appending to a buffer. *)
Lemma extend_ok CAP b d :
  wf CAP b → pb_len b + length d ≤ CAP →
  ∃ b', extend_from_slice d b = (Ok tt, b') ∧ wf CAP b' ∧
        pb_len b' = pb_len b + length d ∧ as_slice b' = as_slice b ++ d.
Proof.
  intros [Hc Hl] Hfit. unfold extend_from_slice. unfold cap in *.
  case_if; [lia|]. rewrite copy_into_Ok by lia. eexists. split; [done|].
  split; [|split; [done|]].
  - split; simpl; [|lia]. unfold cap. simpl. rewrite length_splice; lia.
  - unfold as_slice. simpl. by rewrite take_splice by lia.
Qed.

Lemma extend_err CAP b d :
  wf CAP b → CAP < pb_len b + length d →
  extend_from_slice d b = (Err InsufficientCapacity, b).
Proof. intros [Hc Hl] Hfit. unfold extend_from_slice. case_if; [done|lia]. Qed.

Lemma push_extend CAP b x : wf CAP b → push x b = extend_from_slice [x] b.
Proof.
  intros [Hc Hl]. unfold push, extend_from_slice. simpl length. unfold cap in *.
  case_if; case_if; try lia; [done|].
  rewrite store_Ok, copy_into_Ok by (simpl; lia). do 3 f_equal.
  unfold splice. simpl length.
  rewrite insert_take_drop by lia. simpl. do 3 f_equal. lia.
Qed.

(** [appends CAP c d]: the computation [c] appends [d] to a buffer of capacity
    [CAP] when it fits, and otherwise fails with [InsufficientCapacity]. *)
Definition appends (CAP : nat) (c : st PacketBuffer BufferError unit) (d : list Z) : Prop :=
  ∀ b, wf CAP b →
    (pb_len b + length d ≤ CAP →
       ∃ b', c b = (Ok tt, b') ∧ wf CAP b' ∧
             pb_len b' = pb_len b + length d ∧ as_slice b' = as_slice b ++ d) ∧
    (CAP < pb_len b + length d → ∃ b', c b = (Err InsufficientCapacity, b')).

Lemma appends_extend CAP d : appends CAP (extend_from_slice d) d.
Proof. intros b Hwf. split; intros; [by apply extend_ok|]. exists b. by apply (extend_err CAP). Qed.

Lemma appends_push CAP x : appends CAP (push x) [x].
Proof. intros b Hwf. rewrite (push_extend CAP) by done. by apply appends_extend. Qed.

Lemma appends_ret CAP : appends CAP (st_ret tt) [].
Proof.
  intros b Hwf. split; simpl; intros.
  - exists b. rewrite app_nil_r. repeat split; try apply Hwf. lia.
  - destruct Hwf. lia.
Qed.

Lemma appends_seq CAP c1 c2 d1 d2 :
  appends CAP c1 d1 → appends CAP c2 d2 → appends CAP (c1 ;;; c2) (d1 ++ d2).
Proof.
  intros H1 H2 b Hwf. rewrite length_app. unfold st_bind.
  destruct (decide (pb_len b + length d1 ≤ CAP)) as [Hf|Hf].
  - destruct (H1 b Hwf) as [(b1 & -> & Hw1 & Hl1 & Hs1) _]; [done|].
    destruct (H2 b1 Hw1) as [Hok Herr]. split; intros.
    + destruct Hok as (b2 & -> & Hw2 & Hl2 & Hs2); [lia|].
      exists b2. rewrite Hs2, Hs1, <- app_assoc. repeat split; try apply Hw2. lia.
    + apply Herr. lia.
  - destruct (H1 b Hwf) as [_ (b1 & ->)]; [lia|]. split; [lia|eauto].
Qed.

(** Appending keeps the invariant on every path. *)
Lemma wf_extend CAP d b : wf CAP b → wf CAP (snd (extend_from_slice d b)).
Proof.
  intros Hwf. destruct (decide (pb_len b + length d ≤ CAP)) as [Hf|Hf].
  - by destruct (extend_ok CAP b d Hwf Hf) as (b' & -> & Hw & _).
  - rewrite (extend_err CAP) by (done || lia). done.
Qed.

Lemma wf_push CAP x b : wf CAP b → wf CAP (snd (push x b)).
Proof. intros Hwf. rewrite (push_extend CAP) by done. by apply wf_extend. Qed.

Lemma extend_no_panic CAP d b : wf CAP b → fst (extend_from_slice d b) ≠ Panic.
Proof.
  intros Hwf. destruct (decide (pb_len b + length d ≤ CAP)) as [Hf|Hf].
  - by destruct (extend_ok CAP b d Hwf Hf) as (b' & -> & _).
  - by rewrite (extend_err CAP) by (done || lia).
Qed.

Lemma from_slice_ok CAP d :
  length d ≤ CAP → ∃ b, from_slice CAP d = Ok b ∧ wf CAP b ∧ as_slice b = d.
Proof.
  intros Hd. destruct (extend_ok CAP (new CAP) d) as (b & Heq & Hwf & _ & Hs);
    [apply wf_new|simpl; lia|].
  exists b. unfold from_slice. rewrite Heq. by rewrite Hs.
Qed.

Lemma from_slice_err CAP d : CAP < length d → from_slice CAP d = Err InsufficientCapacity.
Proof.
  intros Hd. unfold from_slice. by rewrite (extend_err CAP) by (apply wf_new || simpl; lia).
Qed.

(** Growing the visible length exposes the bytes already in the array. *)
Lemma set_len_ok CAP b n :
  wf CAP b → n ≤ CAP →
  set_len n b = (Ok tt, {| pb_bytes := pb_bytes b; pb_len := n |}) ∧
  wf CAP {| pb_bytes := pb_bytes b; pb_len := n |}.
Proof. intros [Hc Hl] Hn. unfold set_len. case_if; [lia|]. by repeat split. Qed.

Lemma write_slice_content CAP b d :
  wf CAP b → length d = pb_len b → wf CAP (write_slice b d) ∧ as_slice (write_slice b d) = d.
Proof.
  intros [Hc Hl] Hd. unfold cap in *. split.
  - split; simpl; [|done]. unfold cap. simpl. rewrite length_splice; simpl; lia.
  - unfold as_slice, write_slice. simpl. rewrite <- Hd.
    by rewrite <- (take_splice 0 d (pb_bytes b)) at 3 by lia.
Qed.

Lemma copy_with_hops_content CAP b h :
  wf CAP b → wf CAP (copy_with_hops b h) ∧
  as_slice (copy_with_hops b h) = (if 1 <? pb_len b then <[1 := h]> (as_slice b) else as_slice b).
Proof.
  intros [Hc Hl]. unfold copy_with_hops. case_if; [|done].
  split.
  - split; [|done]. unfold cap in *. simpl. by rewrite length_insert.
  - unfold as_slice. simpl. rewrite take_insert. by case_decide; [|lia].
Qed.

End PacketBuffer.

#[export] Hint Resolve PacketBuffer.appends_extend PacketBuffer.appends_push
  PacketBuffer.appends_ret PacketBuffer.appends_seq PacketBuffer.wf_new : lite.
