(* ===== verification/Wire.v ===== *)
(** Packet headers, packet hashes and packet construction (src/src/wire.rs).

    The wire format of a header is given once as [header_bytes]; the theorems
    relate the program's parser and builder to it. The packet hash and the link
    identifier must not depend on what a relay changes in flight (hop count,
    transport header), which is what makes duplicate detection and link
    routing work across hops. *)

From S2P Require Import Prelude Constants Primitives Buffer.

Inductive PacketType := Data | Announce | LinkRequest | Proof_.
Inductive DestinationType := Single | Group | Plain | Link.
Inductive HeaderType := Header1 | Header2.
Inductive TransportType := Broadcast | Transport.

Record PacketFlags := {
  header_type : HeaderType;
  context_flag : bool;
  transport_type : TransportType;
  destination_type : DestinationType;
  packet_type : PacketType
}.

Inductive PacketContext :=
| CtxNone | Resource | ResourceAdv | ResourceReq | ResourceHmu | ResourcePrf
| ResourceIcl | ResourceRcl | CacheRequest | Request | Response | PathResponse
| Command | CommandStatus | Channel | Keepalive | LinkIdentify | LinkClose
| LinkProof | Lrrtt | Lrproof | Unknown (byte : Z).

Record PacketHeader := {
  flags : PacketFlags;
  hops : Z;
  transport_id : option (list Z);
  destination_hash : list Z;
  context : PacketContext
}.

Record PacketView := {
  pv_header : PacketHeader;
  pv_payload : list Z;
  pv_raw : list Z;
  payload_offset : nat
}.

Inductive WireError :=
| TooShort
| ExceedsMtu
| WireBufferError (e : BufferError).

#[export] Instance PacketType_eq_dec : EqDecision PacketType.
Proof. solve_decision. Defined.
#[export] Instance DestinationType_eq_dec : EqDecision DestinationType.
Proof. solve_decision. Defined.
#[export] Instance HeaderType_eq_dec : EqDecision HeaderType.
Proof. solve_decision. Defined.
#[export] Instance TransportType_eq_dec : EqDecision TransportType.
Proof. solve_decision. Defined.
#[export] Instance PacketFlags_eq_dec : EqDecision PacketFlags.
Proof. solve_decision. Defined.
#[export] Instance PacketContext_eq_dec : EqDecision PacketContext.
Proof. solve_decision. Defined.
#[export] Instance PacketHeader_eq_dec : EqDecision PacketHeader.
Proof. solve_decision. Defined.

(** * Flags *)

(** The [repr(u8)] discriminants. *)
Definition packet_type_u8 (t : PacketType) : Z :=
  match t with Data => 0 | Announce => 1 | LinkRequest => 2 | Proof_ => 3 end.
Definition destination_type_u8 (t : DestinationType) : Z :=
  match t with Single => 0 | Group => 1 | Plain => 2 | Link => 3 end.
Definition header_type_u8 (t : HeaderType) : Z :=
  match t with Header1 => 0 | Header2 => 1 end.
Definition transport_type_u8 (t : TransportType) : Z :=
  match t with Broadcast => 0 | Transport => 1 end.

Definition pack (f : PacketFlags) : Z :=
  Z.lor (Z.shiftl (header_type_u8 (header_type f)) 6)
  (Z.lor (Z.shiftl (Z.b2z (context_flag f)) 5)
  (Z.lor (Z.shiftl (transport_type_u8 (transport_type f)) 4)
  (Z.lor (Z.shiftl (destination_type_u8 (destination_type f)) 2)
         (packet_type_u8 (packet_type f))))).

Definition unpack (byte : Z) : PacketFlags :=
  {| header_type := if (Z.land byte 64 =? 0)%Z then Header1 else Header2;
     context_flag := negb (Z.land byte 32 =? 0)%Z;
     transport_type := if (Z.land byte 16 =? 0)%Z then Broadcast else Transport;
     destination_type :=
       match Z.shiftr (Z.land byte 12) 2 with
       | 0%Z => Single | 1%Z => Group | 2%Z => Plain | _ => Link
       end;
     packet_type :=
       match Z.land byte 3 with
       | 0%Z => Data | 1%Z => Announce | 2%Z => LinkRequest | _ => Proof_
       end |}.

(** * Contexts *)

Definition from_byte (byte : Z) : PacketContext :=
  match byte with
  | 0 => CtxNone | 1 => Resource | 2 => ResourceAdv | 3 => ResourceReq | 4 => ResourceHmu
  | 5 => ResourcePrf | 6 => ResourceIcl | 7 => ResourceRcl | 8 => CacheRequest
  | 9 => Request | 10 => Response | 11 => PathResponse | 12 => Command
  | 13 => CommandStatus | 14 => Channel | 250 => Keepalive | 251 => LinkIdentify
  | 252 => LinkClose | 253 => LinkProof | 254 => Lrrtt | 255 => Lrproof
  | other => Unknown other
  end%Z.

Definition to_byte (c : PacketContext) : Z :=
  match c with
  | CtxNone => 0 | Resource => 1 | ResourceAdv => 2 | ResourceReq => 3 | ResourceHmu => 4
  | ResourcePrf => 5 | ResourceIcl => 6 | ResourceRcl => 7 | CacheRequest => 8
  | Request => 9 | Response => 10 | PathResponse => 11 | Command => 12
  | CommandStatus => 13 | Channel => 14 | Keepalive => 250 | LinkIdentify => 251
  | LinkClose => 252 | LinkProof => 253 | Lrrtt => 254 | Lrproof => 255
  | Unknown byte => byte
  end%Z.

Definition skip_hashlist (c : PacketContext) : bool :=
  match c with
  | Resource | ResourceReq | ResourcePrf | CacheRequest | Channel | Keepalive => true
  | _ => false
  end.

#[global] Arguments pack : simpl never.
#[global] Arguments unpack : simpl never.
#[global] Arguments to_byte : simpl never.
#[global] Arguments from_byte : simpl never.

(** * Headers *)

Definition header_size (h : PacketHeader) : nat :=
  match header_type (flags h) with
  | Header1 => HEADER_MINSIZE
  | Header2 => HEADER_MAXSIZE
  end.

Definition parse_header (raw : list Z) : outcome WireError (PacketHeader * nat) :=
  if length raw <? HEADER_MINSIZE then Err TooShort
  else if MTU <? length raw then Err ExceedsMtu
  else
    let* b0 := index raw 0 in
    let fl := unpack b0 in
    let* hp := index raw 1 in
    match header_type fl with
    | Header1 =>
        let* s := slice_get raw 2 18 in
        let* dest := to_array TRANSPORT_ID_LENGTH s in
        let* c := index raw 18 in
        Ok ({| flags := fl; hops := hp; transport_id := None;
               destination_hash := dest; context := from_byte c |}, HEADER_MINSIZE)
    | Header2 =>
        if length raw <? HEADER_MAXSIZE then Err TooShort
        else
          let* s := slice_get raw 2 18 in
          let* tid := to_array TRANSPORT_ID_LENGTH s in
          let* s' := slice_get raw 18 34 in
          let* dest := to_array TRANSPORT_ID_LENGTH s' in
          let* c := index raw 34 in
          Ok ({| flags := fl; hops := hp; transport_id := Some tid;
                 destination_hash := dest; context := from_byte c |}, HEADER_MAXSIZE)
    end.

Definition write_into (h : PacketHeader) : st PacketBuffer BufferError unit :=
  PacketBuffer.push (pack (flags h)) ;;;
  PacketBuffer.push (hops h) ;;;
  (match transport_id h with
   | Some tid => PacketBuffer.extend_from_slice tid
   | None => st_ret tt
   end) ;;;
  PacketBuffer.extend_from_slice (destination_hash h) ;;;
  PacketBuffer.push (to_byte (context h)) ;;;
  st_ret tt.

Definition parse_view (raw : list Z) : outcome WireError PacketView :=
  let* (header, off) := parse_header raw in
  let* payload := slice_get raw off (length raw) in
  Ok {| pv_header := header; pv_payload := payload; pv_raw := raw; payload_offset := off |}.

Definition build_packet (header : PacketHeader) (payload : list Z)
  : outcome WireError PacketBuffer :=
  match (write_into header ;;; PacketBuffer.extend_from_slice payload)
          (PacketBuffer.new MTU) with
  | (Ok _, out) => Ok out
  | (Err e, _) => Err (WireBufferError e)
  | (Panic, _) => Panic
  end.

Definition rewrite_with_header (raw : list Z) (old_header new_header : PacketHeader)
  : outcome WireError PacketBuffer :=
  let off := header_size old_header in
  if length raw <? off then Err TooShort
  else let* payload := slice_get raw off (length raw) in
       build_packet new_header payload.

(** * Hashes *)

Section hashes.
Context {SHA : Sha256}.

Definition sha256 (data : list Z) : list Z := sha256_digest data.

Definition truncated_hash (data : list Z) : list Z := take TRANSPORT_ID_LENGTH (sha256 data).

Definition packet_hash (raw : list Z) (ht : HeaderType) : list Z :=
  match raw with
  | [] => zeros PACKET_HASH_LENGTH
  | b0 :: _ =>
      let skip := match ht with Header1 => 2 | Header2 => 2 + TRANSPORT_ID_LENGTH end in
      sha256_digest (Z.land b0 15 :: (if skip <? length raw then drop skip raw else []))
  end.

Definition truncated_packet_hash (raw : list Z) (ht : HeaderType) : list Z :=
  take TRANSPORT_ID_LENGTH (packet_hash raw ht).

Definition LINK_REQUEST_KEY_BYTES : nat := 64.

Definition link_id_from_raw (raw : list Z) (ht : HeaderType) : list Z :=
  match raw with
  | [] => zeros TRANSPORT_ID_LENGTH
  | b0 :: _ =>
      let material :=
        match ht with
        | Header1 =>
            if 2 <? length raw then
              let header_end := Nat.min HEADER_MINSIZE (length raw) in
              slice raw 2 header_end ++ take LINK_REQUEST_KEY_BYTES (drop header_end raw)
            else []
        | Header2 =>
            if 2 + TRANSPORT_ID_LENGTH <? length raw then
              let header_end := Nat.min HEADER_MAXSIZE (length raw) in
              slice raw (2 + TRANSPORT_ID_LENGTH) header_end
                ++ take LINK_REQUEST_KEY_BYTES (drop header_end raw)
            else []
        end in
      take TRANSPORT_ID_LENGTH (sha256_digest (Z.land b0 15 :: material))
  end.

End hashes.

(** * The wire format *)

(** Specification: the bytes of a header. *)
Definition header_bytes (h : PacketHeader) : list Z :=
  pack (flags h) :: hops h :: default [] (transport_id h)
    ++ destination_hash h ++ [to_byte (context h)].

(** A header the program can put on the wire and read back: the transport
    identifier is present exactly in a type-2 header, and the context is not an
    [Unknown] spelling of an assigned code. *)
Definition wf_header (h : PacketHeader) : Prop :=
  length (destination_hash h) = TRANSPORT_ID_LENGTH ∧
  from_byte (to_byte (context h)) = context h ∧
  match transport_id h with
  | Some tid => header_type (flags h) = Header2 ∧ length tid = TRANSPORT_ID_LENGTH
  | None => header_type (flags h) = Header1
  end.

(** What a relay may change in a packet it forwards. *)
Definition same_origin (h h' : PacketHeader) : Prop :=
  destination_type (flags h) = destination_type (flags h') ∧
  packet_type (flags h) = packet_type (flags h') ∧
  destination_hash h = destination_hash h' ∧
  context h = context h'.

(** * Lemmas *)

Lemma unpack_pack_lemma f : unpack (pack f) = f.
Proof. destruct f as [[] [] [] [] []]; vm_compute; reflexivity. Qed.

Lemma pack_unpack_lemma b : is_byte b → pack (unpack b) = Z.land b 127.
Proof.
  intros Hb. apply Z.eqb_eq. revert b Hb.
  apply (byte_cases_bool (λ b, pack (unpack b) =? Z.land b 127)%Z). vm_compute. reflexivity.
Qed.

Lemma pack_low_nibble f :
  Z.land (pack f) 15 = Z.lor (Z.shiftl (destination_type_u8 (destination_type f)) 2)
                             (packet_type_u8 (packet_type f)).
Proof. destruct f as [[] [] [] [] []]; vm_compute; reflexivity. Qed.

Lemma unpack_low_nibble b :
  is_byte b → Z.land (pack (unpack b)) 15 = Z.land b 15.
Proof.
  intros Hb. apply Z.eqb_eq. revert b Hb.
  apply (byte_cases_bool (λ b, Z.land (pack (unpack b)) 15 =? Z.land b 15)%Z).
  vm_compute. reflexivity.
Qed.

Lemma to_from_byte_lemma b : is_byte b → to_byte (from_byte b) = b.
Proof.
  intros Hb. apply Z.eqb_eq. revert b Hb.
  apply (byte_cases_bool (λ b, to_byte (from_byte b) =? b)%Z). vm_compute. reflexivity.
Qed.

Lemma length_header_bytes h : wf_header h → length (header_bytes h) = header_size h.
Proof.
  intros (Hd & _ & Ht). unfold header_bytes, header_size. simpl.
  rewrite !length_app, Hd. simpl.
  destruct (transport_id h) as [tid|]; [destruct Ht as [-> Ht]; simpl; rewrite Ht|rewrite Ht];
    sizes; simpl; lia.
Qed.

Lemma header_size_pos h : 19 ≤ header_size h ≤ 35.
Proof. unfold header_size. destruct (header_type _); sizes; lia. Qed.

(** Building is appending the header bytes and the payload, or refusing. *)
Lemma write_into_appends CAP h :
  PacketBuffer.appends CAP (write_into h) (header_bytes h).
Proof.
  unfold write_into, header_bytes.
  change (?a :: ?b :: ?l) with ([a] ++ [b] ++ l).
  replace (default [] (transport_id h) ++ destination_hash h ++ [to_byte (context h)])
    with (default [] (transport_id h) ++ destination_hash h ++ [to_byte (context h)] ++ [])
    by by rewrite app_nil_r.
  repeat apply PacketBuffer.appends_seq; eauto with lite.
  destruct (transport_id h); eauto with lite.
Qed.

Lemma build_packet_ok h p :
  length (header_bytes h) + length p ≤ MTU →
  ∃ b, build_packet h p = Ok b ∧ PacketBuffer.wf MTU b ∧
       PacketBuffer.as_slice b = header_bytes h ++ p.
Proof.
  intros Hfit. unfold build_packet.
  destruct (PacketBuffer.appends_seq MTU _ _ _ p (write_into_appends MTU h)
    (PacketBuffer.appends_extend MTU p) (PacketBuffer.new MTU)) as [(b & -> & Hw & _ & Hs) _];
    [apply PacketBuffer.wf_new|rewrite length_app; cbn [pb_len PacketBuffer.new]; lia|]. by exists b.
Qed.

Lemma build_packet_err h p :
  MTU < length (header_bytes h) + length p →
  build_packet h p = Err (WireBufferError InsufficientCapacity).
Proof.
  intros Hfit. unfold build_packet.
  destruct (PacketBuffer.appends_seq MTU _ _ _ p (write_into_appends MTU h)
    (PacketBuffer.appends_extend MTU p) (PacketBuffer.new MTU)) as [_ (b & ->)];
    [apply PacketBuffer.wf_new|rewrite length_app; cbn [pb_len PacketBuffer.new]; lia|done].
Qed.

Lemma build_packet_inv h p b :
  build_packet h p = Ok b →
  length (header_bytes h) + length p ≤ MTU ∧ PacketBuffer.as_slice b = header_bytes h ++ p.
Proof.
  intros Hb. destruct (decide (length (header_bytes h) + length p ≤ MTU)) as [Hle|Hgt].
  - destruct (build_packet_ok h p Hle) as (b' & Hb' & _ & Hs). rewrite Hb in Hb'. injection Hb' as <-. done.
  - rewrite build_packet_err in Hb by lia. done.
Qed.

(** The parser on the bytes of a type-1 and of a type-2 packet. *)
Lemma parse_view_type1 b0 hp dest c p :
  header_type (unpack b0) = Header1 → length dest = TRANSPORT_ID_LENGTH →
  HEADER_MINSIZE + length p ≤ MTU →
  parse_view (b0 :: hp :: dest ++ c :: p) =
    Ok {| pv_header := {| flags := unpack b0; hops := hp; transport_id := None;
                          destination_hash := dest; context := from_byte c |};
          pv_payload := p; pv_raw := b0 :: hp :: dest ++ c :: p;
          payload_offset := HEADER_MINSIZE |}.
Proof.
  intros Hf Hd Hlen. sizes. set (raw := b0 :: hp :: dest ++ c :: p).
  assert (Hraw : length raw = 19 + length p).
  { unfold raw. simpl. rewrite length_app. simpl. lia. }
  assert (Hs : slice raw 2 18 = dest) by (apply (slice_app_exact [b0; hp]); simpl; lia).
  assert (Hc : raw !! 18 = Some c) by (apply (list_lookup_middle (b0 :: hp :: dest)); simpl; lia).
  assert (Hp : slice raw 19 (length raw) = p).
  { rewrite slice_to_end. unfold raw. change (c :: p) with ([c] ++ p).
    rewrite (app_assoc dest). apply (drop_app_exact (b0 :: hp :: dest ++ [c])).
    simpl. rewrite length_app. simpl. lia. }
  unfold parse_view, parse_header. sizes. do 2 (case_if; [lia|]).
  change (index raw 0) with (@Ok WireError _ b0). change (index raw 1) with (@Ok WireError _ hp).
  cbn [obind]. rewrite Hf, slice_get_Ok, Hs by lia. cbn [obind].
  rewrite to_array_Ok by done. cbn [obind]. rewrite (index_Ok raw 18 c) by done. cbn [obind].
  by rewrite slice_get_Ok, Hp by lia.
Qed.

Lemma parse_view_type2 b0 hp tid dest c p :
  header_type (unpack b0) = Header2 → length tid = TRANSPORT_ID_LENGTH →
  length dest = TRANSPORT_ID_LENGTH → HEADER_MAXSIZE + length p ≤ MTU →
  parse_view (b0 :: hp :: tid ++ dest ++ c :: p) =
    Ok {| pv_header := {| flags := unpack b0; hops := hp; transport_id := Some tid;
                          destination_hash := dest; context := from_byte c |};
          pv_payload := p; pv_raw := b0 :: hp :: tid ++ dest ++ c :: p;
          payload_offset := HEADER_MAXSIZE |}.
Proof.
  intros Hf Ht Hd Hlen. sizes. set (raw := b0 :: hp :: tid ++ dest ++ c :: p).
  assert (Hraw : length raw = 35 + length p).
  { unfold raw. simpl. rewrite !length_app. simpl. lia. }
  assert (Hs : slice raw 2 18 = tid) by (apply (slice_app_exact [b0; hp]); simpl; lia).
  assert (Hr2 : raw = (b0 :: hp :: tid) ++ dest ++ c :: p) by done.
  assert (Hs2 : slice raw 18 34 = dest) by (rewrite Hr2; apply slice_app_exact; simpl; lia).
  assert (Hc : raw !! 34 = Some c).
  { rewrite Hr2, app_assoc. apply list_lookup_middle. rewrite length_app. simpl. lia. }
  assert (Hp : slice raw 35 (length raw) = p).
  { rewrite slice_to_end, Hr2. change (c :: p) with ([c] ++ p).
    rewrite (app_assoc dest), app_assoc. apply drop_app_exact.
    rewrite !length_app. simpl. lia. }
  unfold parse_view, parse_header. sizes. do 2 (case_if; [lia|]).
  change (index raw 0) with (@Ok WireError _ b0). change (index raw 1) with (@Ok WireError _ hp).
  cbn [obind]. rewrite Hf. case_if; [lia|].
  rewrite !slice_get_Ok, Hs, Hs2 by lia. cbn [obind].
  rewrite !to_array_Ok by done. cbn [obind]. rewrite (index_Ok raw 34 c) by done. cbn [obind].
  by rewrite slice_get_Ok, Hp by lia.
Qed.

(** The parser reads back the format. *)
Lemma parse_view_header_bytes h p :
  wf_header h → header_size h + length p ≤ MTU →
  parse_view (header_bytes h ++ p) =
    Ok {| pv_header := h; pv_payload := p; pv_raw := header_bytes h ++ p;
          payload_offset := header_size h |}.
Proof.
  intros (Hd & Hc & Ht) Hlen. destruct h as [fl hp tid dest ctx].
  unfold header_bytes, header_size in *. simpl in *.
  destruct tid as [tid|]; simpl in *.
  - destruct Ht as [Hf Ht]. rewrite Hf in *. rewrite <- !app_assoc. simpl.
    rewrite parse_view_type2; rewrite ?unpack_pack_lemma, ?Hc; done.
  - rewrite Ht in *. rewrite <- !app_assoc. simpl.
    rewrite parse_view_type1; rewrite ?unpack_pack_lemma, ?Hc; done.
Qed.

(** What a successful parse says about the bytes. *)
Lemma parse_view_shape raw v :
  parse_view raw = Ok v →
  ∃ b0 c, flags (pv_header v) = unpack b0 ∧ context (pv_header v) = from_byte c ∧
    raw = b0 :: hops (pv_header v) :: default [] (transport_id (pv_header v))
            ++ destination_hash (pv_header v) ++ c :: pv_payload v ∧
    length (destination_hash (pv_header v)) = TRANSPORT_ID_LENGTH ∧
    match transport_id (pv_header v) with
    | Some tid => header_type (unpack b0) = Header2 ∧ length tid = TRANSPORT_ID_LENGTH
    | None => header_type (unpack b0) = Header1
    end ∧
    payload_offset v = header_size (pv_header v) ∧ pv_raw v = raw ∧ length raw ≤ MTU.
Proof.
  unfold parse_view, parse_header. intros H. case_if; [done|]. case_if; [done|].
  destruct (index_lt (E := WireError) raw 0) as (b0 & H0 & Hi0); [sizes; lia|].
  destruct (index_lt (E := WireError) raw 1) as (hp & H1 & Hi1); [sizes; lia|].
  rewrite Hi0, Hi1 in H. cbn [obind] in H.
  assert (Hr : raw = b0 :: hp :: drop 2 raw).
  { by rewrite <- (drop_S raw hp 1), <- (drop_S raw b0 0) by done. }
  remember (unpack b0) as fl eqn:Hfl.
  destruct (header_type fl) eqn:Hf; [|case_if; [done|]]; sizes.
  - rewrite (slice_get_Ok raw 2 18) in H by lia. cbn [obind] in H.
    rewrite to_array_Ok in H by (rewrite length_slice; lia). cbn [obind] in H.
    destruct (index_lt (E := WireError) raw 18) as (c & Hc & Hi); [lia|]. rewrite Hi in H.
    cbn [obind] in H. rewrite slice_get_Ok in H by lia. injection H as <-.
    exists b0, c. rewrite <- Hfl. simpl. rewrite slice_to_end, length_slice by lia.
    unfold header_size. simpl. rewrite Hf. repeat split; try (done || lia).
    rewrite Hr at 1. do 2 f_equal.
    by rewrite <- (drop_S raw c 18), slice_drop_app by (done || lia).
  - rewrite (slice_get_Ok raw 2 18), (slice_get_Ok raw 18 34) in H by lia. cbn [obind] in H.
    rewrite !to_array_Ok in H by (rewrite length_slice; lia). cbn [obind] in H.
    destruct (index_lt (E := WireError) raw 34) as (c & Hc & Hi); [lia|]. rewrite Hi in H.
    cbn [obind] in H. rewrite slice_get_Ok in H by lia. injection H as <-.
    exists b0, c. rewrite <- Hfl. simpl. rewrite slice_to_end, !length_slice by lia.
    unfold header_size. simpl. rewrite Hf. repeat split; try (done || lia).
    rewrite Hr at 1. do 2 f_equal.
    by rewrite <- (drop_S raw c 34), !slice_drop_app by (done || lia).
Qed.

Lemma parse_view_no_panic raw : no_panic (parse_view raw).
Proof.
  unfold parse_view. apply obind_no_panic.
  - unfold parse_header. case_if; [done|]. case_if; [done|].
    destruct (index_lt (E := WireError) raw 0) as (b0 & _ & ->); [sizes; lia|].
    destruct (index_lt (E := WireError) raw 1) as (hp & _ & ->); [sizes; lia|].
    destruct (index_lt (E := WireError) raw 18) as (c & _ & Hc); [sizes; lia|].
    cbn [obind]. destruct (header_type (unpack b0)); [|case_if; [done|]]; sizes.
    + rewrite slice_get_Ok by lia. cbn [obind].
      by rewrite to_array_Ok, Hc by (rewrite length_slice; lia).
    + destruct (index_lt (E := WireError) raw 34) as (c' & _ & Hc'); [lia|].
      rewrite !slice_get_Ok by lia. cbn [obind].
      by rewrite !to_array_Ok, Hc' by (rewrite length_slice; lia).
  - intros [h off] H. unfold parse_header in H. do 2 (case_if; [done|]).
    destruct (index raw 0) as [b0| |] eqn:?; [|done..].
    destruct (index raw 1) as [hp| |] eqn:?; [|done..]. cbn [obind] in H.
    assert (off ≤ length raw) as Hoff.
    { destruct (header_type (unpack b0)); [|case_if; [done|]]; obind_inv; simplify_eq; sizes; lia. }
    by rewrite slice_get_Ok by lia.
Qed.

(** The size of a header of each type. *)
Definition type_size (ht : HeaderType) : nat :=
  match ht with Header1 => HEADER_MINSIZE | Header2 => HEADER_MAXSIZE end.

Lemma parse_view_accepts raw b0 :
  raw !! 0 = Some b0 → type_size (header_type (unpack b0)) ≤ length raw → length raw ≤ MTU →
  ∃ v, parse_view raw = Ok v.
Proof.
  intros H0 Hmin Hmax. pose proof (parse_view_no_panic raw) as Hnp.
  destruct (parse_view raw) as [v|e|] eqn:Hp; [by exists v| |done]. exfalso.
  assert (HEADER_MINSIZE ≤ type_size (header_type (unpack b0))).
  { unfold type_size. destruct (header_type (unpack b0)); sizes; lia. }
  unfold parse_view, parse_header in Hp. do 2 (case_if; [lia|]).
  destruct (index_lt (E := WireError) raw 1) as (hp & _ & Hi1); [sizes; lia|].
  rewrite (index_Ok raw 0 b0 H0), Hi1 in Hp. cbn [obind] in Hp. unfold type_size in *.
  destruct (header_type (unpack b0)); [|case_if; [lia|]];
    unfold slice_get, to_array, index, or_panic in Hp;
    repeat (case_if || case_match || cbn [obind] in Hp); done.
Qed.

(** The bytes of a parsed packet, in terms of the parsed header. *)
Lemma parse_view_bytes raw v :
  bytes raw → parse_view raw = Ok v →
  wf_header (pv_header v) ∧
  ∃ b0, raw !! 0 = Some b0 ∧ is_byte b0 ∧ flags (pv_header v) = unpack b0 ∧
        <[0 := pack (unpack b0)]> raw = header_bytes (pv_header v) ++ pv_payload v ∧
        header_size (pv_header v) + length (pv_payload v) = length raw ∧ length raw ≤ MTU.
Proof.
  intros Hb Hp. destruct (parse_view_shape raw v Hp)
    as (b0 & c & Hfl & Hctx & Hraw & Hd & Ht & _ & _ & Hmtu).
  assert (Hb0 : is_byte b0) by (eapply (bytes_lookup raw 0); [done|by rewrite Hraw]).
  assert (Hc : is_byte c).
  { clear -Hb Hraw. rewrite Hraw in Hb. unfold bytes in Hb.
    rewrite !Forall_cons, !Forall_app, Forall_cons in Hb. tauto. }
  assert (Hwf : wf_header (pv_header v)).
  { split; [done|]. rewrite Hctx, Hfl, to_from_byte_lemma by done. split; [done|].
    by destruct (transport_id (pv_header v)). }
  split; [done|]. exists b0.
  assert (Heq : <[0 := pack (unpack b0)]> raw = header_bytes (pv_header v) ++ pv_payload v).
  { rewrite Hraw at 1. unfold header_bytes.
    rewrite Hfl, Hctx, to_from_byte_lemma by done. simpl. by rewrite <- !app_assoc. }
  split; [by rewrite Hraw|]. do 3 (split; [done|]). split; [|done].
  apply (f_equal length) in Heq.
  rewrite length_insert, length_app, length_header_bytes in Heq by done. lia.
Qed.

(** Rewriting a parsed packet under a new header keeps the payload. *)
Lemma rewrite_with_header_inv raw v h' b :
  parse_view raw = Ok v → rewrite_with_header raw (pv_header v) h' = Ok b →
  PacketBuffer.as_slice b = header_bytes h' ++ pv_payload v.
Proof.
  intros Hp Hr. destruct (parse_view_shape raw v Hp)
    as (b0 & c & Hfl & _ & Hraw & Hd & Ht & _ & _ & _).
  unfold rewrite_with_header in Hr. case_if; [done|]. obind_inv.
  apply build_packet_inv in Hr as [_ ->]. f_equal.
  rewrite slice_get_Ok, slice_to_end in Hx by lia. injection Hx as <-.
  rewrite Hraw. unfold header_size. rewrite Hfl.
  change (c :: pv_payload v) with ([c] ++ pv_payload v).
  destruct (transport_id (pv_header v)) as [tid|]; simpl default.
  - destruct Ht as [-> Ht]. rewrite !app_assoc.
    apply (drop_app_exact (b0 :: hops (pv_header v) :: (tid ++ _) ++ [c])).
    simpl. rewrite !length_app. simpl. sizes. lia.
  - rewrite Ht, !app_assoc.
    apply (drop_app_exact (b0 :: hops (pv_header v) :: ([] ++ _) ++ [c])).
    simpl. rewrite !length_app. simpl. sizes. lia.
Qed.

Section hash_lemmas.
Context {SHA : Sha256}.

(** Both hashes read only the low nibble of the flags, the destination hash, the
    context and the payload. *)
Lemma packet_hash_format h p :
  wf_header h →
  packet_hash (header_bytes h ++ p) (header_type (flags h)) =
  sha256_digest (Z.land (pack (flags h)) 15 ::
                   destination_hash h ++ [to_byte (context h)] ++ p).
Proof.
  intros (Hd & _ & Ht). unfold packet_hash, header_bytes. simpl. f_equal. f_equal.
  destruct (transport_id h) as [tid|]; simpl.
  - destruct Ht as [-> Ht]. case_if; [|rewrite !length_app in *; simpl in *; sizes; lia].
    rewrite <- !app_assoc. simpl. apply drop_app_exact. done.
  - rewrite Ht. case_if; [|rewrite !length_app in *; simpl in *; sizes; lia].
    simpl. by rewrite <- !app_assoc.
Qed.

Lemma link_id_format h p :
  wf_header h →
  link_id_from_raw (header_bytes h ++ p) (header_type (flags h)) =
  take TRANSPORT_ID_LENGTH (sha256_digest (Z.land (pack (flags h)) 15 ::
     (destination_hash h ++ [to_byte (context h)]) ++ take LINK_REQUEST_KEY_BYTES p)).
Proof.
  intros Hwf. pose proof (length_header_bytes h Hwf) as Hlen.
  assert (Hhs : header_size h ≤ length (header_bytes h ++ p)) by (rewrite length_app; lia).
  destruct Hwf as (Hd & _ & Ht).
  unfold link_id_from_raw. unfold header_bytes at 1. cbn [app]. f_equal. f_equal. f_equal.
  assert (Hdrop : drop (header_size h) (header_bytes h ++ p) = p)
    by (by apply drop_app_exact).
  assert (Hslice : slice (header_bytes h ++ p)
      (2 + length (default [] (transport_id h))) (header_size h)
      = destination_hash h ++ [to_byte (context h)]).
  { rewrite <- Hlen. unfold header_bytes. cbn [app]. rewrite <- (app_assoc (default _ _)).
    apply (slice_app_exact (_ :: _ :: default [] (transport_id h))); simpl; [done|].
    rewrite !length_app. simpl. lia. }
  unfold header_size in *. destruct (transport_id h) as [tid|]; simpl default in *.
  - destruct Ht as [Hf Ht]. rewrite Hf, Ht in *.
    case_if; [|sizes; lia]. by rewrite Nat.min_l, Hslice, Hdrop by lia.
  - change (2 + length []) with 2 in Hslice. rewrite Ht in *. case_if; [|sizes; lia].
    by rewrite Nat.min_l, Hslice, Hdrop by lia.
Qed.

End hash_lemmas.

(** * Properties *)

(** Flags and contexts survive a trip over the wire. Unpacking a packed
    flag byte gives the flags back; packing an unpacked byte gives the byte
    without its top (IFAC) bit; every byte is the code of its context. *)
Lemma flags_context_roundtrip :
  (∀ f, unpack (pack f) = f) ∧
  (∀ b, is_byte b → pack (unpack b) = Z.land b 127) ∧
  (∀ b, is_byte b → to_byte (from_byte b) = b).
Proof.
  split; [apply unpack_pack_lemma|split; [apply pack_unpack_lemma|apply to_from_byte_lemma]].
Qed.

(** C17: a well-formed header and a payload that fit the MTU build into a packet
    that parses back to exactly that header and payload; a pair that does not
    fit is refused and nothing is built. *)
Theorem build_parse_roundtrip h p :
  wf_header h →
  (header_size h + length p ≤ MTU →
     ∃ b, build_packet h p = Ok b ∧
          parse_view (PacketBuffer.as_slice b) =
            Ok {| pv_header := h; pv_payload := p; pv_raw := PacketBuffer.as_slice b;
                  payload_offset := header_size h |}) ∧
  (MTU < header_size h + length p →
     build_packet h p = Err (WireBufferError InsufficientCapacity)).
Proof.
  intros Hwf. pose proof (length_header_bytes h Hwf) as Hl. split; intros Hlen.
  - destruct (build_packet_ok h p) as (b & Hb & _ & Hs); [lia|].
    exists b. split; [done|]. rewrite Hs. by apply parse_view_header_bytes.
  - apply build_packet_err. lia.
Qed.


(** C7: what a relay does to a packet in flight (hop count, header type,
    transport identifier, transport and context bits) changes neither its
    packet hash nor the identifier of the link it requests, so duplicate
    suppression and link routing agree on every hop. *)
Theorem relay_preserves_hashes {SHA : Sha256} raw v h' b :
  bytes raw → parse_view raw = Ok v → wf_header h' → same_origin (pv_header v) h' →
  rewrite_with_header raw (pv_header v) h' = Ok b →
  packet_hash (PacketBuffer.as_slice b) (header_type (flags h'))
    = packet_hash raw (header_type (flags (pv_header v))) ∧
  link_id_from_raw (PacketBuffer.as_slice b) (header_type (flags h'))
    = link_id_from_raw raw (header_type (flags (pv_header v))).
Proof.
  intros Hb Hv Hwf' (Hdt & Hpt & Hdest & Hctx) Hr.
  rewrite (rewrite_with_header_inv raw v h' b Hv Hr).
  destruct (parse_view_bytes raw v Hb Hv) as (Hwf & b0 & H0 & Hb0 & Hfl & Heq & _ & _).
  assert (Hnib : Z.land (pack (flags h')) 15 = Z.land (pack (flags (pv_header v))) 15).
  { by rewrite !pack_low_nibble, Hdt, Hpt. }
  assert (Hlow : ∀ ht, packet_hash raw ht = packet_hash (<[0 := pack (unpack b0)]> raw) ht ∧
    link_id_from_raw raw ht = link_id_from_raw (<[0 := pack (unpack b0)]> raw) ht).
  { intros ht. destruct raw as [|b0' rest]; [done|]. simpl in H0. simplify_eq.
    unfold packet_hash, link_id_from_raw. simpl. rewrite unpack_low_nibble by done.
    by destruct ht. }
  destruct (Hlow (header_type (flags (pv_header v)))) as [-> ->].
  rewrite Heq, !packet_hash_format, !link_id_format by done.
  by rewrite Hnib, Hdest, Hctx.
Qed.

(** ** Witnesses *)

Module WireExample.
(** A type-1 data packet and the same packet one hop later, in transport. *)
Definition h1 : PacketHeader :=
  {| flags := {| header_type := Header1; context_flag := false; transport_type := Broadcast;
                 destination_type := Single; packet_type := Data |};
     hops := 0; transport_id := None; destination_hash := replicate 16 170%Z; context := CtxNone |}.
Definition h2 : PacketHeader :=
  {| flags := {| header_type := Header2; context_flag := false; transport_type := Transport;
                 destination_type := Single; packet_type := Data |};
     hops := 1; transport_id := Some (replicate 16 7%Z);
     destination_hash := replicate 16 170%Z; context := CtxNone |}.
Definition raw : list Z := header_bytes h1 ++ [1; 2; 3]%Z.
Definition view : PacketView :=
  {| pv_header := h1; pv_payload := [1; 2; 3]%Z; pv_raw := raw; payload_offset := 19 |}.
Definition raw2 : PacketBuffer :=
  {| pb_bytes := header_bytes h2 ++ [1; 2; 3]%Z ++ zeros (MTU - 38); pb_len := 38 |}.
End WireExample.

Lemma build_parse_roundtrip_witness :
  ∃ b, build_packet WireExample.h1 [1; 2; 3]%Z = Ok b ∧ length (PacketBuffer.as_slice b) = 22.
Proof.
  destruct (build_parse_roundtrip WireExample.h1 [1; 2; 3]%Z) as [Hok _].
  - repeat split; vm_compute; reflexivity.
  - destruct Hok as (b & Hb & Hp); [vm_compute; lia|]. exists b. split; [done|].
    vm_compute in Hb. injection Hb as <-. reflexivity.
Defined.


Lemma relay_preserves_hashes_witness :
  packet_hash (SHA := Toy.sha256) (PacketBuffer.as_slice WireExample.raw2) Header2
    = packet_hash (SHA := Toy.sha256) WireExample.raw Header1.
Proof.
  apply (relay_preserves_hashes (SHA := Toy.sha256) WireExample.raw WireExample.view
           WireExample.h2 WireExample.raw2).
  - repeat constructor; vm_compute; congruence.
  - vm_compute. reflexivity.
  - repeat split; vm_compute; reflexivity.
  - repeat split.
  - vm_compute. reflexivity.
Defined.

Lemma flags_context_roundtrip_witness :
  pack (unpack 209) = 81%Z ∧ to_byte (from_byte 77) = 77%Z.
Proof.
  destruct flags_context_roundtrip as (_ & H & H'). split.
  - rewrite H by (vm_compute; split; congruence). reflexivity.
  - apply H'. vm_compute. split; congruence.
Defined.
