(* ===== verification/Slots.v ===== *)
(** Fixed arrays of optional entries, as every bounded table of
    src/src/tables.rs stores them, with the searches and the eviction scans the
    tables share.

    An array is a list of [option T]; its length is the const generic [N].
    The second half of the file states what the scans compute (the first
    matching slot, the first minimal entry) and when keys stay unique. *)

From S2P Require Import Prelude.

(** [Iterator::position]. *)
Fixpoint position {A} (p : A → bool) (l : list A) : option nat :=
  match l with
  | [] => None
  | x :: l' => if p x then Some 0 else S <$> position p l'
  end.

Definition is_none {A} (o : option A) : bool :=
  match o with None => true | Some _ => false end.

(** [Option::is_some_and] and [Option::or_else]. *)
Definition slot_is {A} (p : A → bool) (o : option A) : bool :=
  match o with Some e => p e | None => false end.
Definition or_else {A} (o : option A) (f : option A) : option A :=
  match o with Some a => Some a | None => f end.

(** [entries.iter().flatten()]. *)
Fixpoint flatten {A} (l : list (option A)) : list A :=
  match l with
  | [] => []
  | Some e :: l' => e :: flatten l'
  | None :: l' => flatten l'
  end.

(** [for slot in &mut entries { if slot.is_some_and(dead) { *slot = None } }]. *)
Definition purge {A} (dead : A → bool) (l : list (option A)) : list (option A) :=
  map (λ s, if slot_is dead s then None else s) l.

(** [entries.iter_mut().flatten().find(p)] followed by a write through the
    reference it returns. *)
Fixpoint update_first {A} (p : A → bool) (f : A → A) (l : list (option A)) : list (option A) :=
  match l with
  | [] => []
  | Some e :: l' => if p e then Some (f e) :: l' else Some e :: update_first p f l'
  | None :: l' => None :: update_first p f l'
  end.

Section best.
Context {T : Type} (sel : T → bool) (better : T → T → bool).

(** The scans over [entries.iter().enumerate()] that keep the best selected
    entry so far and replace it only by a strictly better one. *)
Definition best_step (idx : nat) (acc : option (nat * T)) (s : option T) : option (nat * T) :=
  match s with
  | Some e =>
      if sel e && match acc with Some (_, b) => better e b | None => true end
      then Some (idx, e) else acc
  | None => acc
  end.

Fixpoint best_loop (idx : nat) (acc : option (nat * T)) (l : list (option T))
  : option (nat * T) :=
  match l with
  | [] => acc
  | s :: l' => best_loop (S idx) (best_step idx acc s) l'
  end.

Definition best (l : list (option T)) : option (nat * T) := best_loop 0 None l.
End best.

(** [oldest_index]: the first slot with the least age value. *)
Definition oldest_index {T} (age : T → Z) (l : list (option T)) : option nat :=
  fst <$> best (λ _, true) (λ e old, age e <? age old)%Z l.

(** [class_victim]: the oldest bulk entry; failing that, and only for a newcomer
    that is not bulk, the oldest entry. *)
Definition class_victim {T} (newcomer_bulk : bool) (bulk : T → bool) (age : T → Z)
    (l : list (option T)) : option nat :=
  or_else (fst <$> best bulk (λ e old, age e <? age old)%Z l)
          (if negb newcomer_bulk then oldest_index age l else None).

(** * Searches *)

Section searches.
Context {A : Type}.

Lemma position_Some (p : A → bool) l i :
  position p l = Some i →
  ∃ x, l !! i = Some x ∧ p x = true ∧ ∀ j y, j < i → l !! j = Some y → p y = false.
Proof.
  revert i. induction l as [|x l IH]; intros i; simpl; [done|].
  destruct (p x) eqn:Hp.
  - intros [= <-]. exists x. repeat split; [done..|]. intros; lia.
  - intros (i' & Hi & ->)%fmap_Some. destruct (IH i' Hi) as (y & Hy & Hpy & Hmin).
    exists y. repeat split; [done..|]. intros [|j] z Hj Hz; simpl in Hz; [congruence|].
    apply (Hmin j); [lia|done].
Qed.

Lemma position_None (p : A → bool) l :
  position p l = None ↔ ∀ i x, l !! i = Some x → p x = false.
Proof.
  induction l as [|x l IH]; simpl; [done|]. destruct (p x) eqn:Hp.
  - split; [done|]. intros H. specialize (H 0 x eq_refl). congruence.
  - rewrite fmap_None, IH. split.
    + intros H [|i] y; simpl; [congruence|]. apply H.
    + intros H i y Hy. by apply (H (S i) y).
Qed.

Lemma position_lt (p : A → bool) l i : position p l = Some i → i < length l.
Proof. intros (x & Hx & _)%position_Some. by eapply lookup_lt_Some. Qed.

End searches.

Section slot_searches.
Context {A : Type}.
Implicit Types l : list (option A).

Lemma length_purge (d : A → bool) l : length (purge d l) = length l.
Proof. apply length_map. Qed.

Lemma lookup_purge (d : A → bool) l i :
  purge d l !! i = (λ s, if slot_is d s then None else s) <$> l !! i.
Proof. unfold purge. by rewrite list_lookup_fmap. Qed.

Lemma lookup_purge_Some (d : A → bool) l i e :
  purge d l !! i = Some (Some e) ↔ l !! i = Some (Some e) ∧ d e = false.
Proof.
  rewrite lookup_purge. destruct (l !! i) as [[e'|]|]; simpl; [|by split; [|intros []]..].
  destruct (d e') eqn:?; split; [done|intros [[= <-] ?]; congruence| |by intros [[= <-] ?]].
  by intros [= <-].
Qed.

Lemma lookup_purge_dead (d : A → bool) l i e :
  l !! i = Some (Some e) → d e = true → purge d l !! i = Some None.
Proof. intros Hi Hd. by rewrite lookup_purge, Hi; simpl; rewrite Hd. Qed.

Lemma purge_idem (d : A → bool) l : purge d (purge d l) = purge d l.
Proof.
  induction l as [|[e|] l IH]; simpl; [done| |by f_equal].
  destruct (d e) eqn:Hd; simpl; [|rewrite Hd]; by f_equal.
Qed.

Lemma elem_of_flatten l e : e ∈ flatten l ↔ ∃ i, l !! i = Some (Some e).
Proof.
  induction l as [|[e'|] l IH]; simpl.
  - rewrite elem_of_nil. split; [done|]. by intros [? ?].
  - rewrite elem_of_cons, IH. split.
    + intros [->|[i Hi]]; [by exists 0|by exists (S i)].
    + intros [[|i] Hi]; simpl in Hi; [left; congruence|right; by exists i].
  - rewrite IH. split; [intros [i Hi]; by exists (S i)|].
    intros [[|i] Hi]; [done|by exists i].
Qed.

Lemma find_flatten_Some (p : A → bool) l e :
  find p (flatten l) = Some e → ∃ i, l !! i = Some (Some e) ∧ p e = true.
Proof.
  intros [Hin Hp]%find_some. apply list_elem_of_In, elem_of_flatten in Hin as [i Hi].
  by exists i.
Qed.

Lemma find_flatten_None (p : A → bool) l :
  find p (flatten l) = None ↔ ∀ i e, l !! i = Some (Some e) → p e = false.
Proof.
  split.
  - intros H i e Hi. apply (find_none p (flatten l)); [done|].
    apply list_elem_of_In, elem_of_flatten. eauto.
  - intros H. destruct (find p (flatten l)) as [e|] eqn:Hf; [|done].
    apply find_flatten_Some in Hf as (i & Hi & Hp). rewrite (H i e Hi) in Hp. done.
Qed.

Lemma existsb_flatten (p : A → bool) l :
  existsb p (flatten l) = true ↔ ∃ i e, l !! i = Some (Some e) ∧ p e = true.
Proof.
  rewrite existsb_exists. split.
  - intros (e & Hin & Hp). apply list_elem_of_In, elem_of_flatten in Hin as [i Hi]. eauto.
  - intros (i & e & Hi & Hp). exists e. split; [|done].
    apply list_elem_of_In, elem_of_flatten. eauto.
Qed.

(** A slot that matches as an [Option] holds an entry that matches. *)
Lemma position_slot_Some (p : A → bool) l i :
  position (slot_is p) l = Some i →
  ∃ e, l !! i = Some (Some e) ∧ p e = true ∧
       ∀ j e', j < i → l !! j = Some (Some e') → p e' = false.
Proof.
  intros ([e|] & Hi & Hp & Hmin)%position_Some; [|done].
  exists e. repeat split; [done..|]. intros j e' Hj He'. by apply (Hmin j (Some e')).
Qed.

Lemma position_slot_None (p : A → bool) l :
  position (slot_is p) l = None ↔ ∀ i e, l !! i = Some (Some e) → p e = false.
Proof.
  rewrite position_None. split.
  - intros H i e Hi. apply (H i (Some e) Hi).
  - intros H i [e|] Hi; [by apply (H i)|done].
Qed.

Lemma first_free_Some l i :
  position is_none l = Some i → l !! i = Some None.
Proof. intros ([e|] & Hi & Hp & _)%position_Some; done. Qed.

Lemma first_free_None l :
  position is_none l = None → ∀ i, i < length l → ∃ e, l !! i = Some (Some e).
Proof.
  rewrite position_None. intros H i [[e|] Hs]%lookup_lt_is_Some; [by exists e|].
  by specialize (H i None Hs).
Qed.

Lemma length_update_first (p : A → bool) f l : length (update_first p f l) = length l.
Proof. induction l as [|[e|] l IH]; simpl; [done| |by f_equal]. destruct (p e); simpl; by f_equal. Qed.

(** Only the first matching entry changes. *)
Lemma lookup_update_first (p : A → bool) f l i :
  update_first p f l !! i =
  match l !! i with
  | Some (Some e) => if bool_decide (position (slot_is p) l = Some i) then Some (Some (f e)) else Some (Some e)
  | s => s
  end.
Proof.
  revert i. induction l as [|s l IH]; intros i; [by destruct i|].
  assert (Hrec : ∀ i, update_first p f l !! i =
    match l !! i with
    | Some (Some e) =>
        if bool_decide (S <$> position (slot_is p) l = Some (S i))
        then Some (Some (f e)) else Some (Some e)
    | s => s end).
  { intros j. rewrite IH. destruct (l !! j) as [[e|]|]; try done.
    assert (bool_decide (position (slot_is p) l = Some j)
            = bool_decide (S <$> position (slot_is p) l = Some (S j))) as ->; [|done].
    apply bool_decide_ext. destruct (position (slot_is p) l); simpl; naive_solver. }
  destruct s as [e|]; simpl.
  - destruct (p e) eqn:Hp; simpl.
    + destruct i as [|i]; simpl; [done|].
      by destruct (l !! i) as [[e'|]|]; try rewrite bool_decide_eq_false_2 by naive_solver.
    + destruct i as [|i]; simpl; [|apply Hrec].
      rewrite bool_decide_eq_false_2; [done|]. by destruct (position (slot_is p) l).
  - destruct i as [|i]; simpl; [done|apply Hrec].
Qed.

End slot_searches.

(** * What the eviction scans compute *)

Section best_spec.
Context {T : Type} (sel : T → bool) (better : T → T → bool).

Lemma best_loop_None l idx acc :
  best_loop sel better idx acc l = None ↔
  acc = None ∧ ∀ j e, l !! j = Some (Some e) → sel e = false.
Proof.
  revert idx acc. induction l as [|s l IH]; intros idx acc; simpl; [by split; [|intros []]|].
  rewrite IH. unfold best_step. split.
  - intros [Hs Hl]. assert (acc = None) as ->.
    { destruct s as [e|]; [|done]. by case_match; [|destruct acc as [[]|]]. }
    split; [done|]. intros [|j] e He; simpl in *; [|by apply (Hl j)].
    injection He as ->. by destruct (sel e).
  - intros [-> Hl]. split; [|intros j e; apply (Hl (S j) e)].
    destruct s as [e|]; [|done]. by rewrite (Hl 0 e).
Qed.

(** The result comes from the accumulator or from a selected slot. *)
Lemma best_loop_In l idx acc i b :
  best_loop sel better idx acc l = Some (i, b) →
  acc = Some (i, b) ∨ (idx ≤ i ∧ l !! (i - idx) = Some (Some b) ∧ sel b = true).
Proof.
  revert idx acc. induction l as [|s l IH]; intros idx acc; simpl; [by left|].
  intros [H|(Hle & Hl & Hs)]%IH.
  - unfold best_step in H. destruct s as [e|]; [|by left].
    destruct (sel e) eqn:Hs; simpl in H; [|by left].
    case_match; [|by left]. injection H as <- <-. right.
    by rewrite Nat.sub_diag.
  - right. split; [lia|]. replace (i - idx) with (S (i - S idx)) by lia. done.
Qed.

(** The two facts about the comparison that the scans rely on: it is a strict
    weak order. *)
Context (better_asym : ∀ x y, better x y = true → better y x = false).
Context (better_ntrans : ∀ x y z, better x y = false → better y z = false → better x z = false).

Lemma better_trans x y z : better x y = true → better y z = true → better x z = true.
Proof.
  intros Hxy Hyz. destruct (better x z) eqn:Hxz; [done|].
  by rewrite (better_ntrans x z y Hxz (better_asym _ _ Hyz)) in Hxy.
Qed.

Lemma best_loop_min l idx acc i b :
  best_loop sel better idx acc l = Some (i, b) →
  (∀ ia ba, acc = Some (ia, ba) → better ba b = false) ∧
  (∀ j e, l !! j = Some (Some e) → sel e = true → better e b = false).
Proof.
  revert idx acc. induction l as [|s l IH]; intros idx acc; simpl.
  - intros ->. split; [|done]. intros ia ba [= -> ->].
    destruct (better ba ba) eqn:H; [|done]. by rewrite (better_asym _ _ H) in H.
  - intros [Hacc Hl]%IH. unfold best_step in Hacc. destruct s as [e|].
    + destruct (sel e) eqn:Hs; simpl in Hacc.
      * destruct acc as [[ia ba]|]; [destruct (better e ba) eqn:Hb|];
          split; try (by intros ? ? [= -> ->]; eauto);
          try (intros [|j] e' Hj Hs'; simpl in Hj; [injection Hj as <-|]; by eauto).
      * split; [done|]. intros [|j] e' Hj Hs'; simpl in Hj; [congruence|by eauto].
    + split; [done|]. intros [|j] e' Hj Hs'; [done|by eauto].
Qed.

(** Ties keep the earlier slot. *)
Lemma best_loop_first l idx acc i b :
  best_loop sel better idx acc l = Some (i, b) →
  acc = Some (i, b) ∨
  ((∀ ia ba, acc = Some (ia, ba) → better b ba = true) ∧
   (∀ j e, idx + j < i → l !! j = Some (Some e) → sel e = true → better b e = true)).
Proof.
  revert idx acc. induction l as [|s l IH]; intros idx acc; simpl; [by left|].
  intros [H|[Hacc Hl]]%IH.
  - unfold best_step in H. destruct s as [e|]; [|by left].
    destruct (sel e) eqn:Hs; simpl in H; [|by left]. case_match; [|by left].
    injection H as <- <-. right. split.
    + intros ia ba ->. done.
    + intros j e' Hj. lia.
  - unfold best_step in Hacc. destruct s as [e|].
    + destruct (sel e) eqn:Hs; simpl in Hacc.
      * destruct acc as [[ia ba]|].
        -- destruct (better e ba) eqn:Hb; right.
           ++ split; [intros ? ? [= -> ->]; by eauto using better_trans|].
              intros [|j] e' Hj He Hs'; simpl in He; [injection He as <-; by eauto|].
              by apply (Hl j); [lia|..].
           ++ split; [by eauto|].
              intros [|j] e' Hj He Hs'; simpl in He; [injection He as <-|by apply (Hl j); [lia|..]].
              destruct (better b e) eqn:Hbe; [done|].
              specialize (Hacc ia ba eq_refl). by rewrite (better_ntrans b e ba Hbe Hb) in Hacc.
        -- right. split; [done|].
           intros [|j] e' Hj He Hs'; simpl in He; [injection He as <-; by eauto|].
           by apply (Hl j); [lia|..].
      * right. split; [done|].
        intros [|j] e' Hj He Hs'; simpl in He; [congruence|by apply (Hl j); [lia|..]].
    + right. split; [done|]. intros [|j] e' Hj He Hs'; [done|by apply (Hl j); [lia|..]].
Qed.

(** The scan from an empty accumulator finds the first of the best entries. *)
Lemma best_Some l i b :
  best sel better l = Some (i, b) →
  l !! i = Some (Some b) ∧ sel b = true ∧
  (∀ j e, l !! j = Some (Some e) → sel e = true → better e b = false) ∧
  (∀ j e, j < i → l !! j = Some (Some e) → sel e = true → better b e = true).
Proof.
  unfold best. intros H.
  destruct (best_loop_In _ _ _ _ _ H) as [|(_ & Hi & Hs)]; [done|]. rewrite Nat.sub_0_r in Hi.
  destruct (best_loop_min _ _ _ _ _ H) as [_ Hmin].
  destruct (best_loop_first _ _ _ _ _ H) as [|[_ Hfst]]; [done|]. by repeat split.
Qed.

Lemma best_None l :
  best sel better l = None ↔ ∀ j e, l !! j = Some (Some e) → sel e = false.
Proof. unfold best. rewrite best_loop_None. by split; [intros []|]. Qed.

End best_spec.

Lemma oldest_index_Some {T} (age : T → Z) l i :
  oldest_index age l = Some i →
  ∃ b, l !! i = Some (Some b) ∧ ∀ j e, l !! j = Some (Some e) → (age b ≤ age e)%Z.
Proof.
  intros ([i' b] & Hb & Heq)%fmap_Some. simpl in Heq. subst i'.
  apply best_Some in Hb as (Hi & _ & Hmin & _); [|lia..].
  exists b. split; [done|]. intros j e Hj. specialize (Hmin j e Hj eq_refl). lia.
Qed.

Lemma oldest_index_None {T} (age : T → Z) l :
  oldest_index age l = None → flatten l = [].
Proof.
  unfold oldest_index. rewrite fmap_None, best_None. intros H.
  apply elem_of_nil_inv. intros e [j Hj]%elem_of_flatten. by specialize (H j e Hj).
Qed.

Lemma class_victim_Some {T} nb (bulk : T → bool) (age : T → Z) l i :
  class_victim nb bulk age l = Some i →
  ∃ v, l !! i = Some (Some v) ∧
    ((bulk v = true ∧ ∀ j e, l !! j = Some (Some e) → bulk e = true → (age v ≤ age e)%Z) ∨
     (nb = false ∧ (∀ j e, l !! j = Some (Some e) → bulk e = false ∧ (age v ≤ age e)%Z))).
Proof.
  unfold class_victim, or_else. destruct (best bulk _ l) as [[i' v]|] eqn:Hb; simpl.
  - intros [= ->]. apply best_Some in Hb as (Hi & Hv & Hmin & _); [|lia..].
    exists v. split; [done|]. left. split; [done|]. intros j e Hj He.
    specialize (Hmin j e Hj He). lia.
  - rewrite best_None in Hb. destruct nb; simpl; [done|].
    intros (v & Hi & Hmin)%oldest_index_Some. exists v. split; [done|]. right.
    split; [done|]. eauto.
Qed.

(** * Tables with unique keys *)

(** What a table entry offers to the shared lemmas: its key and its expiry. *)
Class Entry (T K : Type) := {
  entry_key : T → K;
  entry_expires : T → Z
}.

Section keyed.
Context {T K : Type} `{EqDecision K} `{!Entry T K}.
Implicit Types l : list (option T).

Definition key_is (k : K) (e : T) : bool := entry_key e =k k.

(** No two occupied slots share a key. *)
Definition unique_keys l : Prop :=
  ∀ i j x y, l !! i = Some (Some x) → l !! j = Some (Some y) →
             entry_key x = entry_key y → i = j.

(** Entries past their deadline, dropped by every table's [expire]. *)
Definition expired (now : Z) (e : T) : bool := (entry_expires e <=? now)%Z.

Definition expire_slots (now : Z) l : list (option T) := purge (expired now) l.

(** Every entry is live at [now]. *)
Definition all_live (now : Z) l : Prop :=
  ∀ i e, l !! i = Some (Some e) → (now < entry_expires e)%Z.

Lemma key_is_true k e : key_is k e = true ↔ entry_key e = k.
Proof. unfold key_is. apply bool_decide_eq_true. Qed.

Lemma key_is_false k e : key_is k e = false ↔ entry_key e ≠ k.
Proof. unfold key_is. apply bool_decide_eq_false. Qed.

Lemma lookup_replicate_None_slot n i (e : T) : replicate n None !! i ≠ Some (Some e).
Proof. rewrite lookup_replicate. by intros []. Qed.

Lemma unique_keys_empty n : unique_keys (replicate n None).
Proof. intros i j x y Hx. by apply lookup_replicate_None_slot in Hx. Qed.

Lemma unique_keys_purge d l : unique_keys l → unique_keys (purge d l).
Proof. intros Hu i j x y [Hx _]%lookup_purge_Some [Hy _]%lookup_purge_Some. eauto. Qed.

Lemma unique_keys_delete i l : unique_keys l → unique_keys (<[i := None]> l).
Proof.
  intros Hu a b x y Hx Hy Hk.
  apply list_lookup_insert_Some in Hx as [(_ & [=] & _)|[_ Hx]].
  apply list_lookup_insert_Some in Hy as [(_ & [=] & _)|[_ Hy]]. eauto.
Qed.

Lemma unique_keys_insert i e l :
  unique_keys l → (∀ j x, l !! j = Some (Some x) → entry_key x = entry_key e → j = i) →
  unique_keys (<[i := Some e]> l).
Proof.
  intros Hu Hfresh a b x y Hx Hy Hk.
  apply list_lookup_insert_Some in Hx as [(<- & [= <-] & _)|[Ha Hx]];
  apply list_lookup_insert_Some in Hy as [(<- & [= <-] & _)|[Hb Hy]]; [done|..].
  - symmetry. by apply (Hfresh b y).
  - by apply (Hfresh a x).
  - eauto.
Qed.

(** The slot a table chooses for an entry keeps keys unique, whether it already
    holds the key or no slot does. *)
Lemma unique_keys_upsert_hit i e l :
  unique_keys l → position (slot_is (key_is (entry_key e))) l = Some i →
  unique_keys (<[i := Some e]> l).
Proof.
  intros Hu (x & Hx & Hk%key_is_true & _)%position_slot_Some.
  apply unique_keys_insert; [done|]. intros j y Hy Hky. apply (Hu j i y x); congruence.
Qed.

Lemma unique_keys_upsert_miss i e l :
  unique_keys l → position (slot_is (key_is (entry_key e))) l = None →
  unique_keys (<[i := Some e]> l).
Proof.
  rewrite position_slot_None. intros Hu Hm. apply unique_keys_insert; [done|].
  intros j x Hx Hk. apply Hm, key_is_false in Hx. done.
Qed.

Lemma unique_keys_update_first p f l :
  (∀ e, entry_key (f e) = entry_key e) → unique_keys l → unique_keys (update_first p f l).
Proof.
  intros Hf Hu i j x y Hx Hy Hk. rewrite lookup_update_first in Hx, Hy.
  assert (∃ x', l !! i = Some (Some x') ∧ entry_key x' = entry_key x) as (x' & Hx' & Hkx).
  { repeat case_match; simplify_eq; eauto. }
  assert (∃ y', l !! j = Some (Some y') ∧ entry_key y' = entry_key y) as (y' & Hy' & Hky).
  { repeat case_match; simplify_eq; eauto. }
  apply (Hu i j x' y'); congruence.
Qed.

Lemma expire_live now l : all_live now (expire_slots now l).
Proof. intros i e [_ He]%lookup_purge_Some. unfold expired in He. lia. Qed.

Lemma lookup_expire now l i e :
  expire_slots now l !! i = Some (Some e) ↔ l !! i = Some (Some e) ∧ (now < entry_expires e)%Z.
Proof. unfold expire_slots, expired. rewrite lookup_purge_Some. by rewrite Z.leb_gt. Qed.

(** With unique keys, a search by key finds the entry wherever it is. *)
Lemma find_key_Some k l e :
  unique_keys l →
  find (key_is k) (flatten l) = Some e ↔ entry_key e = k ∧ ∃ i, l !! i = Some (Some e).
Proof.
  intros Hu. split.
  - intros (i & Hi & Hk%key_is_true)%find_flatten_Some. eauto.
  - intros (Hk & i & Hi). destruct (find (key_is k) (flatten l)) as [e'|] eqn:Hf.
    + apply find_flatten_Some in Hf as (j & Hj & Hk'%key_is_true).
      assert (j = i) as -> by (apply (Hu j i e' e); congruence). congruence.
    + rewrite find_flatten_None in Hf. apply Hf, key_is_false in Hi. done.
Qed.

Lemma find_key_live k now l e :
  unique_keys l →
  find (λ e, key_is k e && (now <? entry_expires e)%Z) (flatten l) = Some e ↔
  entry_key e = k ∧ (now < entry_expires e)%Z ∧ ∃ i, l !! i = Some (Some e).
Proof.
  intros Hu. split.
  - intros (i & Hi & [Hk%key_is_true Hl]%andb_true_iff)%find_flatten_Some.
    apply Z.ltb_lt in Hl. eauto.
  - intros (Hk & Hl & i & Hi).
    destruct (find (λ e, key_is k e && (now <? entry_expires e)%Z) (flatten l)) as [e'|] eqn:Hf.
    + apply find_flatten_Some in Hf as (j & Hj & [Hk'%key_is_true _]%andb_true_iff).
      assert (j = i) as -> by (apply (Hu j i e' e); congruence). congruence.
    + rewrite find_flatten_None in Hf. specialize (Hf i e Hi). simpl in Hf.
      rewrite (proj2 (key_is_true k e)) in Hf by done. lia.
Qed.

End keyed.

#[export] Hint Resolve unique_keys_empty unique_keys_purge unique_keys_delete
  unique_keys_upsert_hit unique_keys_upsert_miss : lite.

(** * The slot a full table gives up *)

Section replacement.
Context {T : Type}.
Implicit Types l : list (option T).

(** A free slot if there is one, otherwise the entry with the earliest age. *)
Lemma free_or_oldest_Some (age : T → Z) l i :
  or_else (position is_none l) (oldest_index age l) = Some i →
  i < length l ∧
  (l !! i = Some None ∨
   ((∀ j, j < length l → ∃ e, l !! j = Some (Some e)) ∧
    ∃ v, l !! i = Some (Some v) ∧ ∀ j e, l !! j = Some (Some e) → (age v ≤ age e)%Z)).
Proof.
  unfold or_else. destruct (position is_none l) as [k|] eqn:Hf.
  - intros [= ->]. split; [by eapply position_lt|]. left. by apply first_free_Some.
  - intros (v & Hi & Hmin)%oldest_index_Some. split; [by eapply lookup_lt_Some|].
    right. split; [by apply first_free_None|]. eauto.
Qed.

Lemma free_or_oldest_None (age : T → Z) l :
  or_else (position is_none l) (oldest_index age l) = None → l = [].
Proof.
  unfold or_else. destruct (position is_none l) as [k|] eqn:Hf; [done|].
  intros Hn%oldest_index_None. destruct l as [|s l]; [done|].
  destruct (first_free_None _ Hf 0) as [e He]; [simpl; lia|].
  assert (e ∈ flatten (s :: l)) as Hin by (apply elem_of_flatten; eauto).
  rewrite Hn in Hin. by apply elem_of_nil in Hin.
Qed.

(** A free slot, otherwise the victim the bulk policy allows. *)
Lemma free_or_class_Some nb (bulk : T → bool) (age : T → Z) l i :
  or_else (position is_none l) (class_victim nb bulk age l) = Some i →
  i < length l ∧
  (l !! i = Some None ∨
   ((∀ j, j < length l → ∃ e, l !! j = Some (Some e)) ∧
    ∃ v, l !! i = Some (Some v) ∧ (nb = true → bulk v = true) ∧
         (bulk v = false → ∀ j e, l !! j = Some (Some e) → bulk e = false) ∧
         ∀ j e, l !! j = Some (Some e) → bulk e = bulk v → (age v ≤ age e)%Z)).
Proof.
  unfold or_else at 1. destruct (position is_none l) as [k|] eqn:Hf.
  - intros [= ->]. split; [by eapply position_lt|]. left. by apply first_free_Some.
  - intros (v & Hi & Hv)%class_victim_Some. split; [by eapply lookup_lt_Some|].
    right. split; [by apply first_free_None|]. exists v. split; [done|].
    destruct Hv as [[Hb Hmin]|[-> Hall]].
    + rewrite Hb. repeat split; [done..|]. intros j e Hj He. by apply (Hmin j).
    + destruct (Hall i v Hi) as [Hbv _]. split; [done|].
      split; [intros _ j e Hj|intros j e Hj _]; by apply (Hall j e Hj).
Qed.

(** Membership after writing one slot. *)
Lemma lookup_write_slot l i s j e :
  <[i := s]> l !! j = Some (Some e) →
  (i = j ∧ s = Some e) ∨ (i ≠ j ∧ l !! j = Some (Some e)).
Proof. intros [(-> & -> & _)|[? ?]]%list_lookup_insert_Some; auto. Qed.

Lemma lookup_written l i s : i < length l → <[i := s]> l !! i = Some s.
Proof. apply list_lookup_insert_eq. Qed.

End replacement.
