(* ===== verification/Queue.v ===== *)
(** The fixed-capacity FIFO queue (src/src/tables.rs, [Queue]).

    The queue is a ring over an array of [N] optional entries with a head and
    a length. [rep] relates it to the list of queued values, and
    [queue_refines_list] says that every operation acts on the ring as the
    corresponding list operation acts on that list. *)

From S2P Require Import Prelude Slots.

Module RingQueue.
Section queue.
Context {T : Type}.

Record Queue := { q_entries : list (option T); q_head : nat; q_len : nat }.

Implicit Types q : Queue.

Definition capacity q : nat := length (q_entries q).

(** [self.entries[idx]], with indices kept in range by [% N]. *)
Definition entry_at (es : list (option T)) (idx : nat) : option T := mjoin (es !! idx).

Definition new (N : nat) : Queue :=
  {| q_entries := replicate N None; q_head := 0; q_len := 0 |}.

Definition clear q : Queue :=
  {| q_entries := replicate (capacity q) None; q_head := 0; q_len := 0 |}.

Definition is_empty q : bool := q_len q =? 0.

Definition push_drop_oldest (value : T) q : bool * Queue :=
  let N := capacity q in
  if N =? 0 then (false, q)
  else if q_len q =? N then
    (true, {| q_entries := <[q_head q := Some value]> (q_entries q);
              q_head := (q_head q + 1) `mod` N; q_len := q_len q |})
  else
    let idx := (q_head q + q_len q) `mod` N in
    (false, {| q_entries := <[idx := Some value]> (q_entries q);
               q_head := q_head q; q_len := q_len q + 1 |}).

Definition peek q : option T :=
  if (q_len q =? 0) || (capacity q =? 0) then None else entry_at (q_entries q) (q_head q).

(** The values in FIFO order. *)
Definition iter q : list T :=
  flatten (map (λ offset, entry_at (q_entries q) ((q_head q + offset) `mod` Nat.max (capacity q) 1))
               (seq 0 (q_len q))).

(** Writing through [get_mut(offset)]. *)
Definition get_mut (offset : nat) (f : T → T) q : Queue :=
  if (q_len q <=? offset) || (capacity q =? 0) then q
  else
    let idx := (q_head q + offset) `mod` capacity q in
    {| q_entries := <[idx := f <$> entry_at (q_entries q) idx]> (q_entries q);
       q_head := q_head q; q_len := q_len q |}.

(** Writing through every reference of [iter_mut]. *)
Definition iter_mut (f : T → T) q : Queue :=
  {| q_entries := map (fmap f) (q_entries q); q_head := q_head q; q_len := q_len q |}.

(** The shifting loop of [remove]: [n] iterations from [shift], each moving the
    next entry one place towards the head. *)
Fixpoint shift_down (n shift head : nat) (es : list (option T)) : list (option T) :=
  match n with
  | O => es
  | S n' =>
      let N := length es in
      let from := (head + shift + 1) `mod` N in
      let to := (head + shift) `mod` N in
      let v := entry_at es from in
      shift_down n' (S shift) head (<[to := v]> (<[from := None]> es))
  end.

Definition remove (offset : nat) q : option T * Queue :=
  if (q_len q <=? offset) || (capacity q =? 0) then (None, q)
  else
    let idx := (q_head q + offset) `mod` capacity q in
    let value := entry_at (q_entries q) idx in
    let es := <[idx := None]> (q_entries q) in
    (value, {| q_entries := shift_down (q_len q - 1 - offset) offset (q_head q) es;
               q_head := q_head q; q_len := q_len q - 1 |}).

Definition pop q : option T * Queue :=
  if (q_len q =? 0) || (capacity q =? 0) then (None, q)
  else
    let value := entry_at (q_entries q) (q_head q) in
    (value, {| q_entries := <[q_head q := None]> (q_entries q);
               q_head := (q_head q + 1) `mod` capacity q; q_len := q_len q - 1 |}).

(** * The ring and the list it represents *)

(** The slot at FIFO offset [off]. *)
Definition ring (h : nat) (es : list (option T)) (off : nat) : option (option T) :=
  es !! ((h + off) `mod` length es).

(** [rep q l]: the queue holds exactly the values of [l], oldest first, and every
    other slot is empty. *)
Definition rep q (l : list T) : Prop :=
  q_len q = length l ∧ length l ≤ capacity q ∧ (0 < capacity q → q_head q < capacity q) ∧
  ∀ off, off < capacity q → ring (q_head q) (q_entries q) off = Some (l !! off).

Lemma ring_inj N h i j :
  i < N → j < N → (h + i) `mod` N = (h + j) `mod` N → i = j.
Proof.
  intros Hi Hj Heq.
  assert (∀ a b, a ≤ b → b < N → (h + a) `mod` N = (h + b) `mod` N → a = b) as Hle.
  { clear. intros a b Hab Hb Heq.
    pose proof (Nat.div_mod_eq (h + a) N). pose proof (Nat.div_mod_eq (h + b) N).
    assert ((h + b) `div` N = (h + a) `div` N) by nia. nia. }
  destruct (decide (i ≤ j)); [by apply Hle|]. symmetry. apply Hle; [lia..|done].
Qed.

Lemma ring_insert h es i j v :
  i < length es → j < length es →
  ring h (<[(h + i) `mod` length es := v]> es) j = if decide (i = j) then Some v else ring h es j.
Proof.
  intros Hi Hj. unfold ring. rewrite length_insert.
  case_decide as Hij.
  - subst. apply list_lookup_insert_eq. apply Nat.mod_upper_bound. lia.
  - apply list_lookup_insert_ne. intros Heq. apply Hij. by apply (ring_inj (length es) h).
Qed.

Lemma ring_entry_at h es off o :
  ring h es off = Some o → entry_at es ((h + off) `mod` length es) = o.
Proof. unfold ring, entry_at. by intros ->. Qed.

Lemma ring_advance h es off : ring ((h + 1) `mod` length es) es off = ring h es (S off).
Proof.
  unfold ring. destruct (length es) as [|n] eqn:Hn.
  { apply nil_length_inv in Hn. by subst. }
  rewrite Nat.Div0.add_mod_idemp_l. by replace (h + 1 + off) with (h + S off) by lia.
Qed.

Lemma ring_head h es i v : h < length es → i < length es →
  ring h (<[h := v]> es) i = if decide (0 = i) then Some v else ring h es i.
Proof.
  intros. rewrite <- (ring_insert h es 0 i v) by lia.
  by rewrite Nat.add_0_r, Nat.mod_small by lia.
Qed.

(** Wrapping past the last slot comes back to the head. *)
Lemma ring_wrap h es : 0 < length es → ring h es (length es) = ring h es 0.
Proof.
  intros. unfold ring. rewrite Nat.add_0_r.
  replace (h + length es) with (h + 1 * length es) by lia. by rewrite Nat.Div0.mod_add.
Qed.

Lemma length_shift_down n s h es : length (shift_down n s h es) = length es.
Proof.
  revert s es. induction n as [|n IH]; intros s es; [done|].
  simpl. by rewrite IH, !length_insert.
Qed.

(** The loop moves [n] entries down by one and empties the last place. *)
Lemma ring_shift_down n s h es j :
  s + n < length es → j < length es → 0 < n →
  ring h (shift_down n s h es) j =
    if decide (s ≤ j < s + n) then ring h es (S j)
    else if decide (j = s + n) then Some None else ring h es j.
Proof.
  revert s es. induction n as [|n IH]; intros s es Hs Hj Hn; [lia|].
  assert (Hne : length es ≠ 0) by lia. simpl. rewrite <- (Nat.add_assoc h s 1).
  set (v := entry_at es _). set (es1 := <[_ := None]> es).
  assert (Hes1 : length es1 = length es) by apply length_insert.
  assert (Hv : Some v = ring h es (s + 1)).
  { unfold v, ring, entry_at. destruct (es !! _) eqn:He; [done|].
    apply lookup_ge_None in He.
    pose proof (Nat.mod_upper_bound (h + (s + 1)) (length es) Hne). lia. }
  assert (Hget : ∀ k, k < length es →
    ring h (<[(h + s) `mod` length es := v]> es1) k =
    if decide (s = k) then Some v else if decide (s + 1 = k) then Some None else ring h es k).
  { intros k Hk. rewrite <- Hes1, ring_insert by lia. case_decide; [done|].
    unfold es1. by rewrite ring_insert by lia. }
  destruct n as [|n].
  - simpl. rewrite Hget by done. repeat case_decide; try lia; try done.
    rewrite Hv. f_equal. lia.
  - rewrite IH by (rewrite ?length_insert; lia).
    repeat case_decide; try lia; try done; rewrite Hget by lia;
      repeat case_decide; try lia; try done.
    rewrite Hv. f_equal. lia.
Qed.

Lemma delete_ge (l : list T) i : length l ≤ i → delete i l = l.
Proof. revert i. induction l; intros [|i] ?; simpl in *; f_equal; auto with lia. Qed.

(** * Each operation on the list *)

Lemma rep_new N : rep (new N) [].
Proof.
  unfold new, rep, capacity, ring. simpl. rewrite length_replicate.
  repeat split; [lia|lia|]. intros off Hoff. apply lookup_replicate_2.
  apply Nat.mod_upper_bound. lia.
Qed.

Lemma rep_clear q l : rep q l → rep (clear q) [].
Proof. intros _. apply rep_new. Qed.

Lemma rep_entry q l off : rep q l → off < capacity q →
  entry_at (q_entries q) ((q_head q + off) `mod` capacity q) = l !! off.
Proof. intros (_ & _ & _ & Hr) Hoff. apply ring_entry_at. by apply Hr. Qed.

Lemma rep_head q l : rep q l → 0 < capacity q → entry_at (q_entries q) (q_head q) = head l.
Proof.
  intros Hrep Hc. pose proof (rep_entry q l 0 Hrep Hc) as He.
  destruct Hrep as (_ & _ & Hh & _).
  rewrite Nat.add_0_r, Nat.mod_small in He by auto. rewrite He. by destruct l.
Qed.

Lemma peek_rep q l : rep q l → peek q = head l.
Proof.
  intros Hrep. pose proof Hrep as (Hl & Hc & _). unfold peek. case_if.
  - destruct l; [done|]. simpl in *. destruct Heqb as [?|?]; bool_hyps; lia.
  - apply rep_head; [done|]. lia.
Qed.

Lemma push_rep q l v :
  rep q l → 0 < capacity q →
  let (evicted, q') := push_drop_oldest v q in
  evicted = (length l =? capacity q) ∧ capacity q' = capacity q ∧
  rep q' ((if length l =? capacity q then tail l else l) ++ [v]).
Proof.
  intros (Hl & Hle & Hh & Hr) Hc. unfold push_drop_oldest. case_if; [lia|].
  specialize (Hh Hc). rewrite Hl. unfold capacity in *. case_if; simpl.
  - split; [done|]. rewrite length_insert. split; [done|].
    unfold rep, capacity. simpl. rewrite !length_insert, length_app.
    assert (length (tail l) = length l - 1) as Htl by (destruct l; simpl; lia).
    rewrite Htl. simpl. repeat split; [lia..| |].
    { intros _. apply Nat.mod_upper_bound. lia. }
    intros off Hoff. rewrite <- (length_insert (q_entries q) (q_head q) (Some v)) at 1.
    rewrite ring_advance.
    destruct (decide (S off = length (q_entries q))) as [Heq|Hne].
    + rewrite Heq, <- (length_insert (q_entries q) (q_head q) (Some v)) at 1.
      rewrite ring_wrap, ring_head by (rewrite ?length_insert; lia). simpl.
      by rewrite list_lookup_middle by (rewrite Htl; lia).
    + rewrite ring_head by lia. simpl. rewrite Hr by lia.
      rewrite lookup_app_l by (rewrite Htl; lia). by destruct l.
  - split; [done|]. rewrite length_insert. split; [done|].
    unfold rep, capacity. simpl. rewrite !length_insert, length_app. simpl.
    repeat split; [lia..|]. intros off Hoff. rewrite ring_insert by lia.
    case_decide; [by rewrite list_lookup_middle by lia|]. rewrite Hr by lia. f_equal.
    destruct (decide (off < length l)).
    + by rewrite lookup_app_l by lia.
    + rewrite !lookup_ge_None_2; [done|rewrite length_app; simpl; lia|lia].
Qed.

Lemma pop_rep q l :
  rep q l → let (r, q') := pop q in r = head l ∧ capacity q' = capacity q ∧ rep q' (tail l).
Proof.
  intros Hrep. pose proof (rep_head q l Hrep) as Hhd.
  pose proof Hrep as (Hl & Hle & Hh & Hr). unfold pop. case_if.
  - assert (l = []) as ->; [|done]. apply nil_length_inv.
    destruct Heqb as [?|?]; bool_hyps; lia.
  - assert (Hc : 0 < capacity q) by lia.
    unfold capacity in *. simpl. rewrite length_insert. split; [by apply Hhd|]. split; [done|].
    destruct l as [|x l]; [simpl in *; lia|]. simpl in *.
    unfold rep, capacity. simpl. rewrite length_insert. repeat split; [lia..| |].
    { intros. apply Nat.mod_upper_bound. lia. }
    specialize (Hh Hc). intros off Hoff.
    rewrite <- (length_insert (q_entries q) (q_head q) None) at 1. rewrite ring_advance.
    destruct (decide (S off = length (q_entries q))) as [Heq|Hne].
    + rewrite Heq, <- (length_insert (q_entries q) (q_head q) None) at 1.
      rewrite ring_wrap, ring_head by (rewrite ?length_insert; lia). simpl.
      by rewrite lookup_ge_None_2 by lia.
    + rewrite ring_head by lia. simpl. by rewrite Hr by lia.
Qed.

Lemma remove_rep q l off :
  rep q l →
  let (r, q') := remove off q in r = l !! off ∧ capacity q' = capacity q ∧ rep q' (delete off l).
Proof.
  intros Hrep. pose proof (rep_entry q l off Hrep) as He.
  pose proof Hrep as (Hl & Hle & Hh & Hr). unfold remove. case_if.
  - assert (length l ≤ off) by (destruct Heqb as [?|?]; bool_hyps; lia).
    rewrite lookup_ge_None_2, delete_ge by done. done.
  - unfold capacity in *. rewrite He by lia. simpl.
    rewrite length_shift_down, length_insert. repeat split; simpl.
    { rewrite length_delete by (apply lookup_lt_is_Some; lia). lia. }
    { unfold capacity. simpl. rewrite length_shift_down, length_insert.
      rewrite length_delete by (apply lookup_lt_is_Some; lia). lia. }
    { unfold capacity. simpl. by rewrite length_shift_down, length_insert. }
    unfold capacity. simpl. rewrite length_shift_down, length_insert.
    intros j Hj. rewrite list_lookup_delete.
    assert (Hes : ∀ k, k < length (q_entries q) →
      ring (q_head q) (<[(q_head q + off) `mod` length (q_entries q) := None]> (q_entries q)) k
      = Some (if decide (off = k) then None else l !! k)).
    { intros k Hk. rewrite ring_insert by lia. case_decide; [done|]. by apply Hr. }
    destruct (decide (q_len q - 1 - off = 0)) as [Hz|Hn].
    + rewrite Hz. simpl. rewrite Hes by done. repeat case_decide; try lia; try done;
        by rewrite !lookup_ge_None_2 by lia.
    + rewrite ring_shift_down by (rewrite ?length_insert; lia).
      repeat case_decide; rewrite ?Hes by lia; repeat case_decide; try lia; try done;
        by rewrite !lookup_ge_None_2 by lia.
Qed.

Lemma get_mut_rep q l off f : rep q l →
  capacity (get_mut off f q) = capacity q ∧ rep (get_mut off f q) (alter f off l).
Proof.
  intros Hrep. pose proof (rep_entry q l off Hrep) as He.
  pose proof Hrep as (Hl & Hle & Hh & Hr). unfold get_mut. case_if.
  - assert (length l ≤ off) by (destruct Heqb as [?|?]; bool_hyps; lia).
    split; [done|]. assert (alter f off l = l) as ->; [|done].
    apply list_eq. intros i. rewrite list_lookup_alter. case_decide; [|done].
    subst. by rewrite lookup_ge_None_2.
  - unfold rep, capacity in *. simpl.
    rewrite length_insert, length_alter, He by lia. repeat split; try done.
    intros j Hj. rewrite ring_insert by lia. rewrite list_lookup_alter.
    case_decide; [by subst|]. by apply Hr.
Qed.

Lemma iter_mut_rep q l f : rep q l →
  capacity (iter_mut f q) = capacity q ∧ rep (iter_mut f q) (map f l).
Proof.
  intros (Hl & Hle & Hh & Hr). unfold rep, capacity, iter_mut in *. simpl.
  rewrite !length_map. repeat split; try done. intros off Hoff.
  specialize (Hr off Hoff). unfold ring in *. rewrite length_map, !list_lookup_fmap, Hr. done.
Qed.

Lemma iter_rep q l : rep q l → iter q = l.
Proof.
  intros Hrep. pose proof Hrep as (Hl & Hle & _ & _). unfold iter. rewrite Hl.
  assert (map (λ off, entry_at (q_entries q) ((q_head q + off) `mod` Nat.max (capacity q) 1))
    (seq 0 (length l)) = map Some l) as ->.
  { apply list_eq. intros i. rewrite !list_lookup_fmap.
    destruct (decide (i < length l)).
    - rewrite lookup_seq_lt by lia. simpl. rewrite Nat.max_l by lia.
      rewrite (rep_entry q l i) by (done || lia).
      destruct (lookup_lt_is_Some_2 l i) as [x ->]; [done|]. done.
    - rewrite lookup_seq_ge, (lookup_ge_None_2 l) by lia. done. }
  clear. induction l; simpl; by f_equal.
Qed.


(** C30: the ring is a bounded FIFO. Starting from an empty queue of capacity
    [N], every operation acts on the ring as the list operation acts on the
    queued values: a push appends, dropping the oldest value exactly when the
    queue is full (and is a no-op without capacity); a pop takes the oldest; a
    removal deletes one position and keeps the order of the rest; peeking,
    iterating and writing through a reference see the list. *)
Theorem queue_refines_list :
  (∀ N, rep (new N) []) ∧
  ∀ q l, rep q l →
    rep (clear q) [] ∧
    q_len q = length l ∧ peek q = head l ∧ iter q = l ∧
    (∀ v, let (evicted, q') := push_drop_oldest v q in
       if capacity q =? 0 then evicted = false ∧ q' = q
       else evicted = (length l =? capacity q) ∧ capacity q' = capacity q ∧
            rep q' ((if length l =? capacity q then tail l else l) ++ [v])) ∧
    (let (r, q') := pop q in r = head l ∧ capacity q' = capacity q ∧ rep q' (tail l)) ∧
    (∀ off, let (r, q') := remove off q in
       r = l !! off ∧ capacity q' = capacity q ∧ rep q' (delete off l)) ∧
    (∀ off f, rep (get_mut off f q) (alter f off l)) ∧
    (∀ f, rep (iter_mut f q) (map f l)).
Proof.
  split; [apply rep_new|]. intros q l Hrep.
  split; [by eapply rep_clear|]. split; [apply Hrep|]. split; [by apply peek_rep|].
  split; [by apply iter_rep|]. split.
  { intros v. pose proof (push_rep q l v Hrep) as Hp. unfold push_drop_oldest in *.
    case_if; [done|]. by apply Hp; lia. }
  split; [by apply pop_rep|]. split; [intros off; by apply remove_rep|].
  split; [intros off f; by apply get_mut_rep|]. intros f. by apply iter_mut_rep.
Qed.
End queue.
Arguments Queue : clear implicits.

(** A queue of capacity two that has wrapped around. *)
Definition example : Queue nat :=
  {| q_entries := [Some 3; Some 2]; q_head := 1; q_len := 2 |}.

Lemma queue_refines_list_witness :
  iter example = [2; 3] ∧ snd (pop example) = {| q_entries := [Some 3; None]; q_head := 0; q_len := 1 |}.
Proof.
  destruct (@queue_refines_list nat) as [_ H].
  destruct (H example [2; 3]) as (_ & _ & _ & Hi & _).
  - split; [reflexivity|]. split; [vm_compute; lia|]. split; [vm_compute; lia|].
    intros [|[|off]] Hoff; [reflexivity..|]. vm_compute in Hoff. lia.
  - split; [exact Hi|reflexivity].
Defined.

End RingQueue.
