(* ===== verification/HashTables.v ===== *)
(** Duplicate suppression: the packet-hash table and the path-request tag table
    (src/src/tables.rs, [PacketHashTable] and [RequestTagTable]).

    Both keep a set of keys with expiry times in a fixed array. [seen] is the
    abstract set: the keys retained and not yet expired. *)

From S2P Require Import Prelude Slots.

Record PacketHashEntry := { ph_hash : list Z; ph_expires_ms : Z }.
Record RequestTagEntry := { rt_key : list Z; rt_expires_ms : Z }.

#[export] Instance PacketHashEntry_entry : Entry PacketHashEntry (list Z) :=
  {| entry_key := ph_hash; entry_expires := ph_expires_ms |}.
#[export] Instance RequestTagEntry_entry : Entry RequestTagEntry (list Z) :=
  {| entry_key := rt_key; entry_expires := rt_expires_ms |}.

(** * What both tables promise *)

Section dedup.
Context {T : Type} `{!Entry T (list Z)}.
Implicit Types t : list (option T).

(** The key is retained by a live entry. *)
Definition seen (k : list Z) (now : Z) t : Prop :=
  ∃ i e, t !! i = Some (Some e) ∧ entry_key e = k ∧ (now < entry_expires e)%Z.

(** The shared insertion step: purge, refuse a retained key, otherwise take a
    free slot or the earliest-expiring entry's. *)
Definition dedup_insert (entry : T) (now : Z) t : bool * list (option T) :=
  let t := expire_slots now t in
  if existsb (key_is (entry_key entry)) (flatten t) then (false, t)
  else
    match or_else (position is_none t) (oldest_index entry_expires t) with
    | Some idx => (true, <[idx := Some entry]> t)
    | None => (true, t)
    end.

Lemma seen_expire k now t :
  seen k now (expire_slots now t) ↔ seen k now t.
Proof.
  unfold seen. split.
  - intros (i & e & [He Hl]%lookup_expire & Hk & _). eauto.
  - intros (i & e & He & Hk & Hl). exists i, e. rewrite lookup_expire. eauto.
Qed.

Lemma existsb_seen k now t :
  existsb (key_is k) (flatten (expire_slots now t)) = true ↔ seen k now t.
Proof.
  rewrite existsb_flatten. split.
  - intros (i & e & [Hi Hl]%lookup_expire & Hk%key_is_true). exists i, e. eauto.
  - intros (i & e & Hi & Hk & Hl). exists i, e. rewrite lookup_expire, key_is_true. eauto.
Qed.

Lemma dedup_insert_spec (entry : T) now t :
  unique_keys t →
  let (fresh, t') := dedup_insert entry now t in
  length t' = length t ∧ unique_keys t' ∧
  (fresh = false ↔ seen (entry_key entry) now t) ∧
  (fresh = true → 0 < length t → ∀ now', (now' < entry_expires entry)%Z →
     seen (entry_key entry) now' t') ∧
  (∀ k, k ≠ entry_key entry → seen k now t' → seen k now t) ∧
  (∀ k now', (now ≤ now')%Z → seen k now' t → ¬ seen k now' t' →
     fresh = true ∧
     (∀ i, i < length t → ∃ e, expire_slots now t !! i = Some (Some e)) ∧
     ∃ i v, t !! i = Some (Some v) ∧ entry_key v = k ∧
       ∀ j e, t !! j = Some (Some e) → (now < entry_expires e)%Z →
              (entry_expires v ≤ entry_expires e)%Z).
Proof.
  intros Hu. unfold dedup_insert.
  assert (Hlater : ∀ k now', (now ≤ now')%Z → seen k now' t → seen k now' (expire_slots now t)).
  { intros k now' Hn (i & e & Hi & Hk & Hl). exists i, e. rewrite lookup_expire. auto with lia. }
  destruct (existsb _ _) eqn:Hex.
  - assert (Hs := Hex). rewrite existsb_seen in Hs.
    split; [apply length_purge|]. split; [by apply unique_keys_purge|]. split; [by split|].
    split; [done|]. split; [intros k _; apply seen_expire|]. intros k now' Hn Hk Hnk.
    destruct Hnk. by apply Hlater.
  - assert (Hns : ¬ seen (entry_key entry) now t) by (rewrite <- existsb_seen; congruence).
    destruct (or_else _ _) as [idx|] eqn:Hr.
    + destruct (free_or_oldest_Some _ _ _ Hr) as [Hlt Hslot].
      assert (Hlen : length (<[idx:=Some entry]> (expire_slots now t)) = length t).
      { rewrite length_insert. apply length_purge. }
      split; [done|]. split.
      { apply unique_keys_upsert_miss; [by apply unique_keys_purge|].
        apply position_slot_None. intros i e Hi. apply key_is_false. intros Hk. apply Hns.
        apply lookup_expire in Hi as [Hi Hl]. exists i, e. eauto. }
      split; [by split|]. split.
      { intros _ _ now' Hl. exists idx, entry. by rewrite lookup_written. }
      split.
      { intros k Hk (i & e & Hi & Hke & Hl). apply seen_expire.
        apply lookup_write_slot in Hi as [[_ [= ->]]|[_ Hi]]; [done|]. exists i, e. eauto. }
      intros k now' Hn Hs Hns'. split; [done|].
      destruct (Hlater k now' Hn Hs) as (i & e & Hi & Hk & Hl).
      assert (i = idx) as ->.
      { destruct (decide (idx = i)); [done|]. exfalso. apply Hns'. exists i, e.
        by rewrite list_lookup_insert_ne. }
      destruct Hslot as [Hnone|(Hfull & v & Hv & Hmin)]; [congruence|].
      unfold expire_slots in Hfull. rewrite length_purge in Hfull. split; [done|].
      exists idx, v. rewrite Hi in Hv. simplify_eq. apply lookup_expire in Hi as [Hi _].
      repeat split; [done|]. intros j e' Hj Hl'. apply (Hmin j). by rewrite lookup_expire.
    + apply free_or_oldest_None in Hr. unfold expire_slots in Hr.
      assert (Hlen : length t = 0) by (by rewrite <- (length_purge (expired now) t), Hr).
      apply nil_length_inv in Hlen. subst t. simpl.
      repeat split; try done; [simpl; lia|..];
        intros ? ? ? (i & e & Hi & _); by rewrite lookup_nil in Hi.
Qed.

End dedup.

(** * The packet-hash table *)

Module PacketHashTable.

Definition new (N : nat) : list (option PacketHashEntry) := replicate N None.
Definition clear (t : list (option PacketHashEntry)) : list (option PacketHashEntry) :=
  replicate (length t) None.

Definition expire (now_ms : Z) (t : list (option PacketHashEntry)) :=
  purge (λ e, (ph_expires_ms e <=? now_ms)%Z) t.

Definition insert (hash : list Z) (expires_ms now_ms : Z) (t : list (option PacketHashEntry))
  : bool * list (option PacketHashEntry) :=
  let t := expire now_ms t in
  if existsb (λ e, ph_hash e =k hash) (flatten t) then (false, t)
  else
    match or_else (position is_none t) (oldest_index ph_expires_ms t) with
    | Some idx => (true, <[idx := Some {| ph_hash := hash; ph_expires_ms := expires_ms |}]> t)
    | None => (true, t)
    end.

Definition contains (hash : list Z) (now_ms : Z) (t : list (option PacketHashEntry))
  : bool * list (option PacketHashEntry) :=
  let t := expire now_ms t in
  (existsb (λ e, ph_hash e =k hash) (flatten t), t).

Lemma insert_dedup hash expires_ms now_ms t :
  insert hash expires_ms now_ms t =
  dedup_insert {| ph_hash := hash; ph_expires_ms := expires_ms |} now_ms t.
Proof. done. Qed.

Lemma contains_seen hash now_ms t : fst (contains hash now_ms t) = true ↔ seen hash now_ms t.
Proof. rewrite <- existsb_seen. done. Qed.

(** The packet-hash table suppresses duplicates. An insertion keeps hashes
    unique and the capacity fixed; it reports a duplicate exactly when a live
    entry retains the hash; a hash it accepts is retained until its expiry by
    [contains]; and the only other entry it can lose is, in a full table, one
    that expires no later than every other live entry. *)
Lemma packet_hash_insert_spec hash expires_ms now_ms t :
  unique_keys t →
  let (fresh, t') := insert hash expires_ms now_ms t in
  length t' = length t ∧ unique_keys t' ∧
  (fresh = false ↔ fst (contains hash now_ms t) = true) ∧
  (fresh = true → 0 < length t → ∀ now', (now' < expires_ms)%Z →
     fst (contains hash now' t') = true) ∧
  (∀ k, k ≠ hash → fst (contains k now_ms t') = true → fst (contains k now_ms t) = true) ∧
  (∀ k now', (now_ms ≤ now')%Z →
     fst (contains k now' t) = true → fst (contains k now' t') = false →
     (∀ i, i < length t → ∃ e, expire now_ms t !! i = Some (Some e)) ∧
     ∃ i v, t !! i = Some (Some v) ∧ ph_hash v = k ∧
       ∀ j e, t !! j = Some (Some e) → (now_ms < ph_expires_ms e)%Z →
              (ph_expires_ms v ≤ ph_expires_ms e)%Z).
Proof.
  intros Hu. rewrite insert_dedup.
  pose proof (dedup_insert_spec {| ph_hash := hash; ph_expires_ms := expires_ms |} now_ms t Hu) as H.
  destruct (dedup_insert _ now_ms t) as [fresh t'].
  destruct H as (Hlen & Huk & Hdup & Hret & Hother & Hevict).
  split; [done|]. split; [done|]. split; [by rewrite contains_seen|]. split.
  { intros Hf Hpos now' Hl. apply contains_seen. by apply Hret. }
  split; [intros k Hk; rewrite !contains_seen; by apply Hother|].
  intros k now' Hn Hs%contains_seen Hns. destruct (Hevict k now' Hn Hs) as (_ & Hfull & Hv).
  - rewrite <- contains_seen. congruence.
  - split; [exact Hfull|exact Hv].
Qed.

End PacketHashTable.

(** * The path-request tag table *)

Module RequestTagTable.

Definition new (N : nat) : list (option RequestTagEntry) := replicate N None.
Definition clear (t : list (option RequestTagEntry)) : list (option RequestTagEntry) :=
  replicate (length t) None.

Definition expire (now_ms : Z) (t : list (option RequestTagEntry)) :=
  purge (λ e, (rt_expires_ms e <=? now_ms)%Z) t.

Definition insert_if_new (key : list Z) (expires_ms now_ms : Z) (t : list (option RequestTagEntry))
  : bool * list (option RequestTagEntry) :=
  let t := expire now_ms t in
  if existsb (λ e, rt_key e =k key) (flatten t) then (false, t)
  else
    match or_else (position is_none t) (oldest_index rt_expires_ms t) with
    | Some idx => (true, <[idx := Some {| rt_key := key; rt_expires_ms := expires_ms |}]> t)
    | None => (true, t)
    end.

Lemma insert_if_new_dedup key expires_ms now_ms t :
  insert_if_new key expires_ms now_ms t =
  dedup_insert {| rt_key := key; rt_expires_ms := expires_ms |} now_ms t.
Proof. done. Qed.

(** A path-request tag is answered once. The table reports a tag as new
    exactly when no live entry retains it, and after accepting a tag
    (with room for one entry) a repeat before the expiry is refused without extending it. *)
Lemma request_tag_once key expires_ms now_ms t :
  unique_keys t →
  let (fresh, t') := insert_if_new key expires_ms now_ms t in
  unique_keys t' ∧ (fresh = true ↔ ¬ seen key now_ms t) ∧
  (fresh = true → 0 < length t → ∀ e2 now2, (now_ms ≤ now2 < expires_ms)%Z →
     fst (insert_if_new key e2 now2 t') = false ∧
     ∀ now3, seen key now3 (snd (insert_if_new key e2 now2 t')) → (now3 < expires_ms)%Z).
Proof.
  intros Hu. rewrite insert_if_new_dedup.
  pose proof (dedup_insert_spec {| rt_key := key; rt_expires_ms := expires_ms |} now_ms t Hu) as H.
  destruct (dedup_insert _ now_ms t) as [fresh t'] eqn:Hins.
  destruct H as (Hlen & Huk & Hdup & Hret & _ & _).
  split; [done|]. split; [rewrite <- Hdup; destruct fresh; naive_solver|].
  intros -> Hpos e2 now2 [Hn Hx]. rewrite insert_if_new_dedup.
  pose proof (Hret eq_refl Hpos now2 Hx) as Hs.
  pose proof (dedup_insert_spec {| rt_key := key; rt_expires_ms := e2 |} now2 t' Huk) as H2.
  unfold dedup_insert in *. simpl entry_key in *.
  rewrite (proj2 (existsb_seen key now2 t')) in * by done. simpl. split; [done|].
  intros now3 (i & e & [Hi _]%lookup_expire & Hk & Hl).
  destruct (existsb _ (flatten (expire_slots now_ms t))); [done|].
  destruct (or_else _ _) as [idx|] eqn:Hr; injection Hins as <-.
  - apply free_or_oldest_Some in Hr as [Hlt _].
    assert (i = idx) as -> by (apply (Huk i idx e {| rt_key := key; rt_expires_ms := expires_ms |});
      [done|by rewrite lookup_written|done]).
    rewrite lookup_written in Hi by done. injection Hi as <-. done.
  - apply free_or_oldest_None in Hr. by rewrite Hr in Hi.
Qed.

End RequestTagTable.

(** ** Witnesses *)

Module HashTablesExample.
Definition full : list (option PacketHashEntry) :=
  [Some {| ph_hash := [1%Z]; ph_expires_ms := 50 |}; Some {| ph_hash := [2%Z]; ph_expires_ms := 40 |}].

Lemma full_unique : unique_keys full.
Proof.
  intros [|[|i]] [|[|j]] x y Hx Hy Hk; simpl in *; simplify_eq; try done; try discriminate.
Qed.
End HashTablesExample.

Lemma packet_hash_insert_spec_witness :
  PacketHashTable.insert [3%Z] 60 10 HashTablesExample.full =
    (true, [Some {| ph_hash := [1%Z]; ph_expires_ms := 50 |};
            Some {| ph_hash := [3%Z]; ph_expires_ms := 60 |}]) ∧
  fst (PacketHashTable.contains [3%Z] 59
         (snd (PacketHashTable.insert [3%Z] 60 10 HashTablesExample.full))) = true.
Proof.
  pose proof (PacketHashTable.packet_hash_insert_spec [3%Z] 60 10 HashTablesExample.full
                HashTablesExample.full_unique) as H.
  split; [reflexivity|].
  apply H; [reflexivity|simpl; lia|lia].
Defined.

Lemma request_tag_once_witness :
  fst (RequestTagTable.insert_if_new [7%Z] 99 12
         (snd (RequestTagTable.insert_if_new [7%Z] 20 10 [None]))) = false.
Proof.
  pose proof (RequestTagTable.request_tag_once [7%Z] 20 10 [None]) as H.
  apply H; [|reflexivity|simpl; lia|lia].
  intros i j x y Hx. by destruct i as [|[|i]].
Defined.
