(* ===== verification/GenTable.v ===== *)
(** Tables whose occupied slots carry a generation number, the incarnation
    identity that owners of queued bytes hold on to (src/src/tables.rs, the
    bookkeeping shared by [PathTable], [ReverseTable] and [LinkTable]).

    The invariant [gen_ok] and the relation [bound] support the central promise:
    a generation, once issued, never names another entry. *)

From S2P Require Import Prelude Slots.

Record GenTable (T : Type) := {
  gt_entries : list (option T);
  gt_generations : list Z;
  gt_last : Z
}.
Arguments gt_entries {T}.
Arguments gt_generations {T}.
Arguments gt_last {T}.

(** [Iterator::find_map]. *)
Fixpoint find_map {A B} (f : A → option B) (l : list A) : option B :=
  match l with
  | [] => None
  | x :: l' => match f x with Some y => Some y | None => find_map f l' end
  end.

Section gen_table.
Context {T K : Type} `{EqDecision K} `{!Entry T K}.
Implicit Types t : GenTable T.

Definition gen_new (N : nat) : GenTable T :=
  {| gt_entries := replicate N None; gt_generations := replicate N 0%Z; gt_last := 0 |}.

(** Changing only the entries. *)
Definition with_entries (f : list (option T) → list (option T)) t : GenTable T :=
  {| gt_entries := f (gt_entries t); gt_generations := gt_generations t; gt_last := gt_last t |}.

Definition gen_clear t : GenTable T :=
  with_entries (λ l, replicate (length l) None) t.

Definition gen_next t : option Z :=
  if length (gt_entries t) =? 0 then None else checked_add64 (gt_last t) 1.

(** Storing an entry in a slot under a freshly issued generation. *)
Definition gen_store (idx : nat) (e : T) (g : Z) t : GenTable T :=
  {| gt_entries := <[idx := Some e]> (gt_entries t);
     gt_generations := <[idx := g]> (gt_generations t);
     gt_last := g |}.

(** The generation of the live entry with a key, if it has one. *)
Definition gen_of_key (k : K) (now : Z) t : option Z :=
  find_map (λ '(slot, g),
      match slot with
      | Some e => if key_is k e && (now <? entry_expires e)%Z
                  then (if negb (g =? 0)%Z then Some g else None) else None
      | None => None
      end) (zip (gt_entries t) (gt_generations t)).

(** The live entry a generation names. *)
Definition gen_get (g : Z) (now : Z) t : option T :=
  if (g =? 0)%Z then None
  else find_map (λ '(slot, current),
      match slot with
      | Some e => if (current =? g)%Z && (now <? entry_expires e)%Z then Some e else None
      | None => None
      end) (zip (gt_entries t) (gt_generations t)).

(** * Invariant *)

(** The slot [i] holds [e] under generation [g]. *)
Definition held t (i : nat) (e : T) (g : Z) : Prop :=
  gt_entries t !! i = Some (Some e) ∧ gt_generations t !! i = Some g.

(** The entry [e] is stored under generation [g]. *)
Definition bound t (g : Z) (e : T) : Prop := ∃ i, held t i e g.

Record gen_ok t : Prop := {
  gen_lengths : length (gt_generations t) = length (gt_entries t);
  gen_last_range : in_u64 (gt_last t);
  gen_range : ∀ i g, gt_generations t !! i = Some g → (0 ≤ g ≤ gt_last t)%Z;
  gen_issued : ∀ i e g, held t i e g → (0 < g)%Z;
  gen_unique : ∀ i j e e' g, held t i e g → held t j e' g → i = j
}.

Lemma find_map_Some {A B} (f : A → option B) l y :
  find_map f l = Some y → ∃ i x, l !! i = Some x ∧ f x = Some y.
Proof.
  induction l as [|x l IH]; simpl; [done|]. destruct (f x) eqn:Hf.
  - intros [= ->]. by exists 0, x.
  - intros (i & x' & Hi & Hx)%IH. by exists (S i), x'.
Qed.

Lemma find_map_None {A B} (f : A → option B) l :
  find_map f l = None → ∀ i x, l !! i = Some x → f x = None.
Proof.
  induction l as [|x l IH]; simpl; [done|]. destruct (f x) eqn:Hf; [done|].
  intros Hn [|i] y Hy; simpl in *; [congruence|by apply (IH Hn i)].
Qed.

Lemma zip_slot t i e g :
  zip (gt_entries t) (gt_generations t) !! i = Some (Some e, g) ↔ held t i e g.
Proof.
  unfold held. rewrite lookup_zip_Some. done.
Qed.

Lemma gen_get_Some g now t e :
  gen_ok t →
  gen_get g now t = Some e ↔ bound t g e ∧ (now < entry_expires e)%Z.
Proof.
  intros Hok. unfold gen_get. split.
  - case_if; [done|]. intros (i & [[e'|] g'] & Hi & Hf)%find_map_Some; [|done].
    case_if; [|done]. injection Hf as ->. subst. apply zip_slot in Hi.
    split; [by exists i|lia].
  - intros [(i & Hi) Hl]. pose proof (gen_issued t Hok _ _ _ Hi). case_if; [lia|].
    destruct (find_map _ _) as [e'|] eqn:Hf.
    + apply find_map_Some in Hf as (j & [[e''|] g'] & Hj & Hf); [|done].
      apply zip_slot in Hj. case_if; [|done]. injection Hf as ->. subst.
      assert (j = i) as -> by (by eapply (gen_unique t Hok)).
      destruct Hi, Hj. congruence.
    + apply zip_slot in Hi. apply (find_map_None _ _ Hf) in Hi. simpl in Hi.
      case_if; [done|]. destruct Heqb0 as [?|?]; bool_hyps; lia.
Qed.

Lemma gen_of_key_Some k now t g :
  gen_of_key k now t = Some g →
  (g ≠ 0)%Z ∧ ∃ e, bound t g e ∧ entry_key e = k ∧ (now < entry_expires e)%Z.
Proof.
  intros (i & [[e|] g'] & Hi & Hf)%find_map_Some; [|done]. apply zip_slot in Hi.
  case_if; [|done]. case_if; [|done]. injection Hf as ->.
  split; [done|]. exists e. split; [by exists i|]. split; [by apply key_is_true|lia].
Qed.

Lemma gen_ok_new N : gen_ok (gen_new N).
Proof.
  split; simpl.
  - by rewrite !length_replicate.
  - unfold_u64. lia.
  - intros i g. rewrite lookup_replicate. intros [-> _]. lia.
  - intros i e g [Hi _]. simpl in Hi. by apply lookup_replicate_None_slot in Hi.
  - intros i j e e' g [Hi _]. simpl in Hi. by apply lookup_replicate_None_slot in Hi.
Qed.

(** Emptying slots or rewriting entries in place keeps the bookkeeping right. *)
Lemma gen_ok_with_entries f t :
  gen_ok t → length (f (gt_entries t)) = length (gt_entries t) →
  (∀ i e, f (gt_entries t) !! i = Some (Some e) → ∃ e', gt_entries t !! i = Some (Some e')) →
  gen_ok (with_entries f t).
Proof.
  intros Hok Hlen Hsub.
  assert (Hheld : ∀ i e g, held (with_entries f t) i e g → ∃ e', held t i e' g).
  { intros i e g [Hi Hg]. destruct (Hsub i e Hi) as [e' He']. exists e'. by split. }
  split; simpl.
  - by rewrite Hlen, (gen_lengths t Hok).
  - apply Hok.
  - apply Hok.
  - intros i e g (e' & Hh)%Hheld. by eapply (gen_issued t Hok).
  - intros i j e e' g (x & Hx)%Hheld (y & Hy)%Hheld. by eapply (gen_unique t Hok).
Qed.

Lemma gen_ok_purge d t : gen_ok t → gen_ok (with_entries (purge d) t).
Proof.
  intros Hok. apply gen_ok_with_entries; [done|apply length_purge|].
  intros i e [Hi _]%lookup_purge_Some. eauto.
Qed.

Lemma gen_ok_insert_in_place idx e t :
  gen_ok t → (∃ old, gt_entries t !! idx = Some (Some old)) →
  gen_ok (with_entries (insert idx (Some e)) t).
Proof.
  intros Hok [old Hold]. apply gen_ok_with_entries; [done|apply length_insert|].
  intros i e' [[-> [= ->]]|[_ Hi]]%lookup_write_slot; eauto.
Qed.

Lemma gen_ok_delete idx t : gen_ok t → gen_ok (with_entries (insert idx None) t).
Proof.
  intros Hok. apply gen_ok_with_entries; [done|apply length_insert|].
  intros i e' [[_ [=]]|[_ Hi]]%lookup_write_slot; eauto.
Qed.

Lemma gen_ok_update_first p f t : gen_ok t → gen_ok (with_entries (update_first p f) t).
Proof.
  intros Hok. apply gen_ok_with_entries; [done|apply length_update_first|].
  intros i e'. rewrite lookup_update_first. repeat case_match; naive_solver.
Qed.

Lemma gen_next_Some t g :
  gen_ok t → gen_next t = Some g → g = (gt_last t + 1)%Z ∧ in_u64 g ∧ (0 < g)%Z.
Proof.
  intros Hok. unfold gen_next. case_if; [done|]. intros [-> Hle]%checked_add64_Some.
  pose proof (gen_last_range t Hok). unfold_u64. lia.
Qed.

Lemma gen_ok_store idx e g t :
  gen_ok t → gen_next t = Some g → idx < length (gt_entries t) → gen_ok (gen_store idx e g t).
Proof.
  intros Hok Hg Hidx. destruct (gen_next_Some t g Hok Hg) as (Hgl & Hrange & Hpos).
  pose proof (gen_lengths t Hok) as Hlen.
  assert (Hheld : ∀ i x h, held (gen_store idx e g t) i x h →
    (i = idx ∧ h = g) ∨ (i ≠ idx ∧ held t i x h)).
  { intros i x h [Hi Hh]. simpl in *.
    apply list_lookup_insert_Some in Hh as [(-> & -> & _)|[Hne Hh]]; [by left|].
    right. split; [done|]. split; [|done]. by rewrite list_lookup_insert_ne in Hi. }
  split; simpl.
  - by rewrite !length_insert.
  - done.
  - intros i h [(-> & -> & _)|[_ Hh]]%list_lookup_insert_Some; [lia|].
    pose proof (gen_range t Hok i h Hh). lia.
  - intros i x h [[_ ->]|[_ Hh]]%Hheld; [done|]. by eapply (gen_issued t Hok).
  - intros i j x y h Hx Hy.
    assert (∀ i x, held t i x g → False) as Hfresh.
    { intros k z [_ Hz]. pose proof (gen_range t Hok k g Hz). lia. }
    destruct (Hheld _ _ _ Hx) as [[-> Heq]|[_ Hx']], (Hheld _ _ _ Hy) as [[-> Heq']|[_ Hy']];
      subst; try done; try (by destruct (Hfresh _ _ Hx')); try (by destruct (Hfresh _ _ Hy')).
    by eapply (gen_unique t Hok).
Qed.

(** What is bound after a store was bound before, or is the new entry under the
    new generation. *)
Lemma bound_store idx e g t h x :
  gen_ok t → idx < length (gt_entries t) →
  bound (gen_store idx e g t) h x → (h = g ∧ x = e) ∨ bound t h x.
Proof.
  intros Hok Hidx (i & Hi & Hh). simpl in *.
  apply list_lookup_insert_Some in Hh as [(-> & -> & _)|[Hne Hh]].
  - left. rewrite lookup_written in Hi by done. naive_solver.
  - right. exists i. rewrite list_lookup_insert_ne in Hi by done. by split.
Qed.

Lemma bound_purge d t h x : bound (with_entries (purge d) t) h x → bound t h x ∧ d x = false.
Proof. intros (i & [Hi Hd]%lookup_purge_Some & Hh). split; [by exists i; split|done]. Qed.

(** ** Generations across operations *)

(** Operations may rewrite an entry in place; [R] is what they must preserve. *)
Section keeps.
Context (R : T → T → Prop) `{!PreOrder R}.

(** [t'] binds the generations [t] has issued only to what [t] bound them to. *)
Definition keeps t t' : Prop :=
  (gt_last t ≤ gt_last t')%Z ∧
  ∀ g e', (g ≤ gt_last t)%Z → bound t' g e' → ∃ e, bound t g e ∧ R e e'.

#[export] Instance keeps_preorder : PreOrder keeps.
Proof.
  split.
  - intros t. split; [lia|]. intros g e _ Hb. by exists e.
  - intros t1 t2 t3 [Hl1 H1] [Hl2 H2]. split; [lia|]. intros g e3 Hg Hb.
    destruct (H2 g e3) as (e2 & Hb2 & Hr2); [lia|done|].
    destruct (H1 g e2) as (e1 & Hb1 & Hr1); [done..|].
    exists e1. split; [done|]. by etrans.
Qed.

Lemma keeps_sub f t :
  (∀ i e', f (gt_entries t) !! i = Some (Some e') →
     ∃ e, gt_entries t !! i = Some (Some e) ∧ R e e') →
  keeps t (with_entries f t).
Proof.
  intros Hsub. split; [simpl; lia|]. intros g e' _ (i & Hi & Hg).
  destruct (Hsub i e' Hi) as (e & He & Hr). exists e. split; [|done]. by exists i.
Qed.

Lemma keeps_purge d t : keeps t (with_entries (purge d) t).
Proof. apply keeps_sub. intros i e [Hi _]%lookup_purge_Some. by exists e. Qed.

Lemma keeps_delete idx t : keeps t (with_entries (insert idx None) t).
Proof.
  apply keeps_sub. intros i e [[_ [=]]|[_ Hi]]%lookup_write_slot. by exists e.
Qed.

Lemma keeps_update_first p f t :
  (∀ e, R e (f e)) → keeps t (with_entries (update_first p f) t).
Proof.
  intros Hf. apply keeps_sub. intros i e'. rewrite lookup_update_first.
  destruct (gt_entries t !! i) as [[e|]|]; [|done..]. intros H. exists e. split; [done|].
  by case_match; simplify_eq.
Qed.

Lemma keeps_clear t : keeps t (gen_clear t).
Proof. apply keeps_sub. intros i e Hi. by apply lookup_replicate_None_slot in Hi. Qed.

Lemma keeps_store idx e g t :
  gen_ok t → gen_next t = Some g → idx < length (gt_entries t) → keeps t (gen_store idx e g t).
Proof.
  intros Hok Hn Hlt. destruct (gen_next_Some t g Hok Hn) as (-> & _ & _). split; [simpl; lia|].
  intros h x Hh [[-> ->]|Hb]%bound_store; [lia| |done..]. by exists x.
Qed.

(** A generation read for a key names, for ever after, what it named then. *)
Lemma keeps_generation t t' k g now now' e' :
  gen_ok t → gen_ok t' → keeps t t' →
  gen_of_key k now t = Some g → gen_get g now' t' = Some e' →
  ∃ e, bound t g e ∧ entry_key e = k ∧ (now < entry_expires e)%Z ∧ R e e'.
Proof.
  intros Hok Hok' [_ Hk] (_ & e & Hb & Hke & Hl)%gen_of_key_Some [Hb' _]%gen_get_Some; [|done].
  destruct Hb as (i & Hi). pose proof (gen_range t Hok i g (proj2 Hi)) as [_ Hle].
  destruct (Hk g e' Hle Hb') as (e0 & (j & Hj) & Hr).
  assert (i = j) as <- by (by eapply (gen_unique t Hok)).
  assert (e0 = e) as -> by (destruct Hi, Hj; congruence).
  exists e. split; [by exists i|done].
Qed.
End keeps.

Lemma gen_ok_clear t : gen_ok t → gen_ok (gen_clear t).
Proof.
  intros Hok. apply gen_ok_with_entries; [done|apply length_replicate|].
  intros i e Hi. by apply lookup_replicate_None_slot in Hi.
Qed.

(** ** Insertion by key *)

(** The insertion the reverse and link tables share: purge, then reuse the key's
    slot, a free slot or the earliest-expiring one, under a new generation. *)
Definition gen_insert (entry : T) (now : Z) t : GenTable T :=
  let t := with_entries (expire_slots now) t in
  match gen_next t with
  | None => t
  | Some g =>
      match or_else (position (slot_is (key_is (entry_key entry))) (gt_entries t))
              (or_else (position is_none (gt_entries t))
                       (oldest_index entry_expires (gt_entries t))) with
      | Some idx => gen_store idx entry g t
      | None => t
      end
  end.

(** The slot [gen_insert] writes, and what it held. *)
Lemma gen_insert_slot entry l idx :
  unique_keys l →
  or_else (position (slot_is (key_is (entry_key entry))) l)
    (or_else (position is_none l) (oldest_index entry_expires l)) = Some idx →
  idx < length l ∧ unique_keys (<[idx := Some entry]> l) ∧
  ∀ v, l !! idx = Some (Some v) → entry_key v ≠ entry_key entry →
    (∀ j, j < length l → ∃ e, l !! j = Some (Some e)) ∧
    (∀ j e, l !! j = Some (Some e) → entry_key e ≠ entry_key entry ∧
                                   (entry_expires v ≤ entry_expires e)%Z).
Proof.
  intros Hu. unfold or_else at 1.
  destruct (position (slot_is _) l) as [k|] eqn:Hp.
  - intros [= ->]. split; [by eapply position_lt|]. split; [by apply unique_keys_upsert_hit|].
    apply position_slot_Some in Hp as (e & He & Hk%key_is_true & _). intros v Hv Hne. congruence.
  - intros [Hlt Hslot]%free_or_oldest_Some. split; [done|].
    split; [by apply unique_keys_upsert_miss|]. intros v Hv _.
    destruct Hslot as [Hn|(Hfull & v' & Hv' & Hmin)]; [congruence|]. split; [done|].
    assert (v' = v) as -> by congruence. intros j e Hj. split; [|by apply (Hmin j)].
    rewrite position_slot_None in Hp. by apply Hp, key_is_false in Hj.
Qed.

Lemma gen_insert_ok entry now t :
  gen_ok t → unique_keys (gt_entries t) →
  gen_ok (gen_insert entry now t) ∧ unique_keys (gt_entries (gen_insert entry now t)).
Proof.
  intros Hok Hu. unfold gen_insert.
  pose proof (gen_ok_purge (expired now) t Hok) as Hok1.
  pose proof (unique_keys_purge (expired now) _ Hu) as Hu1.
  destruct (gen_next _) as [g|] eqn:Hn; [|done].
  destruct (or_else _ _) as [idx|] eqn:Hs; [|done].
  destruct (gen_insert_slot entry _ idx Hu1 Hs) as (Hlt & Hu2 & _).
  split; [by apply gen_ok_store|done].
Qed.

Lemma gen_insert_keeps R `{!PreOrder R} entry now t :
  gen_ok t → unique_keys (gt_entries t) → keeps R t (gen_insert entry now t).
Proof.
  intros Hok Hu. unfold gen_insert.
  pose proof (gen_ok_purge (expired now) t Hok) as Hok1.
  pose proof (unique_keys_purge (expired now) _ Hu) as Hu1.
  assert (Hk : keeps R t (with_entries (expire_slots now) t)) by apply keeps_purge, _.
  destruct (gen_next _) as [g|] eqn:Hn; [|done].
  destruct (or_else _ _) as [idx|] eqn:Hs; [|done].
  destruct (gen_insert_slot entry _ idx Hu1 Hs) as (Hlt & _). etrans; [exact Hk|].
  by apply keeps_store.
Qed.

(** A live entry that an insertion displaces: another key's, in a full table,
    and no other live entry expires before it. *)
Lemma gen_insert_evicts entry now t i v :
  gen_ok t → unique_keys (gt_entries t) →
  gt_entries t !! i = Some (Some v) → (now < entry_expires v)%Z →
  entry_key v ≠ entry_key entry →
  gt_entries (gen_insert entry now t) !! i ≠ Some (Some v) →
  (∀ j, j < length (gt_entries t) → ∃ e, gt_entries t !! j = Some (Some e) ∧
     (now < entry_expires e)%Z ∧ entry_key e ≠ entry_key entry ∧
     (entry_expires v ≤ entry_expires e)%Z).
Proof.
  intros Hok Hu Hi Hl Hne. unfold gen_insert.
  assert (Hi' : expire_slots now (gt_entries t) !! i = Some (Some v)) by (by apply lookup_expire).
  pose proof (unique_keys_purge (expired now) _ Hu) as Hu1.
  destruct (gen_next _) as [g|] eqn:Hn; [|done].
  destruct (or_else _ _) as [idx|] eqn:Hs; [|done]. simpl.
  destruct (gen_insert_slot entry _ idx Hu1 Hs) as (Hlt & _ & Hev). simpl in *.
  destruct (decide (idx = i)) as [->|Hii]; [|by rewrite list_lookup_insert_ne].
  intros _. destruct (Hev v Hi' Hne) as [Hfull Hmin]. intros j Hj.
  destruct (Hfull j) as [e He]; [by rewrite length_purge|].
  destruct (Hmin j e He). apply lookup_expire in He as [He Hle]. by exists e.
Qed.

(** The inserted entry is bound to the newest generation. *)
Lemma gen_insert_binds entry now t :
  gen_ok t → unique_keys (gt_entries t) → (gt_last t < u64_max)%Z → 0 < length (gt_entries t) →
  gt_last (gen_insert entry now t) = (gt_last t + 1)%Z ∧
  bound (gen_insert entry now t) (gt_last t + 1) entry.
Proof.
  intros Hok Hu Hlast Hlen. unfold gen_insert.
  pose proof (gen_ok_purge (expired now) t Hok) as Hok1.
  pose proof (unique_keys_purge (expired now) _ Hu) as Hu1.
  assert (Hn : gen_next (with_entries (expire_slots now) t) = Some (gt_last t + 1)%Z).
  { unfold gen_next, checked_add64. simpl. unfold expire_slots. rewrite length_purge.
    rewrite (proj2 (Nat.eqb_neq _ _)), (proj2 (Z.leb_le _ _)) by lia. done. }
  rewrite Hn. destruct (or_else _ _) as [idx|] eqn:Hs.
  - destruct (gen_insert_slot entry _ idx Hu1 Hs) as (Hlt & _ & _). split; [done|].
    exists idx. split; simpl; [by apply lookup_written|].
    apply list_lookup_insert_eq. pose proof (gen_lengths _ Hok1) as Hgl. simpl in *. lia.
  - unfold or_else at 1 in Hs. destruct (position (slot_is _) _); [done|].
    apply free_or_oldest_None in Hs. simpl in Hs. exfalso.
    rewrite <- (length_purge (expired now) (gt_entries t)) in Hlen. unfold expire_slots in Hs.
    rewrite Hs in Hlen. simpl in Hlen. lia.
Qed.

End gen_table.

#[export] Hint Resolve gen_ok_new gen_ok_purge gen_ok_delete gen_ok_update_first : lite.
