(* ===== verification/PathTable.v ===== *)
(** The path table (src/src/tables.rs, [PathTable]): one route per destination,
    learned from validated announces, with anti-replay on the announce's
    emission time, bulk-aware eviction and route incarnations.

    Properties: the table invariant and its preservation; which announces
    replace a retained route; what a new destination may displace; and that a
    route incarnation held by queued bytes never comes to name another route. *)

From S2P Require Import Prelude Constants Slots GenTable.

Record PathEntry := {
  pe_destination_hash : list Z;
  pe_next_hop : option (list Z);
  pe_hops : Z;
  pe_interface_id : Z;
  pe_expires_ms : Z;
  pe_last_seen_ms : Z;
  pe_packet_hash : list Z;
  pe_random_hash : list Z;
  pe_public_key : list Z;
  pe_bulk : bool
}.

#[export] Instance PathEntry_entry : Entry PathEntry (list Z) :=
  {| entry_key := pe_destination_hash; entry_expires := pe_expires_ms |}.

Abbreviation PathTable := (GenTable PathEntry).

(** [random_hash[5..10]] as a big-endian integer, through an 8-byte buffer. *)
Definition announce_emitted (random_hash : list Z) : Z :=
  of_be (zeros 3 ++ slice random_hash 5 10).

Definition is_live (e : PathEntry) (now_ms : Z) : bool := (now_ms <? pe_expires_ms e)%Z.

Module PathTable.

Definition new (N : nat) : PathTable := gen_new N.
Definition clear (t : PathTable) : PathTable := gen_clear t.
Definition next_generation (t : PathTable) : option Z := gen_next t.
Definition generation (key : list Z) (now_ms : Z) (t : PathTable) : option Z :=
  gen_of_key key now_ms t.
Definition get_generation (g now_ms : Z) (t : PathTable) : option PathEntry :=
  gen_get g now_ms t.

Definition get (dest : list Z) (t : PathTable) : option PathEntry :=
  find (λ e, pe_destination_hash e =k dest) (flatten (gt_entries t)).

Definition get_live (dest : list Z) (now_ms : Z) (t : PathTable) : option PathEntry :=
  match get dest t with
  | Some e => if is_live e now_ms then Some e else None
  | None => None
  end.

Definition touch_entry (now_ms : Z) (e : PathEntry) : PathEntry :=
  let lifetime := sat_sub (pe_expires_ms e) (pe_last_seen_ms e) in
  {| pe_destination_hash := pe_destination_hash e; pe_next_hop := pe_next_hop e;
     pe_hops := pe_hops e; pe_interface_id := pe_interface_id e;
     pe_expires_ms := sat_add64 now_ms lifetime; pe_last_seen_ms := now_ms;
     pe_packet_hash := pe_packet_hash e; pe_random_hash := pe_random_hash e;
     pe_public_key := pe_public_key e; pe_bulk := pe_bulk e |}.

Definition touch (dest : list Z) (now_ms : Z) (t : PathTable) : PathTable :=
  with_entries (update_first (λ e, (pe_destination_hash e =k dest) && is_live e now_ms)
                             (touch_entry now_ms)) t.

Definition known_public_key (dest : list Z) (t : PathTable) : option (list Z) :=
  pe_public_key <$> get dest t.

Definition drop_path (dest : list Z) (t : PathTable) : bool * PathTable :=
  match position (slot_is (λ e, pe_destination_hash e =k dest)) (gt_entries t) with
  | Some idx => (true, with_entries (insert idx None) t)
  | None => (false, t)
  end.

Definition remove_interface (interface : Z) (t : PathTable) : PathTable :=
  with_entries (purge (λ e, (pe_interface_id e =? interface)%Z)) t.

Definition live_count (now_ms : Z) (t : PathTable) : nat :=
  length (List.filter (λ e, is_live e now_ms) (flatten (gt_entries t))).

Definition expire (now_ms : Z) (t : PathTable) : PathTable :=
  with_entries (purge (λ e, negb (is_live e now_ms))) t.

(** The route of an entry: what queued bytes depend on. *)
Definition same_route (old entry : PathEntry) : bool :=
  (pe_destination_hash old =k pe_destination_hash entry)
  && (pe_interface_id old =? pe_interface_id entry)%Z
  && (pe_next_hop old =k pe_next_hop entry)
  && (pe_hops old =? pe_hops entry)%Z.

Definition replace_entry (idx : nat) (entry : PathEntry) (t : PathTable) : bool * PathTable :=
  if slot_is (λ old, same_route old entry) (mjoin (gt_entries t !! idx)) then
    (true, with_entries (insert idx (Some entry)) t)
  else
    match next_generation t with
    | None => (false, t)
    | Some g => (true, gen_store idx entry g t)
    end.

Definition should_replace (old entry : PathEntry) (now_ms : Z) : bool :=
  let new_emitted := announce_emitted (pe_random_hash entry) in
  let old_emitted := announce_emitted (pe_random_hash old) in
  let random_seen := pe_random_hash entry =k pe_random_hash old in
  if (pe_hops entry <=? pe_hops old)%Z then negb random_seen && (old_emitted <? new_emitted)%Z
  else if negb (is_live old now_ms) || (old_emitted <? new_emitted)%Z then negb random_seen
  else false.

Definition insert_or_update (entry : PathEntry) (now_ms : Z) (t : PathTable) : bool * PathTable :=
  let t := expire now_ms t in
  match position (slot_is (λ old, pe_destination_hash old =k pe_destination_hash entry))
                 (gt_entries t) with
  | Some idx =>
      match mjoin (gt_entries t !! idx) with
      | Some old =>
          if should_replace old entry now_ms then replace_entry idx entry t else (false, t)
      | None => (false, t)  (* [unwrap] of a slot found occupied *)
      end
  | None =>
      match or_else (position is_none (gt_entries t))
                    (class_victim (pe_bulk entry) pe_bulk pe_expires_ms (gt_entries t)) with
      | Some idx => replace_entry idx entry t
      | None => (false, t)
      end
  end.

(** * Invariant *)

Definition ok (t : PathTable) : Prop := gen_ok t ∧ unique_keys (gt_entries t).

Lemma expire_eq now t : expire now t = with_entries (expire_slots now) t.
Proof.
  unfold expire, expire_slots, with_entries. f_equal. unfold purge. apply map_ext.
  intros [e|]; [|done]. simpl. unfold is_live, expired. simpl.
  destruct (now <? pe_expires_ms e)%Z eqn:?, (pe_expires_ms e <=? now)%Z eqn:?; try done;
    bool_hyps; lia.
Qed.

Lemma path_ok_expire now t : ok t → ok (expire now t).
Proof. intros [Hg Hu]. split; [by apply gen_ok_purge|by apply unique_keys_purge]. Qed.

Lemma same_route_true old e :
  same_route old e = true ↔
  pe_destination_hash old = pe_destination_hash e ∧ pe_interface_id old = pe_interface_id e ∧
  pe_next_hop old = pe_next_hop e ∧ pe_hops old = pe_hops e.
Proof.
  unfold same_route. rewrite !andb_true_iff, !bool_decide_eq_true, !Z.eqb_eq. tauto.
Qed.

(** Writing an entry to a slot that holds its destination, or into a table that
    does not know the destination. *)
Definition slot_fits (idx : nat) (entry : PathEntry) (t : PathTable) : Prop :=
  idx < length (gt_entries t) ∧
  ∀ j x, gt_entries t !! j = Some (Some x) →
         pe_destination_hash x = pe_destination_hash entry → j = idx.

Lemma replace_entry_spec idx entry t :
  ok t → slot_fits idx entry t →
  let (done_, t') := replace_entry idx entry t in
  ok t' ∧ length (gt_entries t') = length (gt_entries t) ∧
  (done_ = false → t' = t ∧ next_generation t = None) ∧
  (done_ = true → gt_entries t' = <[idx := Some entry]> (gt_entries t)).
Proof.
  intros [Hg Hu] [Hlt Hfit]. unfold replace_entry.
  assert (Huniq : unique_keys (<[idx := Some entry]> (gt_entries t)))
    by (by apply unique_keys_insert).
  case_if.
  - split; [|split; [apply length_insert|split; [done|done]]].
    split; [|done]. apply gen_ok_insert_in_place; [done|].
    destruct (gt_entries t !! idx) as [[old|]|]; [eauto|done..].
  - destruct (next_generation t) as [g|] eqn:Hn.
    + split; [|split; [apply length_insert|split; [done|done]]].
      split; [by apply gen_ok_store|done].
    + split; [by split|]. by split.
Qed.

(** The two ways [insert_or_update] finds a slot. *)
Lemma hit_fits idx entry t :
  ok t →
  position (slot_is (λ old, pe_destination_hash old =k pe_destination_hash entry)) (gt_entries t)
    = Some idx →
  slot_fits idx entry t ∧
  ∃ old, gt_entries t !! idx = Some (Some old) ∧ pe_destination_hash old = pe_destination_hash entry.
Proof.
  intros [_ Hu] Hp. pose proof (position_lt _ _ _ Hp) as Hlt.
  apply position_slot_Some in Hp as (old & Hold & Hk & _). apply bool_decide_eq_true in Hk.
  split; [|by exists old]. split; [done|]. intros j x Hx Hkx.
  apply (Hu j idx x old); [done..|]. simpl. congruence.
Qed.

Lemma miss_fits idx entry t :
  position (slot_is (λ old, pe_destination_hash old =k pe_destination_hash entry)) (gt_entries t)
    = None →
  idx < length (gt_entries t) → slot_fits idx entry t.
Proof.
  intros Hp Hlt. rewrite position_slot_None in Hp. split; [done|].
  intros j x Hx Hk. apply Hp, bool_decide_eq_false in Hx. done.
Qed.

Lemma path_ok_insert entry now t :
  ok t → ok (snd (insert_or_update entry now t)) ∧
  length (gt_entries (snd (insert_or_update entry now t))) = length (gt_entries t).
Proof.
  intros Hok. pose proof (path_ok_expire now t Hok) as Hoke. unfold insert_or_update.
  assert (Hlen : length (gt_entries (expire now t)) = length (gt_entries t)) by apply length_purge.
  destruct (position _ _) as [idx|] eqn:Hp.
  - destruct (hit_fits idx entry _ Hoke Hp) as (Hfit & old & -> & _). simpl.
    case_if; [|done].
    pose proof (replace_entry_spec idx entry _ Hoke Hfit) as Hr.
    destruct (replace_entry _ _ _) as [b t']. destruct Hr as (? & ? & _). simpl. by rewrite <- Hlen.
  - destruct (or_else _ _) as [idx|] eqn:Hr; [|done].
    destruct (free_or_class_Some _ _ _ _ _ Hr) as [Hlt _].
    pose proof (replace_entry_spec idx entry _ Hoke (miss_fits idx entry _ Hp Hlt)) as Hre.
    destruct (replace_entry _ _ _) as [b t']. destruct Hre as (? & ? & _). simpl. by rewrite <- Hlen.
Qed.

Lemma path_ok_touch dest now t : ok t → ok (touch dest now t).
Proof.
  intros [Hg Hu]. split; [by apply gen_ok_update_first|].
  by apply unique_keys_update_first.
Qed.

Lemma path_ok_drop dest t : ok t → ok (snd (drop_path dest t)).
Proof.
  intros [Hg Hu]. unfold drop_path. destruct (position _ _); simpl; [|done].
  split; [by apply gen_ok_delete|by apply unique_keys_delete].
Qed.

Lemma path_ok_remove_interface i t : ok t → ok (remove_interface i t).
Proof. intros [Hg Hu]. split; [by apply gen_ok_purge|by apply unique_keys_purge]. Qed.

Lemma path_ok_clear t : ok t → ok (clear t).
Proof.
  intros [Hg Hu]. split; [|apply unique_keys_empty].
  apply gen_ok_with_entries; [done|apply length_replicate|].
  intros i e Hi. by apply lookup_replicate_None_slot in Hi.
Qed.

Lemma path_ok_new N : ok (new N).
Proof. split; [apply gen_ok_new|apply unique_keys_empty]. Qed.

Lemma get_Some dest t e :
  ok t → get dest t = Some e ↔
  pe_destination_hash e = dest ∧ ∃ i, gt_entries t !! i = Some (Some e).
Proof. intros [_ Hu]. apply (find_key_Some dest _ e Hu). Qed.

(** * Which announces replace a retained route *)

Lemma should_replace_live old entry now :
  is_live old now = true →
  should_replace old entry now =
  (announce_emitted (pe_random_hash old) <? announce_emitted (pe_random_hash entry))%Z.
Proof.
  intros Hl. unfold should_replace. rewrite Hl. simpl.
  destruct (bool_decide (pe_random_hash entry = pe_random_hash old)) eqn:Hr.
  - apply bool_decide_eq_true in Hr. rewrite Hr, Z.ltb_irrefl. by case_if.
  - by repeat case_if.
Qed.

(** The retained route, in the table [insert_or_update] works on. *)
Lemma live_slot dest now t old :
  ok t → get_live dest now t = Some old →
  ∃ idx, gt_entries t !! idx = Some (Some old) ∧ pe_destination_hash old = dest ∧
    is_live old now = true ∧
    gt_entries (expire now t) !! idx = Some (Some old) ∧
    ∀ entry, pe_destination_hash entry = dest →
      position (slot_is (λ old, pe_destination_hash old =k pe_destination_hash entry))
               (gt_entries (expire now t)) = Some idx.
Proof.
  intros Hok Hg. unfold get_live in Hg. destruct (get dest t) as [e|] eqn:He; [|done].
  case_if; [|done]. injection Hg as ->. apply (get_Some dest t old Hok) in He as (Hd & idx & Hi).
  assert (Hie : gt_entries (expire now t) !! idx = Some (Some old)).
  { simpl. apply lookup_purge_Some. by rewrite Heqb. }
  exists idx. do 4 (split; [done|]). intros entry Hde.
  destruct (position _ _) as [k|] eqn:Hp.
  - destruct (hit_fits k entry _ (path_ok_expire now t Hok) Hp) as ([_ Hk] & _).
    f_equal. symmetry. apply (Hk idx old Hie). congruence.
  - rewrite position_slot_None in Hp. apply Hp, bool_decide_eq_false in Hie. congruence.
Qed.

Lemma no_live_slot entry now t :
  ok t → get_live (pe_destination_hash entry) now t = None →
  position (slot_is (λ old, pe_destination_hash old =k pe_destination_hash entry))
           (gt_entries (expire now t)) = None.
Proof.
  intros Hok Hn. apply position_slot_None. intros i e Hi. apply bool_decide_eq_false.
  intros Hd. simpl in Hi. apply lookup_purge_Some in Hi as [Hi Hl]. apply negb_false_iff in Hl.
  unfold get_live in Hn. rewrite (proj2 (get_Some _ t e Hok)) in Hn by eauto.
  by rewrite Hl in Hn.
Qed.

(** Looking up a destination after one slot was written. *)
Lemma get_after_store dest entry idx t t' :
  ok t' → gt_entries t' = <[idx := Some entry]> (gt_entries t) → idx < length (gt_entries t) →
  get (pe_destination_hash entry) t' = Some entry ∧
  ∀ e, get dest t' = Some e → e = entry ∨ ∃ i, i ≠ idx ∧ gt_entries t !! i = Some (Some e).
Proof.
  intros Hok Heq Hlt. split.
  - apply get_Some; [done|]. split; [done|]. exists idx. by rewrite Heq, lookup_written.
  - intros e (_ & i & Hi)%get_Some; [|done]. rewrite Heq in Hi.
    apply lookup_write_slot in Hi as [[_ [= ->]]|[Hne Hi]]; [by left|]. right. exists i.
    split; [congruence|done].
Qed.

(** * Route incarnations *)

Inductive step : PathTable → PathTable → Prop :=
| step_insert entry now t : step t (snd (insert_or_update entry now t))
| step_touch dest now t : step t (touch dest now t)
| step_drop dest t : step t (snd (drop_path dest t))
| step_remove_interface i t : step t (remove_interface i t)
| step_expire now t : step t (expire now t)
| step_clear t : step t (clear t).

Definition on_route (e e' : PathEntry) : Prop := same_route e e' = true.

#[export] Instance on_route_preorder : PreOrder on_route.
Proof.
  unfold on_route. split.
  - intros e. by apply same_route_true.
  - intros e1 e2 e3. rewrite !same_route_true. naive_solver congruence.
Qed.

Lemma keeps_replace idx entry t :
  ok t → slot_fits idx entry t → keeps on_route t (snd (replace_entry idx entry t)).
Proof.
  intros [Hg Hu] [Hlt _]. unfold replace_entry. case_if; simpl.
  - apply keeps_sub. intros i e [[<- [= <-]]|[_ Hi]]%lookup_write_slot; [|by exists e].
    destruct (gt_entries t !! idx) as [[old|]|]; [|done..]. by exists old.
  - destruct (next_generation t) as [g|] eqn:Hn; simpl; [apply (keeps_store on_route); [done|exact Hn|done]|done].
Qed.

Lemma step_keeps t t' : ok t → step t t' → ok t' ∧ keeps on_route t t'.
Proof.
  intros Hok Hs. destruct Hs as [entry now t|dest now t|dest t|i t|now t|t].
  - split; [by apply path_ok_insert|]. pose proof (path_ok_expire now t Hok) as Hoke.
    trans (expire now t); [apply keeps_purge, _|]. unfold insert_or_update.
    destruct (position _ _) as [idx|] eqn:Hp.
    + destruct (hit_fits idx entry _ Hoke Hp) as (Hfit & old & -> & _). simpl.
      case_if; [by apply keeps_replace|done].
    + destruct (or_else _ _) as [idx|] eqn:Hr; [|done].
      destruct (free_or_class_Some _ _ _ _ _ Hr) as [Hlt _].
      apply keeps_replace; [done|by apply miss_fits].
  - split; [by apply path_ok_touch|]. apply keeps_update_first; [apply _|].
    intros e. by apply same_route_true.
  - split; [by apply path_ok_drop|]. unfold drop_path.
    destruct (position _ _); [apply keeps_delete, _|done].
  - split; [by apply path_ok_remove_interface|apply keeps_purge, _].
  - split; [by apply path_ok_expire|apply keeps_purge, _].
  - split; [by apply path_ok_clear|apply keeps_clear].
Qed.

Lemma steps_keep t t' : ok t → rtc step t t' → ok t' ∧ keeps on_route t t'.
Proof.
  intros Hok Hs. induction Hs as [t|t1 t2 t3 Hst _ IH]; [done|].
  destruct (step_keeps t1 t2 Hok Hst) as [Hok2 Hk]. destruct (IH Hok2) as [Hok3 Hk'].
  split; [done|]. by etrans.
Qed.

(** * Properties *)

(** Every operation keeps the path table well-formed: at most one route per
    destination, the generation array in step with the slots, and the issued
    generations distinct, nonzero and no greater than the last one issued. *)
Lemma path_table_invariant :
  (∀ N, ok (new N)) ∧ (∀ t t', ok t → step t t' → ok t').
Proof. split; [apply path_ok_new|]. intros t t' Hok Hs. exact (proj1 (step_keeps t t' Hok Hs)). Qed.

(** C16: replay protection of a retained route. An announce for a destination
    with a live route is refused, leaving every live route in place, unless its
    emission time is strictly newer than the stored one; a strictly newer one is
    stored whatever its hop count, the one exception being a changed route when
    no generation number is left. *)
Theorem path_update_iff_newer entry now t old :
  ok t → get_live (pe_destination_hash entry) now t = Some old →
  let newer := (announce_emitted (pe_random_hash old)
                <? announce_emitted (pe_random_hash entry))%Z in
  let (replaced, t') := insert_or_update entry now t in
  (newer = false → replaced = false ∧ t' = expire now t) ∧
  (newer = true →
     (replaced = true ∧ get (pe_destination_hash entry) t' = Some entry) ∨
     (replaced = false ∧ t' = expire now t ∧ same_route old entry = false ∧
      gt_last t = u64_max)).
Proof.
  intros Hok Hl. destruct (live_slot _ now t old Hok Hl) as (idx & _ & _ & Hlive & Hidx & Hpos).
  unfold insert_or_update. rewrite (Hpos entry eq_refl), Hidx. simpl mjoin.
  pose proof (path_ok_expire now t Hok) as Hoke.
  destruct (hit_fits idx entry _ Hoke (Hpos entry eq_refl)) as (Hfit & _).
  rewrite (should_replace_live old entry now Hlive).
  destruct (announce_emitted _ <? announce_emitted _)%Z; [|done].
  pose proof (replace_entry_spec idx entry _ Hoke Hfit) as Hr.
  unfold replace_entry in *. rewrite Hidx in *. simpl slot_is in *.
  destruct (same_route old entry) eqn:Hsr.
  - destruct Hr as (Hok' & _ & _ & Heq). split; [done|]. intros _. left. split; [done|].
    eapply (get_after_store []); [done|by apply Heq|apply Hfit].
  - destruct (next_generation (expire now t)) as [g|] eqn:Hg.
    + destruct Hr as (Hok' & _ & _ & Heq). split; [done|]. intros _. left. split; [done|].
      eapply (get_after_store []); [done|by apply Heq|apply Hfit].
    + split; [done|]. intros _. right. repeat split; try done.
      unfold next_generation, gen_next in Hg. destruct Hfit as [Hlt _]. case_if; [lia|].
      unfold checked_add64 in Hg. case_if; [done|]. simpl in *.
      pose proof (gen_last_range t (proj1 Hok)). unfold_u64. lia.
Qed.

(** What a newly heard destination may displace. A stored announce is
    retrievable; the only route that can be lost is one victim of a full table,
    which is a bulk route if the table has any, is never a non-bulk route when
    the newcomer is bulk, and expires no later than the other routes of its
    class; and a refusal changes nothing beyond dropping expired routes. *)
Lemma path_new_destination entry now t :
  ok t → get_live (pe_destination_hash entry) now t = None →
  let (stored, t') := insert_or_update entry now t in
  (stored = false → t' = expire now t) ∧
  (stored = true → get (pe_destination_hash entry) t' = Some entry) ∧
  (∀ dest e, get_live dest now t = Some e → get_live dest now t' ≠ Some e →
     stored = true ∧
     (∀ i, i < length (gt_entries t) → ∃ x, gt_entries (expire now t) !! i = Some (Some x)) ∧
     (pe_bulk entry = true → pe_bulk e = true) ∧
     (pe_bulk e = false → ∀ d x, get_live d now t = Some x → pe_bulk x = false) ∧
     (∀ d x, get_live d now t = Some x → pe_bulk x = pe_bulk e →
        (pe_expires_ms e ≤ pe_expires_ms x)%Z)).
Proof.
  intros Hok Hn. pose proof (path_ok_expire now t Hok) as Hoke.
  pose proof (no_live_slot entry now t Hok Hn) as Hmiss.
  assert (Hkept : ∀ dest e t', ok t' → get_live dest now t = Some e →
    (∀ i, gt_entries (expire now t) !! i = Some (Some e) → gt_entries t' !! i = Some (Some e)) →
    get_live dest now t' = Some e).
  { intros dest e t' Hok' Hl Hsub. destruct (live_slot dest now t e Hok Hl) as (i & _ & Hd & Hlv & Hi & _).
    unfold get_live. rewrite (proj2 (get_Some dest t' e Hok')) by eauto. by rewrite Hlv. }
  unfold insert_or_update. rewrite Hmiss.
  destruct (or_else _ _) as [idx|] eqn:Hr.
  2: { split; [done|]. split; [done|]. intros dest e Hl Hnl. destruct Hnl. by apply Hkept. }
  destruct (free_or_class_Some _ _ _ _ _ Hr) as [Hlt Hslot].
  pose proof (miss_fits idx entry _ Hmiss Hlt) as Hfit.
  pose proof (replace_entry_spec idx entry _ Hoke Hfit) as Hre.
  destruct (replace_entry idx entry (expire now t)) as [stored t'].
  destruct Hre as (Hok' & Hlen & Hf & Ht). split; [intros Hs; by apply Hf|]. split.
  { intros Hs. eapply (get_after_store []); [done|by apply Ht|done]. }
  intros dest e Hl Hnl. destruct stored.
  2: { destruct Hnl. apply Hkept; [done..|]. by destruct (Hf eq_refl) as [-> _]. }
  split; [done|]. specialize (Ht eq_refl).
  destruct (live_slot dest now t e Hok Hl) as (i & _ & Hd & Hlv & Hi & _).
  assert (i = idx) as ->.
  { destruct (decide (i = idx)); [done|]. destruct Hnl. apply Hkept; [done..|]. intros k Hk.
    rewrite Ht. assert (k = i) as -> by (apply (proj2 Hoke k i e e); done).
    by rewrite list_lookup_insert_ne. }
  destruct Hslot as [Hnone|(Hfull & v & Hv & Hb & Hcls & Hmin)]; [congruence|].
  rewrite Hi in Hv. injection Hv as <-.
  assert (Hlen' : length (gt_entries (expire now t)) = length (gt_entries t)) by apply length_purge.
  rewrite Hlen' in Hfull. split; [done|]. split; [done|]. split.
  - intros Hbe d x Hx. destruct (live_slot d now t x Hok Hx) as (j & _ & _ & _ & Hj & _). eauto.
  - intros d x Hx Hbx. destruct (live_slot d now t x Hok Hx) as (j & _ & _ & _ & Hj & _). eauto.
Qed.

(** C22: a route incarnation is never recycled. If a generation was read for a
    destination, then after any further operations on the table that generation
    names nothing, or an entry with the same destination, interface, next hop
    and hop count: bytes queued for one route are never released for another. *)
Theorem path_generation_never_recycled t t' dest g now now' e' :
  ok t → generation dest now t = Some g → rtc step t t' → get_generation g now' t' = Some e' →
  ∃ e, get_live dest now t = Some e ∧ same_route e e' = true.
Proof.
  intros Hok Hg Hs Hget. destruct (steps_keep t t' Hok Hs) as [Hok' Hkeep].
  destruct (keeps_generation on_route t t' dest g now now' e' (proj1 Hok) (proj1 Hok') Hkeep Hg Hget)
    as (e & (i & Hi & _) & Hk & Hl & Hr).
  exists e. split; [|done]. unfold get_live. rewrite (proj2 (get_Some dest t e Hok)) by eauto.
  unfold is_live. simpl in Hl. by rewrite (proj2 (Z.ltb_lt _ _) Hl).
Qed.

End PathTable.

(** ** Witnesses *)

Module PathExample.
Import PathTable.
(** An announce for destination [d] with emission time [emitted]. *)
Definition entry (d emitted expires : Z) (bulk : bool) : PathEntry :=
  {| pe_destination_hash := replicate 16 d; pe_next_hop := None; pe_hops := 1;
     pe_interface_id := 0; pe_expires_ms := expires; pe_last_seen_ms := 0;
     pe_packet_hash := zeros 32; pe_random_hash := zeros 5 ++ be_bytes 5 emitted;
     pe_public_key := zeros 64; pe_bulk := bulk |}.

(** A one-slot table that has learned a bulk route to destination 1. *)
Definition one : PathTable := snd (insert_or_update (entry 1 100 5000 true) 0 (new 1)).

Lemma one_ok : ok one.
Proof. apply path_ok_insert, path_ok_new. Qed.
End PathExample.

Lemma path_table_invariant_witness :
  PathTable.ok (PathTable.touch (replicate 16 1%Z) 10 PathExample.one).
Proof.
  apply (proj2 PathTable.path_table_invariant PathExample.one).
  - apply (proj2 PathTable.path_table_invariant (PathTable.new 1)).
    + apply (proj1 PathTable.path_table_invariant 1).
    + apply PathTable.step_insert.
  - apply PathTable.step_touch.
Defined.

(** A replayed announce is refused, a newer one from farther away is taken. *)
Lemma path_update_iff_newer_witness :
  fst (PathTable.insert_or_update (PathExample.entry 1 100 9000 true) 10 PathExample.one) = false ∧
  fst (PathTable.insert_or_update (PathExample.entry 1 101 9000 true) 10 PathExample.one) = true.
Proof.
  pose proof (PathTable.path_update_iff_newer (PathExample.entry 1 100 9000 true) 10
    PathExample.one (PathExample.entry 1 100 5000 true) PathExample.one_ok eq_refl) as [H _].
  split; [apply H; reflexivity|].
  destruct (PathTable.path_update_iff_newer (PathExample.entry 1 101 9000 true) 10
    PathExample.one (PathExample.entry 1 100 5000 true) PathExample.one_ok eq_refl) as [_ [[H' _]|H']];
    [reflexivity|exact H'|].
  destruct H' as (_ & _ & H' & _). discriminate H'.
Defined.

(** A second bulk destination displaces the bulk route of a full table. *)
Lemma path_new_destination_witness :
  PathTable.get (replicate 16 2%Z)
    (snd (PathTable.insert_or_update (PathExample.entry 2 1 9000 true) 10 PathExample.one))
  = Some (PathExample.entry 2 1 9000 true).
Proof.
  pose proof (PathTable.path_new_destination (PathExample.entry 2 1 9000 true) 10
    PathExample.one PathExample.one_ok eq_refl) as (_ & H & _).
  apply H. reflexivity.
Defined.

(** Relearning the destination over the same route keeps its generation. *)
Lemma path_generation_never_recycled_witness :
  ∃ e, PathTable.get_live (replicate 16 1%Z) 10 PathExample.one = Some e ∧
       PathTable.same_route e (PathExample.entry 1 101 9000 true) = true.
Proof.
  apply (PathTable.path_generation_never_recycled PathExample.one
    (snd (PathTable.insert_or_update (PathExample.entry 1 101 9000 true) 10 PathExample.one))
    (replicate 16 1%Z) 1 10 20 (PathExample.entry 1 101 9000 true)).
  - exact PathExample.one_ok.
  - reflexivity.
  - apply rtc_once, PathTable.step_insert.
  - reflexivity.
Defined.
