(* ===== verification/Lora.v ===== *)
(** LoRa framing, airtime estimation and the airtime limiter (src/src/lora.rs).

    A packet travels in one or two physical frames, each with a framing byte
    carrying a four-bit sequence number and a split flag. *)

From S2P Require Import Prelude Constants Buffer.

Definition LORA_FRAME_MAX : nat := LORA_FRAME_PAYLOAD_MAX + 1.
Definition SPLIT_FLAG : Z := 1.
Definition BASIS_POINTS_DENOMINATOR : Z := 10000.

Inductive LoraError :=
| PacketTooLarge
| FrameTooLarge
| FrameTooShort
| LoraBufferError (e : BufferError).

Record LoraFrame := { lf_bytes : list Z; lf_len : nat }.

Module LoraFrame.
Definition new : LoraFrame := {| lf_bytes := zeros LORA_FRAME_MAX; lf_len := 0 |}.

Definition as_slice (f : LoraFrame) : list Z := take (lf_len f) (lf_bytes f).

Definition set (header : Z) (payload : list Z) : st LoraFrame LoraError unit := λ f,
  if LORA_FRAME_PAYLOAD_MAX <? length payload then (Err FrameTooLarge, f)
  else
    match (let* bs := store (lf_bytes f) 0 header in copy_into bs 1 payload) with
    | Ok bs => (Ok tt, {| lf_bytes := bs; lf_len := length payload + 1 |})
    | Err e => (Err e, f)
    | Panic => (Panic, f)
    end.

Definition wf (f : LoraFrame) : Prop :=
  length (lf_bytes f) = LORA_FRAME_MAX ∧ lf_len f ≤ LORA_FRAME_MAX.
End LoraFrame.

Record PendingSplit := { ps_sequence : Z; ps_first : PacketBuffer; ps_expires_ms : Z }.
Record LoraFramer := { pending : option PendingSplit; split_timeout_ms : Z }.

Module LoraFramer.
Definition new (split_timeout_ms : Z) : LoraFramer :=
  {| pending := None; split_timeout_ms := split_timeout_ms |}.
Definition default : LoraFramer := new 5000.

(** The two output frames are the state; the result is the frame count. *)
Definition encode (packet : list Z) (sequence_nibble : Z)
  : st (LoraFrame * LoraFrame) LoraError nat := λ '(f0, f1),
  if LORA_SPLIT_FRAME_PAYLOAD_MAX <? length packet then (Err PacketTooLarge, (f0, f1))
  else
    let sequence := Z.shiftl (Z.land sequence_nibble 15) 4 in
    if length packet <=? LORA_FRAME_PAYLOAD_MAX then
      match LoraFrame.set sequence packet f0 with
      | (Ok _, f0') => (Ok 1, (f0', f1))
      | (Err e, f0') => (Err e, (f0', f1))
      | (Panic, f0') => (Panic, (f0', f1))
      end
    else
      match LoraFrame.set (Z.lor sequence SPLIT_FLAG) (take LORA_FRAME_PAYLOAD_MAX packet) f0 with
      | (Ok _, f0') =>
          match LoraFrame.set (Z.lor sequence SPLIT_FLAG) (drop LORA_FRAME_PAYLOAD_MAX packet) f1 with
          | (Ok _, f1') => (Ok 2, (f0', f1'))
          | (Err e, f1') => (Err e, (f0', f1'))
          | (Panic, f1') => (Panic, (f0', f1'))
          end
      | (Err e, f0') => (Err e, (f0', f1))
      | (Panic, f0') => (Panic, (f0', f1))
      end.

Definition expire (now_ms : Z) (f : LoraFramer) : LoraFramer :=
  match pending f with
  | Some p => if (ps_expires_ms p <=? now_ms)%Z
              then {| pending := None; split_timeout_ms := split_timeout_ms f |} else f
  | None => f
  end.

Definition with_pending (p : option PendingSplit) (f : LoraFramer) : LoraFramer :=
  {| pending := p; split_timeout_ms := split_timeout_ms f |}.

(** Keeping a first half: the tail of [ingest_frame]. *)
Definition hold_first (sequence : Z) (payload : list Z) (now_ms : Z)
  : st LoraFramer LoraError (option PacketBuffer) := λ f,
  match PacketBuffer.from_slice LORA_SPLIT_FRAME_PAYLOAD_MAX payload with
  | Ok first =>
      (Ok None, with_pending (Some {| ps_sequence := sequence; ps_first := first;
                  ps_expires_ms := sat_add64 now_ms (split_timeout_ms f) |}) f)
  | Err e => (Err (LoraBufferError e), f)
  | Panic => (Panic, f)
  end.

Definition ingest_frame (frame : list Z) (now_ms : Z)
  : st LoraFramer LoraError (option PacketBuffer) := λ f0,
  let f := expire now_ms f0 in
  match frame with
  | [] => (Err FrameTooShort, f)
  | header :: payload =>
      let sequence := Z.shiftr header 4 in
      let split := negb (Z.land header SPLIT_FLAG =? 0)%Z in
      if negb split then
        (omap_err LoraBufferError
           (omap_ok Some (PacketBuffer.from_slice LORA_SPLIT_FRAME_PAYLOAD_MAX payload)),
         with_pending None f)
      else
        match pending f with
        | Some p =>
            let f := with_pending None f in
            if (ps_sequence p =? sequence)%Z then
              match PacketBuffer.extend_from_slice payload (ps_first p) with
              | (Ok _, packet) => (Ok (Some packet), f)
              | (Err e, _) => (Err (LoraBufferError e), f)
              | (Panic, _) => (Panic, f)
              end
            else hold_first sequence payload now_ms f
        | None => hold_first sequence payload now_ms f
        end
  end.

(** The pending half is a well-formed buffer. *)
Definition ok (f : LoraFramer) : Prop :=
  match pending f with
  | Some p => PacketBuffer.wf LORA_SPLIT_FRAME_PAYLOAD_MAX (ps_first p)
  | None => True
  end.
End LoraFramer.

(** * Modem airtime *)

Record LoraModemConfig := {
  bandwidth_hz : Z;
  spreading_factor : Z;
  coding_rate_denominator : Z;
  preamble_symbols : Z;
  explicit_header : bool;
  crc : bool;
  low_data_rate_optimize : bool
}.

Definition HELTEC_V3_LONG_FAST : LoraModemConfig :=
  {| bandwidth_hz := 250000; spreading_factor := 11; coding_rate_denominator := 5;
     preamble_symbols := 18; explicit_header := true; crc := true;
     low_data_rate_optimize := false |}.

Definition ceil_div_u64 (numerator denominator : Z) : Z :=
  if (denominator =? 0)%Z then 0%Z
  else (sat_add64 numerator (denominator - 1) / denominator)%Z.

Definition nominal_bitrate_bps (m : LoraModemConfig) : Z :=
  if (bandwidth_hz m =? 0)%Z || (spreading_factor m =? 0)%Z || (coding_rate_denominator m =? 0)%Z
  then 0%Z
  else if (64 <=? spreading_factor m)%Z then 0%Z
  else
    let chips_per_symbol := Z.shiftl 1 (spreading_factor m) in
    (sat_mul64 (sat_mul64 (spreading_factor m) 4) (bandwidth_hz m)
     / sat_mul64 (coding_rate_denominator m) chips_per_symbol)%Z.

(** Unsigned and signed arithmetic as a checked build executes it. *)
Definition u64_op (x : Z) : outcome Empty_set Z :=
  if (0 <=? x)%Z && (x <=? u64_max)%Z then Ok x else Panic.
Definition i32_op (x : Z) : outcome Empty_set Z :=
  if (-2147483648 <=? x)%Z && (x <=? 2147483647)%Z then Ok x else Panic.

(** [as i32] of an unsigned value. *)
Definition as_i32 (x : Z) : Z := ((x + 2147483648) mod 4294967296 - 2147483648)%Z.

Definition clamp (lo hi x : Z) : Z := Z.max lo (Z.min hi x).

Definition frame_airtime_ms (m : LoraModemConfig) (frame_len : nat) : outcome Empty_set Z :=
  if (bandwidth_hz m =? 0)%Z || (spreading_factor m =? 0)%Z then Ok 0%Z
  else
    let sf := spreading_factor m in
    let ldro := Z.b2z (low_data_rate_optimize m) in
    let denominator := (4 * (sf - 2 * ldro))%Z in
    if (denominator <=? 0)%Z then Ok 0%Z
    else
      let* chips_us := u64_op (Z.shiftl 1 (Z.min sf 31) * 1000000) in
      let symbol_us := ceil_div_u64 chips_us (bandwidth_hz m) in
      let crc_bits := if crc m then 16%Z else 0%Z in
      let implicit_header_bits := if explicit_header m then 0%Z else 20%Z in
      let* bits := i32_op (8 * as_i32 (Z.of_nat frame_len)) in
      let* n1 := i32_op (bits - 4 * sf) in
      let* n2 := i32_op (n1 + 28) in
      let* n3 := i32_op (n2 + crc_bits) in
      let* numerator := i32_op (n3 - implicit_header_bits) in
      let* coded_payload_symbols :=
        if (numerator <=? 0)%Z then Ok 0%Z
        else u64_op (ceil_div_u64 numerator denominator * clamp 5 8 (coding_rate_denominator m)) in
      let payload_symbols := (8 + coded_payload_symbols)%Z in
      let preamble_symbols_x100 := (preamble_symbols m * 100 + 425)%Z in
      let* total_symbols_x100 := u64_op (preamble_symbols_x100 + payload_symbols * 100) in
      let* total_us := u64_op (total_symbols_x100 * symbol_us) in
      (* [as u32] keeps the low 32 bits *)
      Ok (ceil_div_u64 total_us 100000 mod 4294967296)%Z.

(** * Airtime limiter *)

Record AirtimeLimiter := {
  window_ms : Z;
  max_utilization_bps : Z;
  window_start_ms : Z;
  used_airtime_ms : Z
}.

Module AirtimeLimiter.

Definition new (window_ms max_utilization_bps : Z) : AirtimeLimiter :=
  {| window_ms := window_ms; max_utilization_bps := max_utilization_bps;
     window_start_ms := 0; used_airtime_ms := 0 |}.

Definition reset (now_ms : Z) (l : AirtimeLimiter) : AirtimeLimiter :=
  {| window_ms := window_ms l; max_utilization_bps := max_utilization_bps l;
     window_start_ms := now_ms; used_airtime_ms := 0 |}.

Definition refresh (now_ms : Z) (l : AirtimeLimiter) : AirtimeLimiter :=
  if (window_ms l =? 0)%Z || (now_ms <? window_start_ms l)%Z then reset now_ms l
  else if (window_ms l <=? sat_sub now_ms (window_start_ms l))%Z then reset now_ms l
  else l.

Definition budget_ms (l : AirtimeLimiter) : Z :=
  (sat_mul64 (window_ms l) (max_utilization_bps l) / BASIS_POINTS_DENOMINATOR)%Z.

Definition can_reserve (airtime_ms now_ms : Z) (l : AirtimeLimiter) : bool * AirtimeLimiter :=
  let l := refresh now_ms l in
  if (airtime_ms =? 0)%Z then (true, l)
  else
    let budget := Z.max (budget_ms l) 1 in
    ((sat_add64 (used_airtime_ms l) airtime_ms <=? budget)%Z
     || ((used_airtime_ms l =? 0)%Z && (budget <? airtime_ms)%Z), l).

Definition reserve (airtime_ms now_ms : Z) (l : AirtimeLimiter) : bool * AirtimeLimiter :=
  let (can, l) := can_reserve airtime_ms now_ms l in
  if negb can then (false, l)
  else (true, {| window_ms := window_ms l; max_utilization_bps := max_utilization_bps l;
                 window_start_ms := window_start_ms l;
                 used_airtime_ms := sat_add64 (used_airtime_ms l) airtime_ms |}).

Definition utilization_bps (now_ms : Z) (l : AirtimeLimiter) : Z * AirtimeLimiter :=
  let l := refresh now_ms l in
  if (window_ms l =? 0)%Z then (0%Z, l)
  else (Z.min (sat_mul64 (used_airtime_ms l) BASIS_POINTS_DENOMINATOR / window_ms l) u16_max, l).

Definition used (now_ms : Z) (l : AirtimeLimiter) : Z * AirtimeLimiter :=
  let l := refresh now_ms l in (used_airtime_ms l, l).

Definition wait_ms (airtime_ms now_ms : Z) (l : AirtimeLimiter) : Z * AirtimeLimiter :=
  let (can, l) := can_reserve airtime_ms now_ms l in
  if can then (0%Z, l)
  else (sat_sub (sat_add64 (window_start_ms l) (window_ms l)) now_ms, l).

End AirtimeLimiter.

(** * Lemmas *)

Lemma set_frame_ok header payload f :
  LoraFrame.wf f → length payload ≤ LORA_FRAME_PAYLOAD_MAX →
  ∃ f', LoraFrame.set header payload f = (Ok tt, f') ∧ LoraFrame.wf f' ∧
        LoraFrame.as_slice f' = header :: payload.
Proof.
  intros [Hb Hl] Hp. unfold LoraFrame.set, LORA_FRAME_MAX in *. case_if; [lia|].
  rewrite store_Ok by lia. cbn [obind].
  rewrite copy_into_Ok by (rewrite length_insert; lia).
  eexists. split; [done|]. split.
  - split; simpl; unfold LORA_FRAME_MAX; [|lia].
    rewrite length_splice; rewrite length_insert; lia.
  - unfold LoraFrame.as_slice. simpl. rewrite Nat.add_comm, take_splice by (rewrite length_insert; lia).
    destruct (lf_bytes f); [simpl in *; lia|]. done.
Qed.

(** The framing byte of sequence [n]: what the receiver reads from it. *)
Lemma framing_byte n :
  (0 ≤ n < 16)%Z →
  Z.shiftr (Z.shiftl (Z.land n 15) 4) 4 = n ∧
  Z.land (Z.shiftl (Z.land n 15) 4) SPLIT_FLAG = 0%Z ∧
  Z.shiftr (Z.lor (Z.shiftl (Z.land n 15) 4) SPLIT_FLAG) 4 = n ∧
  Z.land (Z.lor (Z.shiftl (Z.land n 15) 4) SPLIT_FLAG) SPLIT_FLAG = 1%Z.
Proof.
  intros Hn.
  assert (Hin : n ∈ seqZ 0 16) by (apply elem_of_seqZ; lia).
  revert Hin. vm_compute seqZ. intros Hin. rewrite !elem_of_cons in Hin.
  destruct_or!; subst; vm_compute; try (repeat split); by apply elem_of_nil in Hin.
Qed.

Lemma expire_no_match now f n :
  (∀ p, pending f = Some p → (now < ps_expires_ms p)%Z → ps_sequence p ≠ n) →
  ∀ p, pending (LoraFramer.expire now f) = Some p → ps_sequence p ≠ n.
Proof.
  intros H p. unfold LoraFramer.expire. destruct (pending f) as [q|] eqn:Hq; [|congruence].
  case_if; simpl; [done|]. rewrite Hq. intros [= ->]. apply H; [done|lia].
Qed.

(** A split frame is held when no live half with its sequence is pending. *)
Lemma ingest_first_half header payload n now f :
  Z.shiftr header 4 = n → Z.land header SPLIT_FLAG = 1%Z →
  length payload ≤ LORA_FRAME_PAYLOAD_MAX →
  (∀ p, pending f = Some p → (now < ps_expires_ms p)%Z → ps_sequence p ≠ n) →
  ∃ first, PacketBuffer.as_slice first = payload ∧
    PacketBuffer.wf LORA_SPLIT_FRAME_PAYLOAD_MAX first ∧
    LoraFramer.ingest_frame (header :: payload) now f =
      (Ok None, LoraFramer.with_pending
         (Some {| ps_sequence := n; ps_first := first;
                  ps_expires_ms := sat_add64 now (split_timeout_ms f) |}) f).
Proof.
  intros Hn Hs Hlen Hp. pose proof (expire_no_match now f n Hp) as Hp'.
  destruct (PacketBuffer.from_slice_ok LORA_SPLIT_FRAME_PAYLOAD_MAX payload)
    as (first & Hf & Hwf & Hsl); [sizes; lia|].
  exists first. split; [done|]. split; [done|].
  unfold LoraFramer.ingest_frame. rewrite Hs, Hn. simpl.
  assert (Ht : split_timeout_ms (LoraFramer.expire now f) = split_timeout_ms f).
  { unfold LoraFramer.expire. by repeat case_match. }
  unfold LoraFramer.hold_first. rewrite Hf.
  destruct (pending (LoraFramer.expire now f)) as [p|] eqn:Hpe.
  - case_if; [by destruct (Hp' p)|]. unfold LoraFramer.with_pending. simpl. by rewrite Ht.
  - unfold LoraFramer.with_pending. simpl. by rewrite Ht.
Qed.

Lemma encode_split packet n :
  LORA_FRAME_PAYLOAD_MAX < length packet ≤ LORA_SPLIT_FRAME_PAYLOAD_MAX →
  let h := Z.lor (Z.shiftl (Z.land n 15) 4) SPLIT_FLAG in
  ∀ f0 f1, LoraFrame.wf f0 → LoraFrame.wf f1 →
  ∃ f0' f1', LoraFramer.encode packet n (f0, f1) = (Ok 2, (f0', f1')) ∧
    LoraFrame.as_slice f0' = h :: take LORA_FRAME_PAYLOAD_MAX packet ∧
    LoraFrame.as_slice f1' = h :: drop LORA_FRAME_PAYLOAD_MAX packet.
Proof.
  intros Hlen h f0 f1 Hw0 Hw1. unfold LoraFramer.encode.
  case_if; [lia|]. case_if; [lia|]. fold h.
  destruct (set_frame_ok h (take LORA_FRAME_PAYLOAD_MAX packet) f0) as (f0' & -> & _ & H0);
    [done|rewrite length_take; lia|].
  destruct (set_frame_ok h (drop LORA_FRAME_PAYLOAD_MAX packet) f1) as (f1' & -> & _ & H1);
    [done|rewrite length_drop; sizes; lia|].
  by exists f0', f1'.
Qed.

Lemma encode_single packet n :
  length packet ≤ LORA_FRAME_PAYLOAD_MAX →
  ∀ f0 f1, LoraFrame.wf f0 →
  ∃ f0', LoraFramer.encode packet n (f0, f1) = (Ok 1, (f0', f1)) ∧
    LoraFrame.as_slice f0' = Z.shiftl (Z.land n 15) 4 :: packet.
Proof.
  intros Hlen f0 f1 Hw0. unfold LoraFramer.encode.
  case_if; [sizes; lia|]. case_if; [|lia].
  destruct (set_frame_ok (Z.shiftl (Z.land n 15) 4) packet f0) as (f0' & -> & _ & H0); [done..|].
  by exists f0'.
Qed.

(** * Properties *)


(** ** Modem airtime stays in range *)

(** The LoRa parameter domain: spreading factors 5 to 12, bandwidth of at least
    7.8 kHz, a physical frame of at most 255 bytes. *)
Definition valid_modem (m : LoraModemConfig) : Prop :=
  (5 ≤ spreading_factor m ≤ 12)%Z ∧ (7800 ≤ bandwidth_hz m ≤ u32_max)%Z ∧
  in_u8 (coding_rate_denominator m) ∧ in_u16 (preamble_symbols m).

Lemma ceil_div_bound n d :
  (0 ≤ n)%Z → (0 < d)%Z → (n + d - 1 ≤ u64_max)%Z →
  ceil_div_u64 n d = ((n + d - 1) / d)%Z ∧ (0 ≤ ceil_div_u64 n d ≤ n)%Z ∧
  (d * ceil_div_u64 n d < n + d)%Z.
Proof.
  intros Hn Hd Hr. unfold ceil_div_u64. case_if; [lia|]. unfold sat_add64.
  rewrite Z.min_l by lia. replace (n + (d - 1))%Z with (n + d - 1)%Z by lia.
  pose proof (Z.div_mod (n + d - 1) d ltac:(lia)).
  pose proof (Z.mod_pos_bound (n + d - 1) d Hd).
  split; [done|]. split; [|lia]. split; [apply Z.div_pos; lia|]. nia.
Qed.

Lemma ceil_div_mono n1 n2 d :
  (0 ≤ n1 ≤ n2)%Z → (0 < d)%Z → (n2 + d - 1 ≤ u64_max)%Z →
  (ceil_div_u64 n1 d ≤ ceil_div_u64 n2 d)%Z.
Proof.
  intros Hn Hd Hr.
  destruct (ceil_div_bound n1 d) as [-> _]; [lia..|].
  destruct (ceil_div_bound n2 d) as [-> _]; [lia..|]. apply Z.div_le_mono; lia.
Qed.

Lemma u64_op_Ok x : (0 ≤ x ≤ u64_max)%Z → u64_op x = Ok x.
Proof. intros. unfold u64_op. case_if; [done|]. destruct Heqb as [?|?]; bool_hyps; lia. Qed.
Lemma i32_op_Ok x : (-2147483648 ≤ x ≤ 2147483647)%Z → i32_op x = Ok x.
Proof. intros. unfold i32_op. case_if; [done|]. destruct Heqb as [?|?]; bool_hyps; lia. Qed.

(** The pieces of the estimate, in mathematical integers. *)
Definition symbol_us (m : LoraModemConfig) : Z :=
  ceil_div_u64 (Z.shiftl 1 (spreading_factor m) * 1000000) (bandwidth_hz m).
Definition payload_bits (m : LoraModemConfig) (len : nat) : Z :=
  (8 * Z.of_nat len - 4 * spreading_factor m + 28 + (if crc m then 16 else 0)
   - (if explicit_header m then 0 else 20))%Z.
Definition symbols_x100 (m : LoraModemConfig) (len : nat) : Z :=
  (preamble_symbols m * 100 + 425 +
   (8 + if (payload_bits m len <=? 0)%Z then 0
        else ceil_div_u64 (payload_bits m len)
               (4 * (spreading_factor m - 2 * Z.b2z (low_data_rate_optimize m)))
             * clamp 5 8 (coding_rate_denominator m)) * 100)%Z.

Lemma symbol_us_bound m : valid_modem m → (1 ≤ symbol_us m ≤ 525130)%Z.
Proof.
  intros (Hsf & Hbw & _ & _). unfold symbol_us.
  rewrite Z.shiftl_mul_pow2, Z.mul_1_l by lia.
  assert (1 ≤ 2 ^ spreading_factor m ≤ 4096)%Z.
  { split; [|change 4096%Z with (2 ^ 12)%Z; apply Z.pow_le_mono_r; lia].
    pose proof (Z.pow_pos_nonneg 2 (spreading_factor m)). lia. }
  unfold u32_max in *.
  destruct (ceil_div_bound (2 ^ spreading_factor m * 1000000) (bandwidth_hz m))
    as (Heq & Hb & Hd); [lia..|unfold u64_max; lia|].
  split; [|nia]. rewrite Heq. apply Z.div_le_lower_bound; lia.
Qed.

Lemma symbols_bound m len :
  valid_modem m → len ≤ 255 → (1225 ≤ symbols_x100 m len ≤ 8300000)%Z.
Proof.
  intros (Hsf & _ & Hcr & Hpre) Hlen. unfold symbols_x100. unfold_u64.
  set (d := (4 * _)%Z). assert (12 ≤ d ≤ 48)%Z by (unfold d; destruct (low_data_rate_optimize m); simpl; lia).
  assert (payload_bits m len ≤ 2064)%Z.
  { unfold payload_bits. destruct (crc m), (explicit_header m); lia. }
  case_if; [lia|].
  destruct (ceil_div_bound (payload_bits m len) d) as (_ & Hb & _); [lia..|unfold u64_max; lia|].
  assert (5 ≤ clamp 5 8 (coding_rate_denominator m) ≤ 8)%Z by (unfold clamp; lia). nia.
Qed.

Lemma symbols_mono m len1 len2 :
  valid_modem m → len1 ≤ len2 ≤ 255 → (symbols_x100 m len1 ≤ symbols_x100 m len2)%Z.
Proof.
  intros (Hsf & _ & Hcr & _) Hlen. unfold symbols_x100.
  set (d := (4 * _)%Z). assert (12 ≤ d ≤ 48)%Z by (unfold d; destruct (low_data_rate_optimize m); simpl; lia).
  assert (payload_bits m len1 ≤ payload_bits m len2 ≤ 2064)%Z.
  { unfold payload_bits. destruct (crc m), (explicit_header m); lia. }
  assert (5 ≤ clamp 5 8 (coding_rate_denominator m) ≤ 8)%Z by (unfold clamp; lia).
  case_if; case_if; try lia.
  - destruct (ceil_div_bound (payload_bits m len2) d) as (_ & Hb & _); [lia..|unfold u64_max; lia|nia].
  - pose proof (ceil_div_mono (payload_bits m len1) (payload_bits m len2) d
      ltac:(lia) ltac:(lia) ltac:(unfold u64_max; lia)). nia.
Qed.

Lemma frame_airtime_exact m len :
  valid_modem m → len ≤ 255 →
  frame_airtime_ms m len = Ok (ceil_div_u64 (symbols_x100 m len * symbol_us m) 100000) ∧
  (1 ≤ ceil_div_u64 (symbols_x100 m len * symbol_us m) 100000 ≤ u32_max)%Z.
Proof.
  intros Hm Hlen. pose proof (symbol_us_bound m Hm) as Hus.
  pose proof (symbols_bound m len Hm Hlen) as Hsym. pose proof Hm as (Hsf & Hbw & Hcr & Hpre).
  assert (0 ≤ symbols_x100 m len * symbol_us m ≤ 8300000 * 525130)%Z as Htot by nia.
  assert (Hfin : (1 ≤ ceil_div_u64 (symbols_x100 m len * symbol_us m) 100000 ≤ u32_max)%Z).
  { destruct (ceil_div_bound (symbols_x100 m len * symbol_us m) 100000) as (Heq & _ & Hd);
      [lia..|unfold u64_max; lia|]. unfold u32_max.
    split; [|lia]. rewrite Heq. apply Z.div_le_lower_bound; nia. }
  split; [|done]. unfold frame_airtime_ms. unfold_u64.
  case_if; [destruct Heqb as [?|?]; bool_hyps; lia|].
  case_if; [destruct (low_data_rate_optimize m); simpl in *; lia|].
  rewrite (Z.min_l (spreading_factor m) 31) by lia.
  assert (1 ≤ Z.shiftl 1 (spreading_factor m) ≤ 4096)%Z.
  { rewrite Z.shiftl_mul_pow2, Z.mul_1_l by lia.
    split; [|change 4096%Z with (2 ^ 12)%Z; apply Z.pow_le_mono_r; lia].
    pose proof (Z.pow_pos_nonneg 2 (spreading_factor m)). lia. }
  rewrite u64_op_Ok by (unfold u64_max; lia). cbn [obind]. fold (symbol_us m).
  assert (as_i32 (Z.of_nat len) = Z.of_nat len) as ->.
  { unfold as_i32. rewrite Z.mod_small by lia. lia. }
  do 5 (rewrite i32_op_Ok by (destruct (crc m), (explicit_header m); lia); cbn [obind]).
  fold (payload_bits m len). set (d := (4 * (spreading_factor m - _))%Z) in *.
  assert (d ≤ 48)%Z by (unfold d; destruct (low_data_rate_optimize m); simpl; lia).
  assert (payload_bits m len ≤ 2064)%Z
    by (unfold payload_bits; destruct (crc m), (explicit_header m); lia).
  assert (5 ≤ clamp 5 8 (coding_rate_denominator m) ≤ 8)%Z by (unfold clamp; lia).
  assert (Hcoded : (if (payload_bits m len <=? 0)%Z then Ok 0%Z
     else u64_op (ceil_div_u64 (payload_bits m len) d * clamp 5 8 (coding_rate_denominator m)))
     = @Ok Empty_set Z (if (payload_bits m len <=? 0)%Z then 0
        else ceil_div_u64 (payload_bits m len) d * clamp 5 8 (coding_rate_denominator m))%Z).
  { case_if; [done|]. apply u64_op_Ok. unfold u64_max.
    destruct (ceil_div_bound (payload_bits m len) d) as (_ & Hb & _); [lia..|unfold u64_max; lia|nia]. }
  rewrite Hcoded. cbn [obind].
  match goal with |- obind (u64_op ?x) _ = _ => change x with (symbols_x100 m len) end.
  rewrite u64_op_Ok by (unfold u64_max; lia). cbn [obind].
  rewrite u64_op_Ok by (unfold u64_max; lia). cbn [obind].
  rewrite Z.mod_small by (unfold u32_max in *; lia). done.
Qed.

(** For LoRa settings and frame lengths in the radio's domain the airtime
    estimate is computed without overflow, division by zero or truncation, is
    positive, and does not decrease with the frame length. *)
Lemma frame_airtime_in_range m len1 len2 :
  valid_modem m → len1 ≤ len2 ≤ 255 →
  ∃ a1 a2, frame_airtime_ms m len1 = Ok a1 ∧ frame_airtime_ms m len2 = Ok a2 ∧
    (0 < a1 ≤ a2)%Z ∧ (a2 ≤ u32_max)%Z.
Proof.
  intros Hm Hlen.
  destruct (frame_airtime_exact m len1 Hm ltac:(lia)) as [H1 Hr1].
  destruct (frame_airtime_exact m len2 Hm ltac:(lia)) as [H2 Hr2].
  eexists _, _. split; [exact H1|]. split; [exact H2|]. split; [|lia]. split; [lia|].
  pose proof (symbols_mono m len1 len2 Hm Hlen). pose proof (symbol_us_bound m Hm).
  pose proof (symbols_bound m len1 Hm ltac:(lia)). pose proof (symbols_bound m len2 Hm ltac:(lia)).
  apply ceil_div_mono; [nia|lia|unfold u64_max; nia].
Qed.

(** ** The limiter over a run of reservations *)

Module AirtimeRun.
Import AirtimeLimiter.

(** The clock starts a new window at [now]. *)
Definition restarts (now : Z) (l : AirtimeLimiter) : bool :=
  (window_ms l =? 0)%Z || (now <? window_start_ms l)%Z
  || (window_ms l <=? sat_sub now (window_start_ms l))%Z.

Definition limit (l : AirtimeLimiter) : Z := Z.max (budget_ms l) 1.

Definition sum (adm : list Z) : Z := fold_right Z.add 0%Z adm.

(** Reachable limiter states with the airtimes granted in the current window. *)
Inductive run : AirtimeLimiter → list Z → Prop :=
| run_new w m : in_u64 w → in_u16 m → run (new w m) []
| run_reserve l adm a now : run l adm → in_u32 a → in_u64 now →
    run (snd (reserve a now l))
        ((if fst (reserve a now l) then [a] else []) ++ (if restarts now l then [] else adm))
| run_refresh l adm now : run l adm → in_u64 now →
    run (refresh now l) (if restarts now l then [] else adm).

(** The accounting invariant: usage is the sum of the grants, and the grants are
    within the limit or a single oversized frame. *)
Definition accounted (l : AirtimeLimiter) (adm : list Z) : Prop :=
  in_u64 (window_ms l) ∧ in_u16 (max_utilization_bps l) ∧ Forall (λ a, 0 ≤ a)%Z adm ∧
  used_airtime_ms l = sum adm ∧ (0 ≤ sum adm ≤ Z.max (limit l) u32_max)%Z ∧
  ((sum adm ≤ limit l)%Z ∨ ∃ a, List.filter (λ x, negb (x =? 0)%Z) adm = [a]).

Lemma limit_bound l : in_u64 (window_ms l) → in_u16 (max_utilization_bps l) →
  (1 ≤ limit l < u64_max)%Z.
Proof.
  intros Hw Hm. unfold limit, budget_ms, BASIS_POINTS_DENOMINATOR. unfold_sat.
  split; [lia|]. apply Z.max_lub_lt; [|lia].
  apply Z.div_lt_upper_bound; lia.
Qed.

Lemma refresh_restarts now l :
  refresh now l = if restarts now l then reset now l else l.
Proof.
  unfold refresh, restarts. destruct (_ || (now <? _)%Z); [done|]. simpl. by case_if.
Qed.

Lemma sum_zero adm :
  Forall (λ a, 0 ≤ a)%Z adm →
  (0 ≤ sum adm)%Z ∧ (sum adm = 0%Z → List.filter (λ x, negb (x =? 0)%Z) adm = []).
Proof.
  induction 1 as [|a adm Ha Hadm [IH1 IH2]]; simpl; [by split|].
  split; [lia|]. intros Hs. rewrite (proj2 (Z.eqb_eq a 0)) by lia. simpl. apply IH2. lia.
Qed.

Lemma accounted_refresh now l adm :
  accounted l adm → accounted (refresh now l) (if restarts now l then [] else adm).
Proof.
  intros (Hw & Hm & Hp & Hu & Hr & Hlim). rewrite refresh_restarts. case_if; [|done].
  pose proof (limit_bound l Hw Hm). unfold accounted, limit, budget_ms in *. simpl.
  do 2 (split; [done|]). split; [constructor|]. split; [done|]. split; [lia|]. left. lia.
Qed.

Definition charge (a : Z) (l : AirtimeLimiter) : AirtimeLimiter :=
  {| window_ms := window_ms l; max_utilization_bps := max_utilization_bps l;
     window_start_ms := window_start_ms l; used_airtime_ms := sat_add64 (used_airtime_ms l) a |}.

(** The admission test on a refreshed limiter. *)
Definition grants (a : Z) (l : AirtimeLimiter) : bool :=
  (a =? 0)%Z || (sat_add64 (used_airtime_ms l) a <=? limit l)%Z
  || ((used_airtime_ms l =? 0)%Z && (limit l <? a)%Z).

Lemma can_reserve_grants a now l :
  can_reserve a now l = (grants a (refresh now l), refresh now l).
Proof. unfold can_reserve, grants. destruct (a =? 0)%Z; reflexivity. Qed.

Lemma reserve_grants a now l :
  reserve a now l =
  if grants a (refresh now l) then (true, charge a (refresh now l)) else (false, refresh now l).
Proof. unfold reserve. rewrite can_reserve_grants. by destruct (grants _ _). Qed.

Lemma limit_charge a l : limit (charge a l) = limit l.
Proof. unfold limit, budget_ms. cbn [charge window_ms max_utilization_bps]. reflexivity. Qed.

(** The arithmetic of one grant: [lim] is the window's limit and [s] the sum. *)
Lemma grant_arith lim s a :
  (1 ≤ lim < u64_max)%Z → (0 ≤ s ≤ Z.max lim u32_max)%Z → (0 ≤ a ≤ u32_max)%Z →
  (sat_add64 s a ≤ lim)%Z ∨ a = 0%Z ∨ (s = 0 ∧ lim < a)%Z →
  sat_add64 s a = (a + s)%Z ∧ (0 ≤ a + s ≤ Z.max lim u32_max)%Z.
Proof. unfold sat_add64, u64_max, u32_max. lia. Qed.

Lemma grants_cases a l :
  grants a l = true →
  (sat_add64 (used_airtime_ms l) a ≤ limit l)%Z ∨ a = 0%Z ∨
  (used_airtime_ms l = 0 ∧ limit l < a)%Z.
Proof.
  unfold grants. intros Hg.
  apply orb_true_iff in Hg as [Hg|Hg]; [apply orb_true_iff in Hg as [Hg|Hg]|].
  - right. left. by apply Z.eqb_eq.
  - left. by apply Z.leb_le.
  - apply andb_true_iff in Hg as [H1 H2]. right. right.
    split; [by apply Z.eqb_eq|by apply Z.ltb_lt].
Qed.

Lemma accounted_charge a l adm :
  in_u32 a → accounted l adm → grants a l = true → accounted (charge a l) (a :: adm).
Proof.
  intros Ha (Hw & Hm & Hp & Hu & Hr & Hlim) Hg%grants_cases.
  pose proof (limit_bound l Hw Hm) as Hb. destruct (sum_zero adm Hp) as [_ Hz].
  unfold accounted. rewrite limit_charge. rewrite Hu in Hg.
  cbn [charge window_ms max_utilization_bps used_airtime_ms sum fold_right]. rewrite Hu.
  fold (sum adm). revert Hb Hr Hlim Hg. generalize (limit l) as lim. intros lim Hb Hr Hlim Hg.
  destruct (grant_arith lim (sum adm) a Hb Hr Ha Hg) as [Hs Hr'].
  split; [exact Hw|]. split; [exact Hm|]. split; [constructor; [apply Ha|done]|].
  split; [exact Hs|]. split; [exact Hr'|]. rewrite Hs in Hg.
  destruct Hg as [Hg|[->|[H0 Hg]]].
  - left. lia.
  - destruct Hlim as [?|Hf]; [left; lia|right; exact Hf].
  - right. exists a. cbn [List.filter]. rewrite (proj2 (Z.eqb_neq a 0)) by lia.
    by rewrite (Hz H0).
Qed.

Lemma accounted_reserve a now l adm :
  in_u32 a → accounted l adm →
  accounted (snd (reserve a now l))
    ((if fst (reserve a now l) then [a] else []) ++ (if restarts now l then [] else adm)).
Proof.
  intros Ha Hacc%(accounted_refresh now). rewrite reserve_grants.
  destruct (grants a (refresh now l)) eqn:Hg; [by apply accounted_charge|exact Hacc].
Qed.

Lemma run_accounted l adm : run l adm → accounted l adm.
Proof.
  induction 1 as [w m Hw Hm|l adm a now _ IH Ha Hn|l adm now _ IH Hn].
  - pose proof (limit_bound (new w m) Hw Hm).
    split; [exact Hw|]. split; [exact Hm|]. split; [constructor|]. split; [done|].
    simpl. split; [lia|]. left. lia.
  - by apply accounted_reserve.
  - by apply accounted_refresh.
Qed.

(** Inside a window the limiter is left alone; at its end it is reset. *)
Lemma refresh_inside now l :
  (0 < window_ms l)%Z → (0 ≤ window_start_ms l ≤ now)%Z → (now < window_start_ms l + window_ms l)%Z →
  refresh now l = l.
Proof.
  intros. rewrite refresh_restarts. unfold restarts, sat_sub.
  rewrite (proj2 (Z.eqb_neq _ _)), (proj2 (Z.ltb_ge _ _)), (proj2 (Z.leb_gt _ _)) by lia. done.
Qed.

Lemma refresh_end l :
  (0 < window_ms l)%Z → (0 ≤ window_start_ms l)%Z →
  refresh (window_start_ms l + window_ms l) l = reset (window_start_ms l + window_ms l) l.
Proof.
  intros. rewrite refresh_restarts. unfold restarts, sat_sub.
  rewrite (proj2 (Z.leb_le (window_ms l) _)) by lia. by rewrite orb_true_r.
Qed.

Lemma grants_reset a now l : grants a (reset now l) = true.
Proof.
  unfold grants. change (limit (reset now l)) with (limit l). simpl. unfold sat_add64.
  destruct (a =? 0)%Z, (limit l <? a)%Z eqn:Hl; simpl; try done; [by rewrite orb_true_r|].
  rewrite orb_false_r. bool_hyps. apply Z.leb_le. lia.
Qed.

(** A state inside its window, as [refresh] leaves it. *)
Lemma refresh_window now l :
  (0 ≤ now)%Z → (0 ≤ window_ms l)%Z → (0 ≤ window_start_ms l)%Z →
  let l1 := refresh now l in
  window_ms l1 = window_ms l ∧ (0 ≤ window_start_ms l1 ≤ now)%Z ∧
  (window_ms l = 0%Z → l1 = reset now l) ∧
  (window_ms l ≠ 0 → now < window_start_ms l1 + window_ms l)%Z.
Proof.
  intros Hn Hw Hs l1. unfold l1. rewrite refresh_restarts.
  destruct (restarts now l) eqn:Hr; simpl; [repeat split; auto; lia|].
  unfold restarts, sat_sub in Hr. bool_hyps. repeat split; lia.
Qed.

Lemma wait_until_window_end a now l :
  (0 ≤ now)%Z → (0 ≤ window_ms l)%Z → (0 ≤ window_start_ms l)%Z →
  (now + window_ms l ≤ u64_max)%Z → fst (can_reserve a now l) = false →
  let (w, l') := wait_ms a now l in
  (0 < w)%Z ∧ fst (can_reserve a (now + w) l') = true ∧
  ∀ now', (now ≤ now' < now + w)%Z → fst (can_reserve a now' l') = false.
Proof.
  intros Hn Hw Hs Hfit Hno. unfold wait_ms. rewrite can_reserve_grants in *. simpl in Hno.
  destruct (refresh_window now l Hn Hw Hs) as (Hwm & Hst & Hz & Hin).
  set (l1 := refresh now l) in *. rewrite Hno.
  assert (Hpos : (0 < window_ms l)%Z).
  { destruct (decide (window_ms l = 0%Z)) as [Hz'|]; [|lia].
    by rewrite (Hz Hz'), grants_reset in Hno. }
  assert (Heq : sat_sub (sat_add64 (window_start_ms l1) (window_ms l1)) now
                = (window_start_ms l1 + window_ms l - now)%Z).
  { unfold sat_sub, sat_add64. rewrite Hwm. lia. }
  rewrite Heq. split; [lia|]. split.
  - rewrite can_reserve_grants. simpl.
    replace (now + (window_start_ms l1 + window_ms l - now))%Z
      with (window_start_ms l1 + window_ms l1)%Z by lia.
    rewrite refresh_end by lia. apply grants_reset.
  - intros now' Hnow. rewrite can_reserve_grants. simpl. by rewrite refresh_inside by lia.
Qed.

Lemma run_window_start l adm : run l adm → (0 ≤ window_start_ms l)%Z.
Proof.
  assert (Href : ∀ now l0, in_u64 now → (0 ≤ window_start_ms l0)%Z →
                 (0 ≤ window_start_ms (refresh now l0))%Z).
  { intros now l0 [Hn _] Hs. rewrite refresh_restarts. by destruct (restarts now l0). }
  induction 1 as [w m Hw Hm|l adm a now _ IH Ha Hn|l adm now _ IH Hn]; [done| |by apply Href].
  rewrite reserve_grants. destruct (grants _ _); by apply Href.
Qed.

(** The airtime limiter over any run of calls from a new limiter. What was
    granted in the current window is accounted exactly and stays within the
    window's budget (at least one millisecond), except that an empty window may
    grant one frame over the budget, after which no other positive airtime is
    granted in it; and the wait reported for a refused reservation is exact:
    the same request is granted at the end of it and at no earlier time. *)
Lemma airtime_limiter_contract l adm a now :
  run l adm → in_u64 now → (now + window_ms l ≤ u64_max)%Z →
  used_airtime_ms l = sum adm ∧
  ((sum adm ≤ limit l)%Z ∨ ∃ x, List.filter (λ x, negb (x =? 0)%Z) adm = [x]) ∧
  (fst (can_reserve a now l) = false →
   let (w, l') := wait_ms a now l in
   (0 < w)%Z ∧ fst (can_reserve a (now + w) l') = true ∧
   ∀ now', (now ≤ now' < now + w)%Z → fst (can_reserve a now' l') = false).
Proof.
  intros Hrun Hn Hfit. pose proof (run_window_start l adm Hrun).
  apply run_accounted in Hrun as (Hw & _ & _ & Hu & _ & Hlim).
  split; [done|]. split; [done|]. intros Hno.
  apply wait_until_window_end; try done; [apply Hn|apply Hw].
Qed.
End AirtimeRun.

(** ** Witnesses *)


Lemma frame_airtime_in_range_witness :
  ∃ a1 a2, frame_airtime_ms HELTEC_V3_LONG_FAST 20 = Ok a1 ∧
           frame_airtime_ms HELTEC_V3_LONG_FAST 255 = Ok a2 ∧ (0 < a1 ≤ a2)%Z ∧ (a2 ≤ u32_max)%Z.
Proof.
  apply (frame_airtime_in_range HELTEC_V3_LONG_FAST 20 255); [|lia].
  repeat split; vm_compute; congruence.
Defined.

Lemma airtime_limiter_contract_witness :
  let l := snd (AirtimeLimiter.reserve 90 10 (AirtimeLimiter.new 1000 1000)) in
  used_airtime_ms l = 90%Z ∧ fst (AirtimeLimiter.can_reserve 20 50 l) = false ∧
  fst (AirtimeLimiter.wait_ms 20 50 l) = 950%Z.
Proof.
  pose proof (AirtimeRun.airtime_limiter_contract
    (snd (AirtimeLimiter.reserve 90 10 (AirtimeLimiter.new 1000 1000))) [90%Z] 20 50) as H.
  destruct H as (Hu & _ & _).
  - apply (AirtimeRun.run_reserve (AirtimeLimiter.new 1000 1000) [] 90 10).
    + apply AirtimeRun.run_new; vm_compute; split; congruence.
    + vm_compute; split; congruence.
    + vm_compute; split; congruence.
  - vm_compute; split; congruence.
  - vm_compute; congruence.
  - split; [exact Hu|split; reflexivity].
Defined.
