(* ===== verification/AnnounceFlow.v ===== *)
(** Rates and ordering of announces: the admission token bucket
    (src/src/announce_admission.rs), the per-interface announce cap
    (src/src/announce_cap.rs) and the durable ordering value of local announces
    (src/src/announce_state.rs). *)

From stdpp Require Import sorting.
From S2P Require Import Prelude Constants Lora.

(** * Admission *)

Record AnnounceAdmissionConfig := {
  steady_per_sec : Z;
  grace_per_sec : Z;
  grace_secs : Z
}.

Record AnnounceAdmission := {
  last_refill_ms : Z;
  credit_milli : Z;
  initialized : bool
}.

Module AnnounceAdmission.

Definition DISABLED : AnnounceAdmissionConfig :=
  {| steady_per_sec := 0; grace_per_sec := 0; grace_secs := 0 |}.

Definition new : AnnounceAdmission :=
  {| last_refill_ms := 0; credit_milli := 0; initialized := false |}.

(** The rate of the phase [now_ms] falls in. *)
Definition rate (config : AnnounceAdmissionConfig) (now_ms : Z) : Z :=
  if (now_ms <? sat_mul64 (grace_secs config) 1000)%Z
  then grace_per_sec config else steady_per_sec config.

Definition admit_announce (config : AnnounceAdmissionConfig) (path_response : bool) (now_ms : Z)
    (s : AnnounceAdmission) : bool * AnnounceAdmission :=
  if path_response then (true, s)
  else
    let first := negb (initialized s) in
    let last := if first then now_ms else last_refill_ms s in
    let r := rate config now_ms in
    if (r =? 0)%Z then
      (true, {| last_refill_ms := now_ms; credit_milli := 0; initialized := true |})
    else
      let capacity := sat_mul64 r 1000 in
      let credit :=
        if first then capacity
        else Z.min (sat_add64 (credit_milli s) (sat_mul64 (sat_sub now_ms last) r)) capacity in
      if (credit <? 1000)%Z then
        (false, {| last_refill_ms := now_ms; credit_milli := credit; initialized := true |})
      else
        (true, {| last_refill_ms := now_ms; credit_milli := credit - 1000; initialized := true |}).

(** A sequence of calls, each with its path-response flag and its time; the
    result counts the ordinary announces that were admitted. *)
Fixpoint admit_all (config : AnnounceAdmissionConfig) (calls : list (bool * Z))
    (s : AnnounceAdmission) : nat * AnnounceAdmission :=
  match calls with
  | [] => (0, s)
  | (pr, now) :: calls' =>
      let (ok, s') := admit_announce config pr now s in
      let (n, s'') := admit_all config calls' s' in
      ((if ok && negb pr then S n else n), s'')
  end.

(** The times of the calls do not go backwards, from [t0] to at most [t1]. *)
Fixpoint ordered (t0 : Z) (calls : list (bool * Z)) (t1 : Z) : Prop :=
  match calls with
  | [] => (t0 ≤ t1)%Z
  | (_, now) :: calls' => (t0 ≤ now)%Z ∧ ordered now calls' t1
  end.

(** Both phases are limited, to at most [R] announces per second. *)
Definition limited (config : AnnounceAdmissionConfig) (R : Z) : Prop :=
  (0 < steady_per_sec config ≤ R)%Z ∧ (0 < grace_per_sec config ≤ R)%Z ∧ (R ≤ u16_max)%Z.

Definition wf (s : AnnounceAdmission) (t : Z) : Prop :=
  (0 ≤ credit_milli s)%Z ∧ (initialized s = true → last_refill_ms s ≤ t)%Z.

Section bound.
Context (config : AnnounceAdmissionConfig) (R : Z) (Hlim : limited config R).

Lemma rate_limited now : (0 < rate config now ≤ R)%Z.
Proof. destruct Hlim as (H1 & H2 & _). unfold rate. by case_if. Qed.

(** One ordinary call: what it admits and what credit it leaves. *)
Lemma admit_step now s t :
  wf s t → (t ≤ now)%Z →
  let '(ok, s') := admit_announce config false now s in
  let spent := if ok then 1000%Z else 0%Z in
  wf s' now ∧ initialized s' = true ∧ last_refill_ms s' = now ∧
  (spent + credit_milli s' ≤ 1000 * R)%Z ∧
  (initialized s = true → spent + credit_milli s' ≤ credit_milli s + R * (now - last_refill_ms s))%Z.
Proof.
  intros [Hc Hi] Ht. unfold admit_announce. pose proof (rate_limited now) as Hr.
  set (r := rate config now) in *. clearbody r. destruct Hlim as (_ & _ & HR).
  rewrite (proj2 (Z.eqb_neq r 0)) by lia. unfold u16_max in *.
  assert (Hcap : sat_mul64 r 1000 = (r * 1000)%Z) by (unfold sat_mul64, u64_max; lia).
  rewrite Hcap. destruct (initialized s) eqn:Hini; simpl.
  - specialize (Hi eq_refl).
    assert (Hel : (0 ≤ sat_mul64 (sat_sub now (last_refill_ms s)) r ≤ R * (now - last_refill_ms s))%Z).
    { unfold sat_mul64, sat_sub, u64_max. rewrite Z.max_l by lia. nia. }
    set (e := sat_mul64 _ r) in *. clearbody e.
    assert (0 ≤ sat_add64 (credit_milli s) e ≤ credit_milli s + e)%Z
      by (unfold sat_add64, u64_max; lia).
    case_if; simpl; (split; [split; [simpl; lia|done]|]); repeat split; lia.
  - case_if; simpl; (split; [split; [simpl; lia|done]|]); (split; [done|]); (split; [done|]);
      (split; [lia|done]).
Qed.

Lemma admit_path_response now s : admit_announce config true now s = (true, s).
Proof. done. Qed.

(** Once initialised, admissions are paid for by the credit and the elapsed time. *)
Lemma admit_all_paid calls : ∀ s t t1,
  wf s t → initialized s = true → ordered t calls t1 →
  let '(n, s') := admit_all config calls s in
  (1000 * Z.of_nat n ≤ credit_milli s + R * (t1 - last_refill_ms s))%Z.
Proof.
  assert (HR : (0 ≤ R)%Z) by (destruct Hlim; lia).
  induction calls as [|[pr now] calls IH]; intros s t t1 [Hc Hl] Hi Ho; simpl in *.
  - specialize (Hl Hi). nia.
  - destruct Ho as [Ht Ho]. destruct pr.
    + rewrite admit_path_response. specialize (IH s now t1).
      destruct (admit_all config calls s) as [n s'']. simpl. apply IH; [|done|done].
      split; [done|]. intros _. specialize (Hl Hi). lia.
    + pose proof (admit_step now s t (conj Hc Hl) Ht) as Hstep.
      destruct (admit_announce config false now s) as [ok s'].
      destruct Hstep as (Hw & Hi' & Hl' & _ & Hpay). specialize (Hpay Hi).
      specialize (IH s' now t1 Hw Hi' Ho).
      destruct (admit_all config calls s') as [n s'']. rewrite Hl' in IH.
      destruct ok; simpl in *; nia.
Qed.

(** The state after any calls. *)
Lemma admit_all_wf calls : ∀ s t t1,
  wf s t → ordered t calls t1 → wf (snd (admit_all config calls s)) t1.
Proof.
  induction calls as [|[pr now] calls IH]; intros s t t1 [Hc Hl] Ho; simpl in *.
  - split; [done|]. intros Hi. specialize (Hl Hi). lia.
  - destruct Ho as [Ht Ho]. destruct pr.
    + rewrite admit_path_response.
      assert (Hw : wf s now) by (split; [done|]; intros Hi; specialize (Hl Hi); lia).
      specialize (IH s now t1 Hw Ho). by destruct (admit_all config calls s).
    + pose proof (admit_step now s t (conj Hc Hl) Ht) as Hstep.
      destruct (admit_announce config false now s) as [ok s']. destruct Hstep as (Hw & _).
      specialize (IH s' now t1 Hw Ho). by destruct (admit_all config calls s').
Qed.

Lemma admit_all_bound calls : ∀ s t t1,
  wf s t → ordered t calls t1 →
  (1000 * Z.of_nat (fst (admit_all config calls s)) ≤ R * (1000 + (t1 - t)))%Z.
Proof.
  assert (HR : (0 ≤ R)%Z) by (destruct Hlim; lia).
  induction calls as [|[pr now] calls IH]; intros s t t1 Hw Ho; simpl in *; [nia|].
  destruct Ho as [Ht Ho]. destruct pr.
  - rewrite admit_path_response.
    assert (Hw' : wf s now) by (destruct Hw as [Hc Hl]; split; [done|]; intros Hi; specialize (Hl Hi); lia).
    specialize (IH s now t1 Hw' Ho). destruct (admit_all config calls s) as [n s'']. simpl in *. nia.
  - pose proof (admit_step now s t Hw Ht) as Hstep.
    destruct (admit_announce config false now s) as [ok s'].
    destruct Hstep as (Hw' & Hi' & Hl' & Hcap & _).
    pose proof (admit_all_paid calls s' now t1 Hw' Hi' Ho) as Hpay.
    destruct (admit_all config calls s') as [n s'']. rewrite Hl' in Hpay.
    destruct ok; simpl in *; nia.
Qed.

(** A refusal ends after the time one announce costs at the current rate. *)
Lemma admit_retry now now' s s' :
  wf s now → admit_announce config false now s = (false, s') →
  (1000 ≤ rate config now' * (now' - now))%Z → (now' ≤ u64_max)%Z → (0 ≤ now)%Z →
  fst (admit_announce config false now' s') = true.
Proof.
  intros Hw Hno Hpay Hmax Hpos.
  pose proof (admit_step now s now Hw ltac:(lia)) as Hstep. rewrite Hno in Hstep.
  destruct Hstep as ([Hc _] & Hi & Hl & _). unfold admit_announce.
  pose proof (rate_limited now') as Hr. rewrite Hi, Hl. simpl.
  set (r := rate config now') in *. clearbody r. destruct Hlim as (_ & _ & HR).
  rewrite (proj2 (Z.eqb_neq r 0)) by lia. unfold u16_max in HR.
  unfold sat_add64, sat_mul64, sat_sub, u64_max in *.
  rewrite (Z.max_l (now' - now)) by nia.
  case_if; [|done]. exfalso. nia.
Qed.
End bound.

(** The announce admission bucket. With both phases limited to at most [R]
    announces per second, however calls are interleaved with exempt path
    responses, the ordinary announces admitted in any window of a run are at
    most [R] plus [R] per elapsed second; a refused announce is admitted as
    soon as the time one announce costs has passed; and path responses are
    always admitted without consuming credit. *)
Lemma admission_rate_bound config R before window t0 t1 t2 :
  limited config R → ordered t0 before t1 → ordered t1 window t2 →
  let s := snd (admit_all config before new) in
  (1000 * Z.of_nat (fst (admit_all config window s)) ≤ R * (1000 + (t2 - t1)))%Z ∧
  (∀ now, admit_announce config true now s = (true, s)) ∧
  (∀ now now' s', (t1 ≤ now)%Z → (0 ≤ now)%Z → (now' ≤ u64_max)%Z →
     admit_announce config false now s = (false, s') →
     (1000 ≤ rate config now' * (now' - now))%Z → fst (admit_announce config false now' s') = true).
Proof.
  intros Hlim Hb Hwin s.
  assert (Hw : wf s t1) by (apply (admit_all_wf config R Hlim before new t0 t1); [|done];
    split; [simpl; lia|done]).
  split; [by apply admit_all_bound|]. split; [done|].
  intros now now' s' Ht Hpos Hmax Hno Hpay.
  apply (admit_retry config R Hlim now now' s s'); [|done..].
  destruct Hw as [Hc Hl]. split; [done|]. intros Hi. specialize (Hl Hi). lia.
Qed.
End AnnounceAdmission.

(** * The announce cap *)

Definition ANNOUNCE_CAP_PERMILLE : Z := 20.

Definition cap_floor (cap_permille : Z) : Z :=
  if (cap_permille =? 0)%Z then 1 else cap_permille.

Definition spacing_ms (tx_ms cap_permille : Z) : Z :=
  div_ceil (tx_ms * 1000) (cap_floor cap_permille).

Definition bitrate_spacing_ms (wire_len : nat) (bitrate_bps cap_permille : Z) : option Z :=
  if (bitrate_bps =? 0)%Z then None
  else
    let scaled_bits := sat_mul64 (Z.of_nat wire_len) 8000000 in
    Some (div_ceil scaled_bits (sat_mul64 bitrate_bps (cap_floor cap_permille))).

Definition lora_tx_ms (wire_len : nat) (modem : LoraModemConfig) : outcome Empty_set Z :=
  if wire_len <=? LORA_FRAME_PAYLOAD_MAX then frame_airtime_ms modem (wire_len + 1)
  else
    let* first := frame_airtime_ms modem (LORA_FRAME_PAYLOAD_MAX + 1) in
    let* second := frame_airtime_ms modem (wire_len - LORA_FRAME_PAYLOAD_MAX + 1) in
    Ok (sat_add32 first second).

Definition lora_spacing_ms (wire_len : nat) (modem : LoraModemConfig) (cap_permille : Z)
  : outcome Empty_set Z :=
  let* tx := lora_tx_ms wire_len modem in Ok (spacing_ms tx cap_permille).

Definition release_precedes (hops queued_ms other_hops other_queued_ms : Z) : bool :=
  (hops <? other_hops)%Z || ((hops =? other_hops)%Z && (queued_ms <? other_queued_ms)%Z).

(** The gate is its only field, [allowed_at_ms]. *)
Module AnnounceGate.
Definition OPEN : Z := 0.
Definition is_open (now_ms gate : Z) : bool := (gate <=? now_ms)%Z.
Definition charge (now_ms spacing_ms gate : Z) : Z := sat_add64 now_ms spacing_ms.

(** A host that checks the gate before each release and charges it after:
    [releases] is the list of release times and transmission times; the result
    is the final gate, or [None] when a release finds the gate closed. *)
Fixpoint release_all (cap_permille : Z) (releases : list (Z * Z)) (gate : Z) : option Z :=
  match releases with
  | [] => Some gate
  | (now, tx) :: rest =>
      if is_open now gate
      then release_all cap_permille rest (charge now (spacing_ms tx cap_permille) gate)
      else None
  end.

(** Transmission time of every release of the list. *)
Definition total_tx (releases : list (Z * Z)) : Z := fold_right (λ r a, snd r + a)%Z 0%Z releases.

Definition plausible (r : Z * Z) : Prop := (0 ≤ fst r < u64_max)%Z ∧ in_u32 (snd r).

Lemma spacing_covers tx cap :
  (0 ≤ tx)%Z → (0 ≤ cap)%Z → (tx * 1000 ≤ cap_floor cap * spacing_ms tx cap)%Z.
Proof.
  intros Htx Hcap. unfold spacing_ms.
  assert (0 < cap_floor cap)%Z by (unfold cap_floor; case_if; lia).
  destruct (div_ceil_spec (tx * 1000) (cap_floor cap)) as [?|[? ->]]; [nia|done|lia|nia].
Qed.

(** Time of the last release of a non-empty list. *)
Fixpoint last_time (t : Z) (rest : list (Z * Z)) : Z :=
  match rest with
  | [] => t
  | (t', _) :: rest' => last_time t' rest'
  end.

Lemma releases_paid cap rest : ∀ t tx gate gate',
  (0 ≤ cap)%Z → Forall plausible ((t, tx) :: rest) →
  release_all cap ((t, tx) :: rest) gate = Some gate' →
  (1000 * total_tx (removelast ((t, tx) :: rest)) ≤ cap_floor cap * (last_time t rest - t))%Z.
Proof.
  induction rest as [|[t2 tx2] rest IH]; intros t tx gate gate' Hcap Hall Hrun; [simpl; lia|].
  apply Forall_cons in Hall as [[Ht Htx] Hall].
  cbn [release_all] in Hrun. destruct (is_open t gate); [|done].
  change (removelast ((t, tx) :: (t2, tx2) :: rest))
    with ((t, tx) :: removelast ((t2, tx2) :: rest)).
  specialize (IH t2 tx2 _ gate' Hcap Hall Hrun).
  destruct (is_open t2 _) eqn:Hopen; [|done].
  apply Forall_cons in Hall as [[Ht2 _] _].
  unfold is_open, charge, sat_add64 in Hopen. apply Z.leb_le in Hopen.
  pose proof (spacing_covers tx cap ltac:(apply Htx) Hcap).
  assert (0 < cap_floor cap)%Z by (unfold cap_floor; case_if; lia).
  cbn [total_tx fold_right snd last_time fst] in *.
  fold (total_tx (removelast ((t2, tx2) :: rest))). unfold u64_max in *. nia.
Qed.
End AnnounceGate.

(** The airtime estimate where it is computed without a panic. *)
Definition frame_airtime_option (m : LoraModemConfig) (len : nat) : option Z :=
  match frame_airtime_ms m len with Ok a => Some a | _ => None end.

Lemma bitrate_spacing_covers len bitrate cap s :
  len ≤ LORA_SPLIT_FRAME_PAYLOAD_MAX → (0 ≤ bitrate)%Z → (0 ≤ cap)%Z →
  (bitrate * cap_floor cap ≤ u64_max)%Z →
  bitrate_spacing_ms len bitrate cap = Some s →
  (Z.of_nat len * 8 * 1000000 ≤ bitrate * cap_floor cap * s)%Z.
Proof.
  intros Hlen Hb Hcap Hfit. unfold bitrate_spacing_ms. case_if; [done|]. intros [= <-].
  assert (0 < cap_floor cap)%Z by (unfold cap_floor; case_if; lia).
  unfold sat_mul64 in *. rewrite (Z.min_l (bitrate * _)) by lia.
  rewrite Z.min_l by (revert Hlen; sizes; unfold u64_max; lia).
  destruct (div_ceil_spec (Z.of_nat len * 8000000) (bitrate * cap_floor cap)) as [?|[? ->]]; nia.
Qed.

(** Frames the LoRa framer makes of a packet of [wire_len] bytes. *)
Definition frame_lengths (packet : list Z) (n : Z) : list nat :=
  match LoraFramer.encode packet n (LoraFrame.new, LoraFrame.new) with
  | (Ok 1, (f0, _)) => [length (LoraFrame.as_slice f0)]
  | (Ok 2, (f0, f1)) => [length (LoraFrame.as_slice f0); length (LoraFrame.as_slice f1)]
  | _ => []
  end.

Lemma frame_lengths_split packet n :
  length packet ≤ LORA_SPLIT_FRAME_PAYLOAD_MAX →
  frame_lengths packet n =
    if length packet <=? LORA_FRAME_PAYLOAD_MAX then [length packet + 1]
    else [LORA_FRAME_PAYLOAD_MAX + 1; length packet - LORA_FRAME_PAYLOAD_MAX + 1].
Proof.
  intros Hlen. unfold frame_lengths. sizes. case_if.
  - destruct (encode_single packet n ltac:(sizes; lia) LoraFrame.new LoraFrame.new)
      as (g0 & -> & Hg); [split; vm_compute; lia|].
    rewrite Hg. simpl. f_equal. lia.
  - destruct (encode_split packet n ltac:(sizes; lia) LoraFrame.new LoraFrame.new)
      as (g0 & g1 & -> & Hg0 & Hg1); [split; vm_compute; lia..|].
    rewrite Hg0, Hg1. sizes. cbn [length]. rewrite length_take, length_drop. repeat f_equal; lia.
Qed.

(** The announce cap is a duty cycle. A host that releases announces only
    through an open gate and charges it for each one spends, on all but the
    last release, at most the cap's share of the time between the first and
    the last; on a LoRa interface the charged time is exactly the airtime of
    the frames the framer makes of the packet, computed without overflow, and on
    a bitrate interface the spacing covers the bits at the capped rate. *)
Lemma announce_cap_duty_cycle cap t tx rest gate gate' packet n m :
  in_u16 cap → Forall AnnounceGate.plausible ((t, tx) :: rest) →
  AnnounceGate.release_all cap ((t, tx) :: rest) gate = Some gate' →
  length packet ≤ LORA_SPLIT_FRAME_PAYLOAD_MAX → valid_modem m →
  (1000 * AnnounceGate.total_tx (removelast ((t, tx) :: rest))
     ≤ cap_floor cap * (AnnounceGate.last_time t rest - t))%Z ∧
  ∃ airtimes total, mapM (frame_airtime_option m) (frame_lengths packet n) = Some airtimes ∧
    total = Z.min (fold_right Z.add 0%Z airtimes) u32_max ∧
    lora_tx_ms (length packet) m = Ok total ∧
    lora_spacing_ms (length packet) m cap = Ok (spacing_ms total cap) ∧
    (total * 1000 ≤ cap_floor cap * spacing_ms total cap)%Z ∧
    ∀ bitrate s, (0 ≤ bitrate)%Z → (bitrate * cap_floor cap ≤ u64_max)%Z →
      bitrate_spacing_ms (length packet) bitrate cap = Some s →
      (Z.of_nat (length packet) * 8 * 1000000 ≤ bitrate * cap_floor cap * s)%Z.
Proof.
  intros [Hcap _] Hall Hrun Hlen Hm.
  split; [by eapply AnnounceGate.releases_paid|].
  pose proof (λ b s Hb, bitrate_spacing_covers (length packet) b cap s Hlen Hb Hcap) as Hbit.
  rewrite frame_lengths_split by done. unfold lora_spacing_ms, lora_tx_ms, frame_airtime_option.
  unfold LORA_SPLIT_FRAME_PAYLOAD_MAX in Hlen.
  case_if.
  - destruct (frame_airtime_exact m (length packet + 1) Hm ltac:(sizes; lia)) as [Heq Hr].
    simpl. rewrite Heq. set (a := ceil_div_u64 _ _) in *. clearbody a. eexists _, a.
    split; [done|]. split; [simpl; lia|]. split; [done|]. split; [done|]. split; [|done].
    apply AnnounceGate.spacing_covers; lia.
  - destruct (frame_airtime_exact m (LORA_FRAME_PAYLOAD_MAX + 1) Hm ltac:(sizes; lia)) as [Heq1 Hr1].
    destruct (frame_airtime_exact m (length packet - LORA_FRAME_PAYLOAD_MAX + 1) Hm
      ltac:(sizes; lia)) as [Heq2 Hr2].
    cbn [mapM mbind option_bind]. rewrite Heq1, Heq2.
    set (a := ceil_div_u64 (symbols_x100 m (LORA_FRAME_PAYLOAD_MAX + 1) * _) _) in *.
    set (b := ceil_div_u64 (symbols_x100 m (length packet - _ + 1) * _) _) in *.
    clearbody a b. eexists _, (sat_add32 a b).
    split; [done|]. split; [unfold sat_add32; simpl; f_equal; lia|]. split; [done|]. split; [done|]. split; [|done].
    apply AnnounceGate.spacing_covers; unfold sat_add32, u32_max; lia.
Qed.

(** * Durable ordering of local announces *)

Definition ANNOUNCE_TIME_MAX : Z := Z.shiftl 1 40 - 1.
Definition ANNOUNCE_WIRE_STATE_BLOB_LEN : nat := 7.
Definition ANNOUNCE_WIRE_STATE_VERSION : Z := 1.
Definition HAS_LAST_VALUE : Z := 1.

Inductive AnnounceWireError := InvalidBlob | OutputTooSmall | Exhausted | StaleCandidate.

(** The state is its only field, [last_value]. *)
Definition AnnounceWireState : Type := option Z.

Module AnnounceWireState.

Definition new : AnnounceWireState := None.

(** [self.last_value.is_some_and(|last| now <= last)]. *)
Definition reached (now : Z) (self : AnnounceWireState) : bool :=
  match self with Some last => (now <=? last)%Z | None => false end.

Definition prepare_next (wall_secs : option Z) (self : AnnounceWireState)
  : outcome AnnounceWireError (option AnnounceWireState) :=
  match wall_secs with
  | Some now =>
      if (ANNOUNCE_TIME_MAX <? now)%Z then Err Exhausted
      else if reached now self then Ok None
      else Ok (Some (Some now))
  | None =>
      match self with
      | Some last =>
          let* next := ok_or (match checked_add64 last 1 with
                              | Some v => if (v <=? ANNOUNCE_TIME_MAX)%Z then Some v else None
                              | None => None
                              end) Exhausted in
          Ok (Some (Some next))
      | None => Ok (Some (Some 0%Z))
      end
  end.

Definition commit_prepared (prepared : AnnounceWireState)
  : st AnnounceWireState AnnounceWireError Z := λ self,
  match prepared with
  | None => (Err StaleCandidate, self)
  | Some next => if reached next self then (Err StaleCandidate, self) else (Ok next, Some next)
  end.

(** The output slice is the state: it keeps the bytes written before an error. *)
Definition serialize_into (self : AnnounceWireState) : st (list Z) AnnounceWireError nat := λ out,
  if length out <? ANNOUNCE_WIRE_STATE_BLOB_LEN then (Err OutputTooSmall, out)
  else
    let out := <[0 := ANNOUNCE_WIRE_STATE_VERSION]> out in
    let out := <[1 := match self with Some _ => HAS_LAST_VALUE | None => 0%Z end]> out in
    let value := default 0%Z self in
    if (ANNOUNCE_TIME_MAX <? value)%Z then (Err InvalidBlob, out)
    else (Ok ANNOUNCE_WIRE_STATE_BLOB_LEN, splice 2 (drop 3 (be_bytes 8 value)) out).

Definition deserialize (blob : list Z) : outcome AnnounceWireError AnnounceWireState :=
  if negb (length blob =? ANNOUNCE_WIRE_STATE_BLOB_LEN) then Err InvalidBlob
  else
    let* version := index blob 0 in
    if negb (version =? ANNOUNCE_WIRE_STATE_VERSION)%Z then Err InvalidBlob
    else
      let* flags := index blob 1 in
      if negb (Z.land flags (not8 HAS_LAST_VALUE) =? 0)%Z then Err InvalidBlob
      else
        let* tail := slice_get blob 2 7 in
        let* encoded := copy_into (zeros 8) 3 tail in
        let value := of_be encoded in
        if negb (Z.land flags HAS_LAST_VALUE =? 0)%Z then Ok (Some value)
        else if negb (value =? 0)%Z then Err InvalidBlob
        else Ok None.

(** A stored value fits the 40-bit field. *)
Definition wf (self : AnnounceWireState) : Prop :=
  match self with Some v => (0 ≤ v ≤ ANNOUNCE_TIME_MAX)%Z | None => True end.

(** The bytes of a state. *)
Definition blob (self : AnnounceWireState) : list Z :=
  [ANNOUNCE_WIRE_STATE_VERSION; match self with Some _ => HAS_LAST_VALUE | None => 0%Z end]
    ++ be_bytes 5 (default 0%Z self).

(** One use of the state by a host: an announce that is prepared and committed,
    or a restart from the stored bytes. The emitted values are collected. *)
Inductive host : AnnounceWireState → list Z → Prop :=
| host_new : host new []
| host_emit s vs wall cand v s' :
    host s vs → (∀ w, wall = Some w → in_u64 w) →
    prepare_next wall s = Ok (Some cand) → commit_prepared cand s = (Ok v, s') →
    host s' (vs ++ [v])
| host_restart s vs out n out' s' :
    host s vs → serialize_into s out = (Ok n, out') →
    deserialize (take ANNOUNCE_WIRE_STATE_BLOB_LEN out') = Ok s' → host s' vs.

Lemma length_blob s : length (blob s) = ANNOUNCE_WIRE_STATE_BLOB_LEN.
Proof. unfold blob. rewrite length_app, length_be_bytes. done. Qed.

Lemma time_max_eq : ANNOUNCE_TIME_MAX = (256 ^ 5 - 1)%Z.
Proof. reflexivity. Qed.

Lemma reached_false now s : reached now s = false → ∀ last, s = Some last → (last < now)%Z.
Proof. intros H last ->. simpl in H. by apply Z.leb_gt. Qed.

Lemma prepare_wf wall s cand :
  wf s → (∀ w, wall = Some w → in_u64 w) → prepare_next wall s = Ok (Some cand) → wf cand.
Proof.
  intros Hs Hw. unfold prepare_next. destruct wall as [now|].
  - case_if; [done|]. case_if; [done|]. intros [= <-]. simpl.
    destruct (Hw now eq_refl). lia.
  - destruct s as [last|]; [|intros [= <-]; simpl; rewrite time_max_eq; lia].
    destruct (checked_add64 last 1) as [v|] eqn:Hc; simpl; [|done].
    case_if; [|done]. simpl. intros [= <-]. apply checked_add64_Some in Hc as [-> _].
    simpl in *. lia.
Qed.

Lemma serialize_ok s out :
  wf s → ANNOUNCE_WIRE_STATE_BLOB_LEN ≤ length out →
  serialize_into s out = (Ok ANNOUNCE_WIRE_STATE_BLOB_LEN,
                          blob s ++ drop ANNOUNCE_WIRE_STATE_BLOB_LEN out).
Proof.
  intros Hs Hlen. unfold serialize_into. rewrite (proj2 (Nat.ltb_ge _ _)) by done.
  rewrite (proj2 (Z.ltb_ge _ _)) by (destruct s; simpl in *; [lia|rewrite time_max_eq; lia]).
  f_equal. unfold ANNOUNCE_WIRE_STATE_BLOB_LEN in *.
  destruct out as [|x0 [|x1 out]]; simpl in Hlen; [lia..|].
  unfold splice, blob. cbn [insert list_insert take app length].
  rewrite length_drop, length_be_bytes. simpl. destruct s; done.
Qed.

(** Deserialisation of seven bytes, as a function of their three fields. *)
Lemma deserialize_fields version flags tail :
  length tail = 5 →
  deserialize (version :: flags :: tail) =
    if negb (version =? ANNOUNCE_WIRE_STATE_VERSION)%Z then Err InvalidBlob
    else if negb (Z.land flags (not8 HAS_LAST_VALUE) =? 0)%Z then Err InvalidBlob
    else if negb (Z.land flags HAS_LAST_VALUE =? 0)%Z then Ok (Some (of_be tail))
    else if negb (of_be tail =? 0)%Z then Err InvalidBlob
    else Ok None.
Proof.
  intros Ht. unfold deserialize. cbn [length]. rewrite Ht. cbn [Nat.eqb negb].
  rewrite !(index_Ok _ 0 version), !(index_Ok _ 1 flags) by done. cbn [obind].
  case_if; [done|]. case_if; [done|].
  rewrite slice_get_Ok by (cbn [length]; lia). cbn [obind].
  replace (slice _ 2 7) with tail
    by (unfold slice; cbn [drop Nat.sub]; symmetry; apply take_ge; lia).
  rewrite copy_into_Ok by (unfold zeros; rewrite length_replicate; lia). cbn [obind].
  replace (splice 3 tail (zeros 8)) with (zeros 3 ++ tail); [by rewrite of_be_zeros|].
  unfold splice. rewrite Ht. cbn. by rewrite app_nil_r.
Qed.

Lemma deserialize_blob s : wf s → deserialize (blob s) = Ok s.
Proof.
  intros Hs. unfold blob. cbn [app]. rewrite deserialize_fields by apply length_be_bytes.
  destruct s as [v|]; [|reflexivity]. change (default 0%Z (Some v)) with v.
  rewrite of_be_be_bytes; [reflexivity|]. unfold wf in Hs.
  rewrite time_max_eq in Hs. change (Z.of_nat 5) with 5%Z. lia.
Qed.

Lemma flag_cases fl :
  is_byte fl → Z.land fl (not8 HAS_LAST_VALUE) = 0%Z → fl = 0%Z ∨ fl = 1%Z.
Proof.
  intros Hfl Hz.
  assert (H : (implb (Z.land fl (not8 HAS_LAST_VALUE) =? 0) ((fl =? 0) || (fl =? 1)))%Z = true)
    by (revert fl Hfl Hz; intros fl Hfl _; revert fl Hfl; byte_check).
  rewrite Hz in H. cbn [implb Z.eqb] in H. apply orb_true_iff in H as [H|H]; bool_hyps; auto.
Qed.

Lemma deserialize_canonical b s : bytes b → deserialize b = Ok s → wf s ∧ b = blob s.
Proof.
  intros Hb Hde. destruct (decide (length b = 7)) as [Hl|Hl].
  2:{ unfold deserialize in Hde. by rewrite (proj2 (Nat.eqb_neq _ _)) in Hde. }
  destruct b as [|v [|fl tail]]; [done..|]. injection Hl as Ht.
  rewrite deserialize_fields in Hde by done.
  apply Forall_cons in Hb as [_ Hb]. apply Forall_cons in Hb as [Hfl Hb].
  pose proof (of_be_bound tail Hb) as Hr. rewrite Ht in Hr. change (Z.of_nat 5) with 5%Z in Hr.
  pose proof (be_bytes_of_be tail Hb) as Hbe. rewrite Ht in Hbe.
  destruct (v =? ANNOUNCE_WIRE_STATE_VERSION)%Z eqn:Hv; [|done]. apply Z.eqb_eq in Hv as ->.
  destruct (Z.land fl (not8 HAS_LAST_VALUE) =? 0)%Z eqn:Hm; [|done]. apply Z.eqb_eq in Hm.
  destruct (flag_cases fl Hfl Hm) as [-> | ->]; cbn in Hde.
  - destruct (of_be tail =? 0)%Z eqn:Hz; [|done]. apply Z.eqb_eq in Hz. injection Hde as <-.
    split; [done|]. unfold blob. cbn [from_option id app]. rewrite Hz in Hbe. by rewrite <- Hbe.
  - injection Hde as <-. split; [unfold wf; rewrite time_max_eq; lia|].
    unfold blob. cbn [from_option id app]. by rewrite Hbe.
Qed.

Lemma take_serialized s out n out' :
  wf s → serialize_into s out = (Ok n, out') → take ANNOUNCE_WIRE_STATE_BLOB_LEN out' = blob s.
Proof.
  intros Hs. destruct (decide (ANNOUNCE_WIRE_STATE_BLOB_LEN ≤ length out)) as [Hl|Hl].
  - rewrite serialize_ok by done. intros H. apply (f_equal snd) in H. cbn [snd] in H.
    rewrite <- H.
    rewrite take_app_le by (by rewrite length_blob). apply take_ge. by rewrite length_blob.
  - unfold serialize_into. rewrite (proj2 (Nat.ltb_lt _ _)) by lia. done.
Qed.

(** What the emitted values of a run look like. *)
Lemma host_ordered s vs :
  host s vs → wf s ∧ last vs = s ∧ StronglySorted Z.lt vs ∧
    Forall (λ v, 0 ≤ v ≤ ANNOUNCE_TIME_MAX)%Z vs.
Proof.
  induction 1 as [|s vs wall cand v s' Hrun (Hw & Hl & Hsort & Hall) Hwall Hprep Hcommit
                  |s vs out n out' s' Hrun (Hw & Hl & Hsort & Hall) Hser Hde].
  - repeat constructor.
  - pose proof (prepare_wf _ _ _ Hw Hwall Hprep) as Hcand.
    destruct cand as [next|]; simpl in Hcommit; [|done].
    destruct (reached next s) eqn:Hr; [done|]. injection Hcommit as <- <-.
    split; [done|]. split; [by rewrite last_snoc|]. split.
    + apply StronglySorted_app. split; [|split; [done|repeat constructor]].
      intros x y Hx ->%list_elem_of_singleton. simplify_eq.
      destruct (last vs) as [last|] eqn:Hlast.
      * pose proof (reached_false next _ Hr last eq_refl) as Hlt.
        apply last_Some in Hlast as [vs' ->].
        apply StronglySorted_app in Hsort as (Hle & _ & _).
        apply elem_of_app in Hx as [Hx| ->%list_elem_of_singleton]; [|done].
        pose proof (Hle x last Hx ltac:(by apply list_elem_of_singleton)). lia.
      * apply last_None in Hlast as ->. by apply not_elem_of_nil in Hx.
    + apply Forall_app. split; [done|]. by constructor.
  - rewrite (take_serialized _ _ _ _ Hw Hser), deserialize_blob in Hde by done.
    by injection Hde as <-.
Qed.

(** The ordering value of local announces is durable. Over any sequence of
    prepared and committed announces (from wall time or from the logical
    sequence) and restarts from the stored bytes, the emitted values strictly
    increase and stay in the 40-bit field, and the live state is the last one;
    its serialisation always succeeds and restores exactly that state, and the
    stored bytes are canonical: whatever blob deserialises is the serialisation
    of the state it yields. *)
Lemma announce_values_durable s vs out b s' :
  host s vs → ANNOUNCE_WIRE_STATE_BLOB_LEN ≤ length out → bytes b →
  StronglySorted Z.lt vs ∧ Forall (λ v, 0 ≤ v ≤ ANNOUNCE_TIME_MAX)%Z vs ∧ last vs = s ∧
  (∃ out', serialize_into s out = (Ok ANNOUNCE_WIRE_STATE_BLOB_LEN, out') ∧
           deserialize (take ANNOUNCE_WIRE_STATE_BLOB_LEN out') = Ok s) ∧
  (deserialize b = Ok s' → wf s' ∧ serialize_into s' b = (Ok ANNOUNCE_WIRE_STATE_BLOB_LEN, b)).
Proof.
  intros (Hw & Hl & Hsort & Hall)%host_ordered Hout Hb. do 3 (split; [done|]). split.
  - eexists. split; [by apply serialize_ok|].
    by erewrite take_serialized, deserialize_blob by (done || by apply serialize_ok).
  - intros [Hw' ->]%deserialize_canonical; [|done]. split; [done|].
    rewrite serialize_ok by (done || by rewrite length_blob).
    by rewrite drop_ge, app_nil_r by (by rewrite length_blob).
Qed.

End AnnounceWireState.

(** * Witnesses *)

Definition LIMITED : AnnounceAdmissionConfig :=
  {| steady_per_sec := 5; grace_per_sec := 3; grace_secs := 60 |}.

Lemma admission_rate_bound_witness :
  let window := replicate 20 (false, 60000%Z) in
  let s := snd (AnnounceAdmission.admit_all LIMITED [(false, 0%Z); (true, 10%Z)] AnnounceAdmission.new) in
  fst (AnnounceAdmission.admit_all LIMITED window s) = 5 ∧
  (1000 * 5 ≤ 5 * (1000 + (60000 - 10)))%Z.
Proof.
  intros window s. split; [reflexivity|].
  pose proof (AnnounceAdmission.admission_rate_bound LIMITED 5 [(false, 0%Z); (true, 10%Z)]
    window 0 10 60000) as H.
  destruct H as [H _].
  - repeat split; vm_compute; congruence.
  - vm_compute. repeat split; congruence.
  - vm_compute. repeat split; congruence.
  - exact H.
Defined.

Lemma announce_cap_duty_cycle_witness :
  (1000 * 595 ≤ 20 * (29750 - 0))%Z.
Proof.
  destruct (announce_cap_duty_cycle 20 0 595 [(29750, 100)%Z] 0
    (29750 + 5000) (replicate 300 7%Z) 3 HELTEC_V3_LONG_FAST) as [H _].
  - vm_compute. split; congruence.
  - repeat constructor; vm_compute; congruence.
  - reflexivity.
  - vm_compute. lia.
  - repeat split; vm_compute; congruence.
  - exact H.
Defined.

Lemma announce_values_durable_witness :
  StronglySorted Z.lt [100; 101]%Z ∧
  AnnounceWireState.serialize_into (Some 101%Z) (zeros 7) = (Ok 7, [1; 1; 0; 0; 0; 0; 101]%Z).
Proof.
  pose proof (AnnounceWireState.announce_values_durable (Some 101%Z) [100; 101]%Z (zeros 7)
    [1; 1; 0; 0; 0; 0; 101]%Z (Some 101%Z)) as H.
  destruct H as [H _].
  - apply (AnnounceWireState.host_emit (Some 100%Z) [100%Z] None (Some 101%Z)); [|done|done|done].
    apply (AnnounceWireState.host_emit None [] (Some 100%Z) (Some 100%Z)); [constructor| |done|done].
    intros w [= <-]. vm_compute. split; congruence.
  - vm_compute. lia.
  - repeat constructor; vm_compute; congruence.
  - split; [exact H|reflexivity].
Defined.
