(* ===== verification/AnnounceTables.v ===== *)
(** Announces held by a relay: the announce cache that answers path requests
    and the rebroadcast schedule (src/src/tables.rs, [AnnounceCache],
    [ScheduledAnnounce] and [AnnounceSchedule]).

    The schedule owes each announce to a set of registry interfaces, one bit
    each. Releases to an interface follow the announce-cap order, and the main
    theorem shows that repeated releases hand over everything owed to that
    interface, once each, in that order, without touching what is owed to the
    other interfaces. *)

From stdpp Require Import sorting.
From S2P Require Import Prelude Constants Buffer Slots GenTable PathTable Lora AnnounceFlow.

Record CachedAnnounce := {
  ca_destination_hash : list Z;
  ca_raw : PacketBuffer;
  ca_hops : Z;
  ca_expires_ms : Z;
  ca_bulk : bool
}.

#[export] Instance CachedAnnounce_entry : Entry CachedAnnounce (list Z) :=
  {| entry_key := ca_destination_hash; entry_expires := ca_expires_ms |}.

Abbreviation AnnounceCache := (list (option CachedAnnounce)).

(** * Announce cache *)

Module AnnounceCache.

Definition new (N : nat) : AnnounceCache := replicate N None.
Definition clear (t : AnnounceCache) : AnnounceCache := replicate (length t) None.

Definition get (destination_hash : list Z) (now_ms : Z) (t : AnnounceCache) : option CachedAnnounce :=
  find (λ e, (ca_destination_hash e =k destination_hash) && (now_ms <? ca_expires_ms e)%Z) (flatten t).

Definition expire (now_ms : Z) (t : AnnounceCache) : AnnounceCache :=
  purge (λ e, (ca_expires_ms e <=? now_ms)%Z) t.

Definition insert (entry : CachedAnnounce) (now_ms : Z) (t : AnnounceCache) : AnnounceCache :=
  let t := expire now_ms t in
  match position (slot_is (λ old, ca_destination_hash old =k ca_destination_hash entry)) t with
  | Some idx => <[idx := Some entry]> t
  | None =>
      match or_else (position is_none t) (class_victim (ca_bulk entry) ca_bulk ca_expires_ms t) with
      | Some idx => <[idx := Some entry]> t
      | None => t
      end
  end.

Definition retain_paths (paths : PathTable) (now_ms : Z) (t : AnnounceCache) : AnnounceCache :=
  purge (λ e, match PathTable.get_live (ca_destination_hash e) now_ms paths with
              | Some _ => false | None => true end) t.

Lemma cache_get_Some k now t e :
  unique_keys t → get k now t = Some e ↔
    ca_destination_hash e = k ∧ (now < ca_expires_ms e)%Z ∧ ∃ i, t !! i = Some (Some e).
Proof. intros Hu. exact (find_key_live k now t e Hu). Qed.

Lemma cache_unique_insert entry now t : unique_keys t → unique_keys (insert entry now t).
Proof.
  intros Hu. unfold insert. pose proof (unique_keys_purge (expired now) t Hu) as Hu1.
  destruct (position _ _) as [idx|] eqn:Hp; [by apply unique_keys_upsert_hit|].
  destruct (or_else _ _) as [idx|]; [by apply unique_keys_upsert_miss|done].
Qed.

Lemma lookup_cache_expire now t i e :
  expire now t !! i = Some (Some e) ↔ t !! i = Some (Some e) ∧ (now < ca_expires_ms e)%Z.
Proof. unfold expire. by rewrite lookup_purge_Some, Z.leb_gt. Qed.

(** A live cached announce that an insertion for another destination displaces. *)
Lemma insert_displaces entry now t i v :
  unique_keys t → t !! i = Some (Some v) → (now < ca_expires_ms v)%Z →
  ca_destination_hash v ≠ ca_destination_hash entry →
  insert entry now t !! i ≠ Some (Some v) →
  insert entry now t !! i = Some (Some entry) ∧
  (ca_bulk entry = true → ca_bulk v = true) ∧
  (ca_bulk v = false → ∀ j e, t !! j = Some (Some e) → (now < ca_expires_ms e)%Z → ca_bulk e = false) ∧
  (∀ j e, t !! j = Some (Some e) → (now < ca_expires_ms e)%Z → ca_bulk e = ca_bulk v →
     (ca_expires_ms v ≤ ca_expires_ms e)%Z).
Proof.
  intros Hu Hi Hl Hne. unfold insert.
  assert (Hie : expire now t !! i = Some (Some v)) by (by apply lookup_cache_expire).
  destruct (position _ _) as [idx|] eqn:Hp.
  - apply position_slot_Some in Hp as (x & Hx & Hk & _). apply bool_decide_eq_true in Hk.
    intros Hlost. destruct (decide (idx = i)) as [->|Hii].
    + congruence.
    + by rewrite list_lookup_insert_ne in Hlost.
  - destruct (or_else _ _) as [idx|] eqn:Hr; [|done].
    destruct (free_or_class_Some _ _ _ _ _ Hr) as [Hlt Hslot]. intros Hlost.
    destruct (decide (idx = i)) as [->|Hii]; [|by rewrite list_lookup_insert_ne in Hlost].
    split; [by apply lookup_written|].
    destruct Hslot as [Hn|(_ & v' & Hv' & Hb & Hcls & Hmin)]; [congruence|].
    rewrite Hie in Hv'. injection Hv' as <-. split; [done|]. split.
    + intros Hbv j e Hj Hlj. apply (Hcls Hbv j). by apply lookup_cache_expire.
    + intros j e Hj Hlj. apply Hmin with (j := j). by apply lookup_cache_expire.
Qed.

(** The announce cache. Destinations stay unique; a cached announce for a
    known destination, or one stored in a slot, is what lookups return until it
    expires; a live announce for another destination is displaced only by one
    that is stored, in a full table, under the bulk policy and by expiry order;
    and after [retain_paths] every cached announce has a live route. *)
Lemma announce_cache_contract entry now t paths :
  unique_keys t →
  let t' := insert entry now t in
  unique_keys t' ∧
  (∀ now', get (ca_destination_hash entry) now t ≠ None ∨ position is_none (expire now t) ≠ None →
     (now' < ca_expires_ms entry)%Z → get (ca_destination_hash entry) now' t' = Some entry) ∧
  (∀ k v, get k now t = Some v → k ≠ ca_destination_hash entry → get k now t' ≠ Some v →
     position is_none (expire now t) = None ∧
     (ca_bulk entry = true → ca_bulk v = true) ∧
     (ca_bulk v = false → ∀ k' e, get k' now t = Some e → ca_bulk e = false) ∧
     (∀ k' e, get k' now t = Some e → ca_bulk e = ca_bulk v →
        (ca_expires_ms v ≤ ca_expires_ms e)%Z)) ∧
  (∀ k e, get k now (retain_paths paths now t') = Some e ↔
          get k now t' = Some e ∧ PathTable.get_live k now paths ≠ None).
Proof.
  intros Hu t'. assert (Hu' : unique_keys t') by (by apply cache_unique_insert).
  split; [done|]. split; [|split].
  - intros now' Hroom Hl. apply cache_get_Some; [done|]. split; [done|]. split; [done|].
    unfold t', insert. destruct (position (slot_is _) _) as [idx|] eqn:Hp.
    { exists idx. apply lookup_written. by eapply position_lt. }
    destruct Hroom as [Hg|Hf].
    + apply not_eq_None_Some in Hg as [e He]. exfalso.
      apply cache_get_Some in He as (Hk & Hle & i & Hi); [|done].
      rewrite position_slot_None in Hp.
      assert (Hie : expire now t !! i = Some (Some e)) by (by apply lookup_cache_expire).
      apply Hp, bool_decide_eq_false in Hie. done.
    + apply not_eq_None_Some in Hf as [idx Hidx]. rewrite Hidx. simpl.
      exists idx. apply lookup_written. by eapply position_lt.
  - intros k v (Hk & Hl & i & Hi)%cache_get_Some Hne Hlost; [|done].
    assert (Hli : t' !! i ≠ Some (Some v)).
    { intros Hi'. apply Hlost. apply cache_get_Some; [done|]. eauto. }
    destruct (insert_displaces entry now t i v Hu Hi Hl ltac:(congruence) Hli)
      as (Hst & Hb & Hcls & Hmin).
    split.
    { destruct (position is_none (expire now t)) as [j|] eqn:Hp; [|done]. exfalso.
      unfold insert in Hst. rewrite Hp in Hst. apply first_free_Some in Hp.
      assert (Hie : expire now t !! i = Some (Some v)) by (by apply lookup_cache_expire).
      destruct (position (slot_is _) _) as [idx|] eqn:Hq.
      - apply position_slot_Some in Hq as (x & Hx & Hkx & _). apply bool_decide_eq_true in Hkx.
        apply lookup_write_slot in Hst as [[<- _]|[_ Hst]]; congruence.
      - simpl in Hst. apply lookup_write_slot in Hst as [[<- _]|[_ Hst]]; congruence. }
    split; [done|]. split.
    + intros Hbv k' e (Hk' & Hl' & j & Hj)%cache_get_Some; [|done]. by apply (Hcls Hbv j).
    + intros k' e (Hk' & Hl' & j & Hj)%cache_get_Some; [|done]. by apply (Hmin j).
  - intros k e. rewrite !cache_get_Some by (done || by apply unique_keys_purge).
    unfold retain_paths. setoid_rewrite lookup_purge_Some. split.
    + intros (<- & Hl & i & Hi & Hp). split; [by eauto|]. by case_match.
    + intros [(<- & Hl & i & Hi) Hp]. split; [done|]. split; [done|]. exists i.
      split; [done|]. by case_match.
Qed.

End AnnounceCache.

(** * Rebroadcast schedule *)

Record ScheduledAnnounce := {
  sa_destination_hash : list Z;
  sa_packet : PacketBuffer;
  sa_interface_id : Z;
  sa_due_ms : Z;
  sa_expires_ms : Z;
  sa_block_rebroadcast : bool;
  sa_hops : Z;
  sa_retries : Z;
  sa_local_rebroadcasts : Z;
  sa_pending_targets : Z
}.

#[export] Instance ScheduledAnnounce_entry : Entry ScheduledAnnounce (list Z) :=
  {| entry_key := sa_destination_hash; entry_expires := sa_expires_ms |}.

Definition PENDING_ONLY : Z := u64_max.
Definition pending_only (e : ScheduledAnnounce) : bool := (sa_due_ms e =? PENDING_ONLY)%Z.

Abbreviation AnnounceSchedule := (list (option ScheduledAnnounce)).

Module AnnounceSchedule.

Definition new (N : nat) : AnnounceSchedule := replicate N None.
Definition clear (t : AnnounceSchedule) : AnnounceSchedule := replicate (length t) None.

Definition expire (now_ms : Z) (t : AnnounceSchedule) : AnnounceSchedule :=
  purge (λ e, (sa_expires_ms e <=? now_ms)%Z) t.

(** [x] is released before [y]. *)
Definition precedes (x y : ScheduledAnnounce) : bool :=
  release_precedes (sa_hops x) (sa_expires_ms x) (sa_hops y) (sa_expires_ms y).

Definition last_released_pending (t : AnnounceSchedule) : option nat :=
  fst <$> best pending_only (λ entry worst, precedes worst entry) t.

Definition insert (entry : ScheduledAnnounce) (now_ms : Z) (t : AnnounceSchedule)
  : AnnounceSchedule :=
  let t := expire now_ms t in
  match position (slot_is (λ old, sa_destination_hash old =k sa_destination_hash entry)) t with
  | Some idx => <[idx := Some entry]> t
  | None =>
      match or_else (position is_none t)
              (or_else (last_released_pending t) (oldest_index sa_expires_ms t)) with
      | Some idx => <[idx := Some entry]> t
      | None => t
      end
  end.

(** [1u8.checked_shl(u32::try_from(slot).ok()?)]. *)
Definition slot_bit (slot : nat) : option Z :=
  if slot <? 8 then Some (Z.shiftl 1 (Z.of_nat slot)) else None.

Definition with_targets (targets : Z) (e : ScheduledAnnounce) : ScheduledAnnounce :=
  {| sa_destination_hash := sa_destination_hash e; sa_packet := sa_packet e;
     sa_interface_id := sa_interface_id e; sa_due_ms := sa_due_ms e;
     sa_expires_ms := sa_expires_ms e; sa_block_rebroadcast := sa_block_rebroadcast e;
     sa_hops := sa_hops e; sa_retries := sa_retries e;
     sa_local_rebroadcasts := sa_local_rebroadcasts e; sa_pending_targets := targets |}.

(** [scheduled.pending_targets &= !bit], and whether the entry is still needed. *)
Definition clear_bit (bit : Z) (e : ScheduledAnnounce) : ScheduledAnnounce :=
  with_targets (Z.land (sa_pending_targets e) (not8 bit)) e.
Definition still_needed (e : ScheduledAnnounce) : bool :=
  negb (sa_pending_targets e =? 0)%Z || negb (pending_only e).

Definition release_pending (slot : nat) (now_ms : Z) (t : AnnounceSchedule)
  : option ScheduledAnnounce * AnnounceSchedule :=
  let t := expire now_ms t in
  match slot_bit slot with
  | None => (None, t)
  | Some bit =>
      match best (λ e, negb (Z.land (sa_pending_targets e) bit =? 0)%Z) precedes t with
      | None => (None, t)
      | Some (idx, e) =>
          let released := clear_bit bit e in
          (Some released, <[idx := if still_needed released then Some released else None]> t)
      end
  end.

Definition clear_target (slot : nat) (t : AnnounceSchedule) : AnnounceSchedule :=
  match slot_bit slot with
  | None => t
  | Some bit =>
      map (λ s, match s with
                | Some e => if still_needed (clear_bit bit e) then Some (clear_bit bit e) else None
                | None => None
                end) t
  end.

Definition pop_due (now_ms : Z) (t : AnnounceSchedule)
  : option ScheduledAnnounce * AnnounceSchedule :=
  let t := expire now_ms t in
  match position (slot_is (λ e, (sa_due_ms e <=? now_ms)%Z)) t with
  | None => (None, t)
  | Some idx => (mjoin (t !! idx), <[idx := None]> t)
  end.

(** [get_mut], as the write the caller makes through the reference. *)
Definition get_mut (destination_hash : list Z) (f : ScheduledAnnounce → ScheduledAnnounce)
    (t : AnnounceSchedule) : AnnounceSchedule :=
  update_first (λ e, sa_destination_hash e =k destination_hash) f t.

Definition remove (destination_hash : list Z) (t : AnnounceSchedule) : AnnounceSchedule :=
  purge (λ e, sa_destination_hash e =k destination_hash) t.

Definition remove_interface (interface : Z) (t : AnnounceSchedule) : AnnounceSchedule :=
  purge (λ e, (sa_interface_id e =? interface)%Z) t.

(** ** What is owed *)

(** The announces owed to an interface, in slot order. *)
Definition wants (slot : nat) (e : ScheduledAnnounce) : bool :=
  Z.testbit (sa_pending_targets e) (Z.of_nat slot).
Definition owed (slot : nat) (t : AnnounceSchedule) : list ScheduledAnnounce :=
  List.filter (wants slot) (flatten t).

(** Pending targets are bytes, and no entry is kept for nothing. *)
Definition fit (e : ScheduledAnnounce) : Prop :=
  is_byte (sa_pending_targets e) ∧ still_needed e = true.
Definition fit_all (t : AnnounceSchedule) : Prop := ∀ i e, t !! i = Some (Some e) → fit e.

Lemma bit_wants slot bit e :
  slot_bit slot = Some bit →
  negb (Z.land (sa_pending_targets e) bit =? 0)%Z = wants slot e.
Proof.
  unfold slot_bit, wants. case_if; [|done]. intros [= <-].
  rewrite Z.shiftl_mul_pow2, Z.mul_1_l by lia.
  destruct (Z.testbit (sa_pending_targets e) (Z.of_nat slot)) eqn:Ht.
  - apply negb_true_iff, Z.eqb_neq. intros H0.
    apply (f_equal (λ z, Z.testbit z (Z.of_nat slot))) in H0.
    rewrite Z.land_spec, Ht, Z.pow2_bits_true, Z.bits_0 in H0 by lia. done.
  - apply negb_false_iff, Z.eqb_eq, Z.bits_inj_0. intros n. rewrite Z.land_spec.
    destruct (decide (n = Z.of_nat slot)) as [->|Hn]; [by rewrite Ht|].
    rewrite Z.pow2_bits_false by lia. apply andb_false_r.
Qed.

Lemma wants_cleared slot bit s e :
  slot_bit slot = Some bit → s < 8 →
  wants s (clear_bit bit e) = wants s e && negb (s =? slot).
Proof.
  unfold slot_bit. case_if; [|done]. intros [= <-] Hs. unfold wants, clear_bit, not8. simpl.
  rewrite Z.land_spec, Z.lxor_spec, Z.shiftl_mul_pow2, Z.mul_1_l by lia.
  change 255%Z with (Z.ones 8). rewrite (Z.ones_spec_low 8 (Z.of_nat s)) by lia.
  destruct (decide (s = slot)) as [->|Hne].
  - rewrite Z.pow2_bits_true, Nat.eqb_refl by lia. done.
  - rewrite Z.pow2_bits_false, (proj2 (Nat.eqb_neq s slot)) by lia. done.
Qed.

Lemma byte_cleared bit e :
  is_byte (sa_pending_targets e) → is_byte (sa_pending_targets (clear_bit bit e)).
Proof.
  unfold is_byte. simpl. intros [H0 H1]. split; [apply Z.land_nonneg; by left|].
  replace (Z.land (sa_pending_targets e) (not8 bit))
    with (Z.land (Z.land (sa_pending_targets e) (not8 bit)) 255).
  - rewrite land_255_mod. apply Z.mod_pos_bound. lia.
  - rewrite <- Z.land_assoc, (Z.land_comm (not8 bit)), Z.land_assoc, land_255_mod.
    by rewrite Z.mod_small.
Qed.

(** An entry dropped as no longer needed owes nothing. *)
Lemma unneeded_owes_nothing s e : still_needed e = false → wants s e = false.
Proof.
  unfold still_needed, wants. intros [H _]%orb_false_iff. apply negb_false_iff, Z.eqb_eq in H.
  rewrite H. apply Z.bits_0.
Qed.

Lemma precedes_asym x y : precedes x y = true → precedes y x = false.
Proof.
  unfold precedes, release_precedes. destruct (_ <? _)%Z eqn:H1; simpl; intros H2; bool_hyps;
    apply orb_false_iff; split; try apply Z.ltb_ge; try lia; apply andb_false_iff;
    rewrite Z.eqb_neq, Z.ltb_ge; lia.
Qed.

Lemma precedes_spec x y :
  precedes x y = true ↔ (sa_hops x < sa_hops y)%Z ∨
    (sa_hops x = sa_hops y ∧ sa_expires_ms x < sa_expires_ms y)%Z.
Proof.
  unfold precedes, release_precedes.
  by rewrite orb_true_iff, andb_true_iff, !Z.ltb_lt, Z.eqb_eq.
Qed.

Lemma precedes_false x y :
  precedes x y = false ↔ ¬ ((sa_hops x < sa_hops y)%Z ∨
    (sa_hops x = sa_hops y ∧ sa_expires_ms x < sa_expires_ms y)%Z).
Proof. rewrite <- precedes_spec. by destruct (precedes x y). Qed.

Lemma precedes_ntrans x y z :
  precedes x y = false → precedes y z = false → precedes x z = false.
Proof. rewrite !precedes_false. lia. Qed.

(** ** One release *)

(** The occupied entries after writing one slot. *)
Lemma flatten_write l idx e (s : option ScheduledAnnounce) :
  l !! idx = Some (Some e) →
  ∃ l1 l2, flatten l = l1 ++ e :: l2 ∧
           flatten (<[idx := s]> l) = l1 ++ (match s with Some x => [x] | None => [] end) ++ l2.
Proof.
  revert idx. induction l as [|x l IH]; intros [|idx] Hi; simpl in Hi; [done..| |].
  - injection Hi as ->. exists [], (flatten l). by destruct s.
  - destruct (IH idx Hi) as (l1 & l2 & H1 & H2). simpl. destruct x as [x|].
    + exists (x :: l1), l2. by rewrite H1, H2.
    + by exists l1, l2.
Qed.

Lemma release_step slot now t :
  match release_pending slot now t with
  | (None, t') => t' = expire now t ∧ (slot < 8 → owed slot t' = [])
  | (Some r, t') =>
      ∃ idx e bit l1 l2, slot < 8 ∧ slot_bit slot = Some bit ∧ r = clear_bit bit e ∧
        expire now t !! idx = Some (Some e) ∧ wants slot e = true ∧
        (∀ x, x ∈ owed slot (expire now t) → precedes x e = false) ∧
        flatten (expire now t) = l1 ++ e :: l2 ∧
        flatten t' = l1 ++ (if still_needed r then [r] else []) ++ l2
  end.
Proof.
  unfold release_pending. destruct (slot_bit slot) as [bit|] eqn:Hb.
  2:{ split; [done|]. unfold slot_bit in Hb. case_if; [done|lia]. }
  assert (Hs : slot < 8) by (unfold slot_bit in Hb; case_if; [lia|done]).
  destruct (best _ _ _) as [[idx e]|] eqn:Hbest.
  - apply best_Some in Hbest as (Hi & Hsel & Hmin & _);
      [|apply precedes_asym|apply precedes_ntrans].
    rewrite (bit_wants slot bit e Hb) in Hsel.
    destruct (flatten_write _ _ _ (if still_needed (clear_bit bit e) then Some (clear_bit bit e)
      else None) Hi) as (l1 & l2 & Hf1 & Hf2).
    exists idx, e, bit, l1, l2. do 5 (split; [done|]). split; [|split; [done|]].
    + intros x Hx. unfold owed in Hx. rewrite list_elem_of_In, filter_In in Hx.
      destruct Hx as [Hx Hw]. apply list_elem_of_In, elem_of_flatten in Hx as [j Hj].
      apply (Hmin j x Hj). by rewrite (bit_wants slot bit x Hb).
    + rewrite Hf2. by destruct (still_needed (clear_bit bit e)).
  - split; [done|]. intros _. unfold owed.
    rewrite best_None in Hbest. apply elem_of_nil_inv. intros x Hx.
    rewrite list_elem_of_In, filter_In in Hx. destruct Hx as [Hx Hw].
    apply list_elem_of_In, elem_of_flatten in Hx as [j Hj]. specialize (Hbest j x Hj).
    rewrite (bit_wants slot bit x Hb) in Hbest. congruence.
Qed.

Lemma filter_flatten_app (p : ScheduledAnnounce → bool) l1 l2 :
  List.filter p (l1 ++ l2) = List.filter p l1 ++ List.filter p l2.
Proof. apply List.filter_app. Qed.

(** A release takes one announce off what its interface is owed and leaves what
    the other interfaces are owed. *)
Lemma release_owed slot now t r t' :
  release_pending slot now t = (Some r, t') →
  ∃ e bit, slot < 8 ∧ slot_bit slot = Some bit ∧ r = clear_bit bit e ∧
    owed slot (expire now t) ≡ₚ e :: owed slot t' ∧
    (∀ x, x ∈ owed slot (expire now t) → precedes x e = false) ∧
    ∀ s, s < 8 → s ≠ slot →
      map sa_destination_hash (owed s t') = map sa_destination_hash (owed s (expire now t)).
Proof.
  intros Hrel. pose proof (release_step slot now t) as Hst. rewrite Hrel in Hst.
  destruct Hst as (idx & e & bit & l1 & l2 & Hs & Hb & -> & Hi & Hw & Hmin & Hf1 & Hf2).
  exists e, bit. do 3 (split; [done|]). split; [|split; [done|]].
  - unfold owed. rewrite Hf1, Hf2, !filter_flatten_app. cbn [List.filter]. rewrite Hw.
    assert (List.filter (wants slot) (if still_needed (clear_bit bit e) then [clear_bit bit e] else [])
            = []) as ->.
    { destruct (still_needed _); [|done]. cbn [List.filter].
      by rewrite (wants_cleared slot bit slot e Hb Hs), Nat.eqb_refl, andb_false_r. }
    simpl. by rewrite Permutation_middle.
  - intros s Hs8 Hne. unfold owed. rewrite Hf1, Hf2, !filter_flatten_app, !map_app. f_equal.
    assert (Hws : wants s (clear_bit bit e) = wants s e).
    { rewrite (wants_cleared slot bit s e Hb Hs8), (proj2 (Nat.eqb_neq s slot) Hne).
      by rewrite andb_true_r. }
    cbn [List.filter]. destruct (still_needed (clear_bit bit e)) eqn:Hn; cbn [List.filter].
    + rewrite Hws. by destruct (wants s e).
    + apply (unneeded_owes_nothing s) in Hn. rewrite Hws in Hn. by rewrite Hn.
Qed.

Lemma flatten_expire now t :
  flatten (expire now t) = List.filter (λ e, negb (sa_expires_ms e <=? now)%Z) (flatten t).
Proof.
  unfold expire. induction t as [|[e|] t IH]; simpl; [done| |done].
  destruct (sa_expires_ms e <=? now)%Z; simpl; by rewrite IH.
Qed.

(** Nothing expires twice at the same time. *)
Lemma release_live slot now t r t' :
  release_pending slot now t = (Some r, t') → flatten (expire now t') = flatten t'.
Proof.
  intros Hrel. pose proof (release_step slot now t) as Hst. rewrite Hrel in Hst.
  destruct Hst as (idx & e & bit & l1 & l2 & _ & _ & -> & _ & _ & _ & Hf1 & Hf2).
  rewrite flatten_expire, Hf2. rewrite flatten_expire in Hf1.
  assert (Hall : ∀ x, x ∈ l1 ++ e :: l2 → negb (sa_expires_ms x <=? now)%Z = true).
  { intros x. rewrite <- Hf1, list_elem_of_In, filter_In. by intros []. }
  apply forallb_filter_id, forallb_forall. intros x Hx%list_elem_of_In.
  apply elem_of_app in Hx as [Hx|[Hx|Hx]%elem_of_app].
  - apply Hall, elem_of_app. by left.
  - destruct (still_needed _); [|by apply elem_of_nil in Hx].
    apply list_elem_of_singleton in Hx as ->. apply (Hall e). apply elem_of_app. right. by left.
  - apply Hall, elem_of_app. right. by right.
Qed.

(** ** Draining an interface *)

(** Releases to one interface until nothing is owed to it. *)
Fixpoint drain (fuel slot : nat) (now : Z) (t : AnnounceSchedule)
  : list ScheduledAnnounce * AnnounceSchedule :=
  match fuel with
  | O => ([], t)
  | S fuel' =>
      match release_pending slot now t with
      | (Some r, t') => let (rs, t'') := drain fuel' slot now t' in (r :: rs, t'')
      | (None, t') => ([], t')
      end
  end.

Lemma owed_expire_eq s now t t' :
  flatten (expire now t) = flatten t' → owed s (expire now t) = owed s t'.
Proof. unfold owed. by intros ->. Qed.

Lemma drain_spec fuel slot now bit t :
  slot < 8 → slot_bit slot = Some bit → length (owed slot (expire now t)) < fuel →
  let (rs, t') := drain fuel slot now t in
  (∃ os, rs = map (clear_bit bit) os ∧ os ≡ₚ owed slot (expire now t) ∧
         StronglySorted (λ x y, precedes y x = false) os) ∧
  owed slot t' = [] ∧
  ∀ s, s < 8 → s ≠ slot →
    map sa_destination_hash (owed s t') = map sa_destination_hash (owed s (expire now t)).
Proof.
  intros Hs Hb. revert t. induction fuel as [|fuel IH]; intros t Hlen; [lia|]. simpl.
  destruct (release_pending slot now t) as [[r|] t'] eqn:Hrel.
  - destruct (release_owed _ _ _ _ _ Hrel) as (e & bit' & _ & Hb' & -> & Hperm & Hmin & Hother).
    assert (bit' = bit) as -> by congruence.
    pose proof (release_live _ _ _ _ _ Hrel) as Hlive.
    pose proof (λ s, owed_expire_eq s now t' t' Hlive) as Heq.
    specialize (IH t'). rewrite Heq in IH.
    rewrite (Permutation_length Hperm) in Hlen. simpl in Hlen. specialize (IH ltac:(lia)).
    destruct (drain fuel slot now t') as [rs t''].
    destruct IH as ((os & -> & Hos & Hsort) & Hdone & Hrest). split; [|split; [done|]].
    + exists (e :: os). split; [done|]. split; [by rewrite Hos, Hperm|].
      constructor; [done|]. apply Forall_forall. intros x Hx. apply Hmin.
      rewrite Hperm. right. by rewrite <- Hos.
    + intros s Hs8 Hne. rewrite (Hrest s Hs8 Hne), Heq. by apply Hother.
  - pose proof (release_step slot now t) as Hst. rewrite Hrel in Hst.
    destruct Hst as [-> Hnone]. specialize (Hnone Hs). split; [|done].
    exists []. rewrite Hnone. split; [done|]. split; [done|constructor].
Qed.

(** ** Invariant *)

Definition ok (t : AnnounceSchedule) : Prop := unique_keys t ∧ fit_all t.

Inductive step : AnnounceSchedule → AnnounceSchedule → Prop :=
| step_insert entry now t : fit entry → step t (insert entry now t)
| step_release slot now t : step t (snd (release_pending slot now t))
| step_clear_target slot t : step t (clear_target slot t)
| step_pop_due now t : step t (snd (pop_due now t))
| step_get_mut k f t : (∀ e, sa_destination_hash (f e) = sa_destination_hash e) →
    (∀ e, fit e → fit (f e)) → step t (get_mut k f t)
| step_remove k t : step t (remove k t)
| step_remove_interface i t : step t (remove_interface i t)
| step_expire now t : step t (expire now t)
| step_clear t : step t (clear t).

Lemma fit_clear_bit bit e :
  is_byte (sa_pending_targets e) → still_needed (clear_bit bit e) = true → fit (clear_bit bit e).
Proof. intros Hb Hn. split; [by apply byte_cleared|done]. Qed.

Lemma sched_ok_purge d t : ok t → ok (purge d t).
Proof.
  intros [Hu Hf]. split; [by apply unique_keys_purge|].
  intros i e [Hi _]%lookup_purge_Some. by apply (Hf i).
Qed.

(** Overwriting a slot with a version of the entry it holds, or emptying it. *)
Lemma sched_ok_rewrite idx e s t :
  ok t → t !! idx = Some (Some e) →
  (∀ x, s = Some x → sa_destination_hash x = sa_destination_hash e ∧ fit x) → ok (<[idx := s]> t).
Proof.
  intros [Hu Hf] Hi Hs. split.
  - destruct s as [x|]; [|by apply unique_keys_delete]. destruct (Hs x eq_refl) as [Hk _].
    apply unique_keys_insert; [done|]. intros j y Hy Hky. apply (Hu j idx y e); [done..|].
    simpl in *. congruence.
  - intros j y [[_ Hy]|[_ Hy]]%lookup_write_slot; [by apply Hs|by apply (Hf j)].
Qed.

Lemma sched_ok_insert entry now t : fit entry → ok t → ok (insert entry now t).
Proof.
  intros Hfit Hok. pose proof (sched_ok_purge (λ e, (sa_expires_ms e <=? now)%Z) t Hok) as [Hu Hf].
  assert (Hfit' : ∀ idx, fit_all (<[idx := Some entry]> (expire now t))).
  { intros idx j y [[_ [= <-]]|[_ Hy]]%lookup_write_slot; [done|by apply (Hf j)]. }
  unfold insert. destruct (position _ _) as [idx|] eqn:Hp.
  - split; [by apply unique_keys_upsert_hit|done].
  - destruct (or_else _ _) as [idx|]; [|by split]. split; [by apply unique_keys_upsert_miss|done].
Qed.

Lemma sched_ok_release slot now t : ok t → ok (snd (release_pending slot now t)).
Proof.
  intros Hok. pose proof (sched_ok_purge (λ e, (sa_expires_ms e <=? now)%Z) t Hok) as Hoke.
  unfold release_pending. destruct (slot_bit slot) as [bit|]; [|done].
  destruct (best _ _ _) as [[idx e]|] eqn:Hbest; [|done]. simpl.
  apply best_Some in Hbest as (Hi & _); [|apply precedes_asym|apply precedes_ntrans].
  apply (sched_ok_rewrite idx e); [done..|]. intros x Hx.
  destruct (still_needed (clear_bit bit e)) eqn:Hn; [|done]. injection Hx as <-. split; [done|].
  apply fit_clear_bit; [|done]. by apply (proj2 Hoke idx).
Qed.

Lemma sched_ok_clear_target slot t : ok t → ok (clear_target slot t).
Proof.
  intros [Hu Hf]. unfold clear_target. destruct (slot_bit slot) as [bit|]; [|done].
  assert (Hl : ∀ i x, map (λ s, match s with
      | Some e => if still_needed (clear_bit bit e) then Some (clear_bit bit e) else None
      | None => None end) t !! i = Some (Some x) →
      ∃ e, t !! i = Some (Some e) ∧ x = clear_bit bit e ∧ still_needed x = true).
  { intros i x. rewrite list_lookup_fmap. destruct (t !! i) as [[e|]|]; simpl; [|done..].
    destruct (still_needed (clear_bit bit e)) eqn:Hn; [|done]. intros [= <-]. by exists e. }
  split.
  - intros i j x y (e & He & -> & _)%Hl (e' & He' & -> & _)%Hl Hk. by apply (Hu i j e e').
  - intros i x (e & He & -> & Hn)%Hl. apply fit_clear_bit; [by apply (Hf i)|done].
Qed.

Lemma sched_step_ok t t' : ok t → step t t' → ok t'.
Proof.
  intros Hok Hs.
  destruct Hs as [entry now t Hfit|slot now t|slot t|now t|k f t Hk Hf|k t|i t|now t|t].
  - by apply sched_ok_insert.
  - by apply sched_ok_release.
  - by apply sched_ok_clear_target.
  - unfold pop_due. pose proof (sched_ok_purge (λ e, (sa_expires_ms e <=? now)%Z) t Hok) as Hoke.
    destruct (position _ _) as [idx|] eqn:Hp; [|done]. simpl.
    apply position_slot_Some in Hp as (e & Hi & _). by apply (sched_ok_rewrite idx e).
  - destruct Hok as [Hu Hfit]. split; [by apply unique_keys_update_first|].
    intros i e. unfold get_mut. rewrite lookup_update_first.
    destruct (t !! i) as [[e0|]|] eqn:Hi; [|done..].
    case_match; intros [= <-]; [apply Hf|]; by apply (Hfit i).
  - by apply sched_ok_purge.
  - by apply sched_ok_purge.
  - by apply sched_ok_purge.
  - split; [apply unique_keys_empty|]. intros i e Hi. by apply lookup_replicate_None_slot in Hi.
Qed.

(** Rebroadcasts owed to an interface are released once each and in order.
    In any reachable schedule, releasing to an interface slot until nothing
    comes back (at most one more call than there are announces owed) hands over
    exactly the live announces owed to it, each once with its bit cleared,
    fewest hops first and then earliest expiry; afterwards nothing is owed to
    that slot, and what is owed to every other slot is unchanged. Destinations
    stay unique and no entry is kept that owes nothing and has nothing due. *)
Lemma release_drains_in_order N t slot bit now fuel :
  rtc step (new N) t → slot_bit slot = Some bit → length (owed slot (expire now t)) < fuel →
  let (rs, t') := drain fuel slot now t in
  (∃ os, rs = map (clear_bit bit) os ∧ os ≡ₚ owed slot (expire now t) ∧
         StronglySorted (λ x y, precedes y x = false) os) ∧
  owed slot t' = [] ∧
  (∀ s, s < 8 → s ≠ slot →
    map sa_destination_hash (owed s t') = map sa_destination_hash (owed s (expire now t))) ∧
  unique_keys t ∧ fit_all t.
Proof.
  intros Hreach Hb Hlen.
  assert (Hok : ok t).
  { apply (rtc_preserves step ok (new N)); [apply sched_step_ok| |done].
    split; [apply unique_keys_empty|]. intros i e Hi. by apply lookup_replicate_None_slot in Hi. }
  assert (Hs : slot < 8) by (unfold slot_bit in Hb; case_if; [lia|done]).
  pose proof (drain_spec fuel slot now bit t Hs Hb Hlen) as H.
  destruct (drain fuel slot now t) as [rs t']. destruct H as (H1 & H2 & H3).
  split; [done|]. split; [done|]. split; [done|exact Hok].
Qed.

End AnnounceSchedule.

(** ** Witnesses *)

Module AnnounceExample.
Definition cached (d expires : Z) : CachedAnnounce :=
  {| ca_destination_hash := replicate 16 d; ca_raw := PacketBuffer.new 4; ca_hops := 1;
     ca_expires_ms := expires; ca_bulk := false |}.
Definition scheduled (d hops expires targets : Z) : ScheduledAnnounce :=
  {| sa_destination_hash := replicate 16 d; sa_packet := PacketBuffer.new 4; sa_interface_id := 0;
     sa_due_ms := PENDING_ONLY; sa_expires_ms := expires; sa_block_rebroadcast := false;
     sa_hops := hops; sa_retries := 0; sa_local_rebroadcasts := 0; sa_pending_targets := targets |}.
Definition two : AnnounceSchedule :=
  AnnounceSchedule.insert (scheduled 2 1 700 3) 10
    (AnnounceSchedule.insert (scheduled 1 4 500 2) 5 (AnnounceSchedule.new 4)).
End AnnounceExample.

Lemma announce_cache_contract_witness :
  AnnounceCache.get (replicate 16 9%Z) 50
    (AnnounceCache.insert (AnnounceExample.cached 9 100) 10 (AnnounceCache.new 2))
  = Some (AnnounceExample.cached 9 100).
Proof.
  destruct (AnnounceCache.announce_cache_contract (AnnounceExample.cached 9 100) 10
    (AnnounceCache.new 2) (PathTable.new 1)) as (_ & H & _).
  - apply unique_keys_empty.
  - apply (H 50%Z); [right; discriminate|simpl; lia].
Defined.

(** Both announces are owed to slot 1; the nearer one goes first. *)
Lemma release_drains_in_order_witness :
  map sa_destination_hash (fst (AnnounceSchedule.drain 3 1 20 AnnounceExample.two))
    = [replicate 16 2%Z; replicate 16 1%Z] ∧
  AnnounceSchedule.owed 1 (snd (AnnounceSchedule.drain 3 1 20 AnnounceExample.two)) = [].
Proof.
  split; [reflexivity|].
  pose proof (AnnounceSchedule.release_drains_in_order 4 AnnounceExample.two 1 2 20 3) as H.
  destruct H as (_ & H & _).
  - eapply rtc_l; [apply AnnounceSchedule.step_insert|apply rtc_once, AnnounceSchedule.step_insert];
      repeat split; vm_compute; congruence.
  - reflexivity.
  - vm_compute. lia.
  - exact H.
Defined.
