(* ===== verification/FlowTables.v ===== *)
(** The reverse and link tables (src/src/tables.rs, [ReverseTable] and
    [LinkTable]): where a proof or link traffic for a forwarded packet returns.

    Both are generation tables with insertion by key; the shared lemmas are in
    GenTable. Here are the operations of each table, the consumption protocol
    of reverse entries (take, then undo when the queue refuses the bytes), and
    the validation life cycle of link entries. *)

From S2P Require Import Prelude Slots GenTable.

Record ReverseEntry := {
  re_proof_hash : list Z;
  re_receiving_interface : Z;
  re_outbound_interface : Z;
  re_expires_ms : Z
}.

Record LinkEntry := {
  le_link_id : list Z;
  le_destination_ed25519 : option (list Z);
  le_receiving_interface : Z;
  le_outbound_interface : Z;
  le_remaining_hops : Z;
  le_taken_hops : Z;
  le_requested_mode : Z;
  le_accepted_mtu_ceiling : Z;
  le_validated : bool;
  le_expires_ms : Z
}.

#[export] Instance ReverseEntry_eq_dec : EqDecision ReverseEntry.
Proof. solve_decision. Defined.
#[export] Instance LinkEntry_eq_dec : EqDecision LinkEntry.
Proof. solve_decision. Defined.

#[export] Instance ReverseEntry_entry : Entry ReverseEntry (list Z) :=
  {| entry_key := re_proof_hash; entry_expires := re_expires_ms |}.
#[export] Instance LinkEntry_entry : Entry LinkEntry (list Z) :=
  {| entry_key := le_link_id; entry_expires := le_expires_ms |}.

Abbreviation ReverseTable := (GenTable ReverseEntry).
Abbreviation LinkTable := (GenTable LinkEntry).

(** * Reverse table *)

Module ReverseTable.

Definition new (N : nat) : ReverseTable := gen_new N.
Definition clear (t : ReverseTable) : ReverseTable := gen_clear t.
Definition next_generation (t : ReverseTable) : option Z := gen_next t.
Definition generation (key : list Z) (now_ms : Z) (t : ReverseTable) : option Z :=
  gen_of_key key now_ms t.
Definition get_generation (g now_ms : Z) (t : ReverseTable) : option ReverseEntry :=
  gen_get g now_ms t.

Definition expire (now_ms : Z) (t : ReverseTable) : ReverseTable :=
  with_entries (purge (λ e, (re_expires_ms e <=? now_ms)%Z)) t.

Definition insert (entry : ReverseEntry) (now_ms : Z) (t : ReverseTable) : ReverseTable :=
  let t := expire now_ms t in
  match next_generation t with
  | None => t
  | Some g =>
      match or_else
              (position (slot_is (λ old, re_proof_hash old =k re_proof_hash entry)) (gt_entries t))
              (or_else (position is_none (gt_entries t))
                       (oldest_index re_expires_ms (gt_entries t))) with
      | Some idx => gen_store idx entry g t
      | None => t
      end
  end.

Definition get (proof_hash : list Z) (now_ms : Z) (t : ReverseTable) : option ReverseEntry :=
  find (λ e, (re_proof_hash e =k proof_hash) && (now_ms <? re_expires_ms e)%Z)
       (flatten (gt_entries t)).

Definition take_with_generation (proof_hash : list Z) (now_ms : Z) (t : ReverseTable)
  : option (ReverseEntry * Z) * ReverseTable :=
  let t := expire now_ms t in
  match position (slot_is (λ e, re_proof_hash e =k proof_hash)) (gt_entries t) with
  | None => (None, t)
  | Some idx =>
      (e ← mjoin (gt_entries t !! idx); g ← gt_generations t !! idx; Some (e, g),
       with_entries (<[idx := None]>) t)
  end.

Definition remove (proof_hash : list Z) (now_ms : Z) (t : ReverseTable)
  : option ReverseEntry * ReverseTable :=
  let (r, t') := take_with_generation proof_hash now_ms t in (fst <$> r, t').

Definition restore_consumed (entry : ReverseEntry) (generation : Z) (t : ReverseTable)
  : ReverseTable :=
  match position is_none (gt_entries t) with
  | Some idx =>
      {| gt_entries := <[idx := Some entry]> (gt_entries t);
         gt_generations := <[idx := generation]> (gt_generations t);
         gt_last := gt_last t |}
  | None => t
  end.

Definition remove_interface (interface : Z) (t : ReverseTable) : ReverseTable :=
  with_entries (purge (λ e, (re_receiving_interface e =? interface)%Z
                            || (re_outbound_interface e =? interface)%Z)) t.

(** ** Invariant *)

Definition ok (t : ReverseTable) : Prop := gen_ok t ∧ unique_keys (gt_entries t).

(** What the owner of a table can observe: which entry every generation names.
    Slot positions are not observable. *)
Definition same_bindings (t t' : ReverseTable) : Prop :=
  gt_last t = gt_last t' ∧ ∀ g e, bound t g e ↔ bound t' g e.

#[export] Instance same_bindings_equiv : Equivalence same_bindings.
Proof.
  split.
  - intros t. by split.
  - intros t t' [Hl Hb]. split; [done|]. intros g e. by rewrite Hb.
  - intros t1 t2 t3 [Hl1 H1] [Hl2 H2]. split; [congruence|]. intros g e. by rewrite H1, H2.
Qed.

Lemma insert_gen entry now t : insert entry now t = gen_insert entry now t.
Proof. done. Qed.

Lemma rev_ok_expire now t : ok t → ok (expire now t).
Proof. intros [Hg Hu]. split; [by apply gen_ok_purge|by apply unique_keys_purge]. Qed.

Lemma rev_get_Some k now t e :
  ok t → get k now t = Some e ↔
    re_proof_hash e = k ∧ (now < re_expires_ms e)%Z ∧ ∃ g, bound t g e.
Proof.
  intros [Hg Hu]. etrans; [exact (find_key_live k now _ e Hu)|]. simpl.
  split; intros (Hk & Hl & Hx); (split; [done|]); (split; [done|]).
  - destruct Hx as [i Hi]. pose proof (lookup_lt_Some _ _ _ Hi) as Hlt.
    rewrite <- (gen_lengths t Hg) in Hlt. apply lookup_lt_is_Some in Hlt as [g Hgi].
    exists g, i. by split.
  - destruct Hx as (g & i & Hi & _). by exists i.
Qed.

(** Lookups only depend on the bindings. *)
Lemma get_same_bindings k now t t' :
  ok t → ok t' → same_bindings t t' → get k now t = get k now t'.
Proof.
  intros Hok Hok' [_ Hb]. apply option_eq. intros e.
  rewrite !rev_get_Some by done. by setoid_rewrite Hb.
Qed.

Lemma get_expire k now t : ok t → get k now (expire now t) = get k now t.
Proof.
  intros Hok. apply option_eq. intros e. rewrite !rev_get_Some by auto using rev_ok_expire.
  split; intros (Hk & Hl & g & Hb); (split; [done|]); (split; [done|]); exists g.
  - by apply bound_purge in Hb as [Hb _].
  - destruct Hb as (i & Hi & Hg). exists i. split; [|done]. simpl. apply lookup_purge_Some.
    split; [done|]. by apply Z.leb_gt.
Qed.

(** The slot [take_with_generation] empties. *)
Lemma take_slot k now t :
  ok t →
  match position (slot_is (λ e, re_proof_hash e =k k)) (gt_entries (expire now t)) with
  | Some idx => ∃ e g, held (expire now t) idx e g ∧ get k now t = Some e ∧ bound t g e ∧
      take_with_generation k now t = (Some (e, g), with_entries (<[idx := None]>) (expire now t))
  | None => get k now t = None ∧ take_with_generation k now t = (None, expire now t)
  end.
Proof.
  intros Hok. pose proof (rev_ok_expire now t Hok) as Hoke. unfold take_with_generation.
  destruct (position _ _) as [idx|] eqn:Hp.
  - pose proof (position_lt _ _ _ Hp) as Hlt.
    apply position_slot_Some in Hp as (e & He & Hk & _). apply bool_decide_eq_true in Hk.
    rewrite <- (gen_lengths _ (proj1 Hoke)) in Hlt. apply lookup_lt_is_Some in Hlt as [g Hg].
    assert (Hb : bound (expire now t) g e) by (exists idx; by split).
    exists e, g. split; [by split|]. apply bound_purge in Hb as [Hb Hl]. apply Z.leb_gt in Hl.
    split; [apply rev_get_Some; [done|]; by eauto|]. split; [done|].
    rewrite He. simpl. simpl in Hg. by rewrite Hg.
  - split; [|done]. rewrite <- (get_expire k now t Hok).
    apply eq_None_not_Some. intros [e He].
    apply (rev_get_Some k now _ e Hoke) in He as (Hk & _ & g & i & Hi & _).
    rewrite position_slot_None in Hp. apply Hp, bool_decide_eq_false in Hi. done.
Qed.

Lemma rev_ok_empty_slot idx t : ok t → ok (with_entries (<[idx := None]>) t).
Proof. intros [Hg Hu]. split; [by apply gen_ok_delete|by apply unique_keys_delete]. Qed.

Lemma bound_empty_slot idx e g t h x :
  ok t → held t idx e g →
  bound (with_entries (<[idx := None]>) t) h x ↔ bound t h x ∧ h ≠ g.
Proof.
  intros [Hg _] Hi. split.
  - intros (j & Hj & Hh). apply lookup_write_slot in Hj as [[_ [=]]|[Hne Hj]].
    split; [by exists j; split|]. intros ->. apply Hne.
    by eapply (gen_unique t Hg idx j e x g).
  - intros [(j & Hj & Hh) Hne]. exists j. split; [|done]. simpl.
    rewrite list_lookup_insert_ne; [done|]. intros <-. destruct Hi as [_ Hi]. congruence.
Qed.

(** Restoring an entry into a table with a free slot and none of its bindings. *)
Lemma restore_spec e g t i :
  ok t → gt_entries t !! i = Some None → (0 < g ≤ gt_last t)%Z → (∀ x, ¬ bound t g x) →
  (∀ h x, bound t h x → re_proof_hash x ≠ re_proof_hash e) →
  ok (restore_consumed e g t) ∧ gt_last (restore_consumed e g t) = gt_last t ∧
  ∀ h x, bound (restore_consumed e g t) h x ↔ bound t h x ∨ (h = g ∧ x = e).
Proof.
  intros [Hg Hu] Hi Hrange Hfree Hkey. unfold restore_consumed.
  destruct (position is_none (gt_entries t)) as [idx|] eqn:Hp.
  2:{ rewrite position_None in Hp. by specialize (Hp i None Hi). }
  pose proof (position_lt _ _ _ Hp) as Hlt. apply first_free_Some in Hp.
  pose proof (gen_lengths t Hg) as Hlen.
  assert (Hheld : ∀ j x h, held {| gt_entries := <[idx := Some e]> (gt_entries t);
      gt_generations := <[idx := g]> (gt_generations t); gt_last := gt_last t |} j x h ↔
      (j = idx ∧ x = e ∧ h = g) ∨ held t j x h).
  { intros j x h. unfold held. simpl. destruct (decide (j = idx)) as [->|Hne].
    - rewrite lookup_written, list_lookup_insert_eq by lia. rewrite Hp. naive_solver.
    - rewrite !list_lookup_insert_ne by done. naive_solver. }
  assert (Hb : ∀ j x h, held t j x h → bound t h x) by (intros j x h Hh; by exists j).
  split; [split|split; [done|]].
  - split; simpl.
    + by rewrite !length_insert.
    + apply (gen_last_range t Hg).
    + intros j h [(_ & -> & _)|[_ Hh]]%list_lookup_insert_Some; [lia|by apply (gen_range t Hg j)].
    + intros j x h [(_ & _ & ->)|Hh]%Hheld; [lia|by apply (gen_issued t Hg j x)].
    + intros j k x y h [(-> & _ & ->)|Hx]%Hheld [(-> & _ & Heq)|Hy]%Hheld; subst; try done.
      * destruct (Hfree y). by eapply Hb.
      * destruct (Hfree x). by eapply Hb.
      * by eapply (gen_unique t Hg).
  - apply unique_keys_insert; [done|]. intros j x Hj Hk. exfalso.
    pose proof (lookup_lt_Some _ _ _ Hj) as Hl. rewrite <- Hlen in Hl.
    apply lookup_lt_is_Some in Hl as [h Hh]. apply (Hkey h x); [exists j; by split|done].
  - intros h x. unfold bound. setoid_rewrite Hheld. naive_solver.
Qed.

(** Taking an entry and putting it back. *)
Lemma take_restore k now t e g t' :
  ok t → take_with_generation k now t = (Some (e, g), t') →
  ok (restore_consumed e g t') ∧ same_bindings (expire now t) (restore_consumed e g t').
Proof.
  intros Hok Htake. pose proof (rev_ok_expire now t Hok) as Hoke.
  pose proof (take_slot k now t Hok) as Hs. destruct (position _ _) as [idx|].
  2:{ destruct Hs as [_ Hs]. congruence. }
  destruct Hs as (e0 & g0 & Hi & _ & _ & Hs). rewrite Hs in Htake. injection Htake as -> -> <-.
  pose proof (λ h x, bound_empty_slot idx e g _ h x Hoke Hi) as Hb.
  destruct (restore_spec e g (with_entries (<[idx := None]>) (expire now t)) idx)
    as (Hokr & Hlast & Hbr).
  - by apply rev_ok_empty_slot.
  - simpl. apply list_lookup_insert_eq. destruct Hi as [Hi _]. by apply lookup_lt_Some in Hi.
  - destruct Hoke as [Hg _]. pose proof (gen_issued _ Hg _ _ _ Hi).
    pose proof (gen_range _ Hg _ _ (proj2 Hi)). simpl in *. lia.
  - intros x [_ Hx]%Hb. done.
  - intros h x [(j & Hj) Hne]%Hb Hk.
    assert (j = idx) as -> by (apply (proj2 Hoke j idx x e); [apply Hj|apply Hi|done]).
    destruct Hj as [_ Hj], Hi as [_ Hi]. congruence.
  - split; [done|]. split; [by rewrite Hlast|]. intros h x. rewrite Hbr, Hb. split.
    + intros Hx. destruct (decide (h = g)) as [->|]; [right|by left]. split; [done|].
      destruct Hx as (j & Hj). assert (j = idx) as -> by (by eapply (gen_unique _ (proj1 Hoke))).
      destruct Hj as [Hj _], Hi as [Hi _]. congruence.
    + intros [[Hx _]|[-> ->]]; [done|by exists idx].
Qed.

Lemma rev_ok_take k now t : ok t → ok (snd (take_with_generation k now t)).
Proof.
  intros Hok. pose proof (take_slot k now t Hok) as Hs. pose proof (rev_ok_expire now t Hok).
  destruct (position _ _) as [idx|].
  - destruct Hs as (e & g & _ & _ & _ & ->). by apply rev_ok_empty_slot.
  - by destruct Hs as [_ ->].
Qed.

(** ** Operations in sequence *)

(** The last step is a consumption undone because the bytes were refused. *)
Inductive step : ReverseTable → ReverseTable → Prop :=
| step_insert entry now t : step t (insert entry now t)
| step_take k now t : step t (snd (take_with_generation k now t))
| step_remove_interface i t : step t (remove_interface i t)
| step_expire now t : step t (expire now t)
| step_clear t : step t (clear t)
| step_undo k now t e g t' :
    take_with_generation k now t = (Some (e, g), t') → step t (restore_consumed e g t').

Lemma rev_step_keeps t t' : ok t → step t t' → ok t' ∧ keeps eq t t'.
Proof.
  intros Hok Hs.
  assert (Hexp : ∀ now t, keeps eq t (expire now t)) by (intros; apply keeps_purge, _).
  destruct Hs as [entry now t|k now t|i t|now t|t|k now t e g t' Ht].
  - rewrite insert_gen. destruct Hok as [Hg Hu]. split; [by apply gen_insert_ok|].
    by apply gen_insert_keeps; [apply _|..].
  - split; [by apply rev_ok_take|]. unfold take_with_generation.
    destruct (position _ _); simpl; [|done]. trans (expire now t); [done|apply keeps_delete, _].
  - split; [|apply keeps_purge, _]. destruct Hok. split; [by apply gen_ok_purge|by apply unique_keys_purge].
  - split; [by apply rev_ok_expire|done].
  - destruct Hok as [Hg Hu]. split; [|apply keeps_clear]. split; [by apply gen_ok_clear|apply unique_keys_empty].
  - destruct (take_restore k now t e g t' Hok Ht) as [Hokr [Hl Hb]]. split; [done|].
    trans (expire now t); [done|]. split; [rewrite <- Hl; lia|].
    intros h x _ Hx%Hb. by exists x.
Qed.

Lemma rev_steps_keep t t' : ok t → rtc step t t' → ok t' ∧ keeps eq t t'.
Proof.
  intros Hok Hs. induction Hs as [t|t1 t2 t3 Hst _ IH]; [done|].
  destruct (rev_step_keeps t1 t2 Hok Hst) as [Hok2 Hk]. destruct (IH Hok2) as [Hok3 Hk'].
  split; [done|]. by etrans.
Qed.

Lemma rev_ok_new N : ok (new N).
Proof. split; [apply gen_ok_new|apply unique_keys_empty]. Qed.

Lemma take_again k now now' t :
  ok t → (now ≤ now')%Z →
  fst (take_with_generation k now' (snd (take_with_generation k now t))) = None.
Proof.
  intros Hok Hn. pose proof (rev_ok_take k now t Hok) as Hok'.
  pose proof (rev_ok_expire now t Hok) as Hoke.
  pose proof (take_slot k now' _ Hok') as Hs2.
  destruct (position _ _) as [j|]; [|by destruct Hs2 as [_ ->]].
  destruct Hs2 as (e2 & g2 & _ & Hget & Hb2 & _). exfalso.
  apply (rev_get_Some _ _ _ _ Hok') in Hget as (Hk2 & Hl2 & _).
  pose proof (take_slot k now t Hok) as Hs. destruct (position _ _) as [idx|].
  - destruct Hs as (e & g & Hi & (Hk & _)%rev_get_Some & _ & Heq); [|done]. rewrite Heq in Hb2.
    apply (bound_empty_slot idx e g _ _ _ Hoke Hi) in Hb2 as [(m & Hm) Hne].
    assert (m = idx) as -> by (apply (proj2 Hoke m idx e2 e); [apply Hm|apply Hi|simpl; congruence]).
    destruct Hm as [_ Hm], Hi as [_ Hi]. congruence.
  - destruct Hs as [Hnone Heq]. rewrite Heq in Hb2. apply bound_purge in Hb2 as [Hb2 Hl].
    rewrite (proj2 (rev_get_Some k now t e2 Hok)) in Hnone; [done|].
    apply Z.leb_gt in Hl. by eauto.
Qed.

(** Reverse entries are consumed exactly once. In any reachable reverse
    table, taking a proof hash returns the live entry recorded for it and the
    generation that names it, and a second take finds nothing; when the queue
    refuses the bytes, restoring the entry gives back every binding and every
    lookup; and a generation never comes to name another entry, whatever
    operations follow. *)
Lemma reverse_consumed_once N t k now e g t' :
  rtc step (new N) t → take_with_generation k now t = (Some (e, g), t') →
  get k now t = Some e ∧
  (∀ now', (now ≤ now')%Z → fst (take_with_generation k now' t') = None) ∧
  same_bindings (expire now t) (restore_consumed e g t') ∧
  (∀ k' , get k' now (restore_consumed e g t') = get k' now t) ∧
  (∀ t'' now'' e'', rtc step t t'' → get_generation g now'' t'' = Some e'' → e'' = e).
Proof.
  intros Hreach Htake. destruct (rev_steps_keep _ _ (rev_ok_new N) Hreach) as [Hok _].
  destruct (take_restore k now t e g t' Hok Htake) as [Hokr Hsame].
  pose proof (take_slot k now t Hok) as Hs. destruct (position _ _) as [idx|].
  2:{ destruct Hs as [_ Hs]. congruence. }
  destruct Hs as (e0 & g0 & _ & Hget & Hb & Hs). rewrite Hs in Htake. injection Htake as -> -> Heq.
  split; [done|]. split; [|split; [done|split]].
  - intros now' Hn. pose proof (take_again k now now' t Hok Hn) as Ha. rewrite Hs in Ha.
    by rewrite <- Heq.
  - intros k'. rewrite <- (get_expire k' now t Hok). symmetry.
    apply get_same_bindings; auto using rev_ok_expire.
  - intros t'' now'' e'' Hsteps Hg''.
    destruct (rev_steps_keep t t'' Hok Hsteps) as [Hok'' [_ Hkeep]].
    apply gen_get_Some in Hg'' as [Hb'' _]; [|apply Hok''].
    destruct Hb as (i & Hi). destruct (Hkeep g e'') as (e1 & (j & Hj) & ->); [|done|].
    { by apply (gen_range t (proj1 Hok) i g (proj2 Hi)). }
    assert (i = j) as <- by (by eapply (gen_unique t (proj1 Hok))).
    destruct Hi, Hj. congruence.
Qed.

End ReverseTable.

(** * Link table *)

Module LinkTable.

Definition new (N : nat) : LinkTable := gen_new N.
Definition clear (t : LinkTable) : LinkTable := gen_clear t.
Definition next_generation (t : LinkTable) : option Z := gen_next t.
Definition generation (key : list Z) (now_ms : Z) (t : LinkTable) : option Z :=
  gen_of_key key now_ms t.
Definition get_generation (g now_ms : Z) (t : LinkTable) : option LinkEntry :=
  gen_get g now_ms t.

Definition expire (now_ms : Z) (t : LinkTable) : LinkTable :=
  with_entries (purge (λ e, (le_expires_ms e <=? now_ms)%Z)) t.

Definition insert (entry : LinkEntry) (now_ms : Z) (t : LinkTable) : LinkTable :=
  let t := expire now_ms t in
  match next_generation t with
  | None => t
  | Some g =>
      match or_else
              (position (slot_is (λ old, le_link_id old =k le_link_id entry)) (gt_entries t))
              (or_else (position is_none (gt_entries t))
                       (oldest_index le_expires_ms (gt_entries t))) with
      | Some idx => gen_store idx entry g t
      | None => t
      end
  end.

Definition has_free_slot (now_ms : Z) (t : LinkTable) : bool * LinkTable :=
  let t := expire now_ms t in (existsb is_none (gt_entries t), t).

Definition get (link_id : list Z) (now_ms : Z) (t : LinkTable) : option LinkEntry :=
  find (λ e, (le_link_id e =k link_id) && (now_ms <? le_expires_ms e)%Z) (flatten (gt_entries t)).

Definition remove_interface (interface : Z) (t : LinkTable) : LinkTable :=
  with_entries (purge (λ e, (le_receiving_interface e =? interface)%Z
                            || (le_outbound_interface e =? interface)%Z)) t.

Definition contains_live (link_id : list Z) (now_ms : Z) (t : LinkTable) : bool :=
  match get link_id now_ms t with Some _ => true | None => false end.

Definition with_state (validated : bool) (expires_ms : Z) (e : LinkEntry) : LinkEntry :=
  {| le_link_id := le_link_id e; le_destination_ed25519 := le_destination_ed25519 e;
     le_receiving_interface := le_receiving_interface e;
     le_outbound_interface := le_outbound_interface e;
     le_remaining_hops := le_remaining_hops e; le_taken_hops := le_taken_hops e;
     le_requested_mode := le_requested_mode e;
     le_accepted_mtu_ceiling := le_accepted_mtu_ceiling e;
     le_validated := validated; le_expires_ms := expires_ms |}.

Definition mark_validated (link_id : list Z) (expires_ms now_ms : Z) (t : LinkTable) : LinkTable :=
  with_entries (update_first (λ e, le_link_id e =k link_id) (with_state true expires_ms))
               (expire now_ms t).

Definition touch (link_id : list Z) (expires_ms now_ms : Z) (t : LinkTable) : LinkTable :=
  with_entries (update_first (λ e, le_link_id e =k link_id)
                             (λ e, with_state (le_validated e) expires_ms e))
               (expire now_ms t).

(** ** Invariant and incarnations *)

Definition ok (t : LinkTable) : Prop := gen_ok t ∧ unique_keys (gt_entries t).

(** What an incarnation of a link keeps for its lifetime: everything but the
    expiry, and validation is never taken back. *)
Definition same_link (e e' : LinkEntry) : Prop :=
  e' = with_state (le_validated e') (le_expires_ms e') e ∧
  (le_validated e = true → le_validated e' = true).

#[export] Instance same_link_preorder : PreOrder same_link.
Proof.
  split.
  - intros []. by split.
  - intros [] e2 e3 [-> H1] [-> H2]. split; [done|]. simpl in *. auto.
Qed.

Inductive step : LinkTable → LinkTable → Prop :=
| step_insert entry now t : step t (insert entry now t)
| step_free now t : step t (snd (has_free_slot now t))
| step_validate k x now t : step t (mark_validated k x now t)
| step_touch k x now t : step t (touch k x now t)
| step_remove_interface i t : step t (remove_interface i t)
| step_expire now t : step t (expire now t)
| step_clear t : step t (clear t).

Lemma link_ok_new N : ok (new N).
Proof. split; [apply gen_ok_new|apply unique_keys_empty]. Qed.

Lemma link_ok_purge d t : ok t → ok (with_entries (purge d) t).
Proof. intros [Hg Hu]. split; [by apply gen_ok_purge|by apply unique_keys_purge]. Qed.

Lemma link_ok_update p f t :
  (∀ e, le_link_id (f e) = le_link_id e) → ok t → ok (with_entries (update_first p f) t).
Proof.
  intros Hf [Hg Hu]. split; [by apply gen_ok_update_first|by apply unique_keys_update_first].
Qed.

Lemma link_step_keeps t t' : ok t → step t t' → ok t' ∧ keeps same_link t t'.
Proof.
  intros Hok Hs.
  assert (Hexp : ∀ now t, keeps same_link t (expire now t)) by (intros; apply keeps_purge, _).
  assert (Hoke : ∀ now, ok (expire now t)) by (intros; by apply link_ok_purge).
  destruct Hs as [entry now t|now t|k x now t|k x now t|i t|now t|t].
  - change (insert entry now t) with (gen_insert entry now t). destruct Hok as [Hg Hu].
    split; [by apply gen_insert_ok|]. by apply gen_insert_keeps; [apply _|..].
  - split; [apply Hoke|apply Hexp].
  - split; [by apply link_ok_update|]. trans (expire now t); [apply Hexp|].
    apply keeps_update_first; [apply _|]. intros e. by split.
  - split; [by apply link_ok_update|]. trans (expire now t); [apply Hexp|].
    apply keeps_update_first; [apply _|]. intros e. by split.
  - split; [by apply link_ok_purge|apply keeps_purge, _].
  - split; [apply Hoke|apply Hexp].
  - destruct Hok as [Hg Hu].
    split; [|apply keeps_clear]. split; [by apply gen_ok_clear|apply unique_keys_empty].
Qed.

Lemma link_steps_keep t t' : ok t → rtc step t t' → ok t' ∧ keeps same_link t t'.
Proof.
  intros Hok Hs. induction Hs as [t|t1 t2 t3 Hst _ IH]; [done|].
  destruct (link_step_keeps t1 t2 Hok Hst) as [Hok2 Hk]. destruct (IH Hok2) as [Hok3 Hk'].
  split; [done|]. by etrans.
Qed.

Lemma link_get_Some k now t e :
  ok t → get k now t = Some e ↔
    le_link_id e = k ∧ (now < le_expires_ms e)%Z ∧ ∃ i, gt_entries t !! i = Some (Some e).
Proof. intros [_ Hu]. exact (find_key_live k now _ e Hu). Qed.

(** Admitting a link where a slot is free spares every other live link. *)
Lemma insert_spares entry now t k now' :
  ok t → fst (has_free_slot now t) = true → (gt_last t < u64_max)%Z → (now ≤ now')%Z →
  get k now' (insert entry now (snd (has_free_slot now t))) =
    if bool_decide (k = le_link_id entry)
    then (if (now' <? le_expires_ms entry)%Z then Some entry else None)
    else get k now' t.
Proof.
  intros Hok Hfree Hlast Hn. simpl in Hfree |- *.
  assert (Hoke : ok (expire now t)) by (by apply link_ok_purge).
  apply existsb_exists in Hfree as ([e0|] & Hin & Hn0); [done|].
  apply list_elem_of_In, list_elem_of_lookup in Hin as [i0 Hi0].
  change (insert entry now ?x) with (gen_insert entry now x).
  destruct (gen_insert_ok entry now (expire now t) (proj1 Hoke) (proj2 Hoke)) as [Hg' Hu'].
  destruct (gen_insert_binds entry now (expire now t) (proj1 Hoke) (proj2 Hoke))
    as [_ (ie & Hie & _)]; [done| |].
  { apply lookup_lt_Some in Hi0. exact (Nat.le_lt_trans 0 i0 _ (Nat.le_0_l i0) Hi0). }
  assert (Hok' : ok (gen_insert entry now (expire now t))) by (by split).
  assert (Hold : ∀ i e, gt_entries (gen_insert entry now (expire now t)) !! i = Some (Some e) →
    e = entry ∨ gt_entries t !! i = Some (Some e)).
  { unfold gen_insert. intros i e. repeat case_match; simpl.
    - intros [[_ [= ->]]|[_ Hi]]%lookup_write_slot; [by left|]. right.
      by apply lookup_purge_Some in Hi as [[Hi _]%lookup_purge_Some _].
    - intros Hi. right. by apply lookup_purge_Some in Hi as [[Hi _]%lookup_purge_Some _].
    - intros Hi. right. by apply lookup_purge_Some in Hi as [[Hi _]%lookup_purge_Some _]. }
  apply option_eq. intros e. rewrite (link_get_Some _ _ _ _ Hok').
  case_bool_decide as Hk; [subst k|rewrite (link_get_Some _ _ _ _ Hok)].
  - split.
    + intros (Hke & Hl & i & Hi). assert (i = ie) as -> by (by apply (Hu' i ie e entry)).
      assert (e = entry) as -> by congruence. by rewrite (proj2 (Z.ltb_lt _ _)).
    + case_if; [|done]. intros [= <-]. split; [done|]. split; [lia|]. eauto.
  - split; intros (Hke & Hl & i & Hi); (split; [done|]); (split; [done|]); exists i.
    + destruct (Hold i e Hi) as [->|]; done.
    + assert (Hil : gt_entries (expire now t) !! i = Some (Some e)).
      { simpl. apply lookup_purge_Some. split; [done|]. apply Z.leb_gt. lia. }
      destruct (decide (gt_entries (gen_insert entry now (expire now t)) !! i = Some (Some e)))
        as [|Hlost]; [done|]. exfalso.
      destruct (gen_insert_evicts entry now (expire now t) i e (proj1 Hoke) (proj2 Hoke) Hil
        ltac:(simpl; lia) ltac:(simpl; congruence) Hlost i0) as (x & Hx & _).
      * by apply lookup_lt_Some in Hi0.
      * simpl in Hx. congruence.
Qed.

(** Rewriting the entry of one link: what each slot holds afterwards. *)
Lemma lookup_update_link k f t i e' :
  ok t →
  gt_entries (with_entries (update_first (λ e, le_link_id e =k k) f) t) !! i = Some (Some e') ↔
  ∃ e, gt_entries t !! i = Some (Some e) ∧
       e' = if bool_decide (le_link_id e = k) then f e else e.
Proof.
  intros [_ Hu]. cbn [with_entries gt_entries]. rewrite lookup_update_first.
  destruct (gt_entries t !! i) as [[e|]|] eqn:Hi; [|by split; [|intros (? & ? & _)]..].
  assert (Hpos : bool_decide (position (slot_is (λ e, le_link_id e =k k)) (gt_entries t) = Some i)
                 = bool_decide (le_link_id e = k)).
  { apply bool_decide_ext. split.
    - intros (x & Hx & Hkx & _)%position_slot_Some. apply bool_decide_eq_true in Hkx. congruence.
    - intros Hk. destruct (position _ _) as [j|] eqn:Hp.
      + apply position_slot_Some in Hp as (x & Hx & Hkx & _). apply bool_decide_eq_true in Hkx.
        f_equal. apply (Hu j i x e); [done..|]. simpl. congruence.
      + rewrite position_slot_None in Hp. apply Hp, bool_decide_eq_false in Hi. done. }
  rewrite Hpos. split.
  - intros H. exists e. split; [done|]. case_bool_decide; by injection H as <-.
  - intros (x & Hx & ->). injection Hx as <-.
    by destruct (bool_decide (le_link_id e = k)).
Qed.

Lemma update_link k p f now now' t :
  ok t → (∀ e, le_link_id (f e) = le_link_id e) → p = (λ e, le_link_id e =k k) → (now ≤ now')%Z →
  ∀ k', get k' now' (with_entries (update_first p f) (expire now t)) =
    if bool_decide (k' = k)
    then (match get k now t with
          | Some e => if (now' <? le_expires_ms (f e))%Z then Some (f e) else None
          | None => None
          end)
    else get k' now' t.
Proof.
  intros Hok Hf -> Hn k'.
  assert (Hoke : ok (expire now t)) by (by apply link_ok_purge).
  assert (Hok' := link_ok_update (λ e, le_link_id e =k k) f _ Hf Hoke).
  assert (Hlive : ∀ i e, gt_entries (expire now t) !! i = Some (Some e) ↔
    gt_entries t !! i = Some (Some e) ∧ (now < le_expires_ms e)%Z).
  { intros i e. simpl. by rewrite lookup_purge_Some, Z.leb_gt. }
  apply option_eq. intros e'. rewrite (link_get_Some _ _ _ _ Hok').
  setoid_rewrite (λ i e', lookup_update_link k f _ i e' Hoke).
  case_bool_decide as Hkk; [subst k'|].
  - destruct (get k now t) as [e|] eqn:Hget.
    + apply (link_get_Some _ _ _ _ Hok) in Hget as (Hk & Hl & i & Hi). split.
      * intros (Hk' & Hl' & j & x & [Hj _]%Hlive & ->). case_bool_decide as Hkx; [|done].
        assert (j = i) as -> by (apply (proj2 Hok j i x e); [done..|simpl; congruence]).
        assert (x = e) as -> by congruence. by rewrite (proj2 (Z.ltb_lt _ _)).
      * case_if; [|done]. intros [= <-]. split; [by rewrite Hf|]. split; [lia|].
        exists i, e. rewrite Hlive. by rewrite bool_decide_eq_true_2.
    + split; [|done]. intros (Hk' & Hl' & j & x & [Hj Hlx]%Hlive & ->). exfalso.
      assert (Hkx : le_link_id x = k) by (case_bool_decide; congruence).
      rewrite (proj2 (link_get_Some k now t x Hok)) in Hget; [done|]. eauto.
  - rewrite (link_get_Some _ _ _ _ Hok). split.
    + intros (Hk' & Hl' & j & x & [Hj Hlx]%Hlive & ->). case_bool_decide as Hkx; [|by eauto].
      rewrite Hf in Hk'. congruence.
    + intros (Hk' & Hl' & j & Hj). split; [done|]. split; [done|]. exists j, e'.
      rewrite Hlive, bool_decide_eq_false_2 by congruence. split; [split; [done|lia]|done].
Qed.

(** The link table. In any reachable table, admitting a new link after
    [has_free_slot] said yes makes the link retrievable until its expiry and
    leaves every other live link as it was; validation changes exactly the named
    live link, to validated with the new expiry; and a generation read for a
    link names nothing else for ever after: its keys, interfaces, hop counts,
    mode and MTU never change and its validation is never taken back. *)
Lemma link_table_contract N t entry k x now :
  rtc step (new N) t → (gt_last t < u64_max)%Z →
  (fst (has_free_slot now t) = true → ∀ k' now', (now ≤ now')%Z →
     get k' now' (insert entry now (snd (has_free_slot now t))) =
       if bool_decide (k' = le_link_id entry)
       then (if (now' <? le_expires_ms entry)%Z then Some entry else None)
       else get k' now' t) ∧
  (∀ k' now', (now ≤ now')%Z →
     get k' now' (mark_validated k x now t) =
       if bool_decide (k' = k)
       then (match get k now t with
             | Some e => if (now' <? x)%Z then Some (with_state true x e) else None
             | None => None
             end)
       else get k' now' t) ∧
  (∀ g t' now' e', generation k now t = Some g → rtc step t t' →
     get_generation g now' t' = Some e' → ∃ e, get k now t = Some e ∧ same_link e e').
Proof.
  intros Hreach Hlast. destruct (link_steps_keep _ _ (link_ok_new N) Hreach) as [Hok _].
  split; [intros Hfree k' now' Hn; by apply insert_spares|]. split.
  - intros k' now' Hn. exact (update_link k _ (with_state true x) now now' t Hok (λ _, eq_refl) eq_refl Hn k').
  - intros g t' now' e' Hg Hsteps Hget. destruct (link_steps_keep t t' Hok Hsteps) as [Hok' Hk].
    destruct (keeps_generation same_link t t' k g now now' e' (proj1 Hok) (proj1 Hok') Hk Hg Hget)
      as (e & (i & Hi & _) & Hke & Hl & Hr).
    exists e. split; [|done]. apply link_get_Some; [done|]. eauto.
Qed.

End LinkTable.

(** ** Witnesses *)

Module FlowExample.
Definition rev : ReverseEntry :=
  {| re_proof_hash := replicate 16 7%Z; re_receiving_interface := 0; re_outbound_interface := 1;
     re_expires_ms := 900 |}.
Definition link (d : Z) : LinkEntry :=
  {| le_link_id := replicate 16 d; le_destination_ed25519 := None; le_receiving_interface := 0;
     le_outbound_interface := 1; le_remaining_hops := 1; le_taken_hops := 2;
     le_requested_mode := 1; le_accepted_mtu_ceiling := 500; le_validated := false;
     le_expires_ms := 900 |}.
End FlowExample.

Lemma reverse_consumed_once_witness :
  let t := ReverseTable.insert FlowExample.rev 10 (ReverseTable.new 2) in
  ReverseTable.get (replicate 16 7%Z) 20 t = Some FlowExample.rev ∧
  fst (ReverseTable.take_with_generation (replicate 16 7%Z) 30
         (snd (ReverseTable.take_with_generation (replicate 16 7%Z) 20 t))) = None.
Proof.
  intros t.
  destruct (ReverseTable.reverse_consumed_once 2 t (replicate 16 7%Z) 20 FlowExample.rev 1
    (snd (ReverseTable.take_with_generation (replicate 16 7%Z) 20 t))) as (H1 & H2 & _).
  - apply rtc_once, ReverseTable.step_insert.
  - reflexivity.
  - split; [exact H1|]. apply H2. lia.
Defined.

Lemma link_table_contract_witness :
  let t := LinkTable.insert (FlowExample.link 1) 10 (LinkTable.new 2) in
  LinkTable.get (replicate 16 1%Z) 50
    (LinkTable.insert (FlowExample.link 2) 20 (snd (LinkTable.has_free_slot 20 t)))
  = Some (FlowExample.link 1).
Proof.
  intros t.
  destruct (LinkTable.link_table_contract 2 t (FlowExample.link 2) (replicate 16 1%Z) 2000 20)
    as (H & _).
  - apply rtc_once, LinkTable.step_insert.
  - vm_compute. congruence.
  - specialize (H eq_refl (replicate 16 1%Z) 50%Z ltac:(lia)). exact H.
Defined.
