(* ===== verification/Discovery.v ===== *)
(** Recursive path discovery (src/src/discovery.rs): which interfaces wait for
    an answer about an unknown destination, and until when.

    An entry with identity zero is a free slot. [view] is the abstract state,
    the live discovery of a destination; the theorem gives its value after each
    operation. *)

From S2P Require Import Prelude Constants Slots.

Definition REQUESTERS : nat := 8.
Definition REQUEST_GATE_MS : Z := 15000.

Definition round_trip_ms (bitrate_bps : Z) : Z :=
  if (bitrate_bps =? 0)%Z then 0
  else
    let rate := if (bitrate_bps <? 5)%Z then 5%Z else bitrate_bps in
    let bits_ms := (2 * Z.of_nat MTU * 8 * 1000)%Z in
    div_ceil bits_ms rate.

Definition link_deadline (now hops bitrate_bps : Z) : Z :=
  let hops := if (hops =? 0)%Z then 1%Z else hops in
  sat_add64 (sat_add64 now (6000 * hops)) (round_trip_ms bitrate_bps).

Definition discovery_timeout (bitrate_bps : Z) : Z :=
  let sampled := sat_add64 6000 (round_trip_ms bitrate_bps) in
  if (REQUEST_GATE_MS <? sampled)%Z then sampled else REQUEST_GATE_MS.

Record DiscoveryEntry := {
  d_destination : list Z;
  d_expires_ms : Z;
  d_identity : Z;
  d_requesters : Z
}.

#[export] Instance DiscoveryEntry_eq_dec : EqDecision DiscoveryEntry.
Proof. solve_decision. Defined.

Inductive BeginDiscovery := New (identity : Z) | Joined | Refused.

Record Discoveries := { ds_entries : list DiscoveryEntry; ds_last_identity : Z }.

Module Discoveries.

Definition EMPTY : DiscoveryEntry :=
  {| d_destination := zeros 16; d_expires_ms := 0; d_identity := 0; d_requesters := 0 |}.

Definition entry_live (now : Z) (e : DiscoveryEntry) : bool :=
  negb (d_identity e =? 0)%Z && negb (d_requesters e =? 0)%Z && (now <? d_expires_ms e)%Z.

Definition new (N : nat) : Discoveries :=
  {| ds_entries := replicate N EMPTY; ds_last_identity := 0 |}.

Definition with_entries (es : list DiscoveryEntry) (t : Discoveries) : Discoveries :=
  {| ds_entries := es; ds_last_identity := ds_last_identity t |}.

Definition clear (t : Discoveries) : Discoveries :=
  with_entries (replicate (length (ds_entries t)) EMPTY) t.

Definition expire (now : Z) (t : Discoveries) : Discoveries :=
  with_entries (map (λ e, if negb (entry_live now e) then EMPTY else e) (ds_entries t)) t.

Definition with_requesters (r : Z) (e : DiscoveryEntry) : DiscoveryEntry :=
  {| d_destination := d_destination e; d_expires_ms := d_expires_ms e;
     d_identity := d_identity e; d_requesters := r |}.

Definition retire_entry (slot : nat) (e : DiscoveryEntry) : DiscoveryEntry :=
  let e := with_requesters (Z.land (d_requesters e) (not8 (Z.shiftl 1 (Z.of_nat slot)))) e in
  if (d_requesters e =? 0)%Z then EMPTY else e.

Definition retire_requester (slot : nat) (t : Discoveries) : Discoveries :=
  if REQUESTERS <=? slot then t
  else with_entries (map (retire_entry slot) (ds_entries t)) t.

Definition join (slot : nat) (e : DiscoveryEntry) : DiscoveryEntry :=
  with_requesters (Z.lor (d_requesters e) (Z.shiftl 1 (Z.of_nat slot))) e.

Definition known (destination : list Z) (e : DiscoveryEntry) : bool :=
  negb (d_identity e =? 0)%Z && (d_destination e =k destination).

Definition begin (destination : list Z) (slot : nat) (now timeout : Z) (t : Discoveries)
  : BeginDiscovery * Discoveries :=
  if REQUESTERS <=? slot then (Refused, t)
  else
    let t := expire now t in
    match position (known destination) (ds_entries t) with
    | Some idx => (Joined, with_entries (alter (join slot) idx (ds_entries t)) t)
    | None =>
        match position (λ e, d_identity e =? 0)%Z (ds_entries t) with
        | None => (Refused, t)
        | Some idx =>
            match checked_add64 (ds_last_identity t) 1 with
            | None => (Refused, t)
            | Some id =>
                let expires_ms := sat_add64 now timeout in
                if (expires_ms <=? now)%Z then (Refused, t)
                else
                  (New id,
                   {| ds_entries := <[idx := {| d_destination := destination;
                        d_expires_ms := expires_ms; d_identity := id;
                        d_requesters := Z.shiftl 1 (Z.of_nat slot) |}]> (ds_entries t);
                      ds_last_identity := id |})
            end
        end
    end.

Definition live (identity now : Z) (t : Discoveries) : bool :=
  existsb (λ e, (d_identity e =? identity)%Z && entry_live now e) (ds_entries t).

Definition deadline (identity : Z) (t : Discoveries) : option Z :=
  d_expires_ms <$> find (λ e, negb (d_identity e =? 0)%Z && (d_identity e =? identity)%Z) (ds_entries t).

Definition take_discovery (destination : list Z) (now : Z) (t : Discoveries)
  : option DiscoveryEntry * Discoveries :=
  match position (known destination) (ds_entries t) with
  | None => (None, t)
  | Some idx =>
      (taken ← ds_entries t !! idx; if entry_live now taken then Some taken else None,
       with_entries (<[idx := EMPTY]> (ds_entries t)) t)
  end.

(** ** Abstract state *)

(** The live discovery of a destination. *)
Definition view (destination : list Z) (now : Z) (t : Discoveries) : option DiscoveryEntry :=
  find (λ e, known destination e && entry_live now e) (ds_entries t).

(** An occupied slot holds a requested destination that no other slot holds,
    under an identity already issued. *)
Record ok (t : Discoveries) : Prop := {
  ok_last : (0 ≤ ds_last_identity t)%Z;
  ok_unique : ∀ i j x y, ds_entries t !! i = Some x → ds_entries t !! j = Some y →
    d_identity x ≠ 0%Z → d_identity y ≠ 0%Z → d_destination x = d_destination y → i = j;
  ok_issued : ∀ i x, ds_entries t !! i = Some x → d_identity x ≠ 0%Z →
    (0 < d_identity x ≤ ds_last_identity t)%Z ∧ (0 < d_requesters x)%Z
}.

Lemma known_true d e : known d e = true ↔ d_identity e ≠ 0%Z ∧ d_destination e = d.
Proof. unfold known. by rewrite andb_true_iff, negb_true_iff, Z.eqb_neq, bool_decide_eq_true. Qed.

Lemma entry_live_true now e :
  entry_live now e = true ↔
  d_identity e ≠ 0%Z ∧ d_requesters e ≠ 0%Z ∧ (now < d_expires_ms e)%Z.
Proof.
  unfold entry_live. rewrite !andb_true_iff, !negb_true_iff, !Z.eqb_neq, Z.ltb_lt. tauto.
Qed.

Lemma view_Some d now t e :
  ok t → view d now t = Some e ↔
    d_destination e = d ∧ entry_live now e = true ∧ ∃ i, ds_entries t !! i = Some e.
Proof.
  intros Hok. unfold view. split.
  - intros [Hin [[Hi Hd]%known_true Hl]%andb_true_iff]%find_some.
    apply list_elem_of_In, list_elem_of_lookup in Hin. by split.
  - intros (Hd & Hl & i & Hi). destruct (find _ _) as [x|] eqn:Hf.
    + apply find_some in Hf as [Hin [[Hix Hdx]%known_true _]%andb_true_iff].
      apply list_elem_of_In, list_elem_of_lookup in Hin as [j Hj].
      apply entry_live_true in Hl as (Hie & _).
      assert (i = j) as <- by (apply (ok_unique t Hok i j e x); congruence). congruence.
    + assert (Hin : In e (ds_entries t)) by (by eapply list_elem_of_In, list_elem_of_lookup_2).
      apply (find_none _ _ Hf) in Hin. apply andb_false_iff in Hin as [Hin|Hin]; [|congruence].
      apply entry_live_true in Hl as (Hie & _).
      by rewrite (proj2 (known_true d e) (conj Hie Hd)) in Hin.
Qed.

(** Two tables show the same discovery of [d'] when they hold the same live
    entries for it. *)
Lemma view_ext d now t t' :
  ok t → ok t' →
  (∀ e, d_destination e = d → entry_live now e = true →
     (∃ i, ds_entries t !! i = Some e) ↔ (∃ i, ds_entries t' !! i = Some e)) →
  view d now t = view d now t'.
Proof.
  intros Hok Hok' H. apply option_eq. intros e. rewrite !view_Some by done. naive_solver.
Qed.

Lemma view_None d now t :
  ok t → (∀ i e, ds_entries t !! i = Some e → d_destination e = d → entry_live now e = false) →
  view d now t = None.
Proof.
  intros Hok H. apply eq_None_not_Some. intros [e (Hd & Hl & i & Hi)%view_Some]; [|done].
  by rewrite (H i e Hi Hd) in Hl.
Qed.

Lemma disc_ok_new N : ok (new N).
Proof.
  split; simpl; [lia|..].
  - intros i j x y [-> _]%lookup_replicate _ H. done.
  - intros i x [-> _]%lookup_replicate H. done.
Qed.

(** Replacing entries by themselves, by a version of themselves or by a free
    slot keeps the invariant. *)
Lemma disc_ok_map (f : DiscoveryEntry → DiscoveryEntry) t :
  ok t →
  (∀ e, (0 < d_requesters e)%Z → d_identity (f e) ≠ 0%Z →
     d_identity (f e) = d_identity e ∧ d_destination (f e) = d_destination e ∧ (0 < d_requesters (f e))%Z) →
  (∀ e, d_identity e = 0%Z → d_identity (f e) = 0%Z) →
  ok (with_entries (map f (ds_entries t)) t).
Proof.
  intros Hok Hf H0.
  assert (Hl : ∀ i x, map f (ds_entries t) !! i = Some x → d_identity x ≠ 0%Z →
    ∃ e, ds_entries t !! i = Some e ∧ d_identity e ≠ 0%Z ∧ d_identity x = d_identity e ∧
         d_destination x = d_destination e ∧ (0 < d_requesters x)%Z).
  { intros i x. rewrite list_lookup_fmap. intros (e & He & ->)%fmap_Some Hx. exists e.
    assert (Hie : d_identity e ≠ 0%Z) by (intros H; by apply H0 in H).
    destruct (ok_issued t Hok i e He Hie) as [_ Hr]. destruct (Hf e Hr Hx) as (? & ? & ?).
    by repeat split. }
  split; simpl; [apply (ok_last t Hok)|..].
  - intros i j x y Hx Hy Hix Hiy Hd.
    destruct (Hl i x Hx Hix) as (e & He & Hie & _ & Hde & _).
    destruct (Hl j y Hy Hiy) as (e' & He' & Hie' & _ & Hde' & _).
    apply (ok_unique t Hok i j e e'); congruence.
  - intros i x Hx Hix. destruct (Hl i x Hx Hix) as (e & He & Hie & Hid & _ & Hr).
    destruct (ok_issued t Hok i e He Hie) as [Hrange _]. split; [lia|done].
Qed.

Lemma disc_ok_expire now t : ok t → ok (expire now t).
Proof.
  intros Hok. apply disc_ok_map; [done|..].
  - intros e Hr. by destruct (entry_live now e).
  - intros e He. by destruct (entry_live now e).
Qed.

Lemma lookup_disc_expire now t i e :
  ds_entries (expire now t) !! i = Some e → d_identity e ≠ 0%Z →
  ds_entries t !! i = Some e ∧ entry_live now e = true.
Proof.
  simpl. rewrite list_lookup_fmap. intros (x & Hx & ->)%fmap_Some.
  destruct (entry_live now x) eqn:Hl; [done|]. intros Hne. by destruct Hne.
Qed.

Lemma live_later now now' e :
  (now ≤ now')%Z → entry_live now' e = true → entry_live now e = true.
Proof. rewrite !entry_live_true. lia. Qed.

Lemma view_expire d now now' t :
  ok t → (now ≤ now')%Z → view d now' (expire now t) = view d now' t.
Proof.
  intros Hok Hn. apply view_ext; [by apply disc_ok_expire|done|]. intros e Hd Hl.
  assert (Hid : d_identity e ≠ 0%Z) by (apply entry_live_true in Hl; tauto). split.
  - intros (i & [Hi _]%lookup_disc_expire); [|done]. by exists i.
  - intros (i & Hi). exists i. simpl. rewrite list_lookup_fmap, Hi. simpl.
    by rewrite (live_later now now' e Hn Hl).
Qed.

Lemma retire_entry_spec slot e :
  slot < 8 → (0 < d_requesters e)%Z → d_identity (retire_entry slot e) ≠ 0%Z →
  d_identity (retire_entry slot e) = d_identity e ∧
  d_destination (retire_entry slot e) = d_destination e ∧ (0 < d_requesters (retire_entry slot e))%Z.
Proof.
  intros Hs Hr. unfold retire_entry. simpl.
  destruct (Z.land (d_requesters e) _ =? 0)%Z eqn:Hz; [done|]. intros _. do 2 (split; [done|]).
  apply Z.eqb_neq in Hz. simpl.
  assert (0 ≤ Z.land (d_requesters e) (not8 (Z.shiftl 1 (Z.of_nat slot))))%Z
    by (apply Z.land_nonneg; left; lia). lia.
Qed.

Lemma disc_ok_retire slot t : ok t → ok (retire_requester slot t).
Proof.
  intros Hok. unfold retire_requester. case_if; [done|]. apply disc_ok_map; [done|..].
  - intros e Hr. apply retire_entry_spec; [unfold REQUESTERS in *; lia|done].
  - intros e He. unfold retire_entry. by case_if.
Qed.

Lemma bit_pos slot : (0 < Z.shiftl 1 (Z.of_nat slot))%Z.
Proof.
  rewrite Z.shiftl_mul_pow2, Z.mul_1_l by lia. apply Z.pow_pos_nonneg; lia.
Qed.

Lemma join_pos slot e : (0 < d_requesters e)%Z → (0 < d_requesters (join slot e))%Z.
Proof.
  intros Hr. simpl. assert (0 ≤ Z.lor (d_requesters e) (Z.shiftl 1 (Z.of_nat slot)))%Z.
  { apply Z.lor_nonneg. pose proof (bit_pos slot). lia. }
  assert (Z.lor (d_requesters e) (Z.shiftl 1 (Z.of_nat slot)) ≠ 0)%Z.
  { intros [Hz _]%Z.lor_eq_0_iff. lia. }
  lia.
Qed.

Lemma disc_ok_join slot idx t : ok t → ok (with_entries (alter (join slot) idx (ds_entries t)) t).
Proof.
  intros Hok.
  assert (Hl : ∀ i x, alter (join slot) idx (ds_entries t) !! i = Some x →
    ∃ e, ds_entries t !! i = Some e ∧ (x = e ∨ x = join slot e)).
  { intros i x. destruct (decide (i = idx)) as [->|Hne].
    - rewrite list_lookup_alter_eq. intros (e & He & ->)%fmap_Some. eauto.
    - rewrite list_lookup_alter_ne by done. eauto. }
  split; simpl; [apply (ok_last t Hok)|..].
  - intros i j x y (e & He & Hx)%Hl (e' & He' & Hy)%Hl Hix Hiy Hd.
    destruct Hx, Hy; subst; simpl in *; by apply (ok_unique t Hok i j e e').
  - intros i x (e & He & Hx)%Hl Hix.
    assert (Hie : d_identity e ≠ 0%Z) by (by destruct Hx; subst).
    destruct (ok_issued t Hok i e He Hie) as [Hrange Hr].
    destruct Hx; subst; [done|]. split; [done|]. by apply join_pos.
Qed.

Lemma disc_ok_delete idx t : ok t → ok (with_entries (<[idx := EMPTY]> (ds_entries t)) t).
Proof.
  intros Hok. split; simpl; [apply (ok_last t Hok)|..].
  - intros i j x y [(_ & <- & _)|[_ Hx]]%list_lookup_insert_Some
      [(_ & <- & _)|[_ Hy]]%list_lookup_insert_Some Hix Hiy; [done..|].
    by apply (ok_unique t Hok i j x y).
  - intros i x [(_ & <- & _)|[_ Hx]]%list_lookup_insert_Some Hix; [done|].
    by apply (ok_issued t Hok i x).
Qed.

Lemma disc_ok_store idx e t :
  ok t → (∀ i x, ds_entries t !! i = Some x → d_identity x ≠ 0%Z → d_destination x ≠ d_destination e) →
  d_identity e = (ds_last_identity t + 1)%Z → (0 < d_requesters e)%Z →
  ok {| ds_entries := <[idx := e]> (ds_entries t); ds_last_identity := d_identity e |}.
Proof.
  intros Hok Hfresh Hid Hr. pose proof (ok_last t Hok). split; simpl; [lia|..].
  - intros i j x y [(<- & <- & _)|[Hi Hx]]%list_lookup_insert_Some
      [(<- & <- & _)|[Hj Hy]]%list_lookup_insert_Some Hix Hiy Hd; [done|..].
    + by destruct (Hfresh j y Hy Hiy).
    + by destruct (Hfresh i x Hx Hix).
    + by apply (ok_unique t Hok i j x y).
  - intros i x [(<- & <- & _)|[_ Hx]]%list_lookup_insert_Some Hix; [split; lia|].
    destruct (ok_issued t Hok i x Hx Hix). split; [lia|done].
Qed.

(** An entry of a table where nothing dead is left. *)
Lemma known_expired d now t :
  ok t →
  match position (known d) (ds_entries (expire now t)) with
  | Some idx => ∃ e, ds_entries (expire now t) !! idx = Some e ∧ ds_entries t !! idx = Some e ∧
      d_destination e = d ∧ view d now t = Some e
  | None => view d now t = None ∧
      ∀ i x, ds_entries (expire now t) !! i = Some x → d_identity x ≠ 0%Z → d_destination x ≠ d
  end.
Proof.
  intros Hok. destruct (position _ _) as [idx|] eqn:Hp.
  - apply position_Some in Hp as (e & He & [Hid Hd]%known_true & _).
    destruct (lookup_disc_expire now t idx e He Hid) as [Hi Hl].
    exists e. repeat split; try done. apply view_Some; [done|]. eauto.
  - rewrite position_None in Hp.
    assert (Hno : ∀ i x, ds_entries (expire now t) !! i = Some x → d_identity x ≠ 0%Z →
      d_destination x ≠ d).
    { intros i x Hx Hid Hd. specialize (Hp i x Hx). by rewrite (proj2 (known_true d x)) in Hp. }
    split; [|done]. rewrite <- (view_expire d now now t Hok) by lia.
    apply view_None; [by apply disc_ok_expire|]. intros i e Hi Hd.
    destruct (entry_live now e) eqn:Hl; [|done]. apply entry_live_true in Hl as (Hid & _).
    by destruct (Hno i e Hi Hid).
Qed.

(** [Some e] when it is live. *)
Definition if_live (now : Z) (e : DiscoveryEntry) : option DiscoveryEntry :=
  if entry_live now e then Some e else None.

(** After writing [e] to a slot whose old entry was for the same destination or
    dead, the destination of [e] shows [e] and the others are unchanged. *)
Lemma view_write idx e t t' now' d' :
  ok t → ok t' → ds_entries t' = <[idx := e]> (ds_entries t) → idx < length (ds_entries t) →
  (∀ x, ds_entries t !! idx = Some x → d_identity x ≠ 0%Z → d_destination x = d_destination e) →
  (d_identity e ≠ 0)%Z →
  view d' now' t' = if bool_decide (d' = d_destination e) then if_live now' e else view d' now' t.
Proof.
  intros Hok Hok' Heq Hlt Hsame Hid.
  assert (Hidx : ds_entries t' !! idx = Some e) by (rewrite Heq; by apply list_lookup_insert_eq).
  case_bool_decide as Hd; [subst d'|].
  - unfold if_live. destruct (entry_live now' e) eqn:Hl.
    + apply view_Some; [done|]. eauto.
    + apply view_None; [done|]. intros i x Hx Hdx.
      destruct (entry_live now' x) eqn:Hlx; [|done]. pose proof Hlx as (Hix & _)%entry_live_true.
      assert (i = idx) as -> by (by apply (ok_unique t' Hok' i idx x e)). congruence.
  - apply view_ext; [done..|]. intros x Hdx Hl. pose proof Hl as (Hix & _)%entry_live_true.
    rewrite Heq. split; intros (i & Hi).
    + apply list_lookup_insert_Some in Hi as [(<- & <- & _)|[_ Hi]]; [congruence|by exists i].
    + exists i. rewrite list_lookup_insert_ne; [done|]. intros <-. apply Hd.
      rewrite <- Hdx. by apply Hsame.
Qed.

Lemma disc_ok_begin d slot now timeout t : ok t → ok (snd (begin d slot now timeout t)).
Proof.
  intros Hok. unfold begin. case_if; [done|]. pose proof (disc_ok_expire now t Hok) as Hoke.
  pose proof (known_expired d now t Hok) as Hk.
  destruct (position (known d) _) as [idx|]; [by apply disc_ok_join|].
  destruct Hk as [_ Hfresh].
  destruct (position _ (ds_entries (expire now t))) as [idx|]; [|done].
  destruct (checked_add64 _ 1) as [id|] eqn:Hc; [|done].
  case_if; [done|]. apply checked_add64_Some in Hc as [-> _].
  apply (disc_ok_store idx {| d_destination := d; d_expires_ms := sat_add64 now timeout;
    d_identity := ds_last_identity (expire now t) + 1;
    d_requesters := Z.shiftl 1 (Z.of_nat slot) |} (expire now t)); [done..|apply bit_pos].
Qed.

Lemma begin_view d slot now timeout t now' d' :
  ok t → slot < REQUESTERS → (now ≤ now')%Z →
  let (r, t') := begin d slot now timeout t in
  match r with
  | Joined => ∃ e, view d now t = Some e ∧
      view d' now' t' = if bool_decide (d' = d) then if_live now' (join slot e) else view d' now' t
  | New id => view d now t = None ∧ id = (ds_last_identity t + 1)%Z ∧
      view d' now' t' =
        if bool_decide (d' = d)
        then if_live now' {| d_destination := d; d_expires_ms := sat_add64 now timeout;
               d_identity := id; d_requesters := Z.shiftl 1 (Z.of_nat slot) |}
        else view d' now' t
  | Refused => view d now t = None ∧ view d' now' t' = view d' now' t ∧
      ((∀ i e, ds_entries (expire now t) !! i = Some e → d_identity e ≠ 0%Z) ∨
       (u64_max ≤ ds_last_identity t)%Z ∨ (sat_add64 now timeout ≤ now)%Z)
  end.
Proof.
  intros Hok Hs Hn. pose proof (disc_ok_begin d slot now timeout t Hok) as Hok'.
  pose proof (disc_ok_expire now t Hok) as Hoke.
  pose proof (known_expired d now t Hok) as Hk. pose proof (view_expire d' now now' t Hok Hn) as Hve.
  revert Hok'. unfold begin. rewrite (proj2 (Nat.leb_gt _ _)) by done. cbv zeta.
  destruct (position (known d) _) as [idx|] eqn:Hp.
  - intros Hok'. destruct Hk as (e & He & Hi & <- & Hv). exists e. split; [done|].
    rewrite <- Hve. apply (view_write idx (join slot e)); [done|done| | | |].
    + rewrite list_insert_alter. apply list_alter_ext; [|done]. intros x Hx. congruence.
    + by eapply lookup_lt_Some.
    + intros x Hx _. assert (x = e) as -> by congruence. done.
    + apply (view_Some _ _ _ _ Hok) in Hv as (_ & (Hid & _)%entry_live_true & _). done.
  - destruct Hk as [Hnone Hfresh].
    destruct (position (λ e, (d_identity e =? 0)%Z) (ds_entries (expire now t))) as [idx|] eqn:Hq.
    + destruct (checked_add64 _ 1) as [id|] eqn:Hc.
      * destruct (sat_add64 now timeout <=? now)%Z eqn:Hx; intros Hok'; cbn beta iota.
        -- split; [done|]. split; [done|]. right. right. by apply Z.leb_le.
        -- apply checked_add64_Some in Hc as [-> _]. split; [done|]. split; [done|].
           rewrite <- Hve. pose proof (ok_last t Hok).
           apply position_Some in Hq as (x & Hx0 & Hz & _).
           match goal with |- context [<[idx := ?e]> _] =>
             apply (view_write idx e _ _ _ _ Hoke Hok' eq_refl) end.
           ++ by eapply lookup_lt_Some.
           ++ intros y Hy Hid. assert (y = x) as -> by congruence. apply Z.eqb_eq in Hz. done.
           ++ simpl. lia.
      * intros _. cbn beta iota. split; [done|]. split; [done|]. right. left.
        unfold checked_add64 in Hc. case_if; [done|]. simpl in *. lia.
    + intros _. cbn beta iota. split; [done|]. split; [done|]. left. intros i e Hi.
      rewrite position_None in Hq. specialize (Hq i e Hi). by apply Z.eqb_neq in Hq.
Qed.

Lemma take_view d now t now' d' :
  ok t →
  let (r, t') := take_discovery d now t in
  ok t' ∧ r = view d now t ∧
  view d' now' t' = if bool_decide (d' = d) then None else view d' now' t.
Proof.
  intros Hok. unfold take_discovery. destruct (position (known d) _) as [idx|] eqn:Hp.
  - apply position_Some in Hp as (e & He & [Hid Hd]%known_true & _).
    assert (Hok' : ok (with_entries (<[idx := EMPTY]> (ds_entries t)) t)) by (by apply disc_ok_delete).
    assert (Hslot : ∀ i x, ds_entries (with_entries (<[idx := EMPTY]> (ds_entries t)) t) !! i = Some x →
      d_identity x ≠ 0%Z → i ≠ idx ∧ ds_entries t !! i = Some x).
    { intros i x [(_ & <- & _)|[Hne Hx]]%list_lookup_insert_Some Hix; [done|]. split; [congruence|done]. }
    split; [done|]. split.
    + rewrite He. simpl. destruct (entry_live now e) eqn:Hl; symmetry.
      * apply view_Some; [done|]. eauto.
      * apply view_None; [done|]. intros i x Hx Hdx.
        destruct (entry_live now x) eqn:Hlx; [|done]. pose proof Hlx as (Hix & _)%entry_live_true.
        assert (i = idx) as -> by (apply (ok_unique t Hok i idx x e); congruence). congruence.
    + case_bool_decide as Hdd; [subst d'|].
      * apply view_None; [done|]. intros i x Hx Hdx.
        destruct (entry_live now' x) eqn:Hlx; [|done]. apply entry_live_true in Hlx as (Hix & _).
        destruct (Hslot i x Hx Hix) as [Hne Hxt]. destruct Hne.
        apply (ok_unique t Hok i idx x e); congruence.
      * apply view_ext; [done..|]. intros x Hdx Hl. apply entry_live_true in Hl as (Hix & _).
        split; intros (i & Hi); exists i.
        -- by destruct (Hslot i x Hi Hix).
        -- simpl. rewrite list_lookup_insert_ne; [done|]. intros <-. congruence.
  - rewrite position_None in Hp. split; [done|].
    assert (Hno : ∀ n, view d n t = None).
    { intros n. apply view_None; [done|]. intros i e Hi Hd.
      destruct (entry_live n e) eqn:Hl; [|done]. apply entry_live_true in Hl as (Hid & _).
      specialize (Hp i e Hi). by rewrite (proj2 (known_true d e)) in Hp. }
    split; [by rewrite Hno|]. case_bool_decide; [by subst|done].
Qed.

Lemma retire_view slot t d now :
  ok t → slot < REQUESTERS →
  view d now (retire_requester slot t) =
    match view d now t with Some e => if_live now (retire_entry slot e) | None => None end.
Proof.
  intros Hok Hs. pose proof (disc_ok_retire slot t Hok) as Hok'.
  unfold REQUESTERS in Hs.
  assert (Hd : ∀ e, d_identity (retire_entry slot e) ≠ 0%Z →
    d_identity (retire_entry slot e) = d_identity e ∧
    d_destination (retire_entry slot e) = d_destination e ∧
    d_expires_ms (retire_entry slot e) = d_expires_ms e).
  { intros e. unfold retire_entry. by case_if. }
  assert (Hl : ∀ i x, ds_entries (retire_requester slot t) !! i = Some x ↔
    ∃ e, ds_entries t !! i = Some e ∧ x = retire_entry slot e).
  { intros i x. unfold retire_requester, REQUESTERS. rewrite (proj2 (Nat.leb_gt _ _)) by lia.
    simpl. rewrite list_lookup_fmap, fmap_Some. naive_solver. }
  destruct (view d now t) as [e|] eqn:Hv.
  - apply (view_Some _ _ _ _ Hok) in Hv as (Hde & Hle & i & Hi). unfold if_live.
    destruct (entry_live now (retire_entry slot e)) eqn:Hlr.
    + pose proof Hlr as (Hir & _)%entry_live_true. destruct (Hd e Hir) as (_ & Hdr & _).
      apply view_Some; [done|]. split; [congruence|]. split; [done|]. exists i. apply Hl. eauto.
    + apply view_None; [done|]. intros j x (y & Hy & ->)%Hl Hdy.
      destruct (entry_live now (retire_entry slot y)) eqn:Hly; [|done].
      pose proof Hly as (Hiy & _)%entry_live_true. destruct (Hd y Hiy) as (Hid & Hdest & _).
      apply entry_live_true in Hle as (Hie & _).
      assert (j = i) as -> by (apply (ok_unique t Hok j i y e); congruence). congruence.
  - apply view_None; [done|]. intros i x (e & He & ->)%Hl Hdx.
    destruct (entry_live now (retire_entry slot e)) eqn:Hlr; [|done].
    apply entry_live_true in Hlr as (Hir & _ & Hx). destruct (Hd e Hir) as (Hid & Hdest & Hexp).
    assert (Hie : d_identity e ≠ 0%Z) by congruence.
    destruct (ok_issued t Hok i e He Hie) as [_ Hr].
    assert (view d now t = Some e) as Hc; [|congruence].
    apply view_Some; [done|]. split; [congruence|]. split; [|eauto].
    apply entry_live_true. rewrite <- Hexp. repeat split; [done|lia|done].
Qed.

Inductive step : Discoveries → Discoveries → Prop :=
| step_begin d slot now timeout t : step t (snd (begin d slot now timeout t))
| step_take d now t : step t (snd (take_discovery d now t))
| step_retire slot t : step t (retire_requester slot t)
| step_expire now t : step t (expire now t)
| step_clear t : step t (clear t).

Lemma disc_step_ok t t' : ok t → step t t' → ok t'.
Proof.
  intros Hok Hs. destruct Hs as [d slot now timeout t|d now t|slot t|now t|t].
  - by apply disc_ok_begin.
  - pose proof (take_view d now t now d Hok) as H. destruct (take_discovery d now t). apply H.
  - by apply disc_ok_retire.
  - by apply disc_ok_expire.
  - split; simpl; [apply (ok_last t Hok)|..].
    + intros i j x y [-> _]%lookup_replicate _ H. done.
    + intros i x [-> _]%lookup_replicate H. done.
Qed.

(** Recursive discovery. In any reachable table, starting a discovery
    joins the live one of the destination, adding only the requester's bit and
    leaving its deadline, or opens a new one under a fresh identity; it is
    refused only when every slot is live, the identities are exhausted or the
    timeout is empty; an answer takes exactly the live discovery with all its
    requesters, once; retiring an interface removes only its bit, and the
    discovery when it was the last; and no operation affects another
    destination's discovery. *)
Lemma discovery_contract N t d slot now now' timeout d' :
  rtc step (new N) t → slot < REQUESTERS → (now ≤ now')%Z →
  (let (r, t') := begin d slot now timeout t in
   match r with
   | Joined => ∃ e, view d now t = Some e ∧
       view d' now' t' = if bool_decide (d' = d) then if_live now' (join slot e) else view d' now' t
   | New id => view d now t = None ∧ id = (ds_last_identity t + 1)%Z ∧
       view d' now' t' =
         if bool_decide (d' = d)
         then if_live now' {| d_destination := d; d_expires_ms := sat_add64 now timeout;
                d_identity := id; d_requesters := Z.shiftl 1 (Z.of_nat slot) |}
         else view d' now' t
   | Refused => view d now t = None ∧ view d' now' t' = view d' now' t ∧
       ((∀ i e, ds_entries (expire now t) !! i = Some e → d_identity e ≠ 0%Z) ∨
        (u64_max ≤ ds_last_identity t)%Z ∨ (sat_add64 now timeout ≤ now)%Z)
   end) ∧
  (let (r, t') := take_discovery d now t in
   r = view d now t ∧
   view d' now' t' = if bool_decide (d' = d) then None else view d' now' t) ∧
  view d' now' (retire_requester slot t) =
    match view d' now' t with Some e => if_live now' (retire_entry slot e) | None => None end.
Proof.
  intros Hreach Hs Hn.
  assert (Hok : ok t).
  { apply (rtc_preserves step ok (new N)); [apply disc_step_ok|apply disc_ok_new|done]. }
  split; [by apply begin_view|]. split; [|by apply retire_view].
  pose proof (take_view d now t now' d' Hok) as H. destruct (take_discovery d now t) as [r t1]. exact (proj2 H).
Qed.

End Discoveries.

Lemma discovery_contract_witness :
  let t := snd (Discoveries.begin (replicate 16 1%Z) 0 0 15000 (Discoveries.new 2)) in
  fst (Discoveries.begin (replicate 16 1%Z) 3 10 15000 t) = Joined ∧
  Discoveries.view (replicate 16 1%Z) 20
    (snd (Discoveries.begin (replicate 16 1%Z) 3 10 15000 t))
  = Some {| d_destination := replicate 16 1%Z; d_expires_ms := 15000; d_identity := 1; d_requesters := 9 |}.
Proof.
  intros t. split; [reflexivity|].
  destruct (Discoveries.discovery_contract 2 t (replicate 16 1%Z) 3 10 20 15000 (replicate 16 1%Z))
    as [H _].
  - apply rtc_once, Discoveries.step_begin.
  - unfold REQUESTERS. lia.
  - lia.
  - destruct H as (e & He & H). injection He as <-. exact H.
Defined.
