(* ===== verification/Config.v ===== *)
(** Node and interface configuration (src/src/config.rs): descriptors, their
    validation, the MTU arithmetic of an interface and the interface registry. *)

From S2P Require Import Prelude Constants Slots Lora AnnounceFlow.

Inductive InterfaceMode :=
| Full | PointToPoint | Internal | AccessPoint | Gateway | Roaming | Boundary.

Inductive InterfaceRole := LoRa | Backbone | Normal | LocalClient.

#[export] Instance InterfaceMode_eq_dec : EqDecision InterfaceMode.
Proof. solve_decision. Defined.
#[export] Instance InterfaceRole_eq_dec : EqDecision InterfaceRole.
Proof. solve_decision. Defined.

Inductive ConfigError :=
| EmptyPathTable | EmptyHashTable | EmptyTxQueue | UnsupportedMtu | MduExceedsMtu
| InvalidIfacSize | DuplicateInterfaceId | InterfaceRegistryFull | UnknownInterface
| InterfaceHasNoDirection | InvalidInterfaceDirection | InvalidInterfaceMtu
| InvalidInterfaceQueueDepth | CannotRemoveLastInterface | InterfaceGenerationExhausted.

Record InterfaceDirection := { inbound : bool; outbound : bool; forward : bool; repeat_ : bool }.

Module InterfaceDirection.
Definition BIDIRECTIONAL : InterfaceDirection :=
  {| inbound := true; outbound := true; forward := true; repeat_ := false |}.
Definition REPEATER : InterfaceDirection :=
  {| inbound := true; outbound := true; forward := true; repeat_ := true |}.
Definition INBOUND_ONLY : InterfaceDirection :=
  {| inbound := true; outbound := false; forward := false; repeat_ := false |}.
Definition OUTBOUND_ONLY : InterfaceDirection :=
  {| inbound := false; outbound := true; forward := true; repeat_ := false |}.

Definition validate (d : InterfaceDirection) : outcome ConfigError unit :=
  if negb (inbound d) && negb (outbound d) then Err InterfaceHasNoDirection
  else if (forward d || repeat_ d) && negb (outbound d) then Err InvalidInterfaceDirection
  else Ok tt.
End InterfaceDirection.

Record TableCaps := {
  path_entries : nat;
  announce_entries : nat;
  reverse_entries : nat;
  link_entries : nat;
  packet_hashes : nat;
  recent_announces : nat;
  path_request_tags : nat;
  random_blobs_per_path : nat;
  queued_announces_per_interface : nat;
  tx_queue_depth_cap : nat
}.

Module TableCaps.
Definition ESP32_LORA_TRANSPORT_PSRAM : TableCaps :=
  {| path_entries := 1024; announce_entries := 128; reverse_entries := 128; link_entries := 64;
     packet_hashes := 2048; recent_announces := 512; path_request_tags := 256;
     random_blobs_per_path := 32; queued_announces_per_interface := 64; tx_queue_depth_cap := 8 |}.
Definition ESP32_LORA_TRANSPORT_SMALL : TableCaps :=
  {| path_entries := 256; announce_entries := 64; reverse_entries := 64; link_entries := 32;
     packet_hashes := 512; recent_announces := 128; path_request_tags := 64;
     random_blobs_per_path := 16; queued_announces_per_interface := 24; tx_queue_depth_cap := 4 |}.
Definition ESP32_LORA_TRANSPORT_MICRO : TableCaps :=
  {| path_entries := 48; announce_entries := 8; reverse_entries := 8; link_entries := 4;
     packet_hashes := 64; recent_announces := 16; path_request_tags := 8;
     random_blobs_per_path := 8; queued_announces_per_interface := 8; tx_queue_depth_cap := 4 |}.

Definition validate (c : TableCaps) : outcome ConfigError unit :=
  if path_entries c =? 0 then Err EmptyPathTable
  else if packet_hashes c =? 0 then Err EmptyHashTable
  else if tx_queue_depth_cap c =? 0 then Err EmptyTxQueue
  else Ok tt.
End TableCaps.

Record IfacConfig := { ifac_key : list Z; ifac_size : Z }.

Module IfacConfig.
Definition lora_default (key : list Z) : IfacConfig :=
  {| ifac_key := key; ifac_size := IFAC_LORA_DEFAULT_SIZE |}.
Definition validate (c : IfacConfig) : outcome ConfigError unit :=
  if (ifac_size c =? 0)%Z || (64 <? ifac_size c)%Z then Err InvalidIfacSize else Ok tt.
End IfacConfig.

Definition MAX_INTERFACES : nat := 8.

Record InterfaceConfig := {
  if_id : Z;
  if_role : InterfaceRole;
  if_mode : InterfaceMode;
  if_direction : InterfaceDirection;
  if_mtu : nat;
  if_bitrate_bps : Z;
  if_ifac : option IfacConfig;
  if_online : bool;
  if_tx_queue_depth : nat;
  if_announce_cap_permille : Z;
  if_bulk_paths : bool
}.

Module InterfaceConfig.

Definition lora (id bitrate_bps : Z) (tx_queue_depth : nat) : InterfaceConfig :=
  {| if_id := id; if_role := LoRa; if_mode := Gateway;
     if_direction := InterfaceDirection.BIDIRECTIONAL; if_mtu := MTU;
     if_bitrate_bps := bitrate_bps; if_ifac := None; if_online := true;
     if_tx_queue_depth := tx_queue_depth; if_announce_cap_permille := ANNOUNCE_CAP_PERMILLE;
     if_bulk_paths := false |}.

Definition lora_repeater (id bitrate_bps : Z) (tx_queue_depth : nat) : InterfaceConfig :=
  {| if_id := id; if_role := LoRa; if_mode := Gateway;
     if_direction := InterfaceDirection.REPEATER; if_mtu := MTU;
     if_bitrate_bps := bitrate_bps; if_ifac := None; if_online := true;
     if_tx_queue_depth := tx_queue_depth; if_announce_cap_permille := ANNOUNCE_CAP_PERMILLE;
     if_bulk_paths := false |}.

Definition backbone (id bitrate_bps : Z) (tx_queue_depth : nat) : InterfaceConfig :=
  {| if_id := id; if_role := Backbone; if_mode := Boundary;
     if_direction := InterfaceDirection.BIDIRECTIONAL; if_mtu := MTU;
     if_bitrate_bps := bitrate_bps; if_ifac := None; if_online := true;
     if_tx_queue_depth := tx_queue_depth; if_announce_cap_permille := ANNOUNCE_CAP_PERMILLE;
     if_bulk_paths := true |}.

Definition local_client (id bitrate_bps : Z) (tx_queue_depth : nat) : InterfaceConfig :=
  {| if_id := id; if_role := LocalClient; if_mode := Internal;
     if_direction := InterfaceDirection.BIDIRECTIONAL; if_mtu := MTU;
     if_bitrate_bps := bitrate_bps; if_ifac := None; if_online := true;
     if_tx_queue_depth := tx_queue_depth; if_announce_cap_permille := ANNOUNCE_CAP_PERMILLE;
     if_bulk_paths := false |}.

Definition access_point (id bitrate_bps : Z) (tx_queue_depth : nat) : InterfaceConfig :=
  {| if_id := id; if_role := Normal; if_mode := AccessPoint;
     if_direction := InterfaceDirection.BIDIRECTIONAL; if_mtu := MTU;
     if_bitrate_bps := bitrate_bps; if_ifac := None; if_online := true;
     if_tx_queue_depth := tx_queue_depth; if_announce_cap_permille := ANNOUNCE_CAP_PERMILLE;
     if_bulk_paths := false |}.

Definition network_peer (id bitrate_bps : Z) (tx_queue_depth : nat) : InterfaceConfig :=
  {| if_id := id; if_role := Normal; if_mode := Gateway;
     if_direction := InterfaceDirection.BIDIRECTIONAL; if_mtu := MTU;
     if_bitrate_bps := bitrate_bps; if_ifac := None; if_online := true;
     if_tx_queue_depth := tx_queue_depth; if_announce_cap_permille := ANNOUNCE_CAP_PERMILLE;
     if_bulk_paths := false |}.

Definition clear_mtu (c : InterfaceConfig) : nat :=
  let physical_clear_mtu :=
    match if_role c, if_ifac c with
    | LoRa, Some ifac => LORA_SPLIT_FRAME_PAYLOAD_MAX - Z.to_nat (ifac_size ifac)
    | LoRa, None => LORA_SPLIT_FRAME_PAYLOAD_MAX
    | _, _ => if_mtu c
    end in
  if if_mtu c <? physical_clear_mtu then if_mtu c else physical_clear_mtu.

Definition supports_general_links (c : InterfaceConfig) : bool := MTU <=? clear_mtu c.

Definition wire_mtu (c : InterfaceConfig) : nat :=
  clear_mtu c + match if_ifac c with Some ifac => Z.to_nat (ifac_size ifac) | None => 0 end.

Definition validate (total_queue_depth : nat) (c : InterfaceConfig) : outcome ConfigError unit :=
  let* _ := match if_ifac c with Some ifac => IfacConfig.validate ifac | None => Ok tt end in
  if (if_mtu c <? HEADER_MINSIZE) || (MTU <? if_mtu c) then Err InvalidInterfaceMtu
  else if (if_tx_queue_depth c =? 0) || (total_queue_depth <? if_tx_queue_depth c)
  then Err InvalidInterfaceQueueDepth
  else InterfaceDirection.validate (if_direction c).

End InterfaceConfig.

(** The registry is its only field, [entries]. *)
Abbreviation InterfaceRegistry := (list (option InterfaceConfig)).

#[export] Instance InterfaceConfig_entry : Entry InterfaceConfig Z :=
  {| entry_key := if_id; entry_expires := λ _, 0%Z |}.

Module InterfaceRegistry.

Definition new : InterfaceRegistry := replicate MAX_INTERFACES None.
Definition from_array (entries : list (option InterfaceConfig)) : InterfaceRegistry := entries.

Definition len (t : InterfaceRegistry) : nat := length (flatten t).
Definition is_empty (t : InterfaceRegistry) : bool := len t =? 0.

Definition slot (id : Z) (t : InterfaceRegistry) : option nat :=
  position (slot_is (λ i, (if_id i =? id)%Z)) t.

Definition get (id : Z) (t : InterfaceRegistry) : option InterfaceConfig :=
  find (λ i, (if_id i =? id)%Z) (flatten t).

Definition get_mut (id : Z) (f : InterfaceConfig → InterfaceConfig) (t : InterfaceRegistry)
  : InterfaceRegistry := update_first (λ i, (if_id i =? id)%Z) f t.

Definition iter (t : InterfaceRegistry) : list InterfaceConfig := flatten t.

Definition at_slot (s : nat) (t : InterfaceRegistry) : option InterfaceConfig := mjoin (t !! s).

Definition register (interface : InterfaceConfig) : st InterfaceRegistry ConfigError unit := λ t,
  match get (if_id interface) t with
  | Some _ => (Err DuplicateInterfaceId, t)
  | None =>
      match position is_none t with
      | None => (Err InterfaceRegistryFull, t)
      | Some s => (Ok tt, <[s := Some interface]> t)
      end
  end.

Definition with_online (online : bool) (c : InterfaceConfig) : InterfaceConfig :=
  {| if_id := if_id c; if_role := if_role c; if_mode := if_mode c; if_direction := if_direction c;
     if_mtu := if_mtu c; if_bitrate_bps := if_bitrate_bps c; if_ifac := if_ifac c;
     if_online := online; if_tx_queue_depth := if_tx_queue_depth c;
     if_announce_cap_permille := if_announce_cap_permille c; if_bulk_paths := if_bulk_paths c |}.

Definition set_online (id : Z) (online : bool) : st InterfaceRegistry ConfigError unit := λ t,
  match get id t with
  | None => (Err UnknownInterface, t)
  | Some _ => (Ok tt, get_mut id (with_online online) t)
  end.

Definition unregister (id : Z) : st InterfaceRegistry ConfigError InterfaceConfig := λ t,
  match slot id t with
  | None => (Err UnknownInterface, t)
  | Some s => (ok_or (mjoin (t !! s)) UnknownInterface, <[s := None]> t)
  end.

(** The nested scan: each descriptor is checked, then compared with the later
    slots. *)
Fixpoint validate (total_queue_depth : nat) (t : InterfaceRegistry) : outcome ConfigError unit :=
  match t with
  | [] => Ok tt
  | None :: rest => validate total_queue_depth rest
  | Some interface :: rest =>
      let* _ := InterfaceConfig.validate total_queue_depth interface in
      if existsb (slot_is (λ other, (if_id other =? if_id interface)%Z)) rest
      then Err DuplicateInterfaceId
      else validate total_queue_depth rest
  end.

End InterfaceRegistry.

Record LiteConfig := {
  lc_mode : InterfaceMode;
  lc_table_caps : TableCaps;
  lc_mtu : nat;
  lc_mdu : nat;
  lc_max_announce_app_data : nat;
  lc_transport_enabled : bool;
  lc_probe_destination_enabled : bool;
  lc_ifac : option IfacConfig;
  lc_announce_admission : AnnounceAdmissionConfig
}.

Module LiteConfig.
Definition with_caps (caps : TableCaps) : LiteConfig :=
  {| lc_mode := Gateway; lc_table_caps := caps; lc_mtu := MTU; lc_mdu := MDU;
     lc_max_announce_app_data := MAX_ANNOUNCE_APP_DATA; lc_transport_enabled := true;
     lc_probe_destination_enabled := true; lc_ifac := None;
     lc_announce_admission := AnnounceAdmission.DISABLED |}.
Definition ESP32_LORA_TRANSPORT_PSRAM : LiteConfig := with_caps TableCaps.ESP32_LORA_TRANSPORT_PSRAM.
Definition ESP32_LORA_TRANSPORT_SMALL : LiteConfig := with_caps TableCaps.ESP32_LORA_TRANSPORT_SMALL.
Definition ESP32_LORA_TRANSPORT_MICRO : LiteConfig := with_caps TableCaps.ESP32_LORA_TRANSPORT_MICRO.
Definition default : LiteConfig := ESP32_LORA_TRANSPORT_SMALL.

Definition validate (c : LiteConfig) : outcome ConfigError unit :=
  let* _ := match lc_ifac c with Some ifac => IfacConfig.validate ifac | None => Ok tt end in
  if negb (lc_mtu c =? MTU) then Err UnsupportedMtu
  else if lc_mtu c <? lc_mdu c then Err MduExceedsMtu
  else TableCaps.validate (lc_table_caps c).
End LiteConfig.

(** * Properties *)

Lemma validated_ifac_size i : IfacConfig.validate i = Ok tt → (1 ≤ ifac_size i ≤ 64)%Z ∨ (ifac_size i < 0)%Z.
Proof. unfold IfacConfig.validate. case_if; [done|]. intros _. lia. Qed.

(** What a validated interface descriptor guarantees. Its clear MTU can
    hold a minimal header and is at most the protocol MTU and its own setting;
    its wire MTU fits the wire buffer, and on LoRa the two frames of the framer;
    it serves general links exactly when the clear MTU is the protocol's; and
    its direction allows some traffic, with forwarding only where it can send. *)
Lemma validated_interface_fits c depth :
  (∀ i, if_ifac c = Some i → in_u8 (ifac_size i)) →
  InterfaceConfig.validate depth c = Ok tt →
  HEADER_MINSIZE ≤ InterfaceConfig.clear_mtu c ≤ if_mtu c ∧ if_mtu c ≤ MTU ∧
  InterfaceConfig.wire_mtu c ≤ WIRE_MTU_MAX ∧
  (if_role c = LoRa → InterfaceConfig.wire_mtu c ≤ LORA_SPLIT_FRAME_PAYLOAD_MAX) ∧
  (InterfaceConfig.supports_general_links c = true ↔ InterfaceConfig.clear_mtu c = MTU) ∧
  0 < if_tx_queue_depth c ≤ depth ∧
  (inbound (if_direction c) = true ∨ outbound (if_direction c) = true) ∧
  (forward (if_direction c) = true ∨ repeat_ (if_direction c) = true →
   outbound (if_direction c) = true).
Proof.
  intros Hu8 Hv. unfold InterfaceConfig.validate in Hv. obind_inv.
  destruct ((if_mtu c <? HEADER_MINSIZE) || (MTU <? if_mtu c)) eqn:Hmtu; [done|].
  destruct ((if_tx_queue_depth c =? 0) || _) eqn:Hq; [done|]. bool_hyps.
  assert (Hsz : match if_ifac c with Some i => 1 ≤ Z.to_nat (ifac_size i) ≤ 64 | None => True end).
  { destruct (if_ifac c) as [i|]; [|done]. specialize (Hu8 i eq_refl). destruct x.
    apply validated_ifac_size in Hx. unfold in_u8 in Hu8. lia. }
  unfold InterfaceConfig.supports_general_links, InterfaceConfig.wire_mtu, InterfaceConfig.clear_mtu.
  sizes. rewrite Nat.leb_le.
  assert (Hdir : (inbound (if_direction c) = true ∨ outbound (if_direction c) = true) ∧
    (forward (if_direction c) = true ∨ repeat_ (if_direction c) = true →
     outbound (if_direction c) = true)).
  { unfold InterfaceDirection.validate in Hv.
    destruct (inbound _), (outbound _), (forward _), (repeat_ _); simpl in Hv; naive_solver. }
  destruct (if_role c), (if_ifac c) as [i|]; case_if;
    (split; [lia|]); (split; [lia|]); (split; [lia|]); (split; [(intros; lia) || done|]);
    (split; [lia|]); (split; [lia|exact Hdir]).
Qed.

(** ** The registry *)

Module RegistryFacts.
Import InterfaceRegistry.

(** The registry's integer test of an id is the key test of the slot lemmas. *)
Lemma id_is (id : Z) (i : InterfaceConfig) : (if_id i =? id)%Z = key_is id i.
Proof.
  unfold key_is. simpl. destruct (if_id i =? id)%Z eqn:H; symmetry;
    [apply bool_decide_eq_true|apply bool_decide_eq_false]; bool_hyps; done.
Qed.

Lemma reg_get_key id t : get id t = find (key_is id) (flatten t).
Proof.
  unfold get. induction (flatten t) as [|i l IH]; simpl; [done|]. by rewrite id_is, IH.
Qed.

Lemma slot_key id t : slot id t = position (slot_is (key_is id)) t.
Proof.
  unfold slot. induction t as [|[i|] t IH]; simpl; [done| |by rewrite IH].
  by rewrite id_is, IH.
Qed.

Lemma reg_get_Some id t c :
  unique_keys t → get id t = Some c ↔ if_id c = id ∧ ∃ s, t !! s = Some (Some c).
Proof. intros Hu. rewrite reg_get_key. exact (find_key_Some id t c Hu). Qed.

Lemma reg_get_None id t : get id t = None ↔ ∀ s c, t !! s = Some (Some c) → if_id c ≠ id.
Proof.
  rewrite reg_get_key, find_flatten_None. split; intros H s c Hc; specialize (H s c Hc).
  - by apply key_is_false in H.
  - by apply key_is_false.
Qed.

(** Lookups after one slot was written. *)
Lemma reg_get_write s c' t id :
  unique_keys t → unique_keys (<[s := c']> t) → s < length t →
  (∀ c, t !! s = Some (Some c) → ∀ x, c' = Some x → if_id c = if_id x) →
  get id (<[s := c']> t) =
    match c' with
    | Some x => if (id =? if_id x)%Z then Some x else get id t
    | None => match t !! s with
              | Some (Some c) => if (id =? if_id c)%Z then None else get id t
              | _ => get id t
              end
    end.
Proof.
  intros Hu Hu' Hlt Hsame.
  assert (Hrest : ∀ c, if_id c = id → (∀ x, c' = Some x → if_id x ≠ id) →
    (∀ x, t !! s = Some (Some x) → if_id x ≠ id) →
    (∃ k, <[s := c']> t !! k = Some (Some c)) ↔ (∃ k, t !! k = Some (Some c))).
  { intros c Hc Hn Ho. split; intros [k Hk].
    - apply lookup_write_slot in Hk as [[_ ->]|[_ Hk]]; [by destruct (Hn c eq_refl)|by exists k].
    - exists k. rewrite list_lookup_insert_ne; [done|]. intros <-. by destruct (Ho c Hk). }
  apply option_eq. intros c. rewrite (reg_get_Some _ _ _ Hu'). destruct c' as [x|].
  - destruct (id =? if_id x)%Z eqn:Hid; bool_hyps.
    + subst id. split.
      * intros [Hc [k Hk]]. f_equal. assert (k = s) as ->.
        { apply (Hu' k s c x); [done|by apply lookup_written|done]. }
        rewrite lookup_written in Hk by done. congruence.
      * intros [= <-]. split; [done|]. exists s. by apply lookup_written.
    + rewrite (reg_get_Some _ _ _ Hu). split; intros [Hc Hk]; (split; [done|]);
        apply (Hrest c Hc); try done; try (intros y [= <-]; congruence);
        intros y Hy; rewrite (Hsame y Hy x eq_refl); congruence.
  - destruct (t !! s) as [[o|]|] eqn:Ho; [destruct (id =? if_id o)%Z eqn:Hid; bool_hyps|..];
      try (rewrite (reg_get_Some _ _ _ Hu); split; intros [Hc Hk]; (split; [done|]);
           apply (Hrest c Hc); try done; naive_solver).
    split; [|done]. intros [Hc [k Hk]]. subst id.
    apply lookup_write_slot in Hk as [[_ [=]]|[Hne Hk]]. destruct Hne.
    symmetry. by apply (Hu k s c o).
Qed.

Lemma validate_unique depth t :
  validate depth t = Ok tt ↔
  unique_keys t ∧ ∀ s c, t !! s = Some (Some c) → InterfaceConfig.validate depth c = Ok tt.
Proof.
  induction t as [|[i|] t IH]; simpl.
  - split; [|done]. intros _. split; [intros a b x y Hx; by rewrite lookup_nil in Hx|].
    intros s c Hs. by destruct s.
  - destruct (InterfaceConfig.validate depth i) as [[]|e|] eqn:Hi; simpl;
      [|split; [done|]; intros [_ H]; specialize (H 0 i eq_refl); congruence..].
    destruct (existsb _ t) eqn:Hex.
    + split; [done|]. intros [Hu _]. apply existsb_exists in Hex as ([o|] & Hin & Hid); [|done].
      apply list_elem_of_In, list_elem_of_lookup in Hin as [k Hk]. simpl in Hid. bool_hyps.
      by specialize (Hu 0 (S k) i o eq_refl Hk (eq_sym Hid)).
    + assert (Hno : ∀ k o, t !! k = Some (Some o) → if_id o ≠ if_id i).
      { intros k o Ho Heq. assert (existsb (slot_is (λ other, (if_id other =? if_id i)%Z)) t = true);
          [|congruence].
        apply existsb_exists. exists (Some o). split; [|simpl; by apply Z.eqb_eq].
        by eapply list_elem_of_In, list_elem_of_lookup_2. }
      rewrite IH. split; intros [Hu Hall]; split.
      * intros [|a] [|b] x y Hx Hy Hk; simpl in *; [done|..].
        -- injection Hx as <-. by destruct (Hno b y Hy).
        -- injection Hy as <-. by destruct (Hno a x Hx).
        -- f_equal. by apply (Hu a b x y).
      * intros [|s] c Hs; simpl in Hs; [congruence|by apply (Hall s)].
      * intros a b x y Hx Hy Hk. specialize (Hu (S a) (S b) x y Hx Hy Hk). by injection Hu.
      * intros s c Hs. by apply (Hall (S s)).
  - rewrite IH. split; intros [Hu Hall]; split.
    + intros [|a] [|b] x y Hx Hy Hk; simpl in *; [done..|]. f_equal. by apply (Hu a b x y).
    + intros [|s] c Hs; simpl in Hs; [done|by apply (Hall s)].
    + intros a b x y Hx Hy Hk. specialize (Hu (S a) (S b) x y Hx Hy Hk). by injection Hu.
    + intros s c Hs. by apply (Hall (S s)).
Qed.
Lemma register_spec interface t :
  unique_keys t →
  match register interface t with
  | (Ok _, t') => get (if_id interface) t = None ∧ unique_keys t' ∧
      (∀ s c, at_slot s t = Some c → at_slot s t' = Some c) ∧
      ∀ k, get k t' =
             if (k =? if_id interface)%Z then Some interface else get k t
  | (Err e, t') => t' = t ∧
      ((e = DuplicateInterfaceId ∧ get (if_id interface) t ≠ None) ∨
       (e = InterfaceRegistryFull ∧ get (if_id interface) t = None ∧
        ∀ s, s < length t → at_slot s t ≠ None))
  | (Panic, _) => False
  end.
Proof.
  intros Hu. unfold register.
  destruct (get (if_id interface) t) as [o|] eqn:Hg.
  { split; [done|]. left. done. }
  destruct (position is_none t) as [s|] eqn:Hp.
  2:{ split; [done|]. right. split; [done|]. split; [done|]. intros s Hs.
      destruct (first_free_None _ Hp s Hs) as [e He]. unfold at_slot.
      by rewrite He. }
  pose proof (position_lt _ _ _ Hp) as Hlt. apply first_free_Some in Hp.
  rewrite reg_get_None in Hg.
  assert (Hu' : unique_keys (<[s := Some interface]> t)).
  { apply unique_keys_insert; [done|]. intros j x Hx Hk. by destruct (Hg j x Hx). }
  split; [done|]. split; [done|]. split.
  + intros s' c. unfold at_slot. destruct (decide (s' = s)) as [->|Hne].
    * by rewrite Hp.
    * by rewrite list_lookup_insert_ne.
  + intros k. apply (reg_get_write s (Some interface)); [done..|]. intros c Hc. congruence.
Qed.

Lemma unregister_spec id t :
  unique_keys t →
  match unregister id t with
  | (Ok c, t') => get id t = Some c ∧ unique_keys t' ∧
      ∀ k, get k t' =
             if (k =? id)%Z then None else get k t
  | (Err e, t') => e = UnknownInterface ∧ t' = t ∧ get id t = None
  | (Panic, _) => False
  end.
Proof.
  intros Hu. unfold unregister. rewrite slot_key.
  destruct (position _ t) as [s|] eqn:Hp.
  + pose proof (position_lt _ _ _ Hp) as Hlt.
    apply position_slot_Some in Hp as (c & Hc & Hk%key_is_true & _). rewrite Hc. simpl.
    split; [by apply reg_get_Some; eauto|]. split; [by apply unique_keys_delete|].
    intros k. rewrite reg_get_write by (done || by apply unique_keys_delete).
    rewrite Hc. simpl in Hk. by rewrite Hk.
  + split; [done|]. split; [done|]. apply reg_get_None. intros s c Hc.
    rewrite position_slot_None in Hp. by apply Hp, key_is_false in Hc.
Qed.

Lemma set_online_spec id online t :
  unique_keys t →
  match set_online id online t with
  | (Ok _, t') => unique_keys t' ∧
      ∀ k c, get k t' = Some c ↔
        ∃ c0, get k t = Some c0 ∧
              c = if (k =? id)%Z then with_online online c0 else c0
  | (Err e, t') => e = UnknownInterface ∧ t' = t ∧ get id t = None
  | (Panic, _) => False
  end.
Proof.
  intros Hu. unfold set_online.
  destruct (get id t) as [o|] eqn:Hg; [|done].
  assert (Hu' : unique_keys (get_mut id (with_online online) t))
    by (by apply unique_keys_update_first).
  split; [done|]. intros k c. rewrite (reg_get_Some _ _ _ Hu').
  setoid_rewrite (λ c, reg_get_Some k t c Hu).
  assert (Hpos : ∀ s x, t !! s = Some (Some x) →
    bool_decide (position (slot_is (λ i, (if_id i =? id)%Z)) t = Some s) = (if_id x =? id)%Z).
  { intros s x Hx. change (position _ t) with (slot id t).
    rewrite slot_key, id_is. apply eq_true_iff_eq.
    rewrite bool_decide_eq_true, key_is_true. split.
    - intros (y & Hy & Hk%key_is_true & _)%position_slot_Some. congruence.
    - intros Hk. destruct (position _ t) as [j|] eqn:Hp.
      + apply position_slot_Some in Hp as (y & Hy & Hky%key_is_true & _). f_equal.
        apply (Hu j s y x); congruence.
      + rewrite position_slot_None in Hp. by apply Hp, key_is_false in Hx. }
  unfold get_mut. setoid_rewrite lookup_update_first. split.
  + intros (Hk & s & Hs). destruct (t !! s) as [[x|]|] eqn:Hx; [|done..].
    rewrite (Hpos s x Hx) in Hs. exists x.
    destruct (if_id x =? id)%Z eqn:Hid; bool_hyps; injection Hs as <-; simpl in Hk; subst k.
    * split; [by eauto|]. by rewrite (proj2 (Z.eqb_eq _ _) Hid).
    * split; [by eauto|]. by rewrite (proj2 (Z.eqb_neq _ _) Hid).
  + intros (x & (Hk & s & Hx) & ->). subst k. split; [by destruct (if_id x =? id)%Z|].
    exists s. rewrite Hx, (Hpos s x Hx). by destruct (if_id x =? id)%Z.
Qed.
End RegistryFacts.

(** The interface registry. A registry validates exactly when every
    descriptor does and ids are unique. In a registry with unique ids,
    registering fails exactly for a known id or a full registry and then changes
    nothing; otherwise the new interface is found under its id, every occupied
    slot keeps its index and every other lookup is unchanged. Unregistering and
    changing the online flag act on exactly the named interface, and all three
    keep ids unique. *)
Lemma registry_contract depth t interface id online :
  (InterfaceRegistry.validate depth t = Ok tt ↔
   unique_keys t ∧ ∀ s c, t !! s = Some (Some c) → InterfaceConfig.validate depth c = Ok tt) ∧
  (unique_keys t →
   (match InterfaceRegistry.register interface t with
    | (Ok _, t') => InterfaceRegistry.get (if_id interface) t = None ∧ unique_keys t' ∧
        (∀ s c, InterfaceRegistry.at_slot s t = Some c → InterfaceRegistry.at_slot s t' = Some c) ∧
        ∀ k, InterfaceRegistry.get k t' =
               if (k =? if_id interface)%Z then Some interface else InterfaceRegistry.get k t
    | (Err e, t') => t' = t ∧
        ((e = DuplicateInterfaceId ∧ InterfaceRegistry.get (if_id interface) t ≠ None) ∨
         (e = InterfaceRegistryFull ∧ InterfaceRegistry.get (if_id interface) t = None ∧
          ∀ s, s < length t → InterfaceRegistry.at_slot s t ≠ None))
    | (Panic, _) => False
    end) ∧
   (match InterfaceRegistry.unregister id t with
    | (Ok c, t') => InterfaceRegistry.get id t = Some c ∧ unique_keys t' ∧
        ∀ k, InterfaceRegistry.get k t' =
               if (k =? id)%Z then None else InterfaceRegistry.get k t
    | (Err e, t') => e = UnknownInterface ∧ t' = t ∧ InterfaceRegistry.get id t = None
    | (Panic, _) => False
    end) ∧
   (match InterfaceRegistry.set_online id online t with
    | (Ok _, t') => unique_keys t' ∧
        ∀ k c, InterfaceRegistry.get k t' = Some c ↔
          ∃ c0, InterfaceRegistry.get k t = Some c0 ∧
                c = if (k =? id)%Z then InterfaceRegistry.with_online online c0 else c0
    | (Err e, t') => e = UnknownInterface ∧ t' = t ∧ InterfaceRegistry.get id t = None
    | (Panic, _) => False
    end)).
Proof.
  split; [apply RegistryFacts.validate_unique|]. intros Hu. split; [|split].
  - by apply RegistryFacts.register_spec.
  - by apply RegistryFacts.unregister_spec.
  - by apply RegistryFacts.set_online_spec.
Qed.

(** ** Witnesses *)

Lemma validated_interface_fits_witness :
  let c := {| if_id := 1; if_role := LoRa; if_mode := Gateway;
              if_direction := InterfaceDirection.BIDIRECTIONAL; if_mtu := MTU;
              if_bitrate_bps := 1000; if_ifac := Some {| ifac_key := zeros 64; ifac_size := 16 |};
              if_online := true; if_tx_queue_depth := 4; if_announce_cap_permille := 20;
              if_bulk_paths := false |} in
  InterfaceConfig.wire_mtu c ≤ LORA_SPLIT_FRAME_PAYLOAD_MAX ∧ InterfaceConfig.clear_mtu c = 492.
Proof.
  intros c. split; [|reflexivity].
  apply (validated_interface_fits c 8).
  - intros i [= <-]. vm_compute. split; congruence.
  - reflexivity.
  - reflexivity.
Defined.

Lemma registry_contract_witness :
  InterfaceRegistry.get 7 (snd (InterfaceRegistry.register (InterfaceConfig.lora 7 3000 4)
    InterfaceRegistry.new)) = Some (InterfaceConfig.lora 7 3000 4).
Proof.
  destruct (registry_contract 8 InterfaceRegistry.new (InterfaceConfig.lora 7 3000 4) 7 true)
    as [_ H].
  destruct (H (unique_keys_empty MAX_INTERFACES)) as [(_ & _ & _ & Hg) _].
  exact (Hg 7%Z).
Defined.
