(* ===== verification/Crypto.v ===== *)
(** Single-destination encryption (src/src/crypto.rs): PKCS7 padding, the
    authenticated Token, its in-place variants, ECIES and the ratchet key scan.

    Output slices are the state of the model and keep every byte the code leaves
    in them, on errors too. [token] and [open_token] are the pure reference
    definitions; the copying and the in-place routines are both proved to
    compute them. Wiping of temporaries and keys has no observable result and
    is left out. *)

From S2P Require Import Prelude Constants Primitives.

Definition TOKEN_OVERHEAD : nat := 16 + 32.
Definition ECIES_FIXED_OVERHEAD : nat := 32 + TOKEN_OVERHEAD.
Definition ECIES_PLAINTEXT_OFFSET : nat := 32 + 16.
Definition MAX_ECIES_PLAINTEXT : nat := (MDU - ECIES_FIXED_OVERHEAD) / 16 * 16 - 1.
Definition PADDED_MAX : nat := MAX_ECIES_PLAINTEXT + 1.

Inductive CryptoError := PlaintextTooLong | OutputTooSmall | AuthenticationFailed.

#[export] Instance CryptoError_eq_dec : EqDecision CryptoError.
Proof. solve_decision. Defined.

(** [usize::checked_add] on a 64-bit target. *)
Definition usize_add (a b : nat) : option nat :=
  if (Z.of_nat (a + b) <=? u64_max)%Z then Some (a + b) else None.

(** A call on [&mut buf[i..j]]. *)
Definition on_range {E A} (i j : nat) (c : st (list Z) E A) : st (list Z) E A := λ buf,
  let (r, part) := c (slice buf i j) in (r, splice i part buf).

Definition pad_len (n : nat) : nat := 16 - n `mod` 16.

Definition pkcs7_pad (plaintext : list Z) : st (list Z) CryptoError nat := λ out,
  let pad := pad_len (length plaintext) in
  let total := length plaintext + pad in
  if length out <? total then (Err OutputTooSmall, out)
  else (Ok total, splice (length plaintext) (replicate pad (Z.of_nat pad)) (splice 0 plaintext out)).

Definition pkcs7_unpad (data : list Z) : outcome CryptoError (list Z) :=
  if length data =? 0 then Err AuthenticationFailed
  else
    let* last := index data (length data - 1) in
    let pad := Z.to_nat last in
    if (pad =? 0) || (16 <? pad) || (length data <? pad) then Err AuthenticationFailed
    else
      let start := length data - pad in
      if existsb (λ b, negb (Z.to_nat b =? pad)) (drop start data) then Err AuthenticationFailed
      else Ok (take start data).

Section crypto.
Context `{HMAC : Hmac} `{AES : AesCbc} `{HKDF : HkdfSha256} `{X : X25519}.

Definition derive_token_key (shared salt : list Z) : list Z :=
  match hkdf_expand salt shared 64 with Some okm => okm | None => zeros 64 end.

Definition token_encrypt (PAD : nat) (plaintext key iv : list Z) : st (list Z) CryptoError nat := λ out,
  match pkcs7_pad plaintext (zeros PAD) with
  | (Err _, _) => (Err PlaintextTooLong, out)
  | (Panic, _) => (Panic, out)
  | (Ok plen, padded) =>
      let total := 16 + plen + 32 in
      if length out <? total then (Err OutputTooSmall, out)
      else
        let out := splice 0 iv out in
        let out := splice 16 (take plen padded) out in
        let out := splice 16 (cbc_encrypt (drop 32 key) iv (slice out 16 (16 + plen))) out in
        let tag := hmac_sha256 (take 32 key) (take (16 + plen) out) in
        (Ok total, splice (16 + plen) tag out)
  end.

Definition token_decrypt (PAD : nat) (data key : list Z) : st (list Z) CryptoError nat := λ out,
  if length data <? 16 + 16 + 32 then (Err AuthenticationFailed, out)
  else
    let split := length data - 32 in
    let signed_parts := take split data in
    let received := drop split data in
    if negb (hmac_sha256 (take 32 key) signed_parts =k received)
    then (Err AuthenticationFailed, out)
    else
      let iv := take 16 signed_parts in
      let ciphertext := drop 16 signed_parts in
      if (length ciphertext =? 0) || negb (length ciphertext `mod` 16 =? 0)
         || (PAD <? length ciphertext)
      then (Err AuthenticationFailed, out)
      else
        match pkcs7_unpad (cbc_decrypt (drop 32 key) iv ciphertext) with
        | Err e => (Err e, out)
        | Panic => (Panic, out)
        | Ok plaintext =>
            if length out <? length plaintext then (Err OutputTooSmall, out)
            else (Ok (length plaintext), splice 0 plaintext out)
        end.

Definition token_encrypt_in_place (key iv : list Z) (pt_len : nat) : st (list Z) CryptoError nat := λ buf,
  let pad := pad_len pt_len in
  match usize_add pt_len pad with
  | None => (Err PlaintextTooLong, buf)
  | Some padded =>
      match usize_add padded TOKEN_OVERHEAD with
      | None => (Err PlaintextTooLong, buf)
      | Some total =>
          if length buf <? total then (Err OutputTooSmall, buf)
          else
            let buf := splice 0 iv buf in
            let buf := splice (16 + pt_len) (replicate pad (Z.of_nat pad)) buf in
            let buf := splice 16 (cbc_encrypt (drop 32 key) iv (slice buf 16 (16 + padded))) buf in
            let tag := hmac_sha256 (take 32 key) (take (16 + padded) buf) in
            (Ok total, splice (16 + padded) tag buf)
      end
  end.

Definition token_decrypt_in_place (key : list Z) : st (list Z) CryptoError nat := λ buf,
  if length buf <? 16 + 16 + 32 then (Err AuthenticationFailed, buf)
  else
    let split := length buf - 32 in
    if negb (hmac_sha256 (take 32 key) (take split buf) =k drop split buf)
    then (Err AuthenticationFailed, buf)
    else
      let ct_len := split - 16 in
      if negb (ct_len `mod` 16 =? 0) then (Err AuthenticationFailed, buf)
      else
        let iv := take 16 buf in
        let buf := splice 16 (cbc_decrypt (drop 32 key) iv (slice buf 16 split)) buf in
        match pkcs7_unpad (slice buf 16 split) with
        | Ok pt => (Ok (length pt), buf)
        | Err e => (Err e, splice 16 (zeros (split - 16)) buf)
        | Panic => (Panic, buf)
        end.

Definition ecies_encrypt (plaintext target_x25519_pub recipient_identity_hash ephemeral_priv iv : list Z)
  : st (list Z) CryptoError nat := λ out,
  if MAX_ECIES_PLAINTEXT <? length plaintext then (Err PlaintextTooLong, out)
  else
    let ephemeral_pub := x_public ephemeral_priv in
    let shared := x_shared ephemeral_priv target_x25519_pub in
    let token_key := derive_token_key shared recipient_identity_hash in
    if (length out =? 0) || (length out <? 32) then (Err OutputTooSmall, out)
    else
      let out := splice 0 ephemeral_pub out in
      match on_range 32 (length out) (token_encrypt PADDED_MAX plaintext token_key iv) out with
      | (Ok token_len, out) => (Ok (32 + token_len), out)
      | (Err e, out) => (Err e, out)
      | (Panic, out) => (Panic, out)
      end.

Definition ecies_ciphertext_len (plaintext_len : nat) : outcome CryptoError nat :=
  ok_or (n ← usize_add plaintext_len (pad_len plaintext_len); usize_add n ECIES_FIXED_OVERHEAD)
        PlaintextTooLong.

Definition ecies_encrypt_in_place
    (target_x25519_pub recipient_identity_hash ephemeral_priv iv : list Z) (plaintext_len : nat)
  : st (list Z) CryptoError nat := λ buf,
  match ecies_ciphertext_len plaintext_len with
  | Err e => (Err e, buf)
  | Panic => (Panic, buf)
  | Ok total =>
      if length buf <? total then (Err OutputTooSmall, buf)
      else
        let ephemeral_pub := x_public ephemeral_priv in
        let shared := x_shared ephemeral_priv target_x25519_pub in
        let token_key := derive_token_key shared recipient_identity_hash in
        let buf := splice 0 ephemeral_pub buf in
        let (r, buf) := on_range 32 total (token_encrypt_in_place token_key iv plaintext_len) buf in
        (omap_ok (λ n, 32 + n) r, buf)
  end.

Definition ecies_decrypt_in_place (my_x25519_priv my_identity_hash : list Z)
  : st (list Z) CryptoError nat := λ buf,
  if (length buf <? ECIES_FIXED_OVERHEAD + 16)
     || negb ((length buf - ECIES_FIXED_OVERHEAD) `mod` 16 =? 0)
  then (Err AuthenticationFailed, buf)
  else
    let ephemeral_pub := take 32 buf in
    let shared := x_shared my_x25519_priv ephemeral_pub in
    let token_key := derive_token_key shared my_identity_hash in
    on_range 32 (length buf) (token_decrypt_in_place token_key) buf.

Definition ecies_decrypt (data my_x25519_priv my_identity_hash : list Z)
  : st (list Z) CryptoError nat := λ out,
  if length data <? 32 + 16 + 16 + 32 then (Err AuthenticationFailed, out)
  else
    let ephemeral_pub := take 32 data in
    let token := drop 32 data in
    let shared := x_shared my_x25519_priv ephemeral_pub in
    let token_key := derive_token_key shared my_identity_hash in
    token_decrypt PADDED_MAX token token_key out.

(** The loop over [ratchet_privs.iter().enumerate()] from [index]. *)
Fixpoint try_ratchets (index : nat) (data : list Z) (ratchet_privs : list (list Z))
    (my_identity_hash : list Z) (out : list Z) : option (nat * nat) * list Z :=
  match ratchet_privs with
  | [] => (None, out)
  | ratchet_priv :: rest =>
      match ecies_decrypt data ratchet_priv my_identity_hash out with
      | (Ok len, out') => (Some (len, index), out')
      | (_, out') => try_ratchets (S index) data rest my_identity_hash out'
      end
  end.

Definition ecies_decrypt_with_ratchets (data : list Z) (ratchet_privs : list (list Z))
    (my_x25519_priv my_identity_hash : list Z) : st (list Z) CryptoError (nat * option nat) := λ out,
  match try_ratchets 0 data ratchet_privs my_identity_hash out with
  | (Some (len, index), out') => (Ok (len, Some index), out')
  | (None, out') =>
      let (r, out'') := ecies_decrypt data my_x25519_priv my_identity_hash out' in
      (omap_ok (λ len, (len, None)) r, out'')
  end.

Definition ecies_decrypt_with_ratchet_hint (data : list Z) (ratchet_privs : list (list Z))
    (my_x25519_priv my_identity_hash : list Z) (ratchet_index : option nat)
  : st (list Z) CryptoError nat := λ out,
  match ratchet_index with
  | Some index =>
      match ratchet_privs !! index with
      | None => (Err AuthenticationFailed, out)
      | Some ratchet => ecies_decrypt data ratchet my_identity_hash out
      end
  | None => ecies_decrypt data my_x25519_priv my_identity_hash out
  end.

(** * Reference definitions *)

Definition pad16 (p : list Z) : list Z :=
  p ++ replicate (pad_len (length p)) (Z.of_nat (pad_len (length p))).

(** The Token of a plaintext. *)
Definition token (key iv p : list Z) : list Z :=
  let ct := cbc_encrypt (drop 32 key) iv (pad16 p) in
  iv ++ ct ++ hmac_sha256 (take 32 key) (iv ++ ct).

(** Opening a Token of any size. *)
Definition open_token (key data : list Z) : outcome CryptoError (list Z) :=
  if length data <? 64 then Err AuthenticationFailed
  else
    let signed := take (length data - 32) data in
    if negb (hmac_sha256 (take 32 key) signed =k drop (length data - 32) data)
    then Err AuthenticationFailed
    else if negb ((length data - 48) `mod` 16 =? 0) then Err AuthenticationFailed
    else pkcs7_unpad (cbc_decrypt (drop 32 key) (take 16 data) (drop 16 signed)).

(** The ECIES blob of a plaintext. *)
Definition ecies_blob (p target salt eph iv : list Z) : list Z :=
  x_public eph ++ token (derive_token_key (x_shared eph target) salt) iv p.

End crypto.

(** * Padding *)

Lemma pad_len_range n : 1 ≤ pad_len n ≤ 16.
Proof. unfold pad_len. pose proof (Nat.mod_upper_bound n 16). lia. Qed.

Lemma pad_len_aligned n : (n + pad_len n) `mod` 16 = 0.
Proof.
  unfold pad_len. pose proof (Nat.mod_upper_bound n 16 ltac:(lia)).
  rewrite (Nat.div_mod_eq n 16) at 1.
  replace (16 * (n `div` 16) + n `mod` 16 + (16 - n `mod` 16)) with ((n `div` 16 + 1) * 16) by lia.
  apply Nat.Div0.mod_mul.
Qed.

Lemma length_pad16 p : length (pad16 p) = length p + pad_len (length p).
Proof. unfold pad16. by rewrite length_app, length_replicate. Qed.

Lemma pkcs7_pad_spec p out :
  pkcs7_pad p out =
  if length out <? length p + pad_len (length p) then (Err OutputTooSmall, out)
  else (Ok (length p + pad_len (length p)), pad16 p ++ drop (length (pad16 p)) out).
Proof.
  unfold pkcs7_pad. case_if; [done|]. f_equal.
  rewrite splice_0, splice_app by done. rewrite length_replicate, drop_drop.
  rewrite length_pad16. unfold pad16. by rewrite <- app_assoc.
Qed.

Lemma pkcs7_unpad_pad16 p : pkcs7_unpad (pad16 p) = Ok p.
Proof.
  pose proof (pad_len_range (length p)) as Hr. unfold pkcs7_unpad. rewrite length_pad16.
  rewrite (proj2 (Nat.eqb_neq _ _)) by lia.
  set (k := pad_len (length p)) in *.
  rewrite (index_Ok _ _ (Z.of_nat k)).
  2:{ unfold pad16. rewrite lookup_app_r by lia. apply lookup_replicate. fold k. lia. }
  cbn [obind]. rewrite Nat2Z.id.
  rewrite (proj2 (Nat.eqb_neq k 0)), (proj2 (Nat.ltb_ge 16 k)), (proj2 (Nat.ltb_ge _ k)) by lia.
  cbn [orb]. replace (length p + k - k) with (length p) by lia. unfold pad16.
  rewrite drop_app_length, take_app_length. fold k.
  destruct (existsb _ _) eqn:Hex; [|done].
  apply existsb_exists in Hex as (b & Hin & Hb). apply list_elem_of_In, elem_of_replicate in Hin as [-> _].
  by rewrite Nat2Z.id, Nat.eqb_refl in Hb.
Qed.

(** Only correct padding is stripped. *)
Lemma pkcs7_unpad_Ok d p :
  pkcs7_unpad d = Ok p → bytes d → length d `mod` 16 = 0 → d = pad16 p.
Proof.
  unfold pkcs7_unpad. case_if; [done|]. intros H Hb Hal. apply obind_Ok_inv in H as (x & Hx & H).
  case_if; [done|]. case_if; [done|]. apply Ok_inj in H.
  set (k := Z.to_nat x) in *. unfold index in Hx.
  destruct (d !! (length d - 1)) as [x'|] eqn:Hl; [|done]. injection Hx as ->.
  assert (Hxb : is_byte x) by (by eapply bytes_lookup). unfold is_byte in Hxb.
  assert (Hp : length p = length d - k) by (subst p; rewrite length_take; lia).
  assert (Hk : pad_len (length p) = k).
  { assert (length d = 16 * (length d `div` 16)) as Hd by (rewrite (Nat.div_mod_eq (length d) 16) at 1; lia).
    unfold pad_len. rewrite Hp.
    assert ((length d - k) `mod` 16 = (16 - k) `mod` 16) as ->.
    { rewrite Hd. replace (16 * (length d `div` 16) - k) with (16 - k + (length d `div` 16 - 1) * 16) by lia.
      apply Nat.Div0.mod_add. }
    destruct (decide (k = 16)) as [->|]; [done|]. rewrite Nat.mod_small by lia. lia. }
  unfold pad16. rewrite Hk, <- (take_drop (length d - k) d) at 1. rewrite H. f_equal.
  apply (list_eq_same_length _ _ k); [apply length_replicate|rewrite length_drop; lia|].
  intros i a b Hi Ha. rewrite lookup_replicate. intros [-> _].
  apply list_elem_of_lookup_2 in Ha as Hin.
  assert (Hbad : negb (Z.to_nat a =? k) = false).
  { destruct (negb (Z.to_nat a =? k)) eqn:Hn; [|done].
    assert (existsb (λ b, negb (Z.to_nat b =? k)) (drop (length d - k) d) = true); [|congruence].
    apply existsb_exists. exists a. split; [by apply list_elem_of_In|done]. }
  bool_hyps. assert (is_byte a) as [Ha0 _] by (by eapply bytes_lookup, Ha; apply bytes_drop).
  lia.
Qed.

Lemma pkcs7_unpad_total d : pkcs7_unpad d ≠ Panic.
Proof.
  unfold pkcs7_unpad. case_if; [done|].
  destruct (index_lt (E := CryptoError) d (length d - 1)) as (x & _ & ->); [lia|]. cbn [obind].
  by repeat case_if.
Qed.

Lemma unpad_error d e : pkcs7_unpad d = Err e → e = AuthenticationFailed.
Proof.
  unfold pkcs7_unpad. case_if; [congruence|].
  destruct (index _ _) as [x|e'|] eqn:Hx; [|by unfold index, or_panic in Hx; case_match|done].
  cbn [obind]. repeat case_if; congruence.
Qed.

(** * The Token routines compute the reference *)

Section token_lemmas.
Context `{HMAC : Hmac} `{AES : AesCbc}.

Lemma length_token key iv p :
  length iv = 16 → length (token key iv p) = length p + pad_len (length p) + 48.
Proof.
  intros Hiv. unfold token. rewrite !length_app, cbc_encrypt_length, hmac_length, length_pad16. lia.
Qed.

Lemma token_encrypt_spec PAD p key iv out :
  length iv = 16 →
  token_encrypt PAD p key iv out =
  if PAD <? length p + pad_len (length p) then (Err PlaintextTooLong, out)
  else if length out <? length p + pad_len (length p) + 48 then (Err OutputTooSmall, out)
  else (Ok (length (token key iv p)), token key iv p ++ drop (length (token key iv p)) out).
Proof.
  intros Hiv. unfold token_encrypt. rewrite pkcs7_pad_spec. unfold zeros at 1.
  rewrite length_replicate. destruct (PAD <? _) eqn:HP; [done|].
  rewrite (length_token key iv p Hiv).
  replace (16 + (length p + pad_len (length p)) + 32) with (length p + pad_len (length p) + 48) by lia.
  destruct (length out <? _) eqn:Ho; [done|]. f_equal. bool_hyps.
  rewrite <- length_pad16 in *. set (n := length (pad16 p)) in *.
  assert (Htk : take n (pad16 p ++ drop n (zeros PAD)) = pad16 p) by apply take_app_length.
  rewrite Htk, splice_0, (splice_app 16) by done.
  set (r := drop (length (pad16 p)) (drop (length iv) out)).
  assert (Hs : slice (iv ++ pad16 p ++ r) 16 (16 + n) = pad16 p) by (apply slice_app_exact; lia).
  rewrite Hs, (splice_app 16), cbc_encrypt_length, drop_app_length by done.
  set (ct := cbc_encrypt (drop 32 key) iv (pad16 p)).
  assert (Hct : length ct = n) by apply cbc_encrypt_length.
  assert (Ht : take (16 + n) (iv ++ ct ++ r) = iv ++ ct).
  { rewrite app_assoc, take_app_le by (rewrite length_app; lia). apply take_ge.
    rewrite length_app. lia. }
  rewrite Ht, app_assoc, (splice_app (16 + n)) by (rewrite length_app; lia).
  unfold token. fold ct. rewrite hmac_length, <- !app_assoc. do 3 f_equal.
  unfold r. rewrite !drop_drop. f_equal. lia.
Qed.

Lemma open_token_token key iv p :
  length iv = 16 → open_token key (token key iv p) = Ok p.
Proof.
  intros Hiv. pose proof (pad_len_range (length p)) as Hr.
  unfold open_token. rewrite (length_token key iv p Hiv).
  rewrite (proj2 (Nat.ltb_ge _ _)) by (pose proof (pad_len_aligned (length p)) as Ha;
    destruct (decide (16 ≤ length p + pad_len (length p))); [lia|];
    rewrite Nat.mod_small in Ha by lia; lia).
  unfold token. set (ct := cbc_encrypt (drop 32 key) iv (pad16 p)).
  assert (Hct : length ct = length p + pad_len (length p))
    by (unfold ct; by rewrite cbc_encrypt_length, length_pad16).
  replace (length p + pad_len (length p) + 48 - 32) with (length (iv ++ ct))
    by (rewrite length_app; lia).
  rewrite app_assoc, take_app_length, drop_app_length, bool_decide_eq_true_2 by done. cbn [negb].
  replace (length p + pad_len (length p) + 48 - 48) with (length p + pad_len (length p)) by lia.
  rewrite pad_len_aligned. cbn [Nat.eqb negb].
  rewrite take_app_le, take_app_le, take_ge by (rewrite ?length_app; lia).
  rewrite (drop_app_exact iv ct 16) by done. unfold ct.
  rewrite cbc_decrypt_encrypt by (rewrite length_pad16; apply pad_len_aligned).
  apply pkcs7_unpad_pad16.
Qed.

Lemma token_decrypt_spec PAD data key out :
  token_decrypt PAD data key out =
  match open_token key data with
  | Ok p => if PAD <? length data - 48 then (Err AuthenticationFailed, out)
            else if length out <? length p then (Err OutputTooSmall, out)
            else (Ok (length p), p ++ drop (length p) out)
  | _ => (Err AuthenticationFailed, out)
  end.
Proof.
  unfold token_decrypt, open_token. change (16 + 16 + 32) with 64.
  destruct (length data <? 64) eqn:Hl; [done|]. bool_hyps.
  destruct (bool_decide _); cbn [negb]; [|done].
  assert (Hs : length (drop 16 (take (length data - 32) data)) = length data - 48)
    by (rewrite length_drop, length_take; lia).
  rewrite Hs. rewrite (proj2 (Nat.eqb_neq (length data - 48) 0)) by lia. cbn [orb].
  destruct (_ `mod` 16 =? 0); cbn [negb orb]; [|done].
  rewrite take_take, Nat.min_l by lia.
  destruct (PAD <? _) eqn:HP.
  - destruct (pkcs7_unpad _) as [p|e|] eqn:Hu; [done..|]. by apply pkcs7_unpad_total in Hu.
  - destruct (pkcs7_unpad _) as [p|e|] eqn:Hu; [done| |by apply pkcs7_unpad_total in Hu].
    by apply unpad_error in Hu as ->.
Qed.

(** The in-place routines, on a buffer with the plaintext at offset 16. *)
Lemma token_encrypt_in_place_spec p key iv pre rest :
  length iv = 16 → length pre = 16 → (Z.of_nat (length p) + 64 ≤ u64_max)%Z →
  token_encrypt_in_place key iv (length p) (pre ++ p ++ rest) =
  if length (pre ++ p ++ rest) <? length (token key iv p)
  then (Err OutputTooSmall, pre ++ p ++ rest)
  else (Ok (length (token key iv p)),
        token key iv p ++ drop (length (token key iv p)) (pre ++ p ++ rest)).
Proof.
  intros Hiv Hpre Hfit. pose proof (pad_len_range (length p)) as Hr.
  unfold token_encrypt_in_place, usize_add, TOKEN_OVERHEAD.
  rewrite (proj2 (Z.leb_le _ _)) by lia. rewrite (proj2 (Z.leb_le _ _)) by lia.
  rewrite (length_token key iv p Hiv). change (16 + 32) with 48.
  destruct (_ <? _) eqn:Hl; [done|]. f_equal. bool_hyps. rewrite !length_app in Hl.
  set (pad := pad_len (length p)) in *.
  rewrite splice_0, Hiv, (drop_app_exact pre) by done.
  rewrite app_assoc, (splice_app (16 + length p)) by (rewrite length_app; lia).
  rewrite length_replicate, <- app_assoc.
  assert (Hpad : pad16 p = p ++ replicate pad (Z.of_nat pad)) by done.
  rewrite (app_assoc p), <- Hpad.
  set (r := drop pad rest). assert (Hn : length (pad16 p) = length p + pad) by apply length_pad16.
  assert (Hs : slice (iv ++ pad16 p ++ r) 16 (16 + (length p + pad)) = pad16 p)
    by (apply slice_app_exact; lia).
  rewrite Hs, (splice_app 16), cbc_encrypt_length, drop_app_length by done.
  set (ct := cbc_encrypt (drop 32 key) iv (pad16 p)).
  assert (Hct : length ct = length p + pad) by (unfold ct; by rewrite cbc_encrypt_length).
  assert (Ht : take (16 + (length p + pad)) (iv ++ ct ++ r) = iv ++ ct).
  { rewrite app_assoc, take_app_le by (rewrite length_app; lia). apply take_ge.
    rewrite length_app. lia. }
  rewrite Ht, app_assoc, (splice_app (16 + (length p + pad))) by (rewrite length_app; lia).
  unfold token. fold ct. rewrite hmac_length, <- !app_assoc. do 3 f_equal.
  unfold r. rewrite drop_drop, app_assoc, drop_app_ge by (rewrite length_app; lia).
  f_equal. rewrite length_app. lia.
Qed.

Lemma take_unpadded d p : pkcs7_unpad d = Ok p → take (length p) d = p ∧ length p ≤ length d.
Proof.
  unfold pkcs7_unpad. case_if; [done|]. intros H. apply obind_Ok_inv in H as (x & _ & H).
  case_if; [done|]. case_if; [done|]. apply Ok_inj in H as <-.
  rewrite length_take, Nat.min_l by lia. split; [done|lia].
Qed.

Lemma token_decrypt_in_place_spec key buf :
  ∃ buf', token_decrypt_in_place key buf =
    (match open_token key buf with Ok p => Ok (length p) | _ => Err AuthenticationFailed end, buf') ∧
  length buf' = length buf ∧
  (∀ p, open_token key buf = Ok p → slice buf' 16 (16 + length p) = p) ∧
  (hmac_sha256 (take 32 key) (take (length buf - 32) buf) ≠ drop (length buf - 32) buf → buf' = buf).
Proof.
  unfold token_decrypt_in_place, open_token. change (16 + 16 + 32) with 64.
  destruct (length buf <? 64) eqn:Hl; [by exists buf|]. bool_hyps.
  destruct (bool_decide _) eqn:Hmac; cbn [negb]; [|by exists buf].
  replace (length buf - 32 - 16) with (length buf - 48) by lia.
  destruct (_ `mod` 16 =? 0) eqn:Hm; cbn [negb]; [|by exists buf].
  apply bool_decide_eq_true in Hmac.
  set (ct := slice buf 16 (length buf - 32)).
  assert (Hct : length ct = length buf - 48) by (unfold ct; rewrite length_slice by lia; lia).
  assert (Hds : drop 16 (take (length buf - 32) buf) = ct).
  { unfold ct, slice. rewrite skipn_firstn_comm. done. }
  rewrite Hds. set (d := cbc_decrypt (drop 32 key) (take 16 buf) ct).
  assert (Hd : length d = length buf - 48) by (unfold d; by rewrite cbc_decrypt_length).
  set (buf1 := splice 16 d buf).
  assert (Hb1 : length buf1 = length buf) by (apply length_splice; lia).
  assert (Hsl : slice buf1 16 (length buf - 32) = d).
  { unfold buf1. replace (length buf - 32) with (16 + length d) by lia. apply slice_splice. lia. }
  rewrite Hsl. destruct (pkcs7_unpad d) as [p|e|] eqn:Hu.
  - exists buf1. split; [done|]. split; [done|]. split; [|done]. intros q [= <-].
    destruct (take_unpadded d p Hu) as [Htk Hle]. rewrite <- Htk at 2. rewrite <- Hsl.
    unfold slice. rewrite take_take. f_equal. lia.
  - apply unpad_error in Hu as ->. eexists. split; [done|]. split; [|done].
    rewrite length_splice; unfold zeros; rewrite ?length_replicate; lia.
  - by apply pkcs7_unpad_total in Hu.
Qed.
End token_lemmas.

(** * ECIES *)

Section ecies_lemmas.
Context `{HMAC : Hmac} `{AES : AesCbc} `{HKDF : HkdfSha256} `{X : X25519}.

Lemma max_plaintext_eq : MAX_ECIES_PLAINTEXT = 383 ∧ PADDED_MAX = 384.
Proof. done. Qed.

Lemma padded_fits n : n ≤ MAX_ECIES_PLAINTEXT → n + pad_len n ≤ PADDED_MAX.
Proof.
  destruct max_plaintext_eq as [-> ->]. intros Hn. pose proof (pad_len_aligned n) as Ha.
  pose proof (pad_len_range n). rewrite <- Nat.Div0.div_exact in Ha.
  assert ((n + pad_len n) `div` 16 < 25) by (apply Nat.Div0.div_lt_upper_bound; lia). lia.
Qed.

Lemma length_ecies_blob p target salt eph iv :
  length iv = 16 →
  length (ecies_blob p target salt eph iv) = length p + pad_len (length p) + 80.
Proof. intros Hiv. unfold ecies_blob. rewrite length_app, x_public_length, length_token; lia. Qed.

(** Working on the rest of a buffer behind a written prefix. *)
Lemma on_range_suffix {E A} (c : st (list Z) E A) a d n :
  length a = n →
  on_range n (length (a ++ d)) c (a ++ d) =
  (let (r, d') := c d in (r, a ++ d' ++ drop (length d') d)).
Proof.
  intros Hn. unfold on_range. rewrite slice_to_end, (drop_app_exact a) by done.
  destruct (c d) as [r d']. by rewrite splice_app.
Qed.

Lemma ecies_encrypt_spec p target salt eph iv out :
  length iv = 16 →
  ∃ out', ecies_encrypt p target salt eph iv out =
    (if MAX_ECIES_PLAINTEXT <? length p then Err PlaintextTooLong
     else if length out <? length (ecies_blob p target salt eph iv) then Err OutputTooSmall
     else Ok (length (ecies_blob p target salt eph iv)), out') ∧
  length out' = length out ∧
  (length p ≤ MAX_ECIES_PLAINTEXT → length (ecies_blob p target salt eph iv) ≤ length out →
   out' = ecies_blob p target salt eph iv ++ drop (length (ecies_blob p target salt eph iv)) out).
Proof.
  intros Hiv. unfold ecies_encrypt. rewrite (length_ecies_blob p target salt eph iv Hiv).
  destruct (MAX_ECIES_PLAINTEXT <? length p) eqn:Hm; [exists out; bool_hyps; by repeat split; lia|].
  bool_hyps. pose proof (padded_fits (length p) Hm) as Hpad.
  destruct ((length out =? 0) || (length out <? 32)) eqn:Hs.
  { exists out. assert (length out < 32) by (apply orb_true_iff in Hs as [?|?]; bool_hyps; lia).
    rewrite (proj2 (Nat.ltb_lt _ _)) by lia. repeat split; lia. }
  bool_hyps. rewrite splice_0, x_public_length.
  rewrite on_range_suffix by apply x_public_length.
  set (key := derive_token_key (x_shared eph target) salt). set (d := drop 32 out).
  assert (Hd : length d = length out - 32) by apply length_drop.
  rewrite (token_encrypt_spec PADDED_MAX p key iv d Hiv).
  rewrite (proj2 (Nat.ltb_ge PADDED_MAX _)) by done.
  destruct (length d <? _) eqn:Ho; bool_hyps.
  - rewrite (proj2 (Nat.ltb_lt (length out) _)) by lia. eexists. split; [done|].
    rewrite drop_ge, app_nil_r, length_app, x_public_length by done. split; lia.
  - rewrite (proj2 (Nat.ltb_ge (length out) _)) by lia.
    rewrite (length_token key iv p Hiv).
    set (n := length p + pad_len (length p)) in *.
    assert (Hlen : length (token key iv p ++ drop (n + 48) d) = length d).
    { rewrite length_app, length_token, length_drop by done. fold n. lia. }
    rewrite Hlen, (drop_ge d (length d)), app_nil_r by lia.
    replace (n + 80) with (32 + (n + 48)) by lia. eexists. split; [reflexivity|].
    rewrite (length_app (x_public eph)), x_public_length, Hlen. split; [lia|]. intros _ _.
    unfold ecies_blob. fold key. rewrite <- app_assoc. do 2 f_equal.
    unfold d. by rewrite drop_drop.
Qed.

Lemma ecies_decrypt_open data priv salt out :
  96 ≤ length data →
  ecies_decrypt data priv salt out =
  token_decrypt PADDED_MAX (drop 32 data) (derive_token_key (x_shared priv (take 32 data)) salt) out.
Proof. intros Hl. unfold ecies_decrypt. rewrite (proj2 (Nat.ltb_ge _ _)) by (simpl; lia). done. Qed.

Lemma ecies_decrypt_blob p priv salt eph iv out :
  length iv = 16 → length p ≤ MAX_ECIES_PLAINTEXT → length p ≤ length out →
  ecies_decrypt (ecies_blob p (x_public priv) salt eph iv) priv salt out =
  (Ok (length p), p ++ drop (length p) out).
Proof.
  intros Hiv Hmax Hout. pose proof (pad_len_range (length p)).
  pose proof (length_ecies_blob p (x_public priv) salt eph iv Hiv) as Hlb.
  pose proof (padded_fits (length p) Hmax) as Hpad.
  assert (Hge : 16 ≤ length p + pad_len (length p)).
  { pose proof (pad_len_aligned (length p)) as Ha.
    destruct (decide (16 ≤ length p + pad_len (length p))); [done|].
    rewrite Nat.mod_small in Ha by lia. lia. }
  rewrite ecies_decrypt_open by lia. unfold ecies_blob.
  rewrite take_app_le, take_ge, (drop_app_exact (x_public eph)) by (rewrite ?x_public_length; lia).
  rewrite <- (x_shared_comm eph priv), token_decrypt_spec, open_token_token by done.
  rewrite length_token by done.
  rewrite (proj2 (Nat.ltb_ge PADDED_MAX _)), (proj2 (Nat.ltb_ge (length out) _)) by lia. done.
Qed.

(** An error leaves the output buffer alone, a success keeps its length. *)
Lemma ecies_decrypt_frame data priv salt out r out' :
  ecies_decrypt data priv salt out = (r, out') →
  length out' = length out ∧ match r with Ok n => n ≤ length out | _ => out' = out end ∧ r ≠ Panic.
Proof.
  unfold ecies_decrypt. case_if; [intros [= <- <-]; done|]. rewrite token_decrypt_spec.
  destruct (open_token _ _) as [p|e|]; [|intros [= <- <-]; done..].
  case_if; [intros [= <- <-]; done|]. case_if; [intros [= <- <-]; done|].
  intros [= <- <-]. rewrite length_app, length_drop. repeat split; (done || lia).
Qed.

Lemma ecies_len_ok n :
  (Z.of_nat n + 96 ≤ u64_max)%Z → ecies_ciphertext_len n = Ok (n + pad_len n + 80).
Proof.
  intros Hn. pose proof (pad_len_range n). unfold ecies_ciphertext_len, usize_add.
  rewrite (proj2 (Z.leb_le _ _)) by lia. cbn [mbind option_bind].
  rewrite (proj2 (Z.leb_le _ _)) by (unfold ECIES_FIXED_OVERHEAD, TOKEN_OVERHEAD; lia). done.
Qed.

Lemma ecies_encrypt_in_place_spec p target salt eph iv pre rest :
  length iv = 16 → length pre = ECIES_PLAINTEXT_OFFSET → (Z.of_nat (length p) + 96 ≤ u64_max)%Z →
  ecies_encrypt_in_place target salt eph iv (length p) (pre ++ p ++ rest) =
  if length (pre ++ p ++ rest) <? length (ecies_blob p target salt eph iv)
  then (Err OutputTooSmall, pre ++ p ++ rest)
  else (Ok (length (ecies_blob p target salt eph iv)),
        ecies_blob p target salt eph iv
          ++ drop (length (ecies_blob p target salt eph iv)) (pre ++ p ++ rest)).
Proof.
  intros Hiv Hpre Hfit. unfold ecies_encrypt_in_place. rewrite ecies_len_ok by done.
  rewrite (length_ecies_blob p target salt eph iv Hiv).
  set (total := length p + pad_len (length p) + 80).
  destruct (_ <? total) eqn:Hl; [done|]. bool_hyps. rewrite !length_app in Hl.
  unfold ECIES_PLAINTEXT_OFFSET in Hpre.
  set (key := derive_token_key (x_shared eph target) salt).
  rewrite <- (take_drop 32 pre), <- app_assoc at 1.
  rewrite splice_0, x_public_length, (drop_app_exact (take 32 pre)) by (rewrite length_take; lia).
  set (pre2 := drop 32 pre). assert (Hpre2 : length pre2 = 16) by (unfold pre2; rewrite length_drop; lia).
  set (k := total - 48 - length p).
  assert (Hpart : slice (x_public eph ++ pre2 ++ p ++ rest) 32 total = pre2 ++ p ++ take k rest).
  { unfold slice. rewrite (drop_app_exact (x_public eph)) by apply x_public_length.
    rewrite (take_app_ge pre2) by lia. rewrite (take_app_ge p) by lia. do 3 f_equal. unfold k. lia. }
  pose proof (length_token key iv p Hiv) as Hlt.
  unfold on_range. rewrite Hpart, token_encrypt_in_place_spec by (done || lia).
  assert (Hlen : length (pre2 ++ p ++ take k rest) = length (token key iv p)).
  { rewrite !length_app, length_take, Hlt. unfold k, total. lia. }
  rewrite Hlen, Nat.ltb_irrefl, (drop_ge (pre2 ++ _)), app_nil_r by lia.
  cbn [omap_ok obind]. rewrite Hlt. f_equal; [f_equal; unfold total; lia|].
  rewrite (splice_app 32) by apply x_public_length. unfold ecies_blob. fold key.
  rewrite <- app_assoc. do 2 f_equal. rewrite Hlt. unfold pre2.
  replace (drop 32 pre ++ p ++ rest) with (drop 32 (pre ++ p ++ rest)) by (rewrite drop_app_le by lia; done).
  rewrite drop_drop. f_equal. unfold total. lia.
Qed.

Lemma ecies_decrypt_in_place_blob p priv salt eph iv :
  length iv = 16 →
  ∃ buf', ecies_decrypt_in_place priv salt (ecies_blob p (x_public priv) salt eph iv)
            = (Ok (length p), buf') ∧
    slice buf' ECIES_PLAINTEXT_OFFSET (ECIES_PLAINTEXT_OFFSET + length p) = p.
Proof.
  intros Hiv. pose proof (length_ecies_blob p (x_public priv) salt eph iv Hiv) as Hl.
  pose proof (pad_len_aligned (length p)) as Ha. pose proof (pad_len_range (length p)).
  assert (16 ≤ length p + pad_len (length p)).
  { destruct (decide (16 ≤ length p + pad_len (length p))); [done|].
    rewrite Nat.mod_small in Ha by lia. lia. }
  unfold ecies_decrypt_in_place, ECIES_FIXED_OVERHEAD, TOKEN_OVERHEAD, ECIES_PLAINTEXT_OFFSET.
  rewrite (proj2 (Nat.ltb_ge _ _)) by lia.
  replace (length (ecies_blob p (x_public priv) salt eph iv) - (32 + (16 + 32)))
    with (length p + pad_len (length p)) by lia.
  rewrite Ha. cbn [Nat.eqb negb orb]. unfold ecies_blob.
  rewrite on_range_suffix by apply x_public_length.
  rewrite take_app_le, take_ge by (rewrite x_public_length; lia).
  rewrite <- (x_shared_comm eph priv).
  set (key := derive_token_key _ salt).
  destruct (token_decrypt_in_place_spec key (token key iv p)) as (b & Hb & Hbl & Hok & _).
  rewrite Hb, open_token_token in * by done. eexists. split; [done|].
  rewrite slice_app_r by (rewrite x_public_length; lia). rewrite x_public_length.
  rewrite slice_app_l by (rewrite ?Hbl, ?length_token; lia).
  replace (32 + 16 - 32) with 16 by lia. replace (32 + 16 + length p - 32) with (16 + length p) by lia.
  by apply Hok.
Qed.
End ecies_lemmas.

(** * Properties *)

Section properties.
Context `{HMAC : Hmac} `{AES : AesCbc} `{HKDF : HkdfSha256} `{X : X25519}.

(** Token round trip. A plaintext whose padding fits the bound encrypts to
    the Token of the reference, refused only for a bound or an output too small,
    and leaves the rest of the buffer; the in-place routine produces the same
    bytes from a buffer holding the plaintext; and decrypting them, by copy or
    in place, returns exactly the plaintext. *)
Lemma token_roundtrip PAD p key iv out out2 pre rest :
  length iv = 16 → length pre = 16 → (Z.of_nat (length p) + 64 ≤ u64_max)%Z →
  length p ≤ length out2 →
  let n := length p + pad_len (length p) + 48 in
  (PAD < n - 48 → token_encrypt PAD p key iv out = (Err PlaintextTooLong, out)) ∧
  (n - 48 ≤ PAD → length out < n → token_encrypt PAD p key iv out = (Err OutputTooSmall, out)) ∧
  (n - 48 ≤ PAD → n ≤ length out →
   ∃ t, length t = n ∧
     token_encrypt PAD p key iv out = (Ok n, t ++ drop n out) ∧
     token_decrypt PAD t key out2 = (Ok (length p), p ++ drop (length p) out2) ∧
     (n ≤ length (pre ++ p ++ rest) →
      token_encrypt_in_place key iv (length p) (pre ++ p ++ rest)
        = (Ok n, t ++ drop n (pre ++ p ++ rest))) ∧
     ∃ b, token_decrypt_in_place key t = (Ok (length p), b) ∧ slice b 16 (16 + length p) = p).
Proof.
  intros Hiv Hpre Hfit Hout2 n. pose proof (length_token key iv p Hiv) as Hlt. fold n in Hlt.
  rewrite (token_encrypt_spec PAD p key iv out Hiv). fold n.
  replace (length p + pad_len (length p)) with (n - 48) by lia.
  split; [intros HP; by rewrite (proj2 (Nat.ltb_lt _ _) HP)|].
  split; [intros HP Ho; by rewrite (proj2 (Nat.ltb_ge _ _) HP), (proj2 (Nat.ltb_lt _ _) Ho)|].
  intros HP Ho. rewrite (proj2 (Nat.ltb_ge _ _) HP), (proj2 (Nat.ltb_ge _ _) Ho).
  exists (token key iv p). rewrite Hlt. split; [done|]. split; [done|]. split; [|split].
  - rewrite token_decrypt_spec, open_token_token, Hlt by done.
    by rewrite (proj2 (Nat.ltb_ge PAD _)), (proj2 (Nat.ltb_ge _ (length p))) by lia.
  - intros Hb. rewrite token_encrypt_in_place_spec by done. rewrite Hlt.
    by rewrite (proj2 (Nat.ltb_ge _ n)) by done.
  - destruct (token_decrypt_in_place_spec key (token key iv p)) as (b & Hb & _ & Hok & _).
    rewrite open_token_token in * by done. exists b. split; [done|]. by apply Hok.
Qed.


(** C26: ECIES round trip. What is encrypted to a public key decrypts with its
    private key and the same salt, into any buffer with room, for every
    plaintext up to the limit, which alone is refused with a large enough
    buffer; the in-place variant writes the same blob from a buffer holding the
    plaintext and its inverse leaves the plaintext in place. *)
Theorem ecies_roundtrip p priv salt eph iv out out2 pre rest :
  length iv = 16 → length pre = ECIES_PLAINTEXT_OFFSET → (Z.of_nat (length p) + 96 ≤ u64_max)%Z →
  length p ≤ length out2 →
  let n := length p + pad_len (length p) + 80 in
  n ≤ length out → n ≤ length (pre ++ p ++ rest) →
  ∃ blob, length blob = n ∧
    (MAX_ECIES_PLAINTEXT < length p →
     fst (ecies_encrypt p (x_public priv) salt eph iv out) = Err PlaintextTooLong) ∧
    (length p ≤ MAX_ECIES_PLAINTEXT →
     ecies_encrypt p (x_public priv) salt eph iv out = (Ok n, blob ++ drop n out) ∧
     ecies_decrypt blob priv salt out2 = (Ok (length p), p ++ drop (length p) out2)) ∧
    ecies_encrypt_in_place (x_public priv) salt eph iv (length p) (pre ++ p ++ rest)
      = (Ok n, blob ++ drop n (pre ++ p ++ rest)) ∧
    ∃ b, ecies_decrypt_in_place priv salt blob = (Ok (length p), b) ∧
         slice b ECIES_PLAINTEXT_OFFSET (ECIES_PLAINTEXT_OFFSET + length p) = p.
Proof.
  intros Hiv Hpre Hfit Hout2 n Hout Hbuf.
  pose proof (length_ecies_blob p (x_public priv) salt eph iv Hiv) as Hl. fold n in Hl.
  exists (ecies_blob p (x_public priv) salt eph iv). split; [done|].
  destruct (ecies_encrypt_spec p (x_public priv) salt eph iv out Hiv) as (out' & Heq & _ & Hout').
  rewrite Heq, Hl in *. split; [|split; [|split]].
  - intros Hm. by rewrite (proj2 (Nat.ltb_lt _ _) Hm).
  - intros Hm. rewrite (proj2 (Nat.ltb_ge _ _) Hm), (proj2 (Nat.ltb_ge _ n)) by done.
    rewrite (Hout' Hm Hout). split; [done|]. by apply ecies_decrypt_blob.
  - rewrite ecies_encrypt_in_place_spec, Hl by done. by rewrite (proj2 (Nat.ltb_ge _ n)) by done.
  - by apply ecies_decrypt_in_place_blob.
Qed.

Lemma try_ratchets_spec data ks salt : ∀ i out,
  match try_ratchets i data ks salt out with
  | (Some (len, j), out') => ∃ k, i ≤ j ∧ ks !! (j - i) = Some k ∧
      ecies_decrypt data k salt out = (Ok len, out') ∧
      ∀ m k', m < j - i → ks !! m = Some k' → ∀ n, fst (ecies_decrypt data k' salt out) ≠ Ok n
  | (None, out') => out' = out ∧
      ∀ m k', ks !! m = Some k' → ∀ n, fst (ecies_decrypt data k' salt out) ≠ Ok n
  end.
Proof.
  induction ks as [|k ks IH]; intros i out; simpl; [done|].
  destruct (ecies_decrypt data k salt out) as [r out1] eqn:Hd.
  destruct (ecies_decrypt_frame _ _ _ _ _ _ Hd) as (_ & Hfr & _).
  destruct r as [len|e|]; [exists k; rewrite Nat.sub_diag; split; [lia|]; split; [done|]; split; [done|]; intros; lia|..];
    subst out1; specialize (IH (S i) out); destruct (try_ratchets _ _ _ _ _) as [[[len j]|] out'].
  1,3: destruct IH as (k0 & Hij & Hk0 & Hdec & Hmin); exists k0;
    (split; [lia|]); replace (j - i) with (S (j - S i)) by lia; (split; [done|]); (split; [done|]);
    intros [|m] k' Hm Hk' n; simpl in Hk';
    [injection Hk' as <-; by rewrite Hd|by apply (Hmin m k'); [lia|]].
  all: destruct IH as [-> Hall]; split; [done|]; intros [|m] k' Hk' n; simpl in Hk';
    [injection Hk' as <-; by rewrite Hd|by apply (Hall m)].
Qed.

(** The ratchet scan. It succeeds with the first retained key that opens
    the message, else with the base key, and reports which; decrypting again
    with the reported hint alone gives the same plaintext in the same buffer;
    and a message no key opens is an error that leaves the buffer untouched. *)
Lemma ratchet_scan_first_match data ks base salt out :
  match ecies_decrypt_with_ratchets data ks base salt out with
  | (Ok (len, idx), out') =>
      ecies_decrypt_with_ratchet_hint data ks base salt idx out = (Ok len, out') ∧
      len ≤ length out ∧
      ∀ m k, (match idx with Some j => m < j | None => True end) → ks !! m = Some k →
        ∀ n, fst (ecies_decrypt data k salt out) ≠ Ok n
  | (Err e, out') => out' = out ∧ fst (ecies_decrypt data base salt out) = Err e ∧
      ∀ m k, ks !! m = Some k → ∀ n, fst (ecies_decrypt data k salt out) ≠ Ok n
  | (Panic, _) => False
  end.
Proof.
  unfold ecies_decrypt_with_ratchets, ecies_decrypt_with_ratchet_hint.
  pose proof (try_ratchets_spec data ks salt 0 out) as H.
  destruct (try_ratchets 0 data ks salt out) as [[[len j]|] out1].
  - destruct H as (k & _ & Hk & Hd & Hmin). rewrite Nat.sub_0_r in *. rewrite Hk.
    split; [done|]. destruct (ecies_decrypt_frame _ _ _ _ _ _ Hd) as (_ & Hn & _). split; [done|].
    intros m k' Hm. by apply Hmin.
  - destruct H as [-> Hall]. destruct (ecies_decrypt data base salt out) as [r out'] eqn:Hd.
    destruct (ecies_decrypt_frame _ _ _ _ _ _ Hd) as (_ & Hn & Hp).
    destruct r as [len|e|]; [| |done]; simpl.
    + split; [done|]. split; [done|]. intros m k' _. by apply Hall.
    + split; [done|]. split; [done|]. done.
Qed.
End properties.

(** * Witnesses *)

Lemma token_roundtrip_witness :
  let _ := Toy.hmac in let _ := Toy.aes in
  ∃ t, token_encrypt 32 [1; 2; 3]%Z (zeros 64) (zeros 16) (zeros 70) = (Ok 64, t ++ drop 64 (zeros 70)) ∧
       token_decrypt 32 t (zeros 64) (zeros 5) = (Ok 3, [1; 2; 3]%Z ++ drop 3 (zeros 5)).
Proof.
  intros h a.
  assert (Hfit : (Z.of_nat (length [1; 2; 3]%Z) + 64 ≤ u64_max)%Z) by (vm_compute; congruence).
  destruct (token_roundtrip (HMAC := h) (AES := a) 32 [1; 2; 3]%Z (zeros 64) (zeros 16) (zeros 70)
    (zeros 5) (zeros 16) (zeros 60) eq_refl eq_refl Hfit ltac:(simpl; lia)) as (_ & _ & H).
  destruct (H ltac:(simpl; lia) ltac:(simpl; lia)) as (t & _ & H1 & H2 & _).
  exists t. split; [exact H1|exact H2].
Defined.

Lemma ecies_roundtrip_witness :
  let _ := Toy.hmac in let _ := Toy.aes in let _ := Toy.hkdf in let _ := Toy.x25519 in
  ∃ blob, length blob = 96 ∧
    ecies_decrypt blob (zeros 32) (zeros 16) (zeros 3) = (Ok 3, [1; 2; 3]%Z ++ drop 3 (zeros 3)).
Proof.
  intros h a k x.
  assert (Hfit : (Z.of_nat (length [1; 2; 3]%Z) + 96 ≤ u64_max)%Z) by (vm_compute; congruence).
  destruct (ecies_roundtrip (HMAC := h) (AES := a) (HKDF := k) (X := x) [1; 2; 3]%Z (zeros 32)
    (zeros 16) (replicate 32 5%Z) (zeros 16) (zeros 100) (zeros 3) (zeros 48) (zeros 60)
    eq_refl eq_refl Hfit ltac:(simpl; lia) ltac:(simpl; lia) ltac:(simpl; lia))
    as (blob & Hl & _ & H & _).
  destruct (H ltac:(vm_compute; lia)) as [_ H2].
  exists blob. split; [exact Hl|exact H2].
Defined.


(** The second of two retained keys opens the message, and the hint agrees. *)
Lemma ratchet_scan_first_match_witness :
  let _ := Toy.hmac in let _ := Toy.aes in let _ := Toy.hkdf in let _ := Toy.x25519 in
  let blob := ecies_blob [1; 2; 3]%Z (x_public (replicate 32 7%Z)) (zeros 16) (replicate 32 5%Z) (zeros 16) in
  let ring := [replicate 32 9%Z; replicate 32 7%Z] in
  fst (ecies_decrypt_with_ratchets blob ring (zeros 32) (zeros 16) (zeros 5)) = Ok (3, Some 1) ∧
  ecies_decrypt_with_ratchet_hint blob ring (zeros 32) (zeros 16) (Some 1) (zeros 5)
    = (Ok 3, [1; 2; 3; 0; 0]%Z).
Proof.
  intros h a k x blob ring.
  assert (Heq : ecies_decrypt_with_ratchets blob ring (zeros 32) (zeros 16) (zeros 5)
                = (Ok (3, Some 1), [1; 2; 3; 0; 0]%Z)) by (vm_compute; reflexivity).
  split; [by rewrite Heq|].
  pose proof (ratchet_scan_first_match (HMAC := h) (AES := a) (HKDF := k) (X := x) blob ring
    (zeros 32) (zeros 16) (zeros 5)) as H.
  rewrite Heq in H. exact (proj1 H).
Defined.
