(* ===== verification/Ifac.v ===== *)
(** Interface access codes (src/src/ifac.rs): a truncated Ed25519 tag behind
    the two header bytes and an HKDF mask over everything but the tag and the
    flag bit.

    The main theorem is that verification accepts exactly the frames that
    signing produces, and recovers the packet they were made from. *)

From S2P Require Import Prelude Constants Primitives Buffer.

Definition IFAC_FLAG : Z := 128.

Definition IFAC_SALT : list Z :=
  [173; 245; 77; 136; 44; 154; 155; 128; 119; 30; 180; 153; 93; 112; 45; 74;
   62; 115; 51; 145; 178; 160; 245; 63; 65; 109; 159; 144; 126; 85; 207; 248]%Z.

Inductive IfacError :=
| InvalidSize | TooShort | MissingFlag | ExceedsMtu | IfacAuthenticationFailed | HkdfError
| IfacBuffer (e : BufferError).

Definition has_ifac_flag (raw : list Z) : bool :=
  match raw with [] => false | b :: _ => negb (Z.land b IFAC_FLAG =? 0)%Z end.

Definition validate_size (ifac_size : Z) : outcome IfacError nat :=
  if (ifac_size =? 0)%Z || (SIGNATURE_LENGTH <? Z.to_nat ifac_size) then Err InvalidSize
  else Ok (Z.to_nat ifac_size).

Section ifac.
Context `{SHA : Sha256} `{HKDF : HkdfSha256} `{ED : Ed25519}.

(** Strings are given by their bytes. *)
Definition derive_ifac_key (network_name passphrase : option (list Z))
  : outcome IfacError (list Z) :=
  let origin := match network_name with Some name => sha256_digest name | None => [] end in
  let origin := origin ++ match passphrase with Some p => sha256_digest p | None => [] end in
  let origin_hash := sha256_digest origin in
  ok_or (hkdf_expand IFAC_SALT origin_hash IFAC_KEY_LENGTH) HkdfError.

Definition sign_packet (packet ifac_key : list Z) : list Z := ed_sign (slice ifac_key 32 64) packet.

Definition derive_mask (tag ifac_key : list Z) (n : nat) : outcome IfacError (list Z) :=
  if WIRE_MTU_MAX <? n then Panic  (* [mask[..n]] *)
  else ok_or (hkdf_expand ifac_key tag n) HkdfError.

(** The masking loop body for byte [i]. *)
Definition mask_byte (ifac_size : nat) (mask : list Z) (i : nat) (byte : Z) : Z :=
  if i =? 0 then Z.lor (Z.lxor byte (mask !!! i)) IFAC_FLAG
  else if (i =? 1) || (ifac_size + 1 <? i) then Z.lxor byte (mask !!! i)
  else byte.

Definition buf_try (c : st PacketBuffer BufferError unit) : st PacketBuffer IfacError unit := λ b,
  let (r, b') := c b in (omap_err IfacBuffer r, b').

Definition ifac_sign_into (packet ifac_key : list Z) (ifac_size : Z)
  : st PacketBuffer IfacError unit := λ out,
  match validate_size ifac_size with
  | Err e => (Err e, out)
  | Panic => (Panic, out)
  | Ok ifac_size =>
      match packet with
      | b0 :: b1 :: rest =>
          if MTU <? length packet then (Err ExceedsMtu, out)
          else
            let wrapped_len := length packet + ifac_size in
            let signature := sign_packet packet ifac_key in
            let tag := drop (SIGNATURE_LENGTH - ifac_size) signature in
            match derive_mask tag ifac_key wrapped_len with
            | Err e => (Err e, out)
            | Panic => (Panic, out)
            | Ok mask =>
                (buf_try (PacketBuffer.push (Z.lor b0 IFAC_FLAG)) ;;;
                 buf_try (PacketBuffer.push b1) ;;;
                 buf_try (PacketBuffer.extend_from_slice tag) ;;;
                 buf_try (PacketBuffer.extend_from_slice rest) ;;;
                 (λ out, (Ok tt, PacketBuffer.write_slice out
                            (imap (mask_byte ifac_size mask) (PacketBuffer.as_slice out)))))
                (PacketBuffer.clear out)
            end
      | _ => (Err TooShort, out)
      end
  end.

(** The unmasking loop over [raw_i] in [2 + ifac_size .. raw.len()]. *)
Definition unmask_rest (ifac_size : nat) (raw mask plain : list Z) : list Z :=
  fold_left (λ plain i, <[i - ifac_size := Z.lxor (raw !!! i) (mask !!! i)]> plain)
            (seq (2 + ifac_size) (length raw - (2 + ifac_size))) plain.

Definition ifac_verify_into (raw ifac_key : list Z) (ifac_size : Z)
  : st PacketBuffer IfacError unit := λ out,
  match validate_size ifac_size with
  | Err e => (Err e, out)
  | Panic => (Panic, out)
  | Ok ifac_size =>
      if MTU + ifac_size <? length raw then (Err ExceedsMtu, out)
      else if length raw <=? 2 + ifac_size then (Err TooShort, out)
      else if (Z.land (raw !!! 0%nat) IFAC_FLAG =? 0)%Z then (Err MissingFlag, out)
      else
        let tag := slice raw 2 (2 + ifac_size) in
        match derive_mask tag ifac_key (length raw) with
        | Err e => (Err e, out)
        | Panic => (Panic, out)
        | Ok mask =>
            match PacketBuffer.set_len (length raw - ifac_size) (PacketBuffer.clear out) with
            | (Err e, out) => (Err (IfacBuffer e), out)
            | (Panic, out) => (Panic, out)
            | (Ok _, out) =>
                let plain := PacketBuffer.as_slice out in
                let plain := <[0 := Z.land (Z.lxor (raw !!! 0) (mask !!! 0)) (not8 IFAC_FLAG)]> plain in
                let plain := <[1 := Z.lxor (raw !!! 1) (mask !!! 1)]> plain in
                let out := PacketBuffer.write_slice out (unmask_rest ifac_size raw mask plain) in
                let expected := sign_packet (PacketBuffer.as_slice out) ifac_key in
                let expected_tag := drop (SIGNATURE_LENGTH - ifac_size) expected in
                if tag =k expected_tag then (Ok tt, out) else (Err IfacAuthenticationFailed, out)
            end
        end
  end.

(** * Reference definitions *)

(** The frame of a packet under a tag and a mask. *)
Definition frame (ifac_size : nat) (tag mask packet : list Z) : list Z :=
  imap (mask_byte ifac_size mask)
       (match packet with
        | b0 :: b1 :: rest => Z.lor b0 IFAC_FLAG :: b1 :: tag ++ rest
        | _ => []
        end).

(** The packet recovered from a frame. *)
Definition unframe (ifac_size : nat) (mask raw : list Z) : list Z :=
  Z.land (Z.lxor (raw !!! 0) (mask !!! 0)) (not8 IFAC_FLAG) :: Z.lxor (raw !!! 1) (mask !!! 1)
  :: zip_with Z.lxor (drop (2 + ifac_size) raw) (drop (2 + ifac_size) mask).

End ifac.

(** * The masking algebra *)

(** Byte 0: masking keeps the flag set, unmasking clears it. *)
Lemma land_not_flag_bit z i :
  (0 ≤ i)%Z → Z.testbit (Z.land z (not8 IFAC_FLAG)) i = Z.testbit z i && (i <? 7)%Z.
Proof.
  intros Hi. rewrite Z.land_spec. f_equal. unfold not8, IFAC_FLAG.
  change (Z.lxor 128 255) with (Z.ones 7). destruct (i <? 7)%Z eqn:H; bool_hyps.
  - by apply Z.ones_spec_low.
  - by apply Z.ones_spec_high.
Qed.

Lemma flag_bit i : (0 ≤ i)%Z → Z.testbit IFAC_FLAG i = (i =? 7)%Z.
Proof.
  intros Hi. change IFAC_FLAG with (2 ^ 7)%Z. rewrite Z.pow2_bits_eqb by lia. apply Z.eqb_sym.
Qed.

Lemma byte_high_bits b i : is_byte b → (8 ≤ i)%Z → Z.testbit b i = false.
Proof.
  intros [H0 H1] Hi. destruct (decide (b = 0%Z)) as [->|]; [apply Z.bits_0|].
  apply Z.bits_above_log2; [lia|]. apply Z.log2_lt_pow2; [lia|].
  assert (2 ^ 8 ≤ 2 ^ i)%Z by (apply Z.pow_le_mono_r; lia). lia.
Qed.

Lemma unmask_mask_flag b m :
  is_byte b → Z.land b IFAC_FLAG = 0%Z →
  Z.land (Z.lxor (Z.lor (Z.lxor (Z.lor b IFAC_FLAG) m) IFAC_FLAG) m) (not8 IFAC_FLAG) = b.
Proof.
  intros Hb Hf. apply Z.bits_inj'. intros i Hi. rewrite land_not_flag_bit by done.
  rewrite Z.lxor_spec, Z.lor_spec, Z.lxor_spec, Z.lor_spec, flag_bit by done.
  destruct (i <? 7)%Z eqn:H7; bool_hyps.
  - rewrite (proj2 (Z.eqb_neq i 7)) by lia. rewrite !orb_false_r, andb_true_r.
    by destruct (Z.testbit b i), (Z.testbit m i).
  - rewrite andb_false_r. destruct (decide (i = 7%Z)) as [->|].
    + apply (f_equal (λ z, Z.testbit z 7)) in Hf.
      rewrite Z.land_spec, flag_bit, Z.eqb_refl, andb_true_r, Z.bits_0 in Hf by lia. done.
    + symmetry. apply byte_high_bits; [done|lia].
Qed.

Lemma mask_unmask_flag r m :
  is_byte r → is_byte m → Z.land r IFAC_FLAG ≠ 0%Z →
  Z.lor (Z.lxor (Z.lor (Z.land (Z.lxor r m) (not8 IFAC_FLAG)) IFAC_FLAG) m) IFAC_FLAG = r.
Proof.
  intros Hr Hm Hf. apply Z.bits_inj'. intros i Hi.
  rewrite Z.lor_spec, Z.lxor_spec, Z.lor_spec, land_not_flag_bit, Z.lxor_spec, flag_bit by done.
  destruct (decide (i = 7%Z)) as [->|Hne].
  - rewrite Z.eqb_refl, orb_true_r. destruct (Z.testbit r 7) eqn:Hb; [done|]. exfalso. apply Hf.
    apply Z.bits_inj'. intros j Hj. rewrite Z.land_spec, flag_bit, Z.bits_0 by done.
    destruct (j =? 7)%Z eqn:Hj7; bool_hyps; [subst; by rewrite Hb|apply andb_false_r].
  - rewrite (proj2 (Z.eqb_neq i 7)) by done. rewrite !orb_false_r.
    destruct (i <? 7)%Z eqn:H7; bool_hyps.
    + rewrite andb_true_r. by destruct (Z.testbit r i), (Z.testbit m i).
    + rewrite andb_false_r, (byte_high_bits m), (byte_high_bits r) by (done || lia). done.
Qed.

Lemma unmask_clears_flag z : Z.land (Z.land z (not8 IFAC_FLAG)) IFAC_FLAG = 0%Z.
Proof.
  rewrite <- Z.land_assoc. change (Z.land (not8 IFAC_FLAG) IFAC_FLAG) with 0%Z. apply Z.land_0_r.
Qed.

Lemma masked_has_flag z : Z.land (Z.lor z IFAC_FLAG) IFAC_FLAG ≠ 0%Z.
Proof.
  intros H. apply (f_equal (λ z, Z.testbit z 7)) in H.
  rewrite Z.land_spec, Z.lor_spec, flag_bit, Z.eqb_refl, orb_true_r, Z.bits_0 in H by lia. done.
Qed.

Lemma lxor_twice a m : Z.lxor (Z.lxor a m) m = a.
Proof. by rewrite Z.lxor_assoc, Z.lxor_nilpotent, Z.lxor_0_r. Qed.

(** * The unmasking loop *)

Lemma lookup_unmask_loop (f : nat → Z) s start n plain j :
  s ≤ start →
  fold_left (λ p i, <[i - s := f i]> p) (seq start n) plain !! j =
  if (start - s <=? j) && (j <? start - s + n) && (j <? length plain)
  then Some (f (j + s)) else plain !! j.
Proof.
  revert start plain. induction n as [|n IH]; intros start plain Hs; cbn [seq fold_left].
  - destruct (start - s <=? j) eqn:H1, (j <? start - s + 0) eqn:H2; simpl; try done; bool_hyps; lia.
  - rewrite IH by lia. rewrite length_insert.
    destruct (decide (j = start - s)) as [->|Hne].
    + rewrite (proj2 (Nat.leb_gt (S start - s) _)), (proj2 (Nat.leb_le _ _)),
        (proj2 (Nat.ltb_lt _ (start - s + S n))) by lia. cbn [andb].
      destruct (start - s <? length plain) eqn:Hl; bool_hyps.
      * rewrite list_lookup_insert_eq by done. do 2 f_equal. lia.
      * rewrite list_insert_ge by done. done.
    + rewrite list_lookup_insert_ne by lia.
      destruct (start - s <=? j) eqn:H1, (S start - s <=? j) eqn:H2; bool_hyps; try lia; [|done].
      replace (j <? start - s + S n) with (j <? S start - s + n); [done|].
      replace (S start - s + n) with (start - s + S n) by lia. done.
Qed.

Lemma unmask_rest_spec s raw mask p0 p1 rest :
  2 + s < length raw → length mask = length raw → length rest = length raw - s - 2 →
  unmask_rest s raw mask (p0 :: p1 :: rest) =
  p0 :: p1 :: zip_with Z.lxor (drop (2 + s) raw) (drop (2 + s) mask).
Proof.
  intros Hr Hm Hl. unfold unmask_rest. apply list_eq. intros j.
  rewrite (lookup_unmask_loop (λ i, Z.lxor (raw !!! i) (mask !!! i))) by lia.
  replace (2 + s - s) with 2 by lia. cbn [length]. rewrite Hl.
  destruct j as [|[|j]]; [done..|]. cbn [Nat.leb andb].
  assert (Hcons : ∀ l : list Z, (p0 :: p1 :: l) !! S (S j) = l !! j) by done. rewrite !Hcons.
  rewrite (Nat.ltb_compare (S (S j)) (2 + _)).
  destruct (decide (j < length raw - s - 2)) as [Hj|Hj].
  - rewrite <- Nat.ltb_compare, (proj2 (Nat.ltb_lt _ _)), (proj2 (Nat.ltb_lt _ _)) by lia. cbn [andb].
    symmetry. apply lookup_zip_with_Some. exists (raw !!! (S (S j) + s)), (mask !!! (S (S j) + s)).
    split; [done|]. rewrite !lookup_drop. replace (2 + s + j) with (S (S j) + s) by lia.
    split; apply list_lookup_lookup_total_lt; lia.
  - rewrite <- Nat.ltb_compare, (proj2 (Nat.ltb_ge _ _)) by lia. cbn [andb].
    rewrite lookup_ge_None_2 by lia. symmetry. apply lookup_ge_None_2.
    rewrite length_zip_with, !length_drop. lia.
Qed.

(** * Frames *)

Lemma imap_id_on (f : nat → Z → Z) l :
  (∀ i x, i < length l → f i x = x) → imap f l = l.
Proof.
  intros Hf. apply list_eq. intros i. rewrite list_lookup_imap.
  destruct (l !! i) as [x|] eqn:Hx; simpl; [|done]. f_equal. apply Hf. by eapply lookup_lt_Some.
Qed.

Lemma imap_mask mask k l :
  k + length l ≤ length mask →
  imap (λ i b, Z.lxor b (mask !!! (k + i))) l = zip_with Z.lxor l (drop k mask).
Proof.
  intros Hl. apply list_eq. intros i. rewrite list_lookup_imap.
  destruct (l !! i) as [x|] eqn:Hx; simpl.
  - symmetry. apply lookup_zip_with_Some. exists x, (mask !!! (k + i)). split; [done|].
    split; [done|]. rewrite lookup_drop. apply list_lookup_lookup_total_lt.
    apply lookup_lt_Some in Hx. lia.
  - symmetry. apply lookup_ge_None_2. rewrite length_zip_with, length_drop.
    apply lookup_ge_None in Hx. lia.
Qed.

(** A frame, field by field. *)
Lemma frame_fields s tag mask b0 b1 rest :
  length tag = s → length mask = 2 + s + length rest →
  frame s tag mask (b0 :: b1 :: rest) =
  Z.lor (Z.lxor (Z.lor b0 IFAC_FLAG) (mask !!! 0)) IFAC_FLAG :: Z.lxor b1 (mask !!! 1)
  :: tag ++ zip_with Z.lxor rest (drop (2 + s) mask).
Proof.
  intros Htag Hmask. unfold frame. rewrite imap_cons, imap_cons. cbn [mask_byte Nat.eqb orb].
  do 2 f_equal. rewrite imap_app. f_equal.
  - apply imap_id_on. intros i x Hi. unfold compose, mask_byte. cbn [Nat.eqb].
    by rewrite (proj2 (Nat.ltb_ge (s + 1) _)) by lia.
  - rewrite <- imap_mask by lia. apply imap_ext. intros i x Hx. unfold compose, mask_byte.
    cbn [Nat.eqb Nat.add]. rewrite (proj2 (Nat.ltb_lt (s + 1) _)) by lia.
    rewrite orb_true_r, Htag. do 2 f_equal.
Qed.

Lemma zip_lxor_twice l m : length l ≤ length m → zip_with Z.lxor (zip_with Z.lxor l m) m = l.
Proof.
  revert m. induction l as [|x l IH]; intros [|y m] Hl; simpl in *; try done; [lia|].
  by rewrite lxor_twice, IH by lia.
Qed.

Lemma unframe_frame s tag mask b0 b1 rest :
  length tag = s → length mask = 2 + s + length rest → is_byte b0 → Z.land b0 IFAC_FLAG = 0%Z →
  unframe s mask (frame s tag mask (b0 :: b1 :: rest)) = b0 :: b1 :: rest.
Proof.
  intros Htag Hmask Hb Hf. rewrite frame_fields by done. unfold unframe. cbn [lookup_total list_lookup_total].
  rewrite unmask_mask_flag, lxor_twice by done. do 2 f_equal.
  cbn [drop Nat.add]. rewrite (drop_app_exact tag) by done.
  apply zip_lxor_twice. rewrite length_drop. lia.
Qed.

Lemma frame_unframe s mask raw :
  2 + s < length raw → length mask = length raw → is_byte (raw !!! 0) → is_byte (mask !!! 0) →
  Z.land (raw !!! 0) IFAC_FLAG ≠ 0%Z →
  frame s (slice raw 2 (2 + s)) mask (unframe s mask raw) = raw.
Proof.
  intros Hr Hm Hb Hmb Hf. unfold unframe.
  assert (Hz : length (zip_with Z.lxor (drop (2 + s) raw) (drop (2 + s) mask)) = length raw - 2 - s).
  { rewrite length_zip_with, !length_drop. lia. }
  rewrite frame_fields by (rewrite ?length_slice, ?Hz; lia).
  rewrite mask_unmask_flag, lxor_twice, zip_lxor_twice by (done || rewrite !length_drop; lia).
  destruct raw as [|r0 [|r1 raw]]; simpl in Hr; [lia..|]. cbn [lookup_total list_lookup_total].
  do 2 f_equal. unfold slice. cbn [drop Nat.add]. replace (S (S s) - 2) with s by lia.
  apply take_drop.
Qed.

Lemma length_frame s tag mask b0 b1 rest :
  length (frame s tag mask (b0 :: b1 :: rest)) = 2 + length tag + length rest.
Proof. unfold frame. rewrite length_imap. simpl. rewrite length_app. lia. Qed.

(** * What the two operations compute *)

Section specs.
Context `{HKDF : HkdfSha256} `{ED : Ed25519}.

Lemma buf_try_seq (c1 c2 : st PacketBuffer BufferError unit) (k : st PacketBuffer IfacError unit) b :
  (buf_try c1 ;;; buf_try c2 ;;; k) b = (buf_try (c1 ;;; c2) ;;; k) b.
Proof. unfold st_bind, buf_try. by destruct (c1 b) as [[[]|e|] b1]. Qed.

Lemma validate_size_ok s : 1 ≤ s ≤ SIGNATURE_LENGTH → validate_size (Z.of_nat s) = Ok s.
Proof.
  intros Hs. unfold validate_size. rewrite (proj2 (Z.eqb_neq _ _)), Nat2Z.id by lia.
  by rewrite (proj2 (Nat.ltb_ge _ _)) by lia.
Qed.

Lemma derive_mask_ok tag key n :
  n ≤ WIRE_MTU_MAX →
  ∃ mask, derive_mask tag key n = Ok mask ∧ hkdf_expand key tag n = Some mask ∧
          length mask = n ∧ bytes mask.
Proof.
  intros Hn. unfold derive_mask. rewrite (proj2 (Nat.ltb_ge _ _)) by done.
  destruct (hkdf_accepts key tag n) as [mask Hm]; [revert Hn; sizes; lia|].
  exists mask. rewrite Hm. split; [done|]. split; [done|].
  split; [by eapply hkdf_length|by eapply hkdf_bytes].
Qed.

Definition tag_of (s : nat) (packet key : list Z) : list Z :=
  drop (SIGNATURE_LENGTH - s) (sign_packet packet key).

Lemma length_tag_of s packet key : s ≤ SIGNATURE_LENGTH → length (tag_of s packet key) = s.
Proof.
  intros Hs. unfold tag_of, sign_packet. rewrite length_drop, ed_sign_length.
  revert Hs. sizes. lia.
Qed.

Lemma sign_spec s b0 b1 rest key out :
  1 ≤ s ≤ SIGNATURE_LENGTH → 2 + length rest ≤ MTU → PacketBuffer.wf WIRE_MTU_MAX out →
  let packet := b0 :: b1 :: rest in
  ∃ mask out', hkdf_expand key (tag_of s packet key) (length packet + s) = Some mask ∧
    length mask = length packet + s ∧ bytes mask ∧
    ifac_sign_into packet key (Z.of_nat s) out = (Ok tt, out') ∧
    PacketBuffer.wf WIRE_MTU_MAX out' ∧
    PacketBuffer.as_slice out' = frame s (tag_of s packet key) mask packet.
Proof.
  intros Hs Hlen Hwf packet. unfold ifac_sign_into. rewrite validate_size_ok by done.
  unfold packet. rewrite (proj2 (Nat.ltb_ge MTU _)) by (simpl; lia). fold packet.
  change (drop (SIGNATURE_LENGTH - s) (sign_packet packet key)) with (tag_of s packet key).
  set (tag := tag_of s packet key).
  assert (Htag : length tag = s) by (apply length_tag_of; lia).
  assert (Hpl : length packet = 2 + length rest) by done.
  destruct (derive_mask_ok tag key (length packet + s)) as (mask & -> & Hm & Hml & Hmb).
  { rewrite Hpl. revert Hlen Hs. sizes. lia. }
  exists mask. rewrite !buf_try_seq. unfold st_bind at 1, buf_try at 1.
  assert (Hwc : PacketBuffer.wf WIRE_MTU_MAX (PacketBuffer.clear out)).
  { destruct Hwf as [Hc _]. split; [done|simpl; lia]. }
  destruct (PacketBuffer.appends_seq WIRE_MTU_MAX _ _ _ _
    (PacketBuffer.appends_seq WIRE_MTU_MAX _ _ _ _
      (PacketBuffer.appends_seq WIRE_MTU_MAX _ _ _ _
        (PacketBuffer.appends_push WIRE_MTU_MAX (Z.lor b0 IFAC_FLAG))
        (PacketBuffer.appends_push WIRE_MTU_MAX b1))
      (PacketBuffer.appends_extend WIRE_MTU_MAX tag))
    (PacketBuffer.appends_extend WIRE_MTU_MAX rest) _ Hwc) as [Hok _].
  destruct Hok as (b' & -> & Hwb & Hlb & Hsb).
  { rewrite !length_app. simpl. revert Hlen Hs. rewrite Htag. sizes. lia. }
  cbn [omap_err]. eexists. split; [done|]. split; [done|]. split; [done|]. split; [done|].
  rewrite <- app_assoc, <- app_assoc in Hsb. cbn [PacketBuffer.as_slice PacketBuffer.clear pb_len take app] in Hsb.
  destruct (PacketBuffer.write_slice_content WIRE_MTU_MAX b'
    (imap (mask_byte s mask) (PacketBuffer.as_slice b'))) as [Hw Hc]; [done| |].
  { rewrite length_imap. by apply (PacketBuffer.length_as_slice WIRE_MTU_MAX). }
  split; [done|]. rewrite Hc, Hsb. unfold packet, frame. done.
Qed.

Lemma verify_spec s raw key out :
  1 ≤ s ≤ SIGNATURE_LENGTH → PacketBuffer.wf MTU out →
  2 + s < length raw → length raw ≤ MTU + s → Z.land (raw !!! 0) IFAC_FLAG ≠ 0%Z →
  ∃ mask out', hkdf_expand key (slice raw 2 (2 + s)) (length raw) = Some mask ∧
    length mask = length raw ∧ bytes mask ∧
    PacketBuffer.wf MTU out' ∧ PacketBuffer.as_slice out' = unframe s mask raw ∧
    ifac_verify_into raw key (Z.of_nat s) out =
      (if slice raw 2 (2 + s) =k tag_of s (unframe s mask raw) key
       then Ok tt else Err IfacAuthenticationFailed, out').
Proof.
  intros Hs Hwf Hmin Hmax Hflag. unfold ifac_verify_into. rewrite validate_size_ok by done.
  rewrite (proj2 (Nat.ltb_ge _ _)), (proj2 (Nat.leb_gt _ _)), (proj2 (Z.eqb_neq _ _)) by (done || lia).
  set (tag := slice raw 2 (2 + s)).
  destruct (derive_mask_ok tag key (length raw)) as (mask & -> & Hm & Hml & Hmb).
  { revert Hmax Hs. sizes. lia. }
  exists mask. assert (Hwc : PacketBuffer.wf MTU (PacketBuffer.clear out)).
  { destruct Hwf as [Hc _]. split; [done|simpl; lia]. }
  destruct (PacketBuffer.set_len_ok MTU (PacketBuffer.clear out) (length raw - s) Hwc) as [Hset Hw1]; [lia|].
  rewrite Hset. set (out1 := {| pb_bytes := _; pb_len := _ |}) in *.
  set (plain0 := PacketBuffer.as_slice out1).
  assert (Hpl : length plain0 = length raw - s)
    by (unfold plain0; by rewrite (PacketBuffer.length_as_slice MTU _ Hw1)).
  destruct plain0 as [|x0 [|x1 rest]] eqn:Hp0; [simpl in Hpl; lia..|]. cbn [insert list_insert].
  rewrite unmask_rest_spec by (simpl in Hpl; lia). fold (unframe s mask raw).
  destruct (PacketBuffer.write_slice_content MTU out1 (unframe s mask raw)) as [Hw2 Hc2]; [done| |].
  { unfold unframe. cbn [length]. rewrite length_zip_with, !length_drop. simpl. lia. }
  eexists. split; [done|]. split; [done|]. split; [done|]. split; [exact Hw2|]. split; [exact Hc2|].
  rewrite Hc2. change (drop (SIGNATURE_LENGTH - s) (sign_packet (unframe s mask raw) key))
    with (tag_of s (unframe s mask raw) key). by destruct (bool_decide _).
Qed.

(** Frames outside the checked shape are refused without touching the buffer. *)
Lemma verify_refuses s raw key out :
  1 ≤ s ≤ SIGNATURE_LENGTH →
  ifac_verify_into raw key (Z.of_nat s) out =
    if MTU + s <? length raw then (Err ExceedsMtu, out)
    else if length raw <=? 2 + s then (Err TooShort, out)
    else if (Z.land (raw !!! 0%nat) IFAC_FLAG =? 0)%Z then (Err MissingFlag, out)
    else ifac_verify_into raw key (Z.of_nat s) out.
Proof.
  intros Hs. unfold ifac_verify_into. rewrite validate_size_ok by done.
  case_if; [done|]. case_if; [done|]. by case_if.
Qed.

Lemma byte_lxor a b : is_byte a → is_byte b → is_byte (Z.lxor a b).
Proof.
  intros Ha Hb. assert (Hx : Z.lxor a b = Z.land (Z.lxor a b) 255).
  { apply Z.bits_inj'. intros i Hi. rewrite Z.land_spec. change 255%Z with (Z.ones 8).
    destruct (decide (i < 8)%Z).
    - by rewrite Z.ones_spec_low, andb_true_r by lia.
    - by rewrite Z.ones_spec_high, andb_false_r, Z.lxor_spec, !byte_high_bits by (done || lia). }
  rewrite Hx, land_255_mod. unfold is_byte. apply Z.mod_pos_bound. lia.
Qed.

Lemma byte_clear_flag a : is_byte a → is_byte (Z.land a (not8 IFAC_FLAG)).
Proof.
  intros _. change (not8 IFAC_FLAG) with (Z.ones 7). rewrite Z.land_ones by lia. unfold is_byte.
  pose proof (Z.mod_pos_bound a (2 ^ 7)). lia.
Qed.

Lemma bytes_unframe s mask raw :
  2 + s < length raw → length mask = length raw → bytes raw → bytes mask → bytes (unframe s mask raw).
Proof.
  intros Hs Hl Hr Hm. unfold unframe.
  assert (Hat : ∀ (l : list Z) i, bytes l → i < length l → is_byte (l !!! i)).
  { intros l i Hb Hi. apply (bytes_lookup l i); [done|]. by apply list_lookup_lookup_total_lt. }
  constructor; [apply byte_clear_flag, byte_lxor; apply Hat; (done || lia)|].
  constructor; [apply byte_lxor; apply Hat; (done || lia)|].
  apply Forall_lookup. intros i b Hb. apply lookup_zip_with_Some in Hb as (x & y & -> & Hx & Hy).
  rewrite lookup_drop in Hx, Hy.
  apply byte_lxor; [by apply (bytes_lookup raw _ _ Hr Hx)|by apply (bytes_lookup mask _ _ Hm Hy)].
Qed.

(** Verification never panics, and what it accepts was unmasked from bytes. *)
Lemma verify_plain raw key size out :
  PacketBuffer.wf MTU out → bytes raw → is_byte size →
  match ifac_verify_into raw key size out with
  | (Ok _, p) => bytes (PacketBuffer.as_slice p)
  | (Panic, _) => False
  | _ => True
  end.
Proof.
  intros Hwf Hb [Hpos _]. destruct (validate_size size) as [s|e|] eqn:Hv.
  2:{ unfold ifac_verify_into. by rewrite Hv. }
  2:{ unfold validate_size in Hv. case_if; discriminate. }
  assert (Hs : size = Z.of_nat s ∧ 1 ≤ s ≤ SIGNATURE_LENGTH).
  { unfold validate_size in Hv. case_if; [done|]. injection Hv as <-. lia. }
  destruct Hs as [-> Hs]. rewrite verify_refuses by done.
  case_if; [done|]. case_if; [done|]. case_if; [done|].
  destruct (verify_spec s raw key out) as (mask & p & _ & Hl & Hm & _ & Hp & ->); try done; try lia.
  destruct (bool_decide _); [|done]. rewrite Hp. apply bytes_unframe; (done || lia).
Qed.
End specs.

(** * Properties *)

Section properties.
Context `{HKDF : HkdfSha256} `{ED : Ed25519}.

(** Access-code round trip. Any packet of 3 to 500 bytes with the flag bit
    clear is wrapped, with any tag size from 1 to 64, into a frame of exactly
    that many bytes more with the flag set, and verifying the frame with the
    same key recovers the packet. *)
Lemma ifac_roundtrip packet key s out out2 :
  1 ≤ s ≤ SIGNATURE_LENGTH → 3 ≤ length packet ≤ MTU → is_byte (packet !!! 0) →
  has_ifac_flag packet = false →
  PacketBuffer.wf WIRE_MTU_MAX out → PacketBuffer.wf MTU out2 →
  ∃ f p, ifac_sign_into packet key (Z.of_nat s) out = (Ok tt, f) ∧
    length (PacketBuffer.as_slice f) = length packet + s ∧
    has_ifac_flag (PacketBuffer.as_slice f) = true ∧
    ifac_verify_into (PacketBuffer.as_slice f) key (Z.of_nat s) out2 = (Ok tt, p) ∧
    PacketBuffer.as_slice p = packet.
Proof.
  intros Hs Hlen Hb Hflag Hwf Hwf2.
  destruct packet as [|b0 [|b1 rest]]; [simpl in Hlen; lia..|].
  assert (Hf0 : Z.land b0 IFAC_FLAG = 0%Z) by (simpl in Hflag; bool_hyps; done).
  destruct (sign_spec s b0 b1 rest key out Hs ltac:(simpl in Hlen; lia) Hwf)
    as (mask & f & Hm & Hml & Hmb & Hsign & _ & Hfr).
  set (packet := b0 :: b1 :: rest) in *. set (tag := tag_of s packet key) in *.
  assert (Htag : length tag = s) by (apply length_tag_of; lia).
  assert (Hml' : length mask = 2 + s + length rest) by (rewrite Hml; simpl; lia).
  pose proof (frame_fields s tag mask b0 b1 rest Htag Hml') as Hff.
  pose proof (length_frame s tag mask b0 b1 rest) as Hlf. fold packet in Hlf, Hff.
  rewrite <- Hfr in Hlf, Hff.
  assert (Htg : slice (PacketBuffer.as_slice f) 2 (2 + s) = tag).
  { rewrite Hff. apply (slice_app_exact [_; _] tag); simpl; lia. }
  assert (Hflagf : Z.land (PacketBuffer.as_slice f !!! 0) IFAC_FLAG ≠ 0%Z).
  { rewrite Hff. apply masked_has_flag. }
  assert (Hlen2 : length (PacketBuffer.as_slice f) = length packet + s)
    by (rewrite Hlf; simpl in *; lia).
  destruct (verify_spec s (PacketBuffer.as_slice f) key out2) as (mask' & p & Hm' & _ & _ & _ & Hp & Hv);
    [done|done|rewrite Hlen2; lia|rewrite Hlen2; lia|done|].
  rewrite Htg, Hlen2 in Hm'. assert (mask' = mask) as -> by congruence.
  assert (Hun : unframe s mask (PacketBuffer.as_slice f) = packet)
    by (rewrite Hfr; by apply unframe_frame).
  rewrite Hun in *. rewrite Htg, bool_decide_eq_true_2 in Hv by done.
  exists f, p. repeat split; try done. by rewrite Hff; simpl; apply negb_true_iff, Z.eqb_neq, masked_has_flag.
Qed.

(** C27: verification is exact. For arbitrary received bytes it never panics and
    fails only with a size, length, flag or authentication error; and when it
    succeeds, the recovered packet has the flag clear and signing it again gives
    exactly the received bytes: the only frames accepted for a packet are those
    the key holder's signing produces. *)
Theorem ifac_verify_exact raw key s out out2 :
  1 ≤ s ≤ SIGNATURE_LENGTH → bytes raw →
  PacketBuffer.wf MTU out → PacketBuffer.wf WIRE_MTU_MAX out2 →
  match ifac_verify_into raw key (Z.of_nat s) out with
  | (Ok _, p) =>
      has_ifac_flag (PacketBuffer.as_slice p) = false ∧
      length (PacketBuffer.as_slice p) = length raw - s ∧ 3 ≤ length (PacketBuffer.as_slice p) ≤ MTU ∧
      ∃ f, ifac_sign_into (PacketBuffer.as_slice p) key (Z.of_nat s) out2 = (Ok tt, f) ∧
           PacketBuffer.as_slice f = raw
  | (Err e, p) => (e = ExceedsMtu ∧ MTU + s < length raw ∧ p = out) ∨
      (e = TooShort ∧ length raw ≤ 2 + s ∧ p = out) ∨
      (e = MissingFlag ∧ has_ifac_flag raw = false ∧ p = out) ∨
      e = IfacAuthenticationFailed
  | (Panic, _) => False
  end.
Proof.
  intros Hs Hbytes Hwf Hwf2. rewrite verify_refuses by done.
  destruct (MTU + s <? length raw) eqn:H1; [bool_hyps; by auto|].
  destruct (length raw <=? 2 + s) eqn:H2; [bool_hyps; by auto|]. bool_hyps.
  destruct raw as [|r0 [|r1 raw]]; [simpl in *; lia..|].
  destruct (Z.land _ IFAC_FLAG =? 0)%Z eqn:H3.
  { right. right. left. split; [done|]. split; [|done]. by apply negb_false_iff. }
  apply Z.eqb_neq in H3. set (r := r0 :: r1 :: raw) in *.
  destruct (verify_spec s r key out Hs Hwf ltac:(lia) ltac:(lia) H3)
    as (mask & p & Hm & Hml & Hmb & Hwp & Hp & Hv). rewrite Hv.
  destruct (bool_decide _) eqn:Htag; [|by auto]. apply bool_decide_eq_true in Htag.
  assert (Hlp : length (unframe s mask r) = length r - s).
  { unfold unframe. cbn [length]. rewrite length_zip_with, !length_drop. simpl in *. lia. }
  rewrite Hp. split; [|split; [done|]; split; [lia|]].
  { unfold unframe. cbn [has_ifac_flag]. by rewrite unmask_clears_flag. }
  set (rest := zip_with Z.lxor (drop (2 + s) r) (drop (2 + s) mask)).
  destruct (sign_spec s (Z.land (Z.lxor (r !!! 0) (mask !!! 0)) (not8 IFAC_FLAG))
    (Z.lxor (r !!! 1) (mask !!! 1)) rest key out2 Hs) as (mask' & f & Hm' & _ & _ & Hsign & _ & Hf).
  { unfold rest. rewrite length_zip_with, !length_drop. lia. }
  { done. }
  exists f. split; [exact Hsign|]. rewrite Hf. fold rest in Hlp.
  change (_ :: _ :: rest) with (unframe s mask r) in *.
  rewrite <- Htag, Hlp in Hm'. replace (length r - s + s) with (length r) in Hm' by lia.
  assert (mask' = mask) as -> by congruence. rewrite <- Htag. apply frame_unframe; try done; try lia.
  - by apply Forall_cons in Hbytes as [? _].
  - destruct mask as [|m0 mask]; [simpl in *; lia|]. by apply Forall_cons in Hmb as [? _].
Qed.
End properties.

(** * Witnesses *)

Lemma ifac_roundtrip_witness :
  let _ := Toy.hkdf in let _ := Toy.ed25519 in
  ∃ f p, ifac_sign_into [1; 2; 3; 4]%Z (replicate 64 9%Z) 8 (PacketBuffer.new WIRE_MTU_MAX) = (Ok tt, f) ∧
    ifac_verify_into (PacketBuffer.as_slice f) (replicate 64 9%Z) 8 (PacketBuffer.new MTU) = (Ok tt, p) ∧
    PacketBuffer.as_slice p = [1; 2; 3; 4]%Z.
Proof.
  intros k e.
  destruct (ifac_roundtrip (HKDF := k) (ED := e) [1; 2; 3; 4]%Z (replicate 64 9%Z) 8
    (PacketBuffer.new WIRE_MTU_MAX) (PacketBuffer.new MTU)) as (f & p & H1 & _ & _ & H2 & H3).
  - sizes. lia.
  - simpl. sizes. lia.
  - split; vm_compute; congruence.
  - reflexivity.
  - apply PacketBuffer.wf_new.
  - apply PacketBuffer.wf_new.
  - exists f, p. split; [exact H1|]. split; [exact H2|exact H3].
Defined.

Lemma ifac_verify_exact_witness :
  let _ := Toy.hkdf in let _ := Toy.ed25519 in
  snd (ifac_verify_into [1; 2; 3; 4]%Z (replicate 64 9%Z) (Z.of_nat 1) (PacketBuffer.new MTU))
    = PacketBuffer.new MTU.
Proof.
  intros k e.
  pose proof (ifac_verify_exact (HKDF := k) (ED := e) [1; 2; 3; 4]%Z (replicate 64 9%Z) 1
    (PacketBuffer.new MTU) (PacketBuffer.new WIRE_MTU_MAX)) as H.
  assert (Hb : bytes [1; 2; 3; 4]%Z) by (repeat constructor; vm_compute; congruence).
  specialize (H ltac:(sizes; lia) Hb (PacketBuffer.wf_new MTU) (PacketBuffer.wf_new WIRE_MTU_MAX)).
  assert (Hr : fst (ifac_verify_into [1; 2; 3; 4]%Z (replicate 64 9%Z) (Z.of_nat 1) (PacketBuffer.new MTU))
               = Err MissingFlag) by reflexivity.
  destruct (ifac_verify_into [1; 2; 3; 4]%Z _ (Z.of_nat 1) _) as [r p]. simpl in Hr. subst r.
  destruct H as [(H & _)|[(H & _)|[(_ & _ & H)|H]]]; try discriminate H. exact H.
Defined.
