(* ===== verification/Identity.v ===== *)
(** Identities and announces (src/src/identity.rs): destination hashes, the
    announce layout, its creation by an endpoint and its validation by a relay. *)

From S2P Require Import Prelude Constants Primitives Wire.

Definition ANNOUNCE_BASE_SIZE : nat :=
  PUBLIC_KEY_LENGTH + NAME_HASH_LENGTH + RANDOM_HASH_LENGTH + SIGNATURE_LENGTH.
Definition RATCHET_SIZE : nat := 32.
Definition SIGNED_DATA_MAX : nat :=
  DESTINATION_LENGTH + PUBLIC_KEY_LENGTH + NAME_HASH_LENGTH + RANDOM_HASH_LENGTH + RATCHET_SIZE
  + MAX_ANNOUNCE_APP_DATA.

(** "lxmf.delivery" as bytes. *)
Definition LXMF_DELIVERY_NAME : list Z :=
  [108; 120; 109; 102; 46; 100; 101; 108; 105; 118; 101; 114; 121]%Z.

Record AnnounceView := {
  av_public_key : list Z;
  av_name_hash : list Z;
  av_random_hash : list Z;
  av_ratchet : option (list Z);
  av_signature : list Z;
  av_app_data : list Z
}.

Inductive AnnounceError :=
| AnnounceTooShort | AppDataTooLong | ScratchTooSmall | AnnounceOutputTooSmall | InvalidPublicKey
| SignatureInvalid | DestinationHashMismatch | PublicKeyChanged.

(** [out[pos..pos + field.len()].copy_from_slice(field)] for each field in turn. *)
Fixpoint write_fields (pos : nat) (fields : list (list Z)) (out : list Z) : list Z :=
  match fields with
  | [] => out
  | f :: fs => write_fields (pos + length f) fs (splice pos f out)
  end.

Section identity.
Context `{SHA : Sha256} `{ED : Ed25519} `{X : X25519}.

Definition identity_hash (public_key : list Z) : list Z := truncated_hash public_key.

Definition name_hash (name : list Z) : list Z := take NAME_HASH_LENGTH (sha256 name).

Definition destination_hash_from_parts (nh : list Z) (ih : option (list Z)) : list Z :=
  match ih with
  | Some ih => truncated_hash (nh ++ ih)
  | None => truncated_hash nh
  end.

Definition destination_hash_from_name (name : list Z) (ih : option (list Z)) : list Z :=
  destination_hash_from_parts (name_hash name) ih.

Definition compose_random_hash (rng : list Z) (unix_secs : Z) : list Z :=
  rng ++ slice (be_bytes 8 unix_secs) 3 8.

(** ** Parsing and validation *)

Definition parse (payload : list Z) (has_ratchet : bool) (max_app_data : nat)
  : outcome AnnounceError AnnounceView :=
  let min_size := ANNOUNCE_BASE_SIZE + if has_ratchet then RATCHET_SIZE else 0 in
  if length payload <? min_size then Err AnnounceTooShort
  else
    let app_data_len := length payload - min_size in
    if max_app_data <? app_data_len then Err AppDataTooLong
    else
      let pos := 0 in
      let* public_key := slice_get payload pos (pos + PUBLIC_KEY_LENGTH) in
      let pos := pos + PUBLIC_KEY_LENGTH in
      let* nh := slice_get payload pos (pos + NAME_HASH_LENGTH) in
      let pos := pos + NAME_HASH_LENGTH in
      let* random_hash := slice_get payload pos (pos + RANDOM_HASH_LENGTH) in
      let pos := pos + RANDOM_HASH_LENGTH in
      let* (ratchet, pos) :=
        (if has_ratchet then
           let* r := slice_get payload pos (pos + RATCHET_SIZE) in Ok (Some r, pos + RATCHET_SIZE)
         else Ok (None, pos)) in
      let* signature := slice_get payload pos (pos + SIGNATURE_LENGTH) in
      let pos := pos + SIGNATURE_LENGTH in
      let* app_data := slice_get payload pos (length payload) in
      Ok {| av_public_key := public_key; av_name_hash := nh; av_random_hash := random_hash;
            av_ratchet := ratchet; av_signature := signature; av_app_data := app_data |}.

Definition view_identity_hash (v : AnnounceView) : list Z := identity_hash (av_public_key v).

(** The scratch slice is the state. *)
Definition verify_signature (v : AnnounceView) (destination_hash : list Z)
  : st (list Z) AnnounceError unit := λ scratch,
  let signed_len :=
    DESTINATION_LENGTH + PUBLIC_KEY_LENGTH + NAME_HASH_LENGTH + RANDOM_HASH_LENGTH
    + match av_ratchet v with Some _ => RATCHET_SIZE | None => 0 end
    + length (av_app_data v) in
  if length scratch <? signed_len then (Err ScratchTooSmall, scratch)
  else
    let scratch := write_fields 0
      ([destination_hash; av_public_key v; av_name_hash v; av_random_hash v]
       ++ match av_ratchet v with Some r => [r] | None => [] end ++ [av_app_data v]) scratch in
    let ed_pub := drop 32 (av_public_key v) in
    if negb (ed_key_ok ed_pub) then (Err InvalidPublicKey, scratch)
    else if ed_verify ed_pub (take signed_len scratch) (av_signature v) then (Ok tt, scratch)
    else (Err SignatureInvalid, scratch).

Definition validate (v : AnnounceView) (destination_hash : list Z) (known_public_key : option (list Z))
  : st (list Z) AnnounceError (list Z) := λ scratch,
  let ih := view_identity_hash v in
  let expected_dest := destination_hash_from_parts (av_name_hash v) (Some ih) in
  if negb (expected_dest =k destination_hash) then (Err DestinationHashMismatch, scratch)
  else if match known_public_key with Some k => negb (k =k av_public_key v) | None => false end
  then (Err PublicKeyChanged, scratch)
  else (verify_signature v destination_hash ;;; st_ret ih) scratch.

(** ** Endpoint identity *)

Record LocalIdentity := { li_private_key : list Z; li_public_key : list Z; li_identity_hash : list Z }.

Definition derive_public_key (private_key : list Z) : list Z :=
  x_public (take 32 private_key) ++ ed_public (drop 32 private_key).

Definition from_private_key (private_key : list Z) : LocalIdentity :=
  let public_key := derive_public_key private_key in
  {| li_private_key := private_key; li_public_key := public_key;
     li_identity_hash := identity_hash public_key |}.

Definition destination_hash (id : LocalIdentity) (name : list Z) : list Z :=
  destination_hash_from_name name (Some (li_identity_hash id)).

Definition lxmf_delivery_hash (id : LocalIdentity) : list Z := destination_hash id LXMF_DELIVERY_NAME.

Definition sign (id : LocalIdentity) (message : list Z) : list Z :=
  ed_sign (drop 32 (li_private_key id)) message.

Definition create_announce_with_name_hash (id : LocalIdentity) (nh random_hash : list Z)
    (ratchet : option (list Z)) (app_data : list Z) : st (list Z) AnnounceError nat := λ out,
  if MAX_ANNOUNCE_APP_DATA <? length app_data then (Err AppDataTooLong, out)
  else
    let ratchet_len := match ratchet with Some _ => RATCHET_SIZE | None => 0 end in
    let announce_len := PUBLIC_KEY_LENGTH + NAME_HASH_LENGTH + RANDOM_HASH_LENGTH + ratchet_len
                        + SIGNATURE_LENGTH + length app_data in
    if length out <? announce_len then (Err AnnounceOutputTooSmall, out)
    else
      let dest_hash := destination_hash_from_parts nh (Some (li_identity_hash id)) in
      let s := DESTINATION_LENGTH + PUBLIC_KEY_LENGTH + NAME_HASH_LENGTH + RANDOM_HASH_LENGTH
               + ratchet_len + length app_data in
      let signed := write_fields 0
        ([dest_hash; li_public_key id; nh; random_hash]
         ++ match ratchet with Some r => [r] | None => [] end ++ [app_data]) (zeros SIGNED_DATA_MAX) in
      let signature := sign id (take s signed) in
      (Ok announce_len,
       write_fields 0
         ([li_public_key id; nh; random_hash]
          ++ match ratchet with Some r => [r] | None => [] end ++ [signature; app_data]) out).

Definition create_announce_named (id : LocalIdentity) (name random_hash : list Z)
    (ratchet : option (list Z)) (app_data : list Z) : st (list Z) AnnounceError nat :=
  create_announce_with_name_hash id (name_hash name) random_hash ratchet app_data.

Definition create_lxmf_announce (id : LocalIdentity) (random_hash : list Z)
    (ratchet : option (list Z)) (app_data : list Z) : st (list Z) AnnounceError nat :=
  create_announce_named id LXMF_DELIVERY_NAME random_hash ratchet app_data.

(** ** Reference layout *)

(** What an announce's signature covers. *)
Definition signed_data (dest : list Z) (v : AnnounceView) : list Z :=
  dest ++ av_public_key v ++ av_name_hash v ++ av_random_hash v
  ++ default [] (av_ratchet v) ++ av_app_data v.

(** The payload of an announce. *)
Definition payload_of (v : AnnounceView) : list Z :=
  av_public_key v ++ av_name_hash v ++ av_random_hash v
  ++ default [] (av_ratchet v) ++ av_signature v ++ av_app_data v.

(** The field lengths of the Rust array types. *)
Record wf_view (v : AnnounceView) : Prop := {
  wv_public_key : length (av_public_key v) = PUBLIC_KEY_LENGTH;
  wv_name_hash : length (av_name_hash v) = NAME_HASH_LENGTH;
  wv_random_hash : length (av_random_hash v) = RANDOM_HASH_LENGTH;
  wv_ratchet : ∀ r, av_ratchet v = Some r → length r = RATCHET_SIZE;
  wv_signature : length (av_signature v) = SIGNATURE_LENGTH
}.

Definition ratchet_len (v : AnnounceView) : nat :=
  match av_ratchet v with Some _ => RATCHET_SIZE | None => 0 end.

End identity.

(** * Field-wise writes *)

Lemma write_fields_spec fields : ∀ pos out,
  pos + length (concat fields) ≤ length out →
  write_fields pos fields out = splice pos (concat fields) out.
Proof.
  induction fields as [|f fs IH]; intros pos out Hl; simpl in *.
  - unfold splice. simpl. rewrite Nat.add_0_r. by rewrite take_drop.
  - rewrite length_app in Hl. rewrite IH by (rewrite length_splice; lia).
    apply splice_splice. lia.
Qed.

Lemma write_fields_0 fields out :
  length (concat fields) ≤ length out →
  write_fields 0 fields out = concat fields ++ drop (length (concat fields)) out.
Proof. intros Hl. by rewrite write_fields_spec, splice_0. Qed.

(** * Parsing *)

Section announce_lemmas.
Context `{SHA : Sha256} `{ED : Ed25519} `{X : X25519}.

Lemma length_ratchet v : wf_view v → length (default [] (av_ratchet v)) = ratchet_len v.
Proof.
  intros Hv. unfold ratchet_len. destruct (av_ratchet v) as [r|] eqn:Hr; [|done].
  by apply (wv_ratchet v Hv).
Qed.

Lemma length_payload_of v :
  wf_view v →
  length (payload_of v) = ANNOUNCE_BASE_SIZE + ratchet_len v + length (av_app_data v).
Proof.
  intros Hv. unfold payload_of, ANNOUNCE_BASE_SIZE. rewrite !length_app, length_ratchet by done.
  rewrite (wv_public_key v Hv), (wv_name_hash v Hv), (wv_random_hash v Hv), (wv_signature v Hv). lia.
Qed.

Lemma length_signed_data dest v :
  wf_view v → length dest = DESTINATION_LENGTH →
  length (signed_data dest v) =
    DESTINATION_LENGTH + PUBLIC_KEY_LENGTH + NAME_HASH_LENGTH + RANDOM_HASH_LENGTH
    + ratchet_len v + length (av_app_data v).
Proof.
  intros Hv Hd. unfold signed_data. rewrite !length_app, length_ratchet, Hd by done.
  rewrite (wv_public_key v Hv), (wv_name_hash v Hv), (wv_random_hash v Hv). lia.
Qed.

Definition has_ratchet (v : AnnounceView) : bool :=
  match av_ratchet v with Some _ => true | None => false end.

(** Reading a field where the layout puts it. *)
Lemma slice_get_field {E} (l1 l2 l3 : list Z) i n :
  length l1 = i → length l2 = n → slice_get (E := E) (l1 ++ l2 ++ l3) i (i + n) = Ok l2.
Proof.
  intros H1 H2. rewrite slice_get_Ok by (rewrite ?length_app; lia). f_equal.
  apply slice_app_exact; lia.
Qed.

Lemma slice_get_first {E} (l2 l3 : list Z) n :
  length l2 = n → slice_get (E := E) (l2 ++ l3) 0 (0 + n) = Ok l2.
Proof. intros H2. by apply (slice_get_field [] l2 l3). Qed.

Lemma parse_payload_of v max :
  wf_view v → length (av_app_data v) ≤ max → parse (payload_of v) (has_ratchet v) max = Ok v.
Proof.
  intros Hv Hmax. pose proof (length_payload_of v Hv) as Hl. unfold parse.
  assert (Hrl : (if has_ratchet v then RATCHET_SIZE else 0) = ratchet_len v)
    by (unfold has_ratchet, ratchet_len; by destruct (av_ratchet v)).
  rewrite Hrl, Hl. rewrite (proj2 (Nat.ltb_ge _ _)), (proj2 (Nat.ltb_ge _ _)) by lia.
  unfold payload_of at 1. rewrite slice_get_first by apply Hv.
  cbn [obind]. unfold payload_of at 1. rewrite slice_get_field by apply Hv. cbn [obind].
  unfold payload_of at 1. rewrite (app_assoc (av_public_key v)), slice_get_field
    by (rewrite ?length_app, ?(wv_public_key v Hv), ?(wv_name_hash v Hv); done || apply Hv).
  cbn [obind]. unfold has_ratchet, ratchet_len in *.
  assert (H3 : length (av_public_key v ++ av_name_hash v ++ av_random_hash v)
    = 0 + PUBLIC_KEY_LENGTH + NAME_HASH_LENGTH + RANDOM_HASH_LENGTH).
  { rewrite !length_app, (wv_public_key v Hv), (wv_name_hash v Hv), (wv_random_hash v Hv). lia. }
  assert (Hp : payload_of v = (av_public_key v ++ av_name_hash v ++ av_random_hash v)
    ++ default [] (av_ratchet v) ++ av_signature v ++ av_app_data v)
    by (unfold payload_of; by rewrite <- !app_assoc).
  assert (Hlast : ∀ pos, pos = length (payload_of v) - length (av_app_data v) →
    slice_get (E := AnnounceError) (payload_of v) pos (length (payload_of v)) = Ok (av_app_data v)).
  { intros pos ->. rewrite slice_get_Ok by lia. f_equal. rewrite slice_to_end.
    unfold payload_of. rewrite !app_assoc. apply drop_app_exact. rewrite !length_app. lia. }
  destruct (av_ratchet v) as [r|] eqn:Hr.
  - pose proof (wv_ratchet v Hv r Hr) as Hrlen.
    rewrite Hp at 1. rewrite slice_get_field by done. cbn [obind].
    rewrite Hp at 1. cbn [from_option id]. rewrite app_assoc, slice_get_field
      by (apply Hv || (rewrite length_app, H3, Hrlen; done)). cbn [obind].
    rewrite <- Hl, Hlast by (rewrite Hl; unfold ANNOUNCE_BASE_SIZE; lia). cbn [obind].
    f_equal. destruct v. simpl in *. by subst.
  - cbn [obind]. rewrite Hp at 1. cbn [from_option id app]. rewrite slice_get_field by (done || apply Hv).
    cbn [obind]. rewrite <- Hl, Hlast by (rewrite Hl; unfold ANNOUNCE_BASE_SIZE; lia). cbn [obind].
    f_equal. destruct v. simpl in *. by subst.
Qed.

(** Parsing never panics, and what it accepts is the payload of the result. *)
Lemma parse_shape payload hr max :
  match parse payload hr max with
  | Ok v => payload = payload_of v ∧ wf_view v ∧ has_ratchet v = hr ∧ length (av_app_data v) ≤ max
  | Err AnnounceTooShort => length payload < ANNOUNCE_BASE_SIZE + if hr then RATCHET_SIZE else 0
  | Err AppDataTooLong => ANNOUNCE_BASE_SIZE + (if hr then RATCHET_SIZE else 0) + max < length payload
  | _ => False
  end.
Proof.
  unfold parse. set (rl := if hr then RATCHET_SIZE else 0).
  destruct (length payload <? _) eqn:H1; bool_hyps; [lia|].
  destruct (max <? _) eqn:H2; bool_hyps; [lia|]. unfold ANNOUNCE_BASE_SIZE in *.
  rewrite !slice_get_Ok by lia. cbn [obind].
  destruct hr; subst rl.
  - rewrite slice_get_Ok by lia. cbn [obind]. rewrite slice_get_Ok by lia. cbn [obind].
    rewrite slice_get_Ok by lia. cbn [obind]. split; [|split; [|split]].
    + unfold payload_of. cbn [av_public_key av_name_hash av_random_hash av_ratchet av_signature
        av_app_data from_option id]. rewrite slice_to_end. rewrite !slice_drop_app by lia. done.
    + split; cbn [av_public_key av_name_hash av_random_hash av_ratchet av_signature];
        [rewrite length_slice by lia; lia..| |].
      { intros r Hr. apply Some_inj in Hr. rewrite <- Hr, length_slice by lia. lia. } rewrite length_slice by lia. lia.
    + done.
    + cbn [av_app_data]. rewrite length_slice by lia. lia.
  - cbn [obind]. rewrite slice_get_Ok by lia. cbn [obind]. rewrite slice_get_Ok by lia. cbn [obind].
    split; [|split; [|split]].
    + unfold payload_of. cbn [av_public_key av_name_hash av_random_hash av_ratchet av_signature
        av_app_data from_option id app]. rewrite slice_to_end. rewrite !slice_drop_app by lia. done.
    + split; cbn [av_public_key av_name_hash av_random_hash av_ratchet av_signature];
        [rewrite length_slice by lia; lia..|done|]. rewrite length_slice by lia. lia.
    + done.
    + cbn [av_app_data]. rewrite length_slice by lia. lia.
Qed.

(** * Signing and validation *)

Lemma concat_signed dest v :
  concat ([dest; av_public_key v; av_name_hash v; av_random_hash v]
     ++ match av_ratchet v with Some r => [r] | None => [] end ++ [av_app_data v])
  = signed_data dest v.
Proof. unfold signed_data. destruct (av_ratchet v); simpl; by rewrite app_nil_r. Qed.

Lemma verify_signature_spec v dest scratch :
  wf_view v → length dest = DESTINATION_LENGTH →
  ∃ scratch', verify_signature v dest scratch =
    (if length scratch <? length (signed_data dest v) then Err ScratchTooSmall
     else if negb (ed_key_ok (drop 32 (av_public_key v))) then Err InvalidPublicKey
     else if ed_verify (drop 32 (av_public_key v)) (signed_data dest v) (av_signature v)
     then Ok tt else Err SignatureInvalid, scratch') ∧ length scratch' = length scratch.
Proof.
  intros Hv Hd. pose proof (length_signed_data dest v Hv Hd) as Hl.
  unfold verify_signature. fold (ratchet_len v). rewrite <- Hl.
  destruct (length scratch <? _) eqn:Hs; [by exists scratch|]. bool_hyps.
  rewrite write_fields_0 by (rewrite concat_signed; lia). rewrite concat_signed, take_app_length.
  eexists (_ ++ _). split.
  - destruct (ed_key_ok _); [|reflexivity]. cbn [negb]. by destruct (ed_verify _ _ _).
  - rewrite length_app, length_drop. lia.
Qed.

Lemma length_truncated_hash d : length (truncated_hash d) = DESTINATION_LENGTH.
Proof. unfold truncated_hash, sha256. rewrite length_take, sha256_length. sizes. lia. Qed.

Lemma length_destination_hash nh ih : length (destination_hash_from_parts nh ih) = DESTINATION_LENGTH.
Proof. destruct ih; apply length_truncated_hash. Qed.

(** The announce an identity creates. *)
Definition announce_of (id : LocalIdentity) (nh random_hash : list Z) (ratchet : option (list Z))
    (app_data : list Z) : AnnounceView :=
  let v sg := {| av_public_key := li_public_key id; av_name_hash := nh; av_random_hash := random_hash;
                 av_ratchet := ratchet; av_signature := sg; av_app_data := app_data |} in
  v (sign id (signed_data (destination_hash_from_parts nh (Some (li_identity_hash id))) (v []))).

Lemma length_derived_key k : length (derive_public_key k) = PUBLIC_KEY_LENGTH.
Proof. unfold derive_public_key. rewrite length_app, x_public_length, ed_public_length. done. Qed.

Lemma wf_announce_of k nh rh ratchet app :
  length nh = NAME_HASH_LENGTH → length rh = RANDOM_HASH_LENGTH →
  (∀ r, ratchet = Some r → length r = RATCHET_SIZE) →
  wf_view (announce_of (from_private_key k) nh rh ratchet app).
Proof.
  intros Hn Hr Hra. split; cbn; [apply length_derived_key|done|done|done|].
  unfold sign. by rewrite ed_sign_length.
Qed.

Lemma create_spec k nh rh ratchet app out :
  length nh = NAME_HASH_LENGTH → length rh = RANDOM_HASH_LENGTH →
  (∀ r, ratchet = Some r → length r = RATCHET_SIZE) →
  let v := announce_of (from_private_key k) nh rh ratchet app in
  create_announce_with_name_hash (from_private_key k) nh rh ratchet app out =
  if MAX_ANNOUNCE_APP_DATA <? length app then (Err AppDataTooLong, out)
  else if length out <? length (payload_of v) then (Err AnnounceOutputTooSmall, out)
  else (Ok (length (payload_of v)), payload_of v ++ drop (length (payload_of v)) out).
Proof.
  intros Hn Hr Hra v. pose proof (wf_announce_of k nh rh ratchet app Hn Hr Hra) as Hv.
  pose proof (length_payload_of v Hv) as Hl. unfold create_announce_with_name_hash.
  set (id := from_private_key k) in *.
  assert (Hlen : PUBLIC_KEY_LENGTH + NAME_HASH_LENGTH + RANDOM_HASH_LENGTH
    + match ratchet with Some _ => RATCHET_SIZE | None => 0 end + SIGNATURE_LENGTH + length app
    = length (payload_of v)).
  { rewrite Hl. unfold ANNOUNCE_BASE_SIZE, ratchet_len. cbn [v announce_of av_ratchet av_app_data]. lia. }
  rewrite Hlen. destruct (MAX_ANNOUNCE_APP_DATA <? length app) eqn:Hm; [done|].
  destruct (length out <? _) eqn:Ho; [done|]. bool_hyps. f_equal.
  set (dest := destination_hash_from_parts nh (Some (li_identity_hash id))).
  assert (Hd : length dest = DESTINATION_LENGTH) by apply length_destination_hash.
  set (v0 := {| av_public_key := li_public_key id; av_name_hash := nh; av_random_hash := rh;
                av_ratchet := ratchet; av_signature := []; av_app_data := app |}).
  assert (Hsd : signed_data dest v0 = signed_data dest v) by done.
  pose proof (length_signed_data dest v Hv Hd) as Hls. rewrite <- Hsd in Hls.
  unfold ratchet_len in Hls. cbn [v announce_of av_ratchet av_app_data] in Hls.
  assert (Hc0 : concat ([dest; li_public_key id; nh; rh]
    ++ match ratchet with Some r => [r] | None => [] end ++ [app]) = signed_data dest v0)
    by apply (concat_signed dest v0).
  rewrite <- Hls, (write_fields_0 _ (zeros _)), Hc0, take_app_length.
  2:{ rewrite Hc0, Hls. unfold zeros, SIGNED_DATA_MAX. rewrite length_replicate.
      destruct ratchet; unfold RATCHET_SIZE; lia. }
  assert (Hc1 : concat ([li_public_key id; nh; rh]
    ++ match ratchet with Some r => [r] | None => [] end ++ [sign id (signed_data dest v0); app])
    = payload_of v).
  { unfold payload_of. cbn [v announce_of av_public_key av_name_hash av_random_hash av_ratchet
      av_signature av_app_data]. fold dest v0. destruct ratchet; simpl; by rewrite app_nil_r. }
  rewrite write_fields_0, Hc1; [done|]. rewrite Hc1. lia.
Qed.

Lemma created_signature_valid k nh rh ratchet app :
  let v := announce_of (from_private_key k) nh rh ratchet app in
  let dest := destination_hash_from_parts nh (Some (identity_hash (derive_public_key k))) in
  drop 32 (av_public_key v) = ed_public (drop 32 k) ∧
  ed_verify (drop 32 (av_public_key v)) (signed_data dest v) (av_signature v) = true.
Proof.
  intros v dest.
  assert (Hk : drop 32 (av_public_key v) = ed_public (drop 32 k)).
  { cbn [v announce_of av_public_key from_private_key li_public_key]. unfold derive_public_key.
    apply drop_app_exact, x_public_length. }
  split; [done|]. rewrite Hk. apply ed_verify_sign.
Qed.
(** A created announce validates. *)
Lemma announce_of_validates k nh rh ratchet app known scratch :
  length nh = NAME_HASH_LENGTH → length rh = RANDOM_HASH_LENGTH →
  (∀ r, ratchet = Some r → length r = RATCHET_SIZE) →
  length app ≤ MAX_ANNOUNCE_APP_DATA → SIGNED_DATA_MAX ≤ length scratch →
  let id := from_private_key k in
  let dest := destination_hash_from_parts nh (Some (li_identity_hash id)) in
  fst (validate (announce_of id nh rh ratchet app) dest known scratch) =
    (if bool_decide (known = None ∨ known = Some (li_public_key id))
     then Ok (li_identity_hash id) else Err PublicKeyChanged).
Proof.
  intros Hn Hr Hra Hm Hsc id dest.
  pose proof (wf_announce_of k nh rh ratchet app Hn Hr Hra) as Hv. fold id in Hv.
  set (v := announce_of id nh rh ratchet app) in *.
  unfold validate. change (view_identity_hash v) with (li_identity_hash id).
  change (av_name_hash v) with nh. fold dest. rewrite bool_decide_eq_true_2 by done. cbn [negb].
  assert (Hks : (match known with Some k0 => negb (k0 =k av_public_key v) | None => false end)
    = negb (bool_decide (known = None ∨ known = Some (li_public_key id)))).
  { destruct known as [k0|]; [|by rewrite bool_decide_eq_true_2 by auto]. f_equal.
    apply bool_decide_ext. change (av_public_key v) with (li_public_key id). naive_solver. }
  rewrite Hks. destruct (bool_decide (known = None ∨ _)); cbn [negb]; [|done].
  destruct (verify_signature_spec v dest scratch Hv (length_destination_hash _ _)) as (sc' & Hvs & _).
  assert (Hk : drop 32 (av_public_key v) = ed_public (drop 32 k)
    ∧ ed_verify (drop 32 (av_public_key v)) (signed_data dest v) (av_signature v) = true)
    by apply created_signature_valid.
  destruct Hk as [Hk Hok].
  unfold st_bind. rewrite Hvs. rewrite (proj2 (Nat.ltb_ge _ _)).
  - by rewrite Hok, Hk, ed_public_ok.
  - rewrite length_signed_data by (done || apply length_destination_hash).
    unfold SIGNED_DATA_MAX, ratchet_len in *. change (av_ratchet v) with ratchet.
    change (av_app_data v) with app. destruct ratchet; unfold RATCHET_SIZE in *; lia.
Qed.
End announce_lemmas.

(** * Properties *)

Section properties.
Context `{SHA : Sha256} `{ED : Ed25519} `{X : X25519}.

(** C21: an announce a node creates is accepted everywhere. Creation fails only
    for application data over the limit or an output too small, leaving the
    output alone; otherwise a receiver that parses the bytes with the matching
    ratchet flag gets back exactly the fields, and validation against the
    destination hash succeeds with the identity hash, whatever is in the
    scratch space, for a receiver that does not know the identity or knows this
    key, and reports a changed key to one that knows another. *)
Theorem announce_create_validate k nh rh ratchet app out max known scratch :
  length nh = NAME_HASH_LENGTH → length rh = RANDOM_HASH_LENGTH →
  (∀ r, ratchet = Some r → length r = RATCHET_SIZE) →
  length app ≤ max → SIGNED_DATA_MAX ≤ length scratch →
  let id := from_private_key k in
  let dest := destination_hash_from_parts nh (Some (li_identity_hash id)) in
  match create_announce_with_name_hash id nh rh ratchet app out with
  | (Ok n, out') => length app ≤ MAX_ANNOUNCE_APP_DATA ∧ n ≤ length out ∧ drop n out' = drop n out ∧
      ∃ v, parse (take n out') (match ratchet with Some _ => true | None => false end) max = Ok v ∧
        av_public_key v = li_public_key id ∧ av_name_hash v = nh ∧ av_random_hash v = rh ∧
        av_ratchet v = ratchet ∧ av_app_data v = app ∧
        fst (validate v dest known scratch) =
          (if bool_decide (known = None ∨ known = Some (li_public_key id))
           then Ok (li_identity_hash id) else Err PublicKeyChanged)
  | (Err e, out') => out' = out ∧
      (e = AppDataTooLong ∧ MAX_ANNOUNCE_APP_DATA < length app ∨ e = AnnounceOutputTooSmall)
  | (Panic, _) => False
  end.
Proof.
  intros Hn Hr Hra Hmax Hsc id dest.
  pose proof (wf_announce_of k nh rh ratchet app Hn Hr Hra) as Hv. fold id in Hv.
  pose proof (create_spec k nh rh ratchet app out Hn Hr Hra) as Hc. cbv zeta in Hc. fold id in Hc.
  rewrite Hc. set (v := announce_of id nh rh ratchet app) in *.
  destruct (MAX_ANNOUNCE_APP_DATA <? length app) eqn:Hm; [bool_hyps; by auto|].
  destruct (length out <? _) eqn:Ho; [by auto|]. bool_hyps.
  rewrite take_app_length, drop_app_length. do 3 (split; [done|]). exists v.
  split; [by apply (parse_payload_of v)|]. do 5 (split; [done|]).
  by apply announce_of_validates.
Qed.

(** What validation of a parsed announce establishes. *)
Lemma validate_sound v dest known scratch :
  wf_view v → length dest = DESTINATION_LENGTH →
  (∀ ih, fst (validate v dest known scratch) = Ok ih →
     ih = identity_hash (av_public_key v) ∧
     dest = destination_hash_from_parts (av_name_hash v) (Some ih) ∧
     (known = None ∨ known = Some (av_public_key v)) ∧
     ed_verify (drop 32 (av_public_key v)) (signed_data dest v) (av_signature v) = true) ∧
  fst (validate v dest known scratch) ≠ Panic.
Proof.
  intros Hv Hd. unfold validate, view_identity_hash.
  destruct (bool_decide (_ = dest)) eqn:Hb; cbn [negb]; [|done]. apply bool_decide_eq_true in Hb.
  destruct (match known with Some k => negb (k =k av_public_key v) | None => false end) eqn:Hk; [done|].
  destruct (verify_signature_spec v dest scratch Hv Hd) as (sc' & Hvs & _).
  unfold st_bind. rewrite Hvs.
  destruct (length scratch <? _); [done|]. destruct (negb _); [done|].
  destruct (ed_verify _ _ _) eqn:Hver; [|done]. simpl. split; [|done].
  intros ih [= <-]. split; [done|]. split; [done|]. split; [|done].
  destruct known as [k|]; [|by left]. right. bool_hyps. by subst.
Qed.

(** C8: what an accepted announce proves. Parsing any bytes returns a value or
    a length error, never a panic, and accepts only the exact layout of the
    fields it returns; validating them succeeds only if the destination hash is
    derived from the name and the announced key, the key is the known one where
    one is known, and the signature verifies over exactly the destination and
    the announce's fields. *)
Theorem announce_accept_sound payload hr max dest known scratch :
  length dest = DESTINATION_LENGTH →
  match parse payload hr max with
  | Ok v => payload = payload_of v ∧ wf_view v ∧ has_ratchet v = hr ∧ length (av_app_data v) ≤ max ∧
      (∀ ih, fst (validate v dest known scratch) = Ok ih →
         ih = identity_hash (av_public_key v) ∧
         dest = destination_hash_from_parts (av_name_hash v) (Some ih) ∧
         (known = None ∨ known = Some (av_public_key v)) ∧
         ed_verify (drop 32 (av_public_key v)) (signed_data dest v) (av_signature v) = true) ∧
      fst (validate v dest known scratch) ≠ Panic
  | Err AnnounceTooShort => length payload < ANNOUNCE_BASE_SIZE + if hr then RATCHET_SIZE else 0
  | Err AppDataTooLong => ANNOUNCE_BASE_SIZE + (if hr then RATCHET_SIZE else 0) + max < length payload
  | _ => False
  end.
Proof.
  intros Hd. pose proof (parse_shape payload hr max) as Hs.
  destruct (parse payload hr max) as [v|e|]; [|done..].
  destruct Hs as (Hp & Hv & Hr & Ha). do 4 (split; [done|]). by apply validate_sound.
Qed.
End properties.

(** * Witnesses *)

Module IdentityExample.
Definition key : list Z := seqZ 0 64.
Definition nh : list Z := replicate 10 3%Z.
Definition rh : list Z := replicate 10 4%Z.
End IdentityExample.

Lemma announce_create_validate_witness :
  let _ := Toy.sha256 in let _ := Toy.ed25519 in let _ := Toy.x25519 in
  ∃ n out', create_announce_with_name_hash (from_private_key IdentityExample.key) IdentityExample.nh
              IdentityExample.rh None [1; 2; 3]%Z (zeros 200) = (Ok n, out') ∧ n = 151 ∧
    ∃ v, parse (take n out') false 333 = Ok v ∧ av_app_data v = [1; 2; 3]%Z.
Proof.
  intros s e x.
  pose proof (announce_create_validate (SHA := s) (ED := e) (X := x) IdentityExample.key
    IdentityExample.nh IdentityExample.rh None [1; 2; 3]%Z (zeros 200) 333 None (zeros 500)
    eq_refl eq_refl ltac:(done) ltac:(simpl; lia)) as H.
  assert (Hsc : SIGNED_DATA_MAX ≤ length (zeros 500)) by (vm_compute; lia).
  specialize (H Hsc). cbv zeta in H.
  assert (Hn : fst (create_announce_with_name_hash (from_private_key IdentityExample.key)
    IdentityExample.nh IdentityExample.rh None [1; 2; 3]%Z (zeros 200)) = Ok 151) by reflexivity.
  destruct (create_announce_with_name_hash _ _ _ _ _ _) as [r out']. simpl in Hn. subst r.
  destruct H as (_ & _ & _ & v & Hp & _ & _ & _ & _ & Ha & _).
  exists 151, out'. split; [done|]. split; [done|]. exists v. split; [exact Hp|exact Ha].
Defined.

(** A created announce, accepted: its signature covers the destination. *)
Lemma announce_accept_sound_witness :
  let _ := Toy.sha256 in let _ := Toy.ed25519 in let _ := Toy.x25519 in
  let id := from_private_key IdentityExample.key in
  let dest := destination_hash_from_parts IdentityExample.nh (Some (li_identity_hash id)) in
  let payload := take 151 (snd (create_announce_with_name_hash id IdentityExample.nh
    IdentityExample.rh None [1; 2; 3]%Z (zeros 200))) in
  ∃ v, parse payload false 333 = Ok v ∧ payload = payload_of v ∧
    ed_verify (drop 32 (av_public_key v)) (signed_data dest v) (av_signature v) = true.
Proof.
  intros s e x id dest payload.
  pose proof (announce_accept_sound (SHA := s) (ED := e) payload false 333 dest None (zeros 500)
    ltac:(vm_compute; reflexivity)) as H.
  assert (Hok : match parse payload false 333 with
    | Ok v => fst (validate v dest None (zeros 500)) = Ok (li_identity_hash id)
    | _ => False end) by (vm_compute; reflexivity).
  destruct (parse payload false 333) as [v|e0|]; [|destruct Hok..].
  destruct H as (Hp & _ & _ & _ & Hv & _). exists v. split; [done|]. split; [exact Hp|].
  apply (Hv _ Hok).
Defined.
