(* ===== verification/KnownDestinations.v ===== *)
(** The store of known delivery destinations (src/src/known_destinations.rs):
    learning and recalling public keys with least-recently-used eviction, and
    the versioned blob the store is saved as.

    A store is an array of [N] entries with a visible length; its abstraction is
    the list of visible entries. *)

From S2P Require Import Prelude Constants Primitives Wire Slots Identity.

Definition KNOWN_DESTINATIONS_SMALL : nat := 128.
Definition KNOWN_DESTINATIONS_MICRO : nat := 64.

(** "RKD1" as bytes. *)
Definition BLOB_MAGIC : list Z := [82; 75; 68; 49]%Z.
Definition BLOB_VERSION : Z := 1.
Definition BLOB_HEADER_LEN : nat := 7.
Definition ENTRY_LEN : nat := DESTINATION_LENGTH + PUBLIC_KEY_LENGTH + 8.

Record KnownDestination := {
  kd_destination_hash : list Z;
  kd_public_key : list Z;
  kd_last_seen : Z
}.

Definition EMPTY_ENTRY : KnownDestination :=
  {| kd_destination_hash := zeros DESTINATION_LENGTH; kd_public_key := zeros PUBLIC_KEY_LENGTH;
     kd_last_seen := 0 |}.

Inductive KnownDestinationError :=
| EmptyCapacity | KeyConflict | KnownOutputTooSmall | InvalidHeader | UnsupportedVersion
| CountTooLarge | InvalidLength | KnownHashMismatch | DuplicateDestination.

Record KnownDestinations := { kds_entries : list KnownDestination; kds_len : nat }.

Definition with_last_seen (z : Z) (e : KnownDestination) : KnownDestination :=
  {| kd_destination_hash := kd_destination_hash e; kd_public_key := kd_public_key e;
     kd_last_seen := z |}.

(** [iter().enumerate().min_by_key(|(_, entry)| entry.last_seen)], which returns
    the first of several minima, with the least value. *)
Fixpoint least_recent (l : list KnownDestination) : option (nat * Z) :=
  match l with
  | [] => None
  | e :: rest =>
      match least_recent rest with
      | Some (i, z) => if (z <? kd_last_seen e)%Z then Some (S i, z) else Some (0, kd_last_seen e)
      | None => Some (0, kd_last_seen e)
      end
  end.

Module KnownDestinations.
Section known.
Context `{SHA : Sha256}.

Definition delivery_destination_hash (public_key : list Z) : list Z :=
  destination_hash_from_name LXMF_DELIVERY_NAME (Some (identity_hash public_key)).

Definition capacity (t : KnownDestinations) : nat := length (kds_entries t).

(** [self.entries[..self.len]] *)
Definition visible (t : KnownDestinations) : list KnownDestination := take (kds_len t) (kds_entries t).

Definition new (N : nat) : KnownDestinations :=
  {| kds_entries := replicate N EMPTY_ENTRY; kds_len := 0 |}.

Definition is_empty (t : KnownDestinations) : bool := kds_len t =? 0.

Definition blob_capacity (N : nat) : nat := BLOB_HEADER_LEN + N * ENTRY_LEN.

Definition names (d : list Z) (e : KnownDestination) : bool := kd_destination_hash e =k d.

Definition next_recency (t : KnownDestinations) : Z :=
  sat_add64 (fold_left (λ m e, Z.max m (kd_last_seen e)) (visible t) 0%Z) 1.

Definition peek (d : list Z) (t : KnownDestinations) : option (list Z) :=
  kd_public_key <$> List.find (names d) (visible t).

Definition recall (d : list Z) (t : KnownDestinations) : option (list Z) * KnownDestinations :=
  match position (names d) (visible t) with
  | None => (None, t)
  | Some index =>
      (kd_public_key <$> kds_entries t !! index,
       {| kds_entries := alter (with_last_seen (next_recency t)) index (kds_entries t);
          kds_len := kds_len t |})
  end.

Definition learn (d public_key : list Z) (now : Z)
  : st KnownDestinations KnownDestinationError bool := λ t,
  if capacity t =? 0 then (Err EmptyCapacity, t)
  else
    match List.find (names d) (visible t) with
    | Some entry =>
        if kd_public_key entry =k public_key then (Ok false, t) else (Err KeyConflict, t)
    | None =>
        if negb (delivery_destination_hash public_key =k d) then (Err KnownHashMismatch, t)
        else
          let entry := {| kd_destination_hash := d; kd_public_key := public_key;
                          kd_last_seen := Z.max now (next_recency t) |} in
          if kds_len t <? capacity t then
            (Ok true, {| kds_entries := <[kds_len t := entry]> (kds_entries t);
                         kds_len := kds_len t + 1 |})
          else
            let oldest := match least_recent (visible t) with Some (i, _) => i | None => 0 end in
            (Ok true, {| kds_entries := <[oldest := entry]> (kds_entries t); kds_len := kds_len t |})
    end.

(** The loop writing the entries from [pos], returning the end position. *)
Fixpoint export_entries (pos : nat) (es : list KnownDestination) (out : list Z) : nat * list Z :=
  match es with
  | [] => (pos, out)
  | e :: rest =>
      let out := write_fields pos
        [kd_destination_hash e; kd_public_key e; be_bytes 8 (kd_last_seen e)] out in
      export_entries (pos + DESTINATION_LENGTH + PUBLIC_KEY_LENGTH + 8) rest out
  end.

(** The output slice is the state; [len as u16] keeps the low 16 bits. *)
Definition export_into (t : KnownDestinations) : st (list Z) KnownDestinationError nat := λ out,
  let needed := BLOB_HEADER_LEN + kds_len t * ENTRY_LEN in
  if length out <? needed then (Err KnownOutputTooSmall, out)
  else
    let out := write_fields 0 [BLOB_MAGIC; [BLOB_VERSION]; be_bytes 2 (Z.of_nat (kds_len t))] out in
    let (pos, out) := export_entries BLOB_HEADER_LEN (visible t) out in
    (Ok pos, out).

(** The slices are in range for an index below the count of a blob of the
    expected length. *)
Definition decode_entry (blob : list Z) (index : nat) (now : Z) : KnownDestination :=
  let pos := BLOB_HEADER_LEN + index * ENTRY_LEN in
  let dest := slice blob pos (pos + DESTINATION_LENGTH) in
  let pos := pos + DESTINATION_LENGTH in
  let key := slice blob pos (pos + PUBLIC_KEY_LENGTH) in
  let pos := pos + PUBLIC_KEY_LENGTH in
  let seen := slice blob pos (pos + 8) in
  {| kd_destination_hash := dest; kd_public_key := key; kd_last_seen := Z.min (of_be seen) now |}.

Definition validate_entry (blob : list Z) (now : Z) (index : nat)
  : outcome KnownDestinationError unit :=
  let entry := decode_entry blob index now in
  if negb (delivery_destination_hash (kd_public_key entry) =k kd_destination_hash entry)
  then Err KnownHashMismatch
  else if existsb (λ prior, names (kd_destination_hash entry) (decode_entry blob prior now))
            (seq 0 index)
  then Err DuplicateDestination
  else Ok tt.

Fixpoint validate_entries (blob : list Z) (now : Z) (indices : list nat)
  : outcome KnownDestinationError unit :=
  match indices with
  | [] => Ok tt
  | i :: rest => let* _ := validate_entry blob now i in validate_entries blob now rest
  end.

Definition import (blob : list Z) (now : Z) : st KnownDestinations KnownDestinationError unit := λ t,
  if (length blob <? BLOB_HEADER_LEN) || negb (take 4 blob =k BLOB_MAGIC) then (Err InvalidHeader, t)
  else if negb (blob !!! 4%nat =? BLOB_VERSION)%Z then (Err UnsupportedVersion, t)
  else
    let count := Z.to_nat (of_be [blob !!! 5%nat; blob !!! 6%nat]) in
    if capacity t <? count then (Err CountTooLarge, t)
    else
      let expected := BLOB_HEADER_LEN + count * ENTRY_LEN in
      if negb (length blob =? expected) then (Err InvalidLength, t)
      else
        match validate_entries blob now (seq 0 count) with
        | Err e => (Err e, t)
        | Panic => (Panic, t)
        | Ok _ =>
            (Ok tt, {| kds_entries := fold_left (λ es i, <[i := decode_entry blob i now]> es)
                                        (seq 0 count) (replicate (capacity t) EMPTY_ENTRY);
                       kds_len := count |})
        end.

(** ** Invariant and reference blob *)

Definition good (e : KnownDestination) : Prop :=
  kd_destination_hash e = delivery_destination_hash (kd_public_key e) ∧
  length (kd_public_key e) = PUBLIC_KEY_LENGTH ∧ bytes (kd_public_key e) ∧ in_u64 (kd_last_seen e).

Record ok (t : KnownDestinations) : Prop := {
  ok_len : kds_len t ≤ capacity t;
  ok_unique : NoDup (kd_destination_hash <$> visible t);
  ok_good : Forall good (visible t)
}.

(** The bytes of one entry and of a whole store. *)
Definition entry_bytes (e : KnownDestination) : list Z :=
  kd_destination_hash e ++ kd_public_key e ++ be_bytes 8 (kd_last_seen e).

Definition blob_of (es : list KnownDestination) : list Z :=
  BLOB_MAGIC ++ [BLOB_VERSION] ++ be_bytes 2 (Z.of_nat (length es)) ++ concat (entry_bytes <$> es).

Definition clamp (now : Z) (e : KnownDestination) : KnownDestination :=
  with_last_seen (Z.min (kd_last_seen e) now) e.

(** ** Searches by destination *)

Implicit Types l : list KnownDestination.

Lemma names_true d e : names d e = true ↔ kd_destination_hash e = d.
Proof. apply bool_decide_eq_true. Qed.

Lemma find_names l d e :
  NoDup (kd_destination_hash <$> l) →
  List.find (names d) l = Some e ↔ e ∈ l ∧ kd_destination_hash e = d.
Proof.
  intros Hnd. split.
  - intros [He Hn]%List.find_some. split; [by apply list_elem_of_In|by apply names_true].
  - intros [He Hd]. destruct (List.find (names d) l) as [e'|] eqn:Hf.
    + apply List.find_some in Hf as [He' Hn]. apply list_elem_of_In in He'.
      apply names_true in Hn. f_equal.
      apply list_elem_of_lookup in He as [i Hi], He' as [j Hj].
      assert (i = j) as ->; [|congruence].
      eapply (NoDup_lookup _ i j d Hnd); rewrite list_lookup_fmap, ?Hi, ?Hj; simpl; congruence.
    + apply list_elem_of_In, (List.find_none _ _ Hf) in He. apply names_true in Hd. congruence.
Qed.

Lemma find_names_None l d :
  List.find (names d) l = None ↔ ∀ e, e ∈ l → kd_destination_hash e ≠ d.
Proof.
  split.
  - intros Hf e He Hd. apply list_elem_of_In in He. apply (List.find_none _ _ Hf) in He.
    apply names_true in Hd. congruence.
  - intros H. destruct (List.find (names d) l) as [e|] eqn:Hf; [|done].
    apply List.find_some in Hf as [He Hn]. apply names_true in Hn.
    by apply list_elem_of_In, H in He.
Qed.

(** A search sees only the destinations and keys. *)
Lemma find_pairs_ext l l' d :
  (λ e, (kd_destination_hash e, kd_public_key e)) <$> l
    = (λ e, (kd_destination_hash e, kd_public_key e)) <$> l' →
  kd_public_key <$> List.find (names d) l = kd_public_key <$> List.find (names d) l'.
Proof.
  revert l'. induction l as [|e l IH]; intros [|e' l'] H; simpl in H; [done..|].
  injection H as Hd Hk Hl. simpl. unfold names. rewrite Hd.
  destruct (bool_decide _); [cbn; congruence|]. by apply IH.
Qed.

Lemma nodup_replace l i old x :
  NoDup (kd_destination_hash <$> l) → l !! i = Some old →
  (∀ e, e ∈ l → kd_destination_hash e ≠ kd_destination_hash x) →
  NoDup (kd_destination_hash <$> <[i := x]> l).
Proof.
  intros Hnd Hi Hf. rewrite list_fmap_insert. rewrite NoDup_alt. intros a b d Ha Hb.
  assert (Hne : ∀ j, (kd_destination_hash <$> l) !! j ≠ Some (kd_destination_hash x)).
  { intros j Hj. rewrite list_lookup_fmap in Hj. apply fmap_Some in Hj as (e & He & Hx).
    apply (Hf e); [by eapply list_elem_of_lookup_2|done]. }
  rewrite list_lookup_insert_Some in Ha, Hb.
  destruct Ha as [(<- & <- & ?)|[? Ha]], Hb as [(<- & ? & ?)|[? Hb]];
    [done|by destruct (Hne b)|subst; by destruct (Hne a)|].
  by eapply (NoDup_lookup _ a b d Hnd).
Qed.

(** Replacing one entry by a fresh one. *)
Lemma find_replace l i old x d :
  NoDup (kd_destination_hash <$> l) → l !! i = Some old →
  (∀ e, e ∈ l → kd_destination_hash e ≠ kd_destination_hash x) →
  d ≠ kd_destination_hash x →
  List.find (names d) (<[i := x]> l) =
    if bool_decide (d = kd_destination_hash old) then None else List.find (names d) l.
Proof.
  intros Hnd Hi Hf Hd. pose proof (nodup_replace l i old x Hnd Hi Hf) as Hnd'.
  pose proof (lookup_lt_Some _ _ _ Hi) as Hlt. case_bool_decide as Hc.
  - apply find_names_None. intros e He Hde. apply list_elem_of_lookup in He as [j Hj].
    apply list_lookup_insert_Some in Hj as [(<- & <- & _)|[Hij Hj]]; [done|].
    apply Hij. eapply (NoDup_lookup _ _ _ d Hnd); rewrite list_lookup_fmap, ?Hi, ?Hj; simpl; congruence.
  - apply option_eq. intros e. rewrite !find_names by done. split; intros [He Hde]; split; try done.
    + apply list_elem_of_lookup in He as [j Hj].
      apply list_lookup_insert_Some in Hj as [(<- & <- & _)|[Hij Hj]]; [done|].
      by eapply list_elem_of_lookup_2.
    + apply list_elem_of_lookup in He as [j Hj]. apply (list_elem_of_lookup_2 _ j).
      rewrite list_lookup_insert_ne; [done|]. intros <-. congruence.
Qed.

(** ** The visible entries after a write *)

Lemma length_visible t : kds_len t ≤ capacity t → length (visible t) = kds_len t.
Proof. unfold visible, capacity. intros. rewrite length_take. lia. Qed.

Lemma visible_push t x :
  kds_len t < capacity t →
  visible {| kds_entries := <[kds_len t := x]> (kds_entries t); kds_len := kds_len t + 1 |}
    = visible t ++ [x].
Proof.
  unfold visible, capacity. simpl. intros Hl. rewrite Nat.add_1_r.
  rewrite (take_S_r _ _ x) by (by apply list_lookup_insert_eq).
  f_equal. rewrite take_insert. by case_decide; [lia|].
Qed.

Lemma visible_insert t i x :
  i < kds_len t →
  visible {| kds_entries := <[i := x]> (kds_entries t); kds_len := kds_len t |}
    = <[i := x]> (visible t).
Proof. intros Hi. unfold visible. simpl. rewrite take_insert. by case_decide; [|lia]. Qed.

Lemma lookup_visible t i e : visible t !! i = Some e → kds_entries t !! i = Some e ∧ i < kds_len t.
Proof. unfold visible. rewrite lookup_take_Some. naive_solver. Qed.

Lemma visible_alter t i z e :
  visible t !! i = Some e →
  visible {| kds_entries := alter (with_last_seen z) i (kds_entries t); kds_len := kds_len t |}
    = <[i := with_last_seen z e]> (visible t).
Proof.
  intros Hi. destruct (lookup_visible _ _ _ Hi) as [He Hlt].
  rewrite <- visible_insert by done. f_equal. f_equal. apply list_eq. intros j.
  destruct (decide (i = j)) as [<-|Hne].
  - rewrite list_lookup_alter_eq, He, list_lookup_insert_eq; [done|]. by eapply lookup_lt_Some.
  - by rewrite list_lookup_alter_ne, list_lookup_insert_ne.
Qed.

(** ** Recency *)

Lemma fold_recency l m :
  (m ≤ fold_left (λ m e, Z.max m (kd_last_seen e)) l m)%Z ∧
  (∀ e, e ∈ l → (kd_last_seen e ≤ fold_left (λ m e, Z.max m (kd_last_seen e)) l m)%Z) ∧
  ((m ≤ u64_max)%Z → (∀ e, e ∈ l → (kd_last_seen e ≤ u64_max)%Z) →
   (fold_left (λ m e, Z.max m (kd_last_seen e)) l m ≤ u64_max)%Z) ∧
  (∀ b, (m < b)%Z → (∀ e, e ∈ l → (kd_last_seen e < b)%Z) →
   (fold_left (λ m e, Z.max m (kd_last_seen e)) l m < b)%Z).
Proof.
  revert m. induction l as [|x l IH]; intros m; simpl.
  - split; [lia|]. split; [intros e He; by apply not_elem_of_nil in He|]. split; auto.
  - destruct (IH (Z.max m (kd_last_seen x))) as (H1 & H2 & H3 & H4).
    split; [lia|]. split; [|split].
    + intros e [->|He]%elem_of_cons; [lia|auto].
    + intros Hm Hu. apply H3; [|intros; apply Hu; by right].
      pose proof (Hu x ltac:(by left)). lia.
    + intros b Hm Hu. apply H4; [|intros; apply Hu; by right].
      pose proof (Hu x ltac:(by left)). lia.
Qed.

Lemma next_recency_range t : ok t → in_u64 (next_recency t).
Proof.
  intros Ht. unfold next_recency. apply sat_add64_range; [|lia]. apply fold_recency.
Qed.

Lemma next_recency_ge t e : e ∈ visible t → in_u64 (kd_last_seen e) → (kd_last_seen e ≤ next_recency t)%Z.
Proof.
  intros He Hu. unfold next_recency, sat_add64.
  destruct (fold_recency (visible t) 0%Z) as (_ & H & _). specialize (H e He).
  unfold in_u64 in Hu. lia.
Qed.

(** Short of saturation a fresh recency is above every entry's. *)
Lemma next_recency_gt t e :
  (∀ x, x ∈ visible t → (kd_last_seen x < u64_max)%Z) → e ∈ visible t →
  (kd_last_seen e < next_recency t)%Z.
Proof.
  intros Hs He. unfold next_recency, sat_add64.
  destruct (fold_recency (visible t) 0%Z) as (_ & H & _). specialize (H e He).
  specialize (Hs e He). lia.
Qed.

Lemma least_recent_spec l :
  match least_recent l with
  | None => l = []
  | Some (i, z) => ∃ e, l !! i = Some e ∧ kd_last_seen e = z ∧
      ∀ e', e' ∈ l → (z ≤ kd_last_seen e')%Z
  end.
Proof.
  induction l as [|x l IH]; simpl; [done|].
  destruct (least_recent l) as [[i z]|].
  - destruct IH as (e & Hi & Hz & Hmin). destruct (z <? kd_last_seen x)%Z eqn:Hlt; bool_hyps.
    + exists e. split; [done|]. split; [done|]. intros e' [->|He]%elem_of_cons; [lia|auto].
    + exists x. split; [done|]. split; [done|].
      intros e' [->|He]%elem_of_cons; [lia|]. specialize (Hmin e' He). lia.
  - subst l. exists x. split; [done|]. split; [done|].
    intros e' He%list_elem_of_singleton. by subst.
Qed.

(** ** Recall *)

Lemma recall_spec d t :
  ok t →
  match recall d t with
  | (None, t') => t' = t ∧ ∀ e, e ∈ visible t → kd_destination_hash e ≠ d
  | (Some k, t') => kds_len t' = kds_len t ∧ capacity t' = capacity t ∧
      ∃ i e, visible t !! i = Some e ∧ kd_destination_hash e = d ∧ kd_public_key e = k ∧
        visible t' = <[i := with_last_seen (next_recency t) e]> (visible t)
  end.
Proof.
  intros Ht. unfold recall. destruct (position (names d) (visible t)) as [i|] eqn:Hp.
  - apply position_Some in Hp as (e & Hi & Hn & _). apply names_true in Hn.
    destruct (lookup_visible _ _ _ Hi) as [He _]. rewrite He. cbn [fmap option_fmap option_map].
    split; [done|]. split; [unfold capacity; simpl; by rewrite length_alter|].
    exists i, e. by rewrite (visible_alter _ _ _ e).
  - split; [done|]. intros e He Hd. apply list_elem_of_lookup in He as [i Hi].
    rewrite position_None in Hp. specialize (Hp i e Hi). apply names_true in Hd. congruence.
Qed.

Lemma touched_pairs l i z e :
  l !! i = Some e →
  (λ e, (kd_destination_hash e, kd_public_key e)) <$> <[i := with_last_seen z e]> l
    = (λ e, (kd_destination_hash e, kd_public_key e)) <$> l.
Proof.
  intros Hi. rewrite list_fmap_insert. apply list_insert_id. by rewrite list_lookup_fmap, Hi.
Qed.

Lemma recall_len d t :
  ok t → kds_len (snd (recall d t)) = kds_len t ∧ capacity (snd (recall d t)) = capacity t.
Proof.
  intros Ht. pose proof (recall_spec d t Ht) as Hr.
  destruct (recall d t) as [[?|] t1]; cbn [snd] in *; [by destruct Hr as (? & ? & _)|by destruct Hr as [-> _]].
Qed.

Lemma recall_ok d t : ok t → ok (snd (recall d t)).
Proof.
  intros Ht. pose proof (recall_spec d t Ht) as Hr.
  destruct (recall d t) as [[k|] t']; simpl; [|by destruct Hr as [-> _]].
  destruct Hr as (Hl & Hc & i & e & Hi & Hd & _ & Hv). split; rewrite ?Hl, ?Hc, ?Hv.
  - apply Ht.
  - rewrite list_fmap_insert, list_insert_id; [apply Ht|]. by rewrite list_lookup_fmap, Hi.
  - apply Forall_insert; [apply Ht|].
    destruct (proj1 (Forall_lookup _ _) (ok_good t Ht) i e Hi) as (H1 & H2 & H3 & _).
    split; [done|]. split; [done|]. split; [done|]. by apply next_recency_range.
Qed.

Lemma recall_peek d t d' : ok t → peek d' (snd (recall d t)) = peek d' t.
Proof.
  intros Ht. pose proof (recall_spec d t Ht) as Hr.
  destruct (recall d t) as [[k|] t']; simpl; [|by destruct Hr as [-> _]].
  destruct Hr as (_ & _ & i & e & Hi & _ & _ & Hv). unfold peek. rewrite Hv.
  apply find_pairs_ext. by apply touched_pairs.
Qed.

Lemma recall_returns d t : ok t → fst (recall d t) = peek d t.
Proof.
  intros Ht. pose proof (recall_spec d t Ht) as Hr. unfold peek.
  destruct (recall d t) as [[k|] t']; simpl.
  - destruct Hr as (_ & _ & i & e & Hi & Hd & <- & _).
    rewrite (proj2 (find_names _ d e (ok_unique t Ht))); [done|]. split; [|done].
    by eapply list_elem_of_lookup_2.
  - destruct Hr as (_ & Hn). by rewrite (proj2 (find_names_None _ _) Hn).
Qed.

(** ** Learning a destination not in the store *)

Definition fresh_entry (d public_key : list Z) (now : Z) (t : KnownDestinations) : KnownDestination :=
  {| kd_destination_hash := d; kd_public_key := public_key;
     kd_last_seen := Z.max now (next_recency t) |}.

(** What a new destination does to the visible entries. *)
Definition admitted (x : KnownDestination) (t t' : KnownDestinations) : Prop :=
  capacity t' = capacity t ∧
  (kds_len t < capacity t → kds_len t' = kds_len t + 1 ∧ visible t' = visible t ++ [x]) ∧
  (kds_len t = capacity t → kds_len t' = kds_len t ∧
     ∃ i old, visible t !! i = Some old ∧ visible t' = <[i := x]> (visible t) ∧
       ∀ e, e ∈ visible t → (kd_last_seen old ≤ kd_last_seen e)%Z).

Lemma learn_spec d k now t :
  ok t →
  match learn d k now t with
  | (Ok true, t') => peek d t = None ∧ 0 < capacity t ∧ delivery_destination_hash k = d ∧
      admitted (fresh_entry d k now t) t t'
  | (Ok false, t') => t' = t ∧ peek d t = Some k
  | (Err KeyConflict, t') => t' = t ∧ ∃ k', peek d t = Some k' ∧ k' ≠ k
  | (Err KnownHashMismatch, t') => t' = t ∧ peek d t = None ∧ delivery_destination_hash k ≠ d
  | (Err EmptyCapacity, t') => t' = t ∧ capacity t = 0
  | _ => False
  end.
Proof.
  intros Ht. unfold learn, peek. destruct (capacity t =? 0) eqn:Hc; bool_hyps; [done|].
  destruct (List.find (names d) (visible t)) as [e|] eqn:Hf; cbn [fmap option_fmap option_map].
  - destruct (bool_decide _) eqn:Hk; bool_hyps; [by subst|]. split; [done|]. by exists (kd_public_key e).
  - destruct (bool_decide _) eqn:Hk; cbn [negb]; bool_hyps; [|done].
    fold (fresh_entry d k now t). destruct (kds_len t <? capacity t) eqn:Hl; bool_hyps.
    + split; [done|]. split; [lia|]. split; [done|]. split; [unfold capacity; simpl; by rewrite length_insert|].
      split; [|lia]. intros _. split; [done|]. by apply visible_push.
    + pose proof (ok_len t Ht) as Hle. pose proof (least_recent_spec (visible t)) as Ho.
      pose proof (length_visible t Hle) as Hlen.
      destruct (least_recent (visible t)) as [[i z]|]; [|rewrite Ho in Hlen; simpl in Hlen; lia].
      destruct Ho as (old & Hi & <- & Hmin).
      split; [done|]. split; [lia|]. split; [done|]. split; [unfold capacity; simpl; by rewrite length_insert|].
      split; [lia|]. intros _. split; [done|]. exists i, old. split; [done|]. split; [|done].
      apply visible_insert. by apply lookup_visible in Hi as [_ ?].
Qed.

Lemma peek_None_fresh d t : peek d t = None → ∀ e, e ∈ visible t → kd_destination_hash e ≠ d.
Proof. unfold peek. rewrite fmap_None. apply find_names_None. Qed.

Lemma admitted_ok x t t' :
  ok t → peek (kd_destination_hash x) t = None → 0 < capacity t → good x → admitted x t t' → ok t'.
Proof.
  intros Ht Hp Hc Hx (Hcap & Hroom & Hfull). pose proof (peek_None_fresh _ _ Hp) as Hf.
  pose proof (ok_len t Ht) as Hle. pose proof (ok_good t Ht) as Hg. pose proof (ok_unique t Ht) as Hu.
  destruct (decide (kds_len t < capacity t)) as [Hlt|Hge].
  - destruct (Hroom Hlt) as [Hl Hv]. split; rewrite ?Hv, ?Hl, ?Hcap; [lia| |].
    + rewrite fmap_app. apply NoDup_app. split; [done|]. split; [|apply NoDup_singleton].
      intros d (e & -> & He)%list_elem_of_fmap Hd%list_elem_of_singleton. by destruct (Hf e He).
    + apply Forall_app. by split; [|constructor].
  - destruct Hfull as (Hl & i & old & Hi & Hv & _); [lia|].
    split; rewrite ?Hv, ?Hl, ?Hcap; [lia| |by apply Forall_insert].
    by eapply nodup_replace.
Qed.

Lemma find_names_app l x d :
  List.find (names d) (l ++ [x]) =
    match List.find (names d) l with Some e => Some e | None => if names d x then Some x else None end.
Proof. induction l as [|e l IH]; simpl; [done|]. by destruct (names d e). Qed.

Lemma admitted_room x t t' d :
  peek (kd_destination_hash x) t = None → admitted x t t' → kds_len t < capacity t →
  peek d t' = if bool_decide (d = kd_destination_hash x) then Some (kd_public_key x) else peek d t.
Proof.
  intros Hp (_ & Hroom & _) Hlt. destruct (Hroom Hlt) as [_ Hv].
  unfold peek in *. rewrite Hv, find_names_app. case_bool_decide as Hd.
  - subst d. apply fmap_None in Hp. rewrite Hp, (proj2 (names_true _ x) eq_refl). done.
  - destruct (List.find (names d) (visible t)); [done|].
    destruct (names d x) eqn:Hn; [|done]. apply names_true in Hn. congruence.
Qed.

(** What a full store gives up. *)
Definition evicts (x : KnownDestination) (t t' : KnownDestinations) (old : KnownDestination) : Prop :=
  old ∈ visible t ∧ (∀ e, e ∈ visible t → (kd_last_seen old ≤ kd_last_seen e)%Z) ∧
  peek (kd_destination_hash old) t' = None ∧
  ∀ d, d ≠ kd_destination_hash x → d ≠ kd_destination_hash old → peek d t' = peek d t.

Lemma admitted_full x t t' :
  ok t → ok t' → peek (kd_destination_hash x) t = None → admitted x t t' → kds_len t = capacity t →
  peek (kd_destination_hash x) t' = Some (kd_public_key x) ∧ ∃ old, evicts x t t' old.
Proof.
  intros Ht Ht' Hp (_ & _ & Hfull) Hge. pose proof (peek_None_fresh _ _ Hp) as Hf.
  destruct (Hfull Hge) as (_ & i & old & Hi & Hv & Hmin).
  assert (Hold : old ∈ visible t) by (by eapply list_elem_of_lookup_2).
  split.
  - unfold peek. rewrite (proj2 (find_names _ _ x (ok_unique t' Ht'))); [done|]. split; [|done].
    rewrite Hv. apply (list_elem_of_lookup_2 _ i), list_lookup_insert_eq. by eapply lookup_lt_Some.
  - exists old. split; [done|]. split; [done|]. unfold peek. rewrite Hv. split.
    + rewrite (find_replace _ i old) by (try done; try apply Ht; by apply Hf).
      by rewrite bool_decide_eq_true_2.
    + intros d Hd Hd'. rewrite (find_replace _ i old) by (done || apply Ht).
      by rewrite bool_decide_eq_false_2.
Qed.

(** A recalled destination is not what a full store of two or more gives up. *)
Lemma recalled_survives d t x t' old :
  ok t → 2 ≤ capacity t → kds_len t = capacity t →
  (∀ e, e ∈ visible t → (kd_last_seen e < u64_max)%Z) →
  is_Some (peek d t) → evicts x (snd (recall d t)) t' old → kd_destination_hash old ≠ d.
Proof.
  intros Ht Hc Hl Hs Hd (Ho & Hmin & _) Heq. rewrite <- (recall_returns d t Ht) in Hd.
  pose proof (recall_spec d t Ht) as Hr.
  destruct (recall d t) as [[k|] t1]; simpl in *; [|by destruct Hd].
  destruct Hr as (_ & _ & i & e & Hi & Hde & _ & Hv). rewrite Hv in Ho, Hmin.
  pose proof (length_visible t (ok_len t Ht)) as Hlen.
  assert (Hj : ∃ j e', j ≠ i ∧ visible t !! j = Some e').
  { destruct (decide (i = 0)) as [->|Hne].
    - destruct (lookup_lt_is_Some_2 (visible t) 1) as [e' He']; [lia|]. exists 1, e'. by split.
    - destruct (lookup_lt_is_Some_2 (visible t) 0) as [e' He']; [lia|]. exists 0, e'. by split. }
  destruct Hj as (j & e' & Hji & Hj).
  assert (He' : e' ∈ visible t) by (by eapply list_elem_of_lookup_2).
  assert (Hle : (kd_last_seen old ≤ kd_last_seen e')%Z).
  { apply Hmin, (list_elem_of_lookup_2 _ j). by rewrite list_lookup_insert_ne. }
  pose proof (next_recency_gt t e' Hs He').
  apply list_elem_of_lookup in Ho as [a Ha].
  apply list_lookup_insert_Some in Ha as [(<- & <- & _)|[Hia Ha]]; [simpl in Hle; lia|].
  apply Hia. eapply (NoDup_lookup _ _ _ d (ok_unique t Ht)); rewrite list_lookup_fmap, ?Hi, ?Ha;
    simpl; congruence.
Qed.

(** ** The blob *)

Lemma delivery_hash_length k : length (delivery_destination_hash k) = DESTINATION_LENGTH.
Proof. apply length_destination_hash. Qed.

Lemma length_entry_bytes e : good e → length (entry_bytes e) = ENTRY_LEN.
Proof.
  intros (Hd & Hk & _). unfold entry_bytes.
  rewrite !length_app, Hd, delivery_hash_length, Hk, length_be_bytes. done.
Qed.

Lemma length_entries l : Forall good l → length (concat (entry_bytes <$> l)) = length l * ENTRY_LEN.
Proof.
  induction 1 as [|e l He Hl IH]; [done|]. rewrite fmap_cons. cbn [concat].
  rewrite length_app, length_entry_bytes, IH by done. simpl length. lia.
Qed.

Lemma length_blob_of l : Forall good l → length (blob_of l) = BLOB_HEADER_LEN + length l * ENTRY_LEN.
Proof.
  intros Hl. unfold blob_of. rewrite !length_app, length_entries by done.
  rewrite length_be_bytes. done.
Qed.

Lemma export_entries_spec l : ∀ pos out,
  Forall good l → pos + length l * ENTRY_LEN ≤ length out →
  export_entries pos l out = (pos + length l * ENTRY_LEN, splice pos (concat (entry_bytes <$> l)) out).
Proof.
  induction l as [|e l IH]; intros pos out Hg Hl.
  - cbn. unfold splice. cbn [length app]. by rewrite !Nat.add_0_r, take_drop.
  - apply Forall_cons in Hg as [He Hg]. pose proof (length_entry_bytes e He) as Hlen.
    cbn [export_entries length] in *.
    assert (Hc : concat [kd_destination_hash e; kd_public_key e; be_bytes 8 (kd_last_seen e)]
      = entry_bytes e) by (unfold entry_bytes; cbn [concat]; by rewrite app_nil_r).
    rewrite write_fields_spec, Hc by (rewrite Hc; lia).
    replace (pos + DESTINATION_LENGTH + PUBLIC_KEY_LENGTH + 8) with (pos + length (entry_bytes e))
      by (rewrite Hlen; unfold ENTRY_LEN; lia).
    rewrite IH by (done || rewrite length_splice; lia).
    rewrite splice_splice by (rewrite length_entries by done; lia).
    rewrite fmap_cons. cbn [concat]. f_equal. rewrite Hlen. lia.
Qed.

Lemma export_spec t out :
  ok t →
  export_into t out =
    let n := BLOB_HEADER_LEN + kds_len t * ENTRY_LEN in
    if length out <? n then (Err KnownOutputTooSmall, out)
    else (Ok n, blob_of (visible t) ++ drop n out).
Proof.
  intros Ht. unfold export_into. cbv zeta. destruct (length out <? _) eqn:Hl; [done|]. bool_hyps.
  pose proof (length_visible t (ok_len t Ht)) as Hv.
  set (hdr := concat [BLOB_MAGIC; [BLOB_VERSION]; be_bytes 2 (Z.of_nat (kds_len t))]).
  assert (Hh : length hdr = BLOB_HEADER_LEN) by done.
  rewrite write_fields_spec by (fold hdr; lia). fold hdr.
  rewrite export_entries_spec by (try apply Ht; rewrite length_splice; lia).
  rewrite Hv. f_equal. replace BLOB_HEADER_LEN with (0 + length hdr) at 1 by (by rewrite Hh).
  rewrite splice_splice, splice_0 by (rewrite length_entries by apply Ht; lia).
  unfold blob_of. rewrite Hv.
  rewrite length_app, length_entries, Hh, Hv by apply Ht. f_equal.
Qed.

(** ** Decoding *)

Lemma decode_entry_of l i e now :
  Forall good l → l !! i = Some e → decode_entry (blob_of l) i now = clamp now e.
Proof.
  intros Hg Hi. pose proof (proj1 (Forall_lookup _ _) Hg i e Hi) as (Hd & Hk & Hb & Hu).
  pose proof (lookup_lt_Some _ _ _ Hi) as Hlt.
  assert (Hsplit : ∃ a b, blob_of l = a ++ entry_bytes e ++ b
    ∧ length a = BLOB_HEADER_LEN + i * ENTRY_LEN).
  { exists (BLOB_MAGIC ++ [BLOB_VERSION] ++ be_bytes 2 (Z.of_nat (length l))
            ++ concat (entry_bytes <$> take i l)), (concat (entry_bytes <$> drop (S i) l)). split.
    - unfold blob_of. rewrite <- (take_drop_middle l i e Hi) at 2.
      rewrite fmap_app, concat_app, fmap_cons. cbn [concat]. by rewrite <- !app_assoc.
    - rewrite !length_app, length_entries by (by apply Forall_take).
      rewrite length_take, length_be_bytes. change (length BLOB_MAGIC) with 4. simpl (length [_]).
      unfold BLOB_HEADER_LEN. lia. }
  destruct Hsplit as (a & b & -> & Ha).
  assert (Hdl : length (kd_destination_hash e) = DESTINATION_LENGTH)
    by (rewrite Hd; apply delivery_hash_length).
  unfold decode_entry, entry_bytes, clamp, with_last_seen. rewrite <- Ha, <- !app_assoc. f_equal.
  - apply slice_app_exact; lia.
  - rewrite app_assoc. apply slice_app_exact; rewrite length_app; lia.
  - f_equal. rewrite !app_assoc, <- (app_assoc _ (be_bytes 8 _)).
    rewrite slice_app_exact by (rewrite !length_app, ?length_be_bytes; lia).
    apply of_be_be_bytes. unfold_u64. simpl. lia.
Qed.

(** An entry decoded without clamping is the bytes it came from. *)
Lemma entry_bytes_decode blob i :
  bytes blob → BLOB_HEADER_LEN + (i + 1) * ENTRY_LEN ≤ length blob →
  entry_bytes (decode_entry blob i u64_max)
    = slice blob (BLOB_HEADER_LEN + i * ENTRY_LEN) (BLOB_HEADER_LEN + (i + 1) * ENTRY_LEN).
Proof.
  intros Hb Hl. unfold entry_bytes, decode_entry. cbn [kd_destination_hash kd_public_key kd_last_seen].
  set (p := BLOB_HEADER_LEN + i * ENTRY_LEN).
  assert (Hp : BLOB_HEADER_LEN + (i + 1) * ENTRY_LEN = p + DESTINATION_LENGTH + PUBLIC_KEY_LENGTH + 8)
    by (unfold p, ENTRY_LEN; lia).
  rewrite Hp in *.
  set (q := p + DESTINATION_LENGTH) in *. set (r := q + PUBLIC_KEY_LENGTH) in *.
  assert (Hs : length (slice blob r (r + 8)) = 8) by (rewrite length_slice; lia).
  pose proof (of_be_bound (slice blob r (r + 8)) (bytes_slice _ _ _ Hb)) as Hbd. rewrite Hs in Hbd.
  rewrite Z.min_l by (change (256 ^ Z.of_nat 8)%Z with 18446744073709551616%Z in Hbd; unfold u64_max; lia).
  replace (be_bytes 8) with (be_bytes (length (slice blob r (r + 8)))) by (by rewrite Hs).
  rewrite be_bytes_of_be by (by apply bytes_slice).
  assert (p ≤ q ∧ q ≤ r) as [Hpq Hqr] by (subst r q; lia).
  rewrite slice_slice_app by lia. apply slice_slice_app; lia.
Qed.

Lemma clamp_decode blob i now :
  bytes blob → in_u64 now → clamp now (decode_entry blob i u64_max) = decode_entry blob i now.
Proof.
  intros Hb Hn. unfold clamp, with_last_seen, decode_entry.
  cbn [kd_destination_hash kd_public_key kd_last_seen]. f_equal. unfold in_u64 in Hn. lia.
Qed.

Lemma entries_of_slices blob n : ∀ s,
  bytes blob → BLOB_HEADER_LEN + (s + n) * ENTRY_LEN ≤ length blob →
  concat (entry_bytes <$> map (λ i, decode_entry blob i u64_max) (seq s n))
    = slice blob (BLOB_HEADER_LEN + s * ENTRY_LEN) (BLOB_HEADER_LEN + (s + n) * ENTRY_LEN).
Proof.
  induction n as [|n IH]; intros s Hb Hl.
  - rewrite Nat.add_0_r. unfold slice. by rewrite Nat.sub_diag.
  - cbn [seq map]. rewrite fmap_cons. cbn [concat].
    rewrite entry_bytes_decode by (done || lia). rewrite IH by (done || lia).
    replace (S s + n) with (s + S n) by lia. replace (S s) with (s + 1) by lia.
    apply slice_slice_app; lia.
Qed.

(** A blob whose header and length are right is the blob of the entries it
    decodes to. *)
Lemma blob_canonical blob n :
  bytes blob → length blob = BLOB_HEADER_LEN + n * ENTRY_LEN →
  take 4 blob = BLOB_MAGIC → blob !!! 4%nat = BLOB_VERSION →
  Z.to_nat (of_be [blob !!! 5%nat; blob !!! 6%nat]) = n →
  blob = blob_of (map (λ i, decode_entry blob i u64_max) (seq 0 n)).
Proof.
  intros Hb Hl Hm Hv Hn. unfold blob_of. rewrite length_map, length_seq.
  rewrite entries_of_slices by (done || lia). rewrite Nat.mul_0_l, Nat.add_0_l, <- Hl, slice_to_end.
  unfold BLOB_HEADER_LEN in Hl.
  destruct blob as [|m0 [|m1 [|m2 [|m3 [|v [|z3 [|z4 blob]]]]]]]; try (exfalso; simpl in Hl; lia).
  cbn in Hm. injection Hm as -> -> -> ->. cbn in Hv.
  change (Z.to_nat (of_be [z3; z4]) = n) in Hn. subst v n.
  assert (Hbb : bytes [z3; z4]) by (do 5 (apply Forall_cons in Hb as [_ Hb]);
    apply Forall_cons in Hb as [? Hb]; apply Forall_cons in Hb as [? Hb]; unfold bytes; rewrite !Forall_cons; auto).
  pose proof (of_be_bound [z3; z4] Hbb). rewrite Z2Nat.id by lia.
  change 2 with (length [z3; z4]). by rewrite be_bytes_of_be.
Qed.

Lemma fold_write (f : nat → KnownDestination) n : ∀ s l,
  s + n ≤ length l →
  fold_left (λ es i, <[i := f i]> es) (seq s n) l = take s l ++ map f (seq s n) ++ drop (s + n) l.
Proof.
  induction n as [|n IH]; intros s l Hl.
  - cbn. by rewrite Nat.add_0_r, take_drop.
  - cbn [seq fold_left map]. rewrite IH by (rewrite length_insert; lia).
    rewrite (take_S_r _ _ (f s)) by (apply list_lookup_insert_eq; lia).
    rewrite take_insert. case_decide; [lia|]. rewrite drop_insert_lt by lia.
    rewrite <- app_assoc. replace (S s + n) with (s + S n) by lia. done.
Qed.

(** ** Validation *)

Lemma validate_entries_cases blob now js :
  match validate_entries blob now js with
  | Ok _ => ∀ i, i ∈ js → validate_entry blob now i = Ok tt
  | Err _ => True
  | Panic => False
  end.
Proof.
  induction js as [|i js IH]; cbn [validate_entries].
  - intros i Hi. by apply not_elem_of_nil in Hi.
  - assert (Hv : validate_entry blob now i = Ok tt ∨ ∃ e, validate_entry blob now i = Err e)
      by (unfold validate_entry; destruct (negb _); [|destruct (existsb _ _)]; eauto).
    destruct Hv as [Hv|[e Hv]]; rewrite Hv; cbn [obind]; [|done].
    destruct (validate_entries blob now js); [|done..].
    intros j [->|Hj]%elem_of_cons; auto.
Qed.

Lemma validate_entry_Ok blob now i :
  validate_entry blob now i = Ok tt →
  let e := decode_entry blob i now in
  kd_destination_hash e = delivery_destination_hash (kd_public_key e) ∧
  ∀ j, j < i → kd_destination_hash (decode_entry blob j now) ≠ kd_destination_hash e.
Proof.
  unfold validate_entry. destruct (bool_decide _) eqn:Hd; cbn [negb]; [|done].
  destruct (existsb _ _) eqn:Hx; [done|]. intros _. bool_hyps. split; [done|].
  intros j Hj Heq. apply not_true_iff_false in Hx. apply Hx, existsb_exists. exists j.
  split; [apply in_seq; lia|]. by apply names_true.
Qed.

Lemma decoded_good blob now n :
  bytes blob → length blob = BLOB_HEADER_LEN + n * ENTRY_LEN → in_u64 now →
  (∀ i, i ∈ seq 0 n → validate_entry blob now i = Ok tt) →
  Forall good (map (λ i, decode_entry blob i now) (seq 0 n)) ∧
  NoDup (kd_destination_hash <$> map (λ i, decode_entry blob i now) (seq 0 n)).
Proof.
  intros Hb Hl Hn Hv.
  assert (Hlook : ∀ i e, map (λ i, decode_entry blob i now) (seq 0 n) !! i = Some e →
    i < n ∧ e = decode_entry blob i now).
  { intros i e Hi. rewrite list_lookup_fmap in Hi. apply fmap_Some in Hi as (j & Hj & ->).
    apply lookup_seq in Hj as [-> ?]. done. }
  assert (Hmem : ∀ i, i < n → i ∈ seq 0 n) by (intros; apply elem_of_seq; lia).
  split.
  - apply Forall_lookup. intros i e Hi. destruct (Hlook _ _ Hi) as [Hlt ->].
    destruct (validate_entry_Ok _ _ _ (Hv i (Hmem i Hlt))) as [Hd _].
    split; [exact Hd|]. cbn [decode_entry kd_public_key kd_last_seen].
    assert (BLOB_HEADER_LEN + i * ENTRY_LEN + ENTRY_LEN ≤ length blob) by (rewrite Hl; nia).
    unfold ENTRY_LEN in *.
    split; [rewrite length_slice; lia|]. split; [by apply bytes_slice|].
    pose proof (of_be_bound (slice blob (BLOB_HEADER_LEN + i * (DESTINATION_LENGTH + PUBLIC_KEY_LENGTH + 8)
      + DESTINATION_LENGTH + PUBLIC_KEY_LENGTH) (BLOB_HEADER_LEN + i * (DESTINATION_LENGTH + PUBLIC_KEY_LENGTH + 8)
      + DESTINATION_LENGTH + PUBLIC_KEY_LENGTH + 8)) (bytes_slice _ _ _ Hb)).
    unfold in_u64 in *. lia.
  - apply NoDup_alt. intros i j d Hi Hj. rewrite list_lookup_fmap in Hi, Hj.
    apply fmap_Some in Hi as (ei & Hi & ->), Hj as (ej & Hj & Hd).
    destruct (Hlook _ _ Hi) as [Hin ->], (Hlook _ _ Hj) as [Hjn ->].
    destruct (lt_eq_lt_dec i j) as [[Hij| ->]|Hij]; [exfalso|done|exfalso].
    + by apply (proj2 (validate_entry_Ok _ _ _ (Hv j (Hmem j Hjn))) i).
    + by apply (proj2 (validate_entry_Ok _ _ _ (Hv i (Hmem i Hin))) j).
Qed.

(** The store an accepted blob leaves. *)
Definition imported (blob : list Z) (now : Z) (n : nat) (t : KnownDestinations) : KnownDestinations :=
  {| kds_entries := fold_left (λ es i, <[i := decode_entry blob i now]> es) (seq 0 n)
                      (replicate (capacity t) EMPTY_ENTRY);
     kds_len := n |}.

Lemma imported_spec blob now n t :
  n ≤ capacity t →
  capacity (imported blob now n t) = capacity t ∧
  visible (imported blob now n t) = map (λ i, decode_entry blob i now) (seq 0 n).
Proof.
  intros Hn. unfold capacity at 1, visible, imported. cbn [kds_entries kds_len].
  rewrite (fold_write (λ i, decode_entry blob i now)) by (rewrite length_replicate; lia).
  rewrite take_0, Nat.add_0_l. cbn [app]. split.
  - rewrite length_app, length_map, length_seq, length_drop, length_replicate. lia.
  - rewrite take_app_le by (rewrite length_map, length_seq; lia).
    apply take_ge. rewrite length_map, length_seq. lia.
Qed.

Lemma import_accepts blob now t :
  bytes blob → in_u64 now →
  match import blob now t with
  | (Ok _, t') => ok t' ∧ capacity t' = capacity t ∧
      ∃ es, blob = blob_of es ∧ visible t' = clamp now <$> es
  | (Err _, t') => t' = t
  | (Panic, _) => False
  end.
Proof.
  intros Hb Hn. unfold import.
  destruct (_ || _) eqn:Hh; [done|]. bool_hyps.
  destruct (negb (_ =? BLOB_VERSION)%Z) eqn:Hv; [done|]. apply negb_false_iff in Hv.
  set (n := Z.to_nat _). destruct (capacity t <? n) eqn:Hc; [done|].
  destruct (negb _) eqn:Hl; [done|]. bool_hyps.
  pose proof (validate_entries_cases blob now (seq 0 n)) as Hval.
  destruct (validate_entries blob now (seq 0 n)) as [u|e|]; [|done..].
  fold (imported blob now n t). destruct (imported_spec blob now n t Hc) as [Hcap Hvis].
  destruct (decoded_good blob now n Hb Hl Hn Hval) as [Hg Hnd].
  split; [split; rewrite ?Hvis, ?Hcap; done|]. split; [done|].
  exists (map (λ i, decode_entry blob i u64_max) (seq 0 n)). split; [by apply blob_canonical|].
  rewrite Hvis, <- list_fmap_compose. apply list_fmap_ext. intros _ i _. symmetry.
  by apply clamp_decode.
Qed.

Lemma validate_blob_of es now i :
  Forall good es → NoDup (kd_destination_hash <$> es) → i < length es →
  validate_entry (blob_of es) now i = Ok tt.
Proof.
  intros Hg Hnd Hi. destruct (lookup_lt_is_Some_2 _ _ Hi) as [e He]. unfold validate_entry.
  rewrite (decode_entry_of es i e) by done. cbn [clamp with_last_seen kd_public_key kd_destination_hash].
  destruct (proj1 (Forall_lookup _ _) Hg i e He) as (Hd & _).
  rewrite bool_decide_eq_true_2 by done. cbn [negb].
  destruct (existsb _ _) eqn:Hx; [exfalso|done]. apply existsb_exists in Hx as (j & Hj & Hn).
  apply in_seq in Hj. destruct (lookup_lt_is_Some_2 es j) as [e' He']; [lia|].
  rewrite (decode_entry_of es j e') in Hn by done. apply names_true in Hn. simpl in Hn.
  assert (i = j); [|lia].
  eapply (NoDup_lookup _ _ _ (kd_destination_hash e) Hnd); rewrite list_lookup_fmap, ?He, ?He'; simpl; congruence.
Qed.

Lemma validate_entries_Ok blob now js :
  (∀ i, i ∈ js → validate_entry blob now i = Ok tt) → validate_entries blob now js = Ok tt.
Proof.
  induction js as [|j js IH]; intros H; [done|]. cbn [validate_entries].
  rewrite H by (by left). apply IH. intros i Hi. apply H. by right.
Qed.

Lemma import_blob_of es now t :
  Forall good es → NoDup (kd_destination_hash <$> es) → (Z.of_nat (length es) ≤ u16_max)%Z →
  import (blob_of es) now t =
    if capacity t <? length es then (Err CountTooLarge, t)
    else (Ok tt, imported (blob_of es) now (length es) t).
Proof.
  intros Hg Hnd Hlen. unfold import. rewrite (length_blob_of es Hg).
  assert (Hhdr : take 4 (blob_of es) = BLOB_MAGIC ∧ blob_of es !!! 4%nat = BLOB_VERSION
    ∧ [blob_of es !!! 5%nat; blob_of es !!! 6%nat] = be_bytes 2 (Z.of_nat (length es))) by (split; [|split]; reflexivity).
  destruct Hhdr as (-> & -> & ->).
  rewrite (proj2 (Nat.ltb_ge _ _)) by lia. rewrite bool_decide_eq_true_2 by done. cbn [orb negb].
  rewrite Z.eqb_refl. cbn [negb]. rewrite of_be_be_bytes, Nat2Z.id
    by (change (256 ^ Z.of_nat 2)%Z with 65536%Z; unfold u16_max in *; lia).
  destruct (capacity t <? length es); [done|]. rewrite Nat.eqb_refl. cbn [negb].
  rewrite validate_entries_Ok; [done|]. intros i Hi. apply elem_of_seq in Hi.
  apply validate_blob_of; done || lia.
Qed.

Lemma ok_new N : ok (new N).
Proof.
  split; cbn [new kds_len kds_entries]; [lia| |]; unfold visible; cbn [new kds_len]; rewrite take_0.
  - apply NoDup_nil_2.
  - apply Forall_nil_2.
Qed.

Lemma good_fresh d k now t :
  ok t → length k = PUBLIC_KEY_LENGTH → bytes k → in_u64 now → delivery_destination_hash k = d →
  good (fresh_entry d k now t).
Proof.
  intros Ht Hk Hb Hn Hd. split; [done|]. split; [done|]. split; [done|].
  pose proof (next_recency_range t Ht). cbn. unfold in_u64 in *. lia.
Qed.

Lemma learn_ok d k now t :
  ok t → length k = PUBLIC_KEY_LENGTH → bytes k → in_u64 now → ok (snd (learn d k now t)).
Proof.
  intros Ht Hk Hb Hn. pose proof (learn_spec d k now t Ht) as Hs.
  destruct (learn d k now t) as [[[|]|e|] t']; cbn [snd];
    [|by destruct Hs as [-> _]|destruct e; try done; by destruct Hs as [-> _]|done].
  destruct Hs as (Hp & Hc & Hd & Ha).
  apply (admitted_ok (fresh_entry d k now t) t); auto using good_fresh.
Qed.

(** ** Properties *)

(** Learning destinations. In a well-formed store (unique destinations,
    each derived from its key), a destination is learned exactly when it is new,
    derives from the key and there is any capacity; the same key again changes
    nothing, and another key for a known destination is refused. A learned
    destination is retrievable and, in a store with room, nothing else changes;
    a full store gives up one least recently used entry and keeps the others.
    Recalling returns what peeking does, changes no key, and (two entries or
    more, counter short of saturation) protects the destination from the next
    eviction. Both keep the store well-formed. *)
Lemma known_learn_contract t d k now r :
  ok t → length k = PUBLIC_KEY_LENGTH → bytes k → in_u64 now →
  (let t' := snd (learn d k now t) in
   ok t' ∧
   match fst (learn d k now t) with
   | Ok true => peek d t = None ∧ delivery_destination_hash k = d ∧ peek d t' = Some k ∧
       (kds_len t < capacity t → ∀ d', d' ≠ d → peek d' t' = peek d' t) ∧
       (kds_len t = capacity t → ∃ old, evicts (fresh_entry d k now t) t t' old)
   | Ok false => t' = t ∧ peek d t = Some k
   | Err KeyConflict => t' = t ∧ ∃ k', peek d t = Some k' ∧ k' ≠ k
   | Err KnownHashMismatch => t' = t ∧ peek d t = None ∧ delivery_destination_hash k ≠ d
   | Err EmptyCapacity => t' = t ∧ capacity t = 0
   | _ => False
   end) ∧
  ok (snd (recall r t)) ∧ fst (recall r t) = peek r t ∧
  (∀ d', peek d' (snd (recall r t)) = peek d' t) ∧
  (2 ≤ capacity t → is_Some (peek r t) → r ≠ d →
   (∀ e, e ∈ visible t → (kd_last_seen e < u64_max)%Z) →
   peek r (snd (learn d k now (snd (recall r t)))) = peek r t).
Proof.
  intros Ht Hk Hb Hn.
  split; [|split; [by apply recall_ok|split; [by apply recall_returns|split; [intros; by apply recall_peek|]]]].
  - pose proof (learn_spec d k now t Ht) as Hs. pose proof (learn_ok d k now t Ht Hk Hb Hn) as Ht'.
    cbv zeta. destruct (learn d k now t) as [[[|]|e|] t']; cbn [fst snd] in *; (split; [done|]);
      [| |destruct e; naive_solver|done].
    + destruct Hs as (Hp & Hc & Hd & Ha). split; [done|]. split; [done|]. pose proof (ok_len t Ht).
      destruct (decide (kds_len t < capacity t)) as [Hlt|Hge].
      * split; [by rewrite (admitted_room (fresh_entry d k now t) _ _ d Hp Ha Hlt), bool_decide_eq_true_2|].
        split; [|lia]. intros _ d' Hne.
        by rewrite (admitted_room (fresh_entry d k now t) _ _ d' Hp Ha Hlt), bool_decide_eq_false_2.
      * destruct (admitted_full (fresh_entry d k now t) _ _ Ht Ht' Hp Ha) as [Hpk Hev]; [lia|].
        split; [done|]. by split.
    + destruct Hs as [-> Hs]. by split.
  - intros Hcap Hsome Hrd Hsat. pose proof (recall_ok r t Ht) as Ht1.
    rewrite <- (recall_peek r t r Ht). pose proof (recall_len r t Ht) as [Hl1 Hc1].
    pose proof (recalled_survives r t) as Hsv. set (t1 := snd (recall r t)) in *.
    pose proof (learn_spec d k now t1 Ht1) as Hs. pose proof (learn_ok d k now t1 Ht1 Hk Hb Hn) as Ht'.
    destruct (learn d k now t1) as [[[|]|e|] t']; cbn [snd] in *; [|by destruct Hs as [-> _]|
      destruct e; try done; by destruct Hs as [-> _]|done].
    destruct Hs as (Hp & Hc & Hd & Ha).
    pose proof (ok_len t1 Ht1). destruct (decide (kds_len t1 < capacity t1)) as [Hlt|Hge].
    + by rewrite (admitted_room (fresh_entry d k now t1) _ _ r Hp Ha Hlt), bool_decide_eq_false_2.
    + destruct (admitted_full (fresh_entry d k now t1) _ _ Ht1 Ht' Hp Ha) as [_ [old Hev]]; [lia|].
      assert (kd_destination_hash old ≠ r) by (apply (Hsv (fresh_entry d k now t1) t'); done || lia).
      destruct Hev as (_ & _ & _ & Hsame). by apply Hsame.
Qed.

(** C32: saving and restoring the store. Exporting needs exactly the header and
    88 bytes per entry and leaves the rest of the buffer; importing the exported
    bytes into any store with the capacity restores the same entries, recencies
    clamped to the clock, and into a smaller one changes nothing. Importing
    arbitrary bytes never panics, leaves the store untouched on every error, and
    accepts only the blob of the entries it then holds, which are well-formed:
    unique destinations, each derived from its key. *)
Theorem known_store_roundtrip t t2 out now blob :
  ok t → (Z.of_nat (kds_len t) ≤ u16_max)%Z → in_u64 now → bytes blob →
  match export_into t out with
  | (Ok n, out') =>
      n = BLOB_HEADER_LEN + kds_len t * ENTRY_LEN ∧ n ≤ length out ∧ drop n out' = drop n out ∧
      (kds_len t ≤ capacity t2 → ∃ t', import (take n out') now t2 = (Ok tt, t') ∧
         capacity t' = capacity t2 ∧ visible t' = clamp now <$> visible t) ∧
      (capacity t2 < kds_len t → import (take n out') now t2 = (Err CountTooLarge, t2))
  | (Err e, out') => e = KnownOutputTooSmall ∧ out' = out ∧
      length out < BLOB_HEADER_LEN + kds_len t * ENTRY_LEN
  | (Panic, _) => False
  end ∧
  match import blob now t2 with
  | (Ok _, t') => ok t' ∧ capacity t' = capacity t2 ∧
      ∃ es, blob = blob_of es ∧ visible t' = clamp now <$> es
  | (Err _, t') => t' = t2
  | (Panic, _) => False
  end.
Proof.
  intros Ht Hu Hn Hb. split; [|by apply import_accepts].
  rewrite export_spec by done. cbv zeta. destruct (length out <? _) eqn:Hl; bool_hyps; [done|].
  pose proof (length_visible t (ok_len t Ht)) as Hv.
  pose proof (length_blob_of (visible t) (ok_good t Ht)) as Hlb. rewrite Hv in Hlb.
  rewrite <- Hlb in *. split; [done|]. split; [done|].
  rewrite drop_app_length, take_app_length. split; [done|].
  rewrite import_blob_of by (try apply Ht; by rewrite Hv). rewrite Hv.
  destruct (capacity t2 <? kds_len t) eqn:Hc; bool_hyps.
  { split; [lia|done]. }
  split; [intros _|lia]. eexists. split; [done|]. destruct (imported_spec (blob_of (visible t)) now (kds_len t) t2 Hc) as [-> ->].
  split; [done|]. apply list_eq. intros i. rewrite !list_lookup_fmap.
  destruct (decide (i < kds_len t)) as [Hi|Hi].
  - rewrite lookup_seq_lt by done. destruct (lookup_lt_is_Some_2 (visible t) i) as [e He]; [lia|].
    rewrite He. cbn. f_equal. apply decode_entry_of; [apply Ht|done].
  - rewrite lookup_seq_ge, lookup_ge_None_2 by lia. done.
Qed.

End known.
End KnownDestinations.

(** * Witnesses *)

Module KnownExample.
Definition key : list Z := seqZ 0 64.
End KnownExample.

Lemma known_learn_contract_witness :
  let _ := Toy.sha256 in
  let d := KnownDestinations.delivery_destination_hash KnownExample.key in
  KnownDestinations.peek d
    (snd (KnownDestinations.learn d KnownExample.key 10 (KnownDestinations.new 2)))
  = Some KnownExample.key.
Proof.
  intros s d.
  destruct (KnownDestinations.known_learn_contract (SHA := s) (KnownDestinations.new 2) d
    KnownExample.key 10 d (KnownDestinations.ok_new 2) eq_refl
    ltac:(apply Forall_forall; intros x Hx%elem_of_seqZ; unfold is_byte; lia)
    ltac:(unfold in_u64, u64_max; lia)) as [(_ & H) _].
  assert (Hr : fst (KnownDestinations.learn d KnownExample.key 10 (KnownDestinations.new 2)) = Ok true)
    by (vm_compute; reflexivity).
  rewrite Hr in H. apply H.
Defined.

Lemma known_store_roundtrip_witness :
  let _ := Toy.sha256 in
  let d := KnownDestinations.delivery_destination_hash KnownExample.key in
  let t := snd (KnownDestinations.learn d KnownExample.key 10 (KnownDestinations.new 1)) in
  ∃ n out' t', KnownDestinations.export_into t (zeros 100) = (Ok n, out') ∧ n = 95 ∧
    KnownDestinations.import (take n out') 5 (KnownDestinations.new 2) = (Ok tt, t') ∧
    KnownDestinations.visible t' = KnownDestinations.clamp 5 <$> KnownDestinations.visible t.
Proof.
  intros s d t.
  assert (Hb : bytes KnownExample.key)
    by (apply Forall_forall; intros x Hx%elem_of_seqZ; unfold is_byte; lia).
  assert (Ht : KnownDestinations.ok (SHA := s) t)
    by (apply KnownDestinations.learn_ok; [apply KnownDestinations.ok_new|done|done|unfold in_u64, u64_max; lia]).
  destruct (KnownDestinations.known_store_roundtrip (SHA := s) t (KnownDestinations.new 2) (zeros 100) 5 []
    Ht ltac:(vm_compute; discriminate) ltac:(unfold in_u64, u64_max; lia) (Forall_nil_2 _)) as [H _].
  assert (Hn : fst (KnownDestinations.export_into t (zeros 100)) = Ok 95) by (vm_compute; reflexivity).
  destruct (KnownDestinations.export_into t (zeros 100)) as [r out']. cbn [fst] in Hn. subst r.
  destruct H as (_ & _ & _ & H & _). destruct H as (t' & Hi & _ & Hv); [vm_compute; lia|].
  exists 95, out', t'. split; [done|]. split; [done|]. split; [exact Hi|exact Hv].
Defined.
