(* ===== verification/Proofs.v ===== *)
(** Delivery proofs and the set of seen message ids (src/src/proof.rs): building
    and validating packet receipts, and the bounded FIFO set used to suppress
    duplicates. *)

From S2P Require Import Prelude Constants Primitives Wire Queue Identity.

Definition PROOF_IMPLICIT_LEN : nat := SIGNATURE_LENGTH.
Definition PROOF_EXPLICIT_LEN : nat := PACKET_HASH_LENGTH + SIGNATURE_LENGTH.

Inductive ProofError := ProofOutputTooSmall.

Section proofs.
Context `{SHA : Sha256} `{ED : Ed25519} `{X : X25519}.

(** The output slice is the state. *)
Definition build_initiator_proof (signing_seed packet_hash : list Z)
  : st (list Z) ProofError nat := λ out,
  if length out <? PROOF_EXPLICIT_LEN then (Err ProofOutputTooSmall, out)
  else
    let out := splice 0 packet_hash out in
    let out := splice PACKET_HASH_LENGTH (ed_sign signing_seed packet_hash) out in
    (Ok PROOF_EXPLICIT_LEN, out).

Definition build_proof (identity : LocalIdentity) (packet_hash : list Z) (implicit : bool)
  : st (list Z) ProofError nat := λ out,
  let signature := sign identity packet_hash in
  if implicit then
    if length out <? PROOF_IMPLICIT_LEN then (Err ProofOutputTooSmall, out)
    else (Ok PROOF_IMPLICIT_LEN, splice 0 signature out)
  else if length out <? PROOF_EXPLICIT_LEN then (Err ProofOutputTooSmall, out)
  else
    let out := splice 0 packet_hash out in
    let out := splice PACKET_HASH_LENGTH signature out in
    (Ok PROOF_EXPLICIT_LEN, out).

Definition validate_proof (prover_public_key packet_hash proof : list Z) : bool :=
  let signature_bytes :=
    if length proof =? PROOF_IMPLICIT_LEN then Some proof
    else if length proof =? PROOF_EXPLICIT_LEN then
      if negb (take PACKET_HASH_LENGTH proof =k packet_hash) then None
      else Some (slice proof PACKET_HASH_LENGTH PROOF_EXPLICIT_LEN)
    else None in
  match signature_bytes with
  | None => false
  | Some signature =>
      let ed_pub := drop 32 prover_public_key in
      ed_key_ok ed_pub && ed_verify ed_pub packet_hash signature
  end.
End proofs.

(** * Seen messages *)

Record SeenMessages := { sm_ids : list (list Z); sm_head : nat; sm_len : nat }.

Module SeenMessages.

(** The const generic [N] is the length of the array. *)
Definition capacity (t : SeenMessages) : nat := length (sm_ids t).

Definition new (N : nat) : SeenMessages :=
  {| sm_ids := replicate N (zeros 32); sm_head := 0; sm_len := 0 |}.

(** Indexing [ids] is in range: the position is reduced modulo a positive [N]. *)
Definition contains (id : list Z) (t : SeenMessages) : bool :=
  existsb (λ i, sm_ids t !!! ((sm_head t + i) `mod` capacity t) =k id) (seq 0 (sm_len t)).

Definition insert_if_new (id : list Z) (t : SeenMessages) : bool * SeenMessages :=
  if contains id t then (false, t)
  else if capacity t =? 0 then (true, t)
  else if sm_len t =? capacity t then
    (true, {| sm_ids := <[sm_head t := id]> (sm_ids t);
              sm_head := (sm_head t + 1) `mod` capacity t; sm_len := sm_len t |})
  else
    let idx := (sm_head t + sm_len t) `mod` capacity t in
    (true, {| sm_ids := <[idx := id]> (sm_ids t); sm_head := sm_head t; sm_len := sm_len t + 1 |}).

Definition len (t : SeenMessages) : nat := sm_len t.
Definition is_empty (t : SeenMessages) : bool := sm_len t =? 0.

(** ** The bounded FIFO set it implements *)

Definition fifo_insert (N : nat) (id : list Z) (l : list (list Z)) : bool * list (list Z) :=
  if bool_decide (id ∈ l) then (false, l)
  else if N =? 0 then (true, l)
  else (true, (if length l =? N then tail l else l) ++ [id]).

(** A run of insertions, with the answers. *)
Fixpoint run (ids : list (list Z)) (t : SeenMessages) : list bool * SeenMessages :=
  match ids with
  | [] => ([], t)
  | id :: rest =>
      let (b, t) := insert_if_new id t in
      let (bs, t) := run rest t in (b :: bs, t)
  end.

Fixpoint fifo_run (N : nat) (ids : list (list Z)) (l : list (list Z)) : list bool * list (list Z) :=
  match ids with
  | [] => ([], l)
  | id :: rest =>
      let (b, l) := fifo_insert N id l in
      let (bs, l) := fifo_run N rest l in (b :: bs, l)
  end.

Definition rep (t : SeenMessages) (l : list (list Z)) : Prop :=
  sm_len t = length l ∧ length l ≤ capacity t ∧ (0 < capacity t → sm_head t < capacity t) ∧
  ∀ off, off < length l → sm_ids t !! ((sm_head t + off) `mod` capacity t) = l !! off.

Lemma rep_new_seen N : rep (new N) [].
Proof.
  unfold rep, new, capacity. cbn. rewrite length_replicate.
  split; [done|]. split; [lia|]. split; [lia|]. intros off Hoff. lia.
Qed.

Lemma rep_contains t l id : rep t l → contains id t = bool_decide (id ∈ l).
Proof.
  intros (Hl & Hc & Hh & Hr). apply eq_true_iff_eq. unfold contains.
  rewrite existsb_exists, bool_decide_eq_true, Hl. split.
  - intros (i & Hi & Hid). apply in_seq in Hi. bool_hyps. subst id.
    destruct (lookup_lt_is_Some_2 l i) as [x Hx]; [lia|].
    erewrite list_lookup_total_correct by (rewrite Hr by lia; exact Hx).
    by eapply list_elem_of_lookup_2.
  - intros [i Hi]%list_elem_of_lookup. pose proof (lookup_lt_Some _ _ _ Hi).
    exists i. split; [apply in_seq; lia|]. apply bool_decide_eq_true.
    apply list_lookup_total_correct. by rewrite Hr.
Qed.

Lemma mod_advance N h off : ((h + 1) `mod` N + off) `mod` N = (h + S off) `mod` N.
Proof.
  destruct (decide (N = 0)) as [->|HN]; [simpl; lia|].
  rewrite Nat.Div0.add_mod_idemp_l. f_equal. lia.
Qed.

Lemma rep_insert t l id :
  rep t l →
  let (b, t') := insert_if_new id t in
  let (b', l') := fifo_insert (capacity t) id l in
  b = b' ∧ capacity t' = capacity t ∧ rep t' l'.
Proof.
  intros Hrep. unfold insert_if_new, fifo_insert. rewrite (rep_contains t l id Hrep).
  destruct (bool_decide _); [done|]. destruct (capacity t =? 0) eqn:Hz; [done|]. bool_hyps.
  destruct Hrep as (Hl & Hc & Hh & Hr). rewrite Hl. specialize (Hh ltac:(lia)).
  destruct (length l =? capacity t) eqn:Hf; bool_hyps; (split; [done|]);
    match goal with |- capacity ?t' = _ ∧ _ =>
      assert (Hcap : capacity t' = capacity t) by apply length_insert;
      split; [exact Hcap|]; unfold rep; rewrite !Hcap; clear Hcap end;
    cbn [sm_ids sm_head sm_len]; rewrite length_app; cbn [length].
  - assert (Htl : length (tail l) = length l - 1) by (destruct l; simpl; lia).
    rewrite Htl. split; [lia|]. split; [lia|]. split; [intros; apply Nat.mod_upper_bound; lia|].
    intros off Hoff.
    rewrite mod_advance. destruct (decide (S off = capacity t)) as [Heq|Hne].
    + replace ((sm_head t + S off) `mod` capacity t) with (sm_head t).
      2:{ rewrite Heq. replace (sm_head t + capacity t) with (sm_head t + 1 * capacity t) by lia.
          rewrite Nat.Div0.mod_add. by rewrite Nat.mod_small. }
      rewrite list_lookup_insert_eq by done. by rewrite list_lookup_middle by (rewrite Htl; lia).
    + rewrite list_lookup_insert_ne.
      2:{ intros He. apply Hne. exfalso. rewrite <- (Nat.mod_small (sm_head t) (capacity t)) in He at 1 by done.
          rewrite <- (Nat.add_0_r (sm_head t)) in He at 1.
          apply RingQueue.ring_inj in He; lia. }
      rewrite Hr by lia. rewrite lookup_app_l by (rewrite Htl; lia). by destruct l.
  - split; [lia|]. split; [lia|]. split; [done|].
    intros off Hoff.
    destruct (decide (off = length l)) as [->|Hne].
    + rewrite list_lookup_insert_eq by (apply Nat.mod_upper_bound; unfold capacity in *; lia). by rewrite list_lookup_middle.
    + rewrite list_lookup_insert_ne. 2:{ intros He. apply RingQueue.ring_inj in He; lia. }
      rewrite Hr by lia. by rewrite lookup_app_l by lia.
Qed.

Lemma run_refines ids : ∀ t l,
  rep t l →
  fst (run ids t) = fst (fifo_run (capacity t) ids l) ∧
  capacity (snd (run ids t)) = capacity t ∧
  rep (snd (run ids t)) (snd (fifo_run (capacity t) ids l)).
Proof.
  induction ids as [|id ids IH]; intros t l Hrep; [done|]. cbn [run fifo_run].
  pose proof (rep_insert t l id Hrep) as Hi.
  destruct (insert_if_new id t) as [b t1], (fifo_insert (capacity t) id l) as [b' l1].
  destruct Hi as (<- & Hc & Hrep1). destruct (IH t1 l1 Hrep1) as (Hb & Hcap & Hr). rewrite Hc in *.
  destruct (run ids t1), (fifo_run (capacity t) ids l1). cbn [fst snd] in *.
  by rewrite Hb.
Qed.

(** ** The set itself *)

Lemma fifo_wf N id l :
  NoDup l ∧ length l ≤ N →
  NoDup (snd (fifo_insert N id l)) ∧ length (snd (fifo_insert N id l)) ≤ N.
Proof.
  intros [Hnd Hl]. unfold fifo_insert. destruct (bool_decide _) eqn:Hin; [done|]. bool_hyps.
  destruct (N =? 0) eqn:HN; [done|]. bool_hyps. cbn [snd]. rewrite length_app. cbn [length].
  assert (Hsub : ∀ y, y ∈ (if length l =? N then tail l else l) → y ∈ l)
    by (intros y; destruct (_ =? N); [|done]; destruct l; [done|by right]).
  split.
  - apply NoDup_app. split; [|split; [|apply NoDup_singleton]].
    + destruct (_ =? N); [|done]. destruct l; [done|]. by apply NoDup_cons in Hnd as [_ ?].
    + intros y Hy ->%list_elem_of_singleton. by apply Hin, Hsub.
  - destruct (length l =? N) eqn:Hf; bool_hyps; [|lia]. destruct l; simpl in *; lia.
Qed.

Lemma fifo_run_wf N ids : ∀ l,
  NoDup l ∧ length l ≤ N → NoDup (snd (fifo_run N ids l)) ∧ length (snd (fifo_run N ids l)) ≤ N.
Proof.
  induction ids as [|id ids IH]; intros l Hl; [done|]. cbn [fifo_run].
  pose proof (fifo_wf N id l Hl) as H1. destruct (fifo_insert N id l) as [b l1]. cbn [snd] in *.
  specialize (IH l1 H1). by destruct (fifo_run N ids l1).
Qed.

(** An entry leaves only after as many insertions as there are places behind it. *)
Lemma fifo_survives N post : ∀ l1 x l2,
  length (l1 ++ x :: l2) ≤ N → length l2 + length post < N →
  x ∈ snd (fifo_run N post (l1 ++ x :: l2)).
Proof.
  induction post as [|y post IH]; intros l1 x l2 Hl Hp; cbn [fifo_run].
  - cbn. apply elem_of_app. right. by left.
  - cbn [length] in Hp. unfold fifo_insert. destruct (bool_decide _).
    + specialize (IH l1 x l2 Hl ltac:(lia)). by destruct (fifo_run N post _).
    + destruct (N =? 0) eqn:HN; bool_hyps; [lia|]. rewrite length_app in Hl. cbn [length] in Hl.
      destruct (_ =? N) eqn:Hf; bool_hyps; rewrite length_app in Hf; cbn [length] in Hf.
      * destruct l1 as [|a l1]; cbn [length] in *; [lia|]. cbn [tail app].
        rewrite <- app_assoc. specialize (IH l1 x (l2 ++ [y])). rewrite !length_app in IH.
        cbn [length app] in *. rewrite length_app in IH. cbn [length] in IH.
        specialize (IH ltac:(lia) ltac:(lia)). by destruct (fifo_run N post _).
      * rewrite <- app_assoc. specialize (IH l1 x (l2 ++ [y])). rewrite !length_app in IH.
        cbn [length app] in *. rewrite length_app in IH. cbn [length] in IH.
        specialize (IH ltac:(lia) ltac:(lia)). by destruct (fifo_run N post _).
Qed.

Lemma fifo_new N id l : fst (fifo_insert N id l) = true → 0 < N →
  ∃ l1, snd (fifo_insert N id l) = l1 ++ [id].
Proof.
  unfold fifo_insert. destruct (bool_decide _); [done|]. destruct (N =? 0) eqn:HN; bool_hyps; [lia|].
  intros _ _. eauto.
Qed.

(** The set of seen message ids is a bounded FIFO set. After any sequence of
    insertions into an empty set of capacity [N], the answers and the membership
    are those of a duplicate-free list of at most [N] ids to which new ids are
    appended, dropping the oldest when full; an id just reported as new is still
    found after fewer than [N] further insertions of any ids; and with no
    capacity every id is new and nothing is kept. *)
Lemma seen_messages_fifo N ids id post :
  let t := snd (run ids (new N)) in
  let l := snd (fifo_run N ids []) in
  fst (run ids (new N)) = fst (fifo_run N ids []) ∧
  len t = length l ∧ NoDup l ∧ length l ≤ N ∧
  (∀ x, contains x t = bool_decide (x ∈ l)) ∧
  (fst (insert_if_new id t) = true → length post < N →
   contains id (snd (run post (snd (insert_if_new id t)))) = true) ∧
  (N = 0 → insert_if_new id t = (true, t)).
Proof.
  intros t l. pose proof (rep_new_seen N) as H0.
  assert (HN : capacity (new N) = N) by apply length_replicate.
  destruct (run_refines ids (new N) [] H0) as (Hb & Hc & Hrep). rewrite HN in *.
  fold t l in Hc, Hrep.
  destruct (fifo_run_wf N ids [] ltac:(split; [apply NoDup_nil_2|cbn; lia])) as [Hnd Hlen]. fold l in Hnd, Hlen.
  split; [done|]. split; [apply Hrep|]. split; [done|]. split; [done|].
  split; [intros x; by apply rep_contains|]. split.
  - intros Hnew Hp. pose proof (rep_insert t l id Hrep) as Hi. pose proof (fifo_new N id l) as Hf.
    pose proof (fifo_wf N id l (conj Hnd Hlen)) as [_ Hl1]. rewrite Hc in Hi.
    destruct (insert_if_new id t) as [b t1], (fifo_insert N id l) as [b' l1]. cbn [fst snd] in *.
    destruct Hi as (-> & Hc1 & Hrep1). destruct (Hf Hnew ltac:(lia)) as [l0 ->].
    destruct (run_refines post t1 _ Hrep1) as (_ & _ & Hrep2). rewrite Hc1 in Hrep2.
    rewrite (rep_contains _ _ _ Hrep2). apply bool_decide_eq_true_2. by apply fifo_survives.
  - intros ->. assert (Hl : l = []) by (apply nil_length_inv; lia). rewrite Hl in Hrep.
    unfold insert_if_new. rewrite (rep_contains t [] id Hrep), Hc.
    rewrite bool_decide_eq_false_2; [done|]. apply not_elem_of_nil.
Qed.
End SeenMessages.

(** * Properties of proofs *)

Section properties.
Context `{SHA : Sha256} `{ED : Ed25519} `{X : X25519}.

Lemma validate_proof_spec pub hash proof :
  length hash = PACKET_HASH_LENGTH →
  validate_proof pub hash proof = true ↔
  ∃ sg, length sg = SIGNATURE_LENGTH ∧ (proof = sg ∨ proof = hash ++ sg) ∧
    ed_key_ok (drop 32 pub) = true ∧ ed_verify (drop 32 pub) hash sg = true.
Proof.
  intros Hh. unfold validate_proof, PROOF_IMPLICIT_LEN, PROOF_EXPLICIT_LEN.
  destruct (length proof =? SIGNATURE_LENGTH) eqn:H1; bool_hyps.
  { rewrite andb_true_iff. split; [intros [? ?]; exists proof; auto|].
    intros (sg & Hs & [->| ->] & Hk & Hv); [auto|]. rewrite length_app in H1. unfold PACKET_HASH_LENGTH in *. lia. }
  destruct (length proof =? _) eqn:H2; bool_hyps.
  - destruct (bool_decide _) eqn:Hp; cbn [negb]; bool_hyps.
    + rewrite andb_true_iff. split.
      * intros [Hk Hv]. eexists. split; [|split; [right|split; [exact Hk|exact Hv]]].
        -- rewrite length_slice; lia.
        -- rewrite <- H2, slice_to_end. rewrite <- Hp at 1. by rewrite take_drop.
      * intros (sg & Hs & [->| ->] & Hk & Hv); [lia|]. split; [done|].
        rewrite <- H2, slice_to_end, drop_app_exact; done.
    + split; [done|]. intros (sg & Hs & [->| ->] & _); [lia|]. exfalso. apply Hp.
      rewrite <- Hh. apply take_app_length.
  - split; [done|]. intros (sg & Hs & [->| ->] & _); [lia|]. rewrite length_app in H2. lia.
Qed.

Lemma signature_validates pub seed hash proof :
  length hash = PACKET_HASH_LENGTH → drop 32 pub = ed_public seed →
  proof = ed_sign seed hash ∨ proof = hash ++ ed_sign seed hash → validate_proof pub hash proof = true.
Proof.
  intros Hh Hp Hpr. apply validate_proof_spec; [done|]. exists (ed_sign seed hash).
  rewrite Hp. split; [apply ed_sign_length|]. split; [done|]. split; [apply ed_public_ok|apply ed_verify_sign].
Qed.

Lemma length_explicit seed hash : length hash = PACKET_HASH_LENGTH → length (hash ++ ed_sign seed hash) = 96.
Proof. intros Hh. by rewrite length_app, ed_sign_length, Hh. Qed.

Lemma explicit_written seed hash out :
  length hash = PACKET_HASH_LENGTH → 96 ≤ length out →
  splice PACKET_HASH_LENGTH (ed_sign seed hash) (splice 0 hash out) = (hash ++ ed_sign seed hash) ++ drop 96 out.
Proof.
  intros Hh Hl. change PACKET_HASH_LENGTH with (0 + 32). change PACKET_HASH_LENGTH with 32 in Hh.
  rewrite <- Hh, splice_splice, splice_0 by (rewrite ed_sign_length; lia).
  by rewrite length_app, ed_sign_length, Hh.
Qed.

(** A proof built by an identity validates under its public key. *)
Lemma built_proof_valid k hash implicit out :
  length hash = PACKET_HASH_LENGTH →
  match build_proof (from_private_key k) hash implicit out with
  | (Ok n, out') => n = (if implicit then 64 else 96) ∧ n ≤ length out ∧ drop n out' = drop n out ∧
      validate_proof (li_public_key (from_private_key k)) hash (take n out') = true
  | (Err _, out') => out' = out ∧ length out < if implicit then 64 else 96
  | (Panic, _) => False
  end.
Proof.
  intros Hh. assert (Hkey : drop 32 (li_public_key (from_private_key k)) = ed_public (drop 32 k))
    by (apply drop_app_exact, x_public_length).
  unfold build_proof, PROOF_IMPLICIT_LEN, PROOF_EXPLICIT_LEN. destruct implicit.
  - destruct (length out <? _) eqn:Hl; bool_hyps; [done|]. rewrite splice_0.
    unfold sign. rewrite ed_sign_length. split; [done|]. split; [done|].
    rewrite drop_app_exact, take_app_length' by (apply ed_sign_length || (symmetry; apply ed_sign_length)). split; [done|].
    eapply signature_validates; [done|exact Hkey|by left].
  - change (PACKET_HASH_LENGTH + SIGNATURE_LENGTH) with 96.
    destruct (length out <? _) eqn:Hl; bool_hyps; [done|]. unfold sign. rewrite explicit_written by done.
    split; [done|]. split; [done|].
    rewrite drop_app_exact, take_app_length' by (by rewrite length_explicit). split; [done|].
    eapply signature_validates; [done|exact Hkey|by right].
Qed.

(** C33: delivery proofs. A proof built by an identity, implicit or explicit, and
    the explicit proof built from a link's signing seed, validate for the same
    packet hash under the signer's public key; building fails only for an output
    too small, which it leaves alone. Validation accepts exactly a 64-byte
    signature of the hash or the hash followed by one, verifying under the
    Ed25519 half of the prover's key; anything else is refused without a panic. *)
Theorem proof_contract k seed xpub hash implicit out pub proof :
  length hash = PACKET_HASH_LENGTH → length xpub = 32 →
  match build_proof (from_private_key k) hash implicit out with
  | (Ok n, out') => n = (if implicit then 64 else 96) ∧ n ≤ length out ∧ drop n out' = drop n out ∧
      validate_proof (li_public_key (from_private_key k)) hash (take n out') = true
  | (Err _, out') => out' = out ∧ length out < if implicit then 64 else 96
  | (Panic, _) => False
  end ∧
  match build_initiator_proof seed hash out with
  | (Ok n, out') => n = 96 ∧ n ≤ length out ∧ drop n out' = drop n out ∧
      validate_proof (xpub ++ ed_public seed) hash (take n out') = true
  | (Err _, out') => out' = out ∧ length out < 96
  | (Panic, _) => False
  end ∧
  (validate_proof pub hash proof = true ↔
   ∃ sg, length sg = SIGNATURE_LENGTH ∧ (proof = sg ∨ proof = hash ++ sg) ∧
     ed_key_ok (drop 32 pub) = true ∧ ed_verify (drop 32 pub) hash sg = true).
Proof.
  intros Hh Hx. split; [by apply built_proof_valid|]. split; [|by apply validate_proof_spec].
  unfold build_initiator_proof, PROOF_EXPLICIT_LEN. change (PACKET_HASH_LENGTH + SIGNATURE_LENGTH) with 96.
  destruct (length out <? _) eqn:Hl; bool_hyps; [done|]. rewrite explicit_written by done.
  split; [done|]. split; [done|].
  rewrite drop_app_exact, take_app_length' by (by rewrite length_explicit). split; [done|].
  eapply signature_validates; [done|by apply drop_app_exact|by right].
Qed.
End properties.

(** * Witnesses *)

Lemma proof_contract_witness :
  let _ := Toy.sha256 in let _ := Toy.ed25519 in let _ := Toy.x25519 in
  ∃ n out', build_proof (from_private_key (seqZ 0 64)) (zeros 32) false (zeros 100) = (Ok n, out') ∧ n = 96 ∧
    validate_proof (li_public_key (from_private_key (seqZ 0 64))) (zeros 32) (take n out') = true.
Proof.
  intros s e x.
  destruct (proof_contract (SHA := s) (ED := e) (X := x) (seqZ 0 64) (zeros 32) (zeros 32) (zeros 32)
    false (zeros 100) [] [] eq_refl eq_refl) as [H _].
  assert (Hn : fst (build_proof (from_private_key (seqZ 0 64)) (zeros 32) false (zeros 100)) = Ok 96)
    by reflexivity.
  destruct (build_proof (from_private_key (seqZ 0 64)) (zeros 32) false (zeros 100)) as [r out'].
  cbn [fst] in Hn. subst r. destruct H as (_ & _ & _ & Hv). exists 96, out'.
  split; [done|]. split; [done|]. exact Hv.
Defined.
