(* ===== verification/Tunnel.v ===== *)
(** Tunnel synthesis (src/src/tunnel.rs): the signed PLAIN packet a client
    interface sends to bind its tunnel at a hub. *)

From S2P Require Import Prelude Constants Primitives Buffer Wire Identity.

Definition TUNNEL_SYNTHESIS_LEN : nat := PUBLIC_KEY_LENGTH + 32 + 16 + SIGNATURE_LENGTH.
Definition TUNNEL_SYNTHESIS_PACKET_LEN : nat := HEADER_MINSIZE + TUNNEL_SYNTHESIS_LEN.
Definition SIGNED_LEN : nat := TUNNEL_SYNTHESIS_LEN - SIGNATURE_LENGTH.

Inductive TunnelError := TunnelOutputTooSmall.

(** "rnstransport.tunnel.synthesize" as bytes. *)
Definition TUNNEL_NAME : list Z :=
  [114; 110; 115; 116; 114; 97; 110; 115; 112; 111; 114; 116; 46; 116; 117; 110; 110; 101; 108; 46;
   115; 121; 110; 116; 104; 101; 115; 105; 122; 101]%Z.

Definition TUNNEL_FLAGS : PacketFlags :=
  {| header_type := Header1; context_flag := false; transport_type := Broadcast;
     destination_type := Plain; packet_type := Data |}.

Section tunnel.
Context `{SHA : Sha256} `{ED : Ed25519} `{X : X25519}.

Definition interface_hash (name : list Z) : list Z := sha256 name.

(** The output slice is the state; it is split as [split_at_mut] does. *)
Definition build_tunnel_synthesis_packet (identity : LocalIdentity) (ih random_hash : list Z)
  : st (list Z) TunnelError nat := λ out,
  if length out <? TUNNEL_SYNTHESIS_PACKET_LEN then (Err TunnelOutputTooSmall, out)
  else
    let header := take HEADER_MINSIZE out in
    let synthesis := slice out HEADER_MINSIZE TUNNEL_SYNTHESIS_PACKET_LEN in
    let header := <[0 := pack TUNNEL_FLAGS]> header in
    let header := <[1 := 0%Z]> header in
    let header := splice 2 (destination_hash_from_name TUNNEL_NAME None) header in
    let header := <[HEADER_MINSIZE - 1 := to_byte CtxNone]> header in
    let signed := take SIGNED_LEN synthesis in
    let signed := splice 0 (li_public_key identity) signed in
    let signed := splice PUBLIC_KEY_LENGTH ih signed in
    let signed := splice (PUBLIC_KEY_LENGTH + 32) random_hash signed in
    let signature := sign identity signed in
    (Ok TUNNEL_SYNTHESIS_PACKET_LEN,
     header ++ signed ++ signature ++ drop TUNNEL_SYNTHESIS_PACKET_LEN out).

Definition tunnel_header : PacketHeader :=
  {| flags := TUNNEL_FLAGS; hops := 0; transport_id := None;
     Wire.destination_hash := destination_hash_from_name TUNNEL_NAME None; context := CtxNone |}.

Lemma tunnel_header_written out :
  HEADER_MINSIZE ≤ length out →
  <[HEADER_MINSIZE - 1 := to_byte CtxNone]>
    (splice 2 (destination_hash_from_name TUNNEL_NAME None)
       (<[1 := 0%Z]> (<[0 := pack TUNNEL_FLAGS]> (take HEADER_MINSIZE out))))
  = header_bytes tunnel_header.
Proof.
  intros Hl. assert (Hh : length (take HEADER_MINSIZE out) = 19) by (rewrite length_take; sizes; lia).
  set (h := take HEADER_MINSIZE out) in *. clearbody h.
  set (d := destination_hash_from_name TUNNEL_NAME None).
  assert (Hd : length d = 16) by apply length_truncated_hash.
  unfold header_bytes, tunnel_header. cbn [flags hops transport_id Wire.destination_hash context].
  fold d. clearbody d. cbn [from_option id app].
  do 19 (destruct h as [|? h]; [done|]). destruct h; [|done].
  do 16 (destruct d as [|? d]; [done|]). by destruct d.
Qed.

Lemma tunnel_signed_written (pk ih rh sy : list Z) :
  length pk = PUBLIC_KEY_LENGTH → length ih = 32 → length rh = 16 → length sy = SIGNED_LEN →
  splice (PUBLIC_KEY_LENGTH + 32) rh (splice PUBLIC_KEY_LENGTH ih (splice 0 pk sy)) = pk ++ ih ++ rh.
Proof.
  intros Hp Hi Hr Hs. rewrite <- Hi at 1. rewrite splice_splice.
  - rewrite <- Hp at 1. change (length pk) with (0 + length pk) at 1. rewrite splice_splice, splice_0.
    + rewrite drop_ge, app_nil_r; [done|]. rewrite !length_app, Hs. unfold SIGNED_LEN, TUNNEL_SYNTHESIS_LEN. lia.
    + rewrite length_app, Hs. unfold SIGNED_LEN, TUNNEL_SYNTHESIS_LEN. lia.
  - rewrite length_splice; rewrite Hs; unfold SIGNED_LEN, TUNNEL_SYNTHESIS_LEN; lia.
Qed.

(** Tunnel synthesis. The builder fails only for an output shorter than the
    packet, which it leaves alone; otherwise the first 195 bytes parse as a
    broadcast PLAIN data packet with no hops for the tunnel destination, whose
    payload is the public key, the interface hash, the random hash and a
    signature that verifies over the three under the identity's key, and the
    bytes behind it are untouched. *)
Lemma tunnel_packet_signed k ih rh out :
  length ih = 32 → length rh = 16 →
  match build_tunnel_synthesis_packet (from_private_key k) ih rh out with
  | (Ok n, out') =>
      n = 195 ∧ n ≤ length out ∧ drop n out' = drop n out ∧
      ∃ v sg, parse_view (take n out') = Ok v ∧ pv_header v = tunnel_header ∧
        pv_payload v = li_public_key (from_private_key k) ++ ih ++ rh ++ sg ∧
        ed_verify (drop 32 (li_public_key (from_private_key k)))
          (li_public_key (from_private_key k) ++ ih ++ rh) sg = true
  | (Err _, out') => out' = out ∧ length out < 195
  | (Panic, _) => False
  end.
Proof.
  intros Hi Hr. unfold build_tunnel_synthesis_packet.
  destruct (length out <? _) eqn:Hl; bool_hyps; [done|]. change TUNNEL_SYNTHESIS_PACKET_LEN with 195 in *.
  set (id := from_private_key k). assert (Hp : length (li_public_key id) = PUBLIC_KEY_LENGTH)
    by apply length_derived_key.
  rewrite tunnel_header_written by (sizes; lia).
  rewrite tunnel_signed_written by (try done; rewrite length_take, length_slice;
    unfold SIGNED_LEN, TUNNEL_SYNTHESIS_LEN; sizes; lia).
  set (signed := li_public_key id ++ ih ++ rh). set (sg := sign id signed).
  assert (Hsg : length sg = 64) by apply ed_sign_length.
  assert (Hwf : wf_header tunnel_header) by (split; [apply length_truncated_hash|by split]).
  assert (Hpk : length (header_bytes tunnel_header ++ signed ++ sg) = 195).
  { unfold signed. rewrite !length_app, (length_header_bytes _ Hwf), Hp, Hi, Hr, Hsg. done. }
  rewrite (app_assoc signed), (app_assoc (header_bytes _)).
  rewrite drop_app_exact, take_app_length' by (exact Hpk || (symmetry; exact Hpk)).
  split; [done|]. split; [done|]. split; [done|]. eexists _, sg.
  split; [|split; [|split]].
  - apply parse_view_header_bytes; [done|]. rewrite length_app in Hpk.
    rewrite <- (length_header_bytes _ Hwf). sizes. lia.
  - done.
  - cbn [pv_payload]. unfold signed. by rewrite <- !app_assoc.
  - assert (Hkey : drop 32 (li_public_key id) = ed_public (drop 32 k)) by (apply drop_app_exact, x_public_length).
    rewrite Hkey. apply ed_verify_sign.
Qed.
End tunnel.

(** * Witness *)

Lemma tunnel_packet_signed_witness :
  let _ := Toy.sha256 in let _ := Toy.ed25519 in let _ := Toy.x25519 in
  ∃ out', build_tunnel_synthesis_packet (from_private_key (seqZ 0 64)) (zeros 32) (zeros 16) (zeros 200)
      = (Ok 195, out') ∧
    ∃ v, parse_view (take 195 out') = Ok v ∧ pv_header v = tunnel_header.
Proof.
  intros s e x.
  pose proof (tunnel_packet_signed (SHA := s) (ED := e) (X := x) (seqZ 0 64) (zeros 32) (zeros 16)
    (zeros 200) eq_refl eq_refl) as H.
  assert (Hn : fst (build_tunnel_synthesis_packet (from_private_key (seqZ 0 64)) (zeros 32) (zeros 16)
    (zeros 200)) = Ok 195) by reflexivity.
  destruct (build_tunnel_synthesis_packet _ _ _ _) as [r out']. cbn [fst] in Hn. subst r.
  destruct H as (_ & _ & _ & v & sg & Hp & Hv & _). exists out'. split; [done|].
  exists v. split; [exact Hp|exact Hv].
Defined.
