(* ===== verification/Records.v ===== *)
(** Loops over index ranges whose body may panic, and blobs made of records of
    one fixed width: the shared part of the stores that src/src/ratchet.rs and
    src/src/resource.rs write and read record by record.

    A record type is an instance of [FixedWidth]; the lemmas on where its
    records lie in a blob are proved once from the class. *)

From S2P Require Import Prelude.

(** [for i in is { s = body(i, s)?; }] *)
Fixpoint for_each {E S I : Type} (body : I → S → outcome E S) (ks : list I) (s : S) : outcome E S :=
  match ks with
  | [] => Ok s
  | i :: rest => let* s := body i s in for_each body rest s
  end.

(** [iter.any(p)] and [iter.all(p)], which stop at the first decisive element. *)
Fixpoint any_of {E I : Type} (p : I → outcome E bool) (ks : list I) : outcome E bool :=
  match ks with
  | [] => Ok false
  | i :: rest => let* b := p i in if b then Ok true else any_of p rest
  end.

Fixpoint all_of {E I : Type} (p : I → outcome E bool) (ks : list I) : outcome E bool :=
  match ks with
  | [] => Ok true
  | i :: rest => let* b := p i in if b then all_of p rest else Ok false
  end.

(** The results of a call for every index, in order. *)
Fixpoint collect {E I A : Type} (f : I → outcome E A) (ks : list I) : outcome E (list A) :=
  match ks with
  | [] => Ok []
  | k :: rest => let* a := f k in let* l := collect f rest in Ok (a :: l)
  end.

(** A method that builds its new state in a fallible computation. *)
Definition commit_state {S E : Type} (body : S → outcome E S) : st S E unit := λ s,
  match body s with
  | Ok s' => (Ok tt, s')
  | Err e => (Err e, s)
  | Panic => (Panic, s)
  end.

Section loops.
Context {E S : Type}.

Lemma for_each_app {I} (body : I → S → outcome E S) xs ys s :
  for_each body (xs ++ ys) s = let* s := for_each body xs s in for_each body ys s.
Proof.
  revert s. induction xs as [|x xs IH]; intros s; [done|]. cbn.
  destruct (body x s); cbn; [apply IH|done..].
Qed.

(** The rules for a loop: over a list of indices, and over [0..n]. *)
Lemma for_each_list {I} (Inv : nat → S → Prop) (body : I → S → outcome E S) ks : ∀ m s,
  Inv m s →
  (∀ i k s, ks !! i = Some k → Inv (m + i) s → ∃ s', body k s = Ok s' ∧ Inv (m + i + 1) s') →
  ∃ s', for_each body ks s = Ok s' ∧ Inv (m + length ks) s'.
Proof.
  induction ks as [|k ks IH]; intros m s H0 Hstep; cbn.
  - exists s. by rewrite Nat.add_0_r.
  - destruct (Hstep 0 k s eq_refl) as (s1 & -> & H1); [by rewrite Nat.add_0_r|].
    cbn. rewrite Nat.add_0_r in H1. destruct (IH (m + 1) s1 H1) as (s2 & -> & H2).
    + intros i k' s' Hk Hi. replace (m + 1 + i) with (m + (1 + i)) in * by lia. by apply Hstep.
    + exists s2. split; [done|]. by replace (m + _) with (m + 1 + length ks) by lia.
Qed.

Lemma for_each_range (Inv : nat → S → Prop) (body : nat → S → outcome E S) n s :
  Inv 0 s →
  (∀ i s, i < n → Inv i s → ∃ s', body i s = Ok s' ∧ Inv (1 + i) s') →
  ∃ s', for_each body (seq 0 n) s = Ok s' ∧ Inv n s'.
Proof.
  intros H0 Hstep. destruct (for_each_list Inv body (seq 0 n) 0 s H0) as (s' & H1 & H2).
  - intros i k s' [-> Hk]%lookup_seq Hi. cbn in *. rewrite Nat.add_comm. by apply Hstep.
  - exists s'. split; [done|]. by rewrite length_seq in H2.
Qed.

(** A loop that only checks. *)
Lemma for_each_check (check : nat → outcome E unit) ks :
  for_each (λ i _, check i) ks tt = Ok tt ↔ ∀ i, i ∈ ks → check i = Ok tt.
Proof.
  induction ks as [|i ks IH]; cbn.
  - split; [|done]. intros _ i Hi. by apply not_elem_of_nil in Hi.
  - destruct (check i) as [[]|e|] eqn:Hc; cbn; [rewrite IH|..].
    + split; [intros H j [->|Hj]%elem_of_cons; auto|]. intros H j Hj. apply H. by right.
    + split; [done|]. intros H. rewrite (H i) in Hc; [done|by left].
    + split; [done|]. intros H. rewrite (H i) in Hc; [done|by left].
Qed.

Lemma for_each_check_cases (check : nat → outcome E unit) (e : E) ks :
  (∀ i, i ∈ ks → check i = Ok tt ∨ check i = Err e) →
  for_each (λ i _, check i) ks tt = Ok tt ∨ for_each (λ i _, check i) ks tt = Err e.
Proof.
  induction ks as [|i ks IH]; intros H; cbn; [by left|].
  destruct (H i) as [->| ->]; [by left| |by right]. cbn. apply IH. intros j Hj. apply H. by right.
Qed.

Lemma any_of_Ok {I} (p : I → outcome E bool) (q : I → bool) ks :
  (∀ i, i ∈ ks → p i = Ok (q i)) → any_of p ks = Ok (existsb q ks).
Proof.
  induction ks as [|i ks IH]; intros H; cbn; [done|]. rewrite H by (by left). cbn.
  destruct (q i); [done|]. apply IH. intros j Hj. apply H. by right.
Qed.

Lemma all_of_Ok {I} (p : I → outcome E bool) (q : I → bool) ks :
  (∀ i, i ∈ ks → p i = Ok (q i)) → all_of p ks = Ok (forallb q ks).
Proof.
  induction ks as [|i ks IH]; intros H; cbn; [done|]. rewrite H by (by left). cbn.
  destruct (q i); [|done]. apply IH. intros j Hj. apply H. by right.
Qed.

Lemma collect_Ok {I A} (f : I → outcome E A) (g : I → A) ks :
  (∀ i, i ∈ ks → f i = Ok (g i)) → collect f ks = Ok (g <$> ks).
Proof.
  induction ks as [|i ks IH]; intros H; cbn; [done|]. rewrite H by (by left). cbn.
  rewrite IH; [done|]. intros j Hj. apply H. by right.
Qed.

End loops.

Lemma elem_of_range i n : i ∈ seq 0 n ↔ i < n.
Proof. rewrite list_elem_of_In, in_seq. lia. Qed.

(** * Records of one width *)

Class FixedWidth (A : Type) := {
  record_width : nat;
  record_bytes : A → list Z;
  record_good : A → Prop;
  record_length : ∀ a, record_good a → length (record_bytes a) = record_width
}.

Section records.
Context {A : Type} `{FW : FixedWidth A}.
Implicit Types l : list A.

Definition records (l : list A) : list Z := concat (record_bytes <$> l).

Lemma records_cons a l : records (a :: l) = record_bytes a ++ records l.
Proof. done. Qed.

Lemma records_app l l' : records (l ++ l') = records l ++ records l'.
Proof. unfold records. by rewrite fmap_app, concat_app. Qed.

Lemma length_records l :
  Forall record_good l → length (records l) = length l * record_width.
Proof.
  induction 1 as [|a l Ha Hl IH]; [done|]. rewrite records_cons, length_app, IH, record_length by done. done.
Qed.

(** The bytes of a record, found behind a header. *)
Lemma records_split hdr l i a :
  Forall record_good l → l !! i = Some a →
  ∃ pre post, hdr ++ records l = pre ++ record_bytes a ++ post ∧
    length pre = length hdr + i * record_width.
Proof.
  intros Hg Hi. exists (hdr ++ records (take i l)), (records (drop (1 + i) l)). split.
  - rewrite <- (take_drop_middle l i a Hi) at 1. by rewrite records_app, records_cons, app_assoc.
  - rewrite length_app, length_records by (by apply Forall_take).
    rewrite length_take. apply lookup_lt_Some in Hi. do 2 f_equal. lia.
Qed.

(** The field [x..y] of record [i]. *)
Lemma slice_record {E} hdr l i a pos x y :
  Forall record_good l → l !! i = Some a → pos = length hdr + i * record_width →
  x ≤ y → y ≤ record_width →
  slice_get (E := E) (hdr ++ records l) (pos + x) (pos + y) = Ok (slice (record_bytes a) x y).
Proof.
  intros Hg Hi -> Hxy Hy. destruct (records_split hdr l i a Hg Hi) as (pre & post & -> & Hp).
  pose proof (record_length a (proj1 (Forall_lookup _ _) Hg i a Hi)) as Hl.
  rewrite slice_get_Ok by (rewrite ?length_app; lia). f_equal.
  rewrite slice_app_r by lia. rewrite slice_app_l by lia. f_equal; lia.
Qed.

Lemma index_record {E} hdr l i a pos x b :
  Forall record_good l → l !! i = Some a → pos = length hdr + i * record_width →
  record_bytes a !! x = Some b →
  index (E := E) (hdr ++ records l) (pos + x) = Ok b.
Proof.
  intros Hg Hi -> Hx. destruct (records_split hdr l i a Hg Hi) as (pre & post & -> & Hp).
  apply index_Ok. rewrite lookup_app_r by lia.
  replace (_ + x - length pre) with x by lia. by apply lookup_app_l_Some.
Qed.

(** A loop that writes record [f i] at its place writes all of them. *)
Lemma write_records {E} (body : nat → list Z → outcome E (list Z)) (f : nat → A) off n out :
  (∀ i, i < n → record_good (f i)) →
  (∀ i out, i < n → off + (1 + i) * record_width ≤ length out →
    body i out = Ok (splice (off + i * record_width) (record_bytes (f i)) out)) →
  off + n * record_width ≤ length out →
  for_each body (seq 0 n) out = Ok (splice off (records (f <$> seq 0 n)) out).
Proof.
  intros Hg Hb Hl.
  destruct (for_each_range (λ i o, o = splice off (records (f <$> seq 0 i)) out) body n out)
    as (o & -> & ->); [| |done].
  - unfold splice. cbn. by rewrite Nat.add_0_r, take_drop.
  - intros i o Hi ->.
    assert (Hgi : Forall record_good (f <$> seq 0 i)).
    { apply Forall_forall. intros a (j & -> & Hj)%list_elem_of_fmap. apply Hg.
      apply elem_of_range in Hj. lia. }
    pose proof (length_records _ Hgi) as Hli. rewrite length_fmap, length_seq in Hli.
    pose proof (record_length _ (Hg i Hi)) as Hr.
    assert (i * record_width + record_width ≤ n * record_width) by nia.
    rewrite Hb by (try rewrite length_splice; lia). eexists. split; [done|].
    change (1 + i) with (S i). rewrite seq_S, fmap_app, records_app, <- Hli.
    cbn [fmap list_fmap Nat.add]. rewrite records_cons. cbn [records fmap list_fmap concat].
    rewrite app_nil_r. apply splice_splice. lia.
Qed.

(** A version byte, a count and the records, written in place. *)
Definition counted (version : Z) (l : list A) : list Z := [version; Z.of_nat (length l)] ++ records l.

Lemma length_counted version l :
  Forall record_good l → length (counted version l) = 2 + length l * record_width.
Proof. intros Hg. unfold counted. by rewrite length_app, length_records. Qed.

Lemma write_counted {E} `{Inhabited A} version (body : nat → list Z → outcome E (list Z)) l out :
  Forall record_good l → length l ≤ 255 → 2 + length l * record_width ≤ length out →
  (∀ i e out, l !! i = Some e → 2 + (1 + i) * record_width ≤ length out →
     body i out = Ok (splice (2 + i * record_width) (record_bytes e) out)) →
  (let* out := store out 0 version in
   let* out := store out 1 (Z.of_nat (length l) `mod` 256)%Z in
   for_each body (seq 0 (length l)) out)
    = Ok (counted version l ++ drop (2 + length l * record_width) out).
Proof.
  intros Hg Hm Hl Hb. rewrite store_Ok by lia. cbn [obind].
  rewrite store_Ok by (rewrite length_insert; lia). cbn [obind]. rewrite Z.mod_small by lia.
  set (hdr := [version; Z.of_nat (length l)]).
  assert (Hh : <[1 := Z.of_nat (length l)]> (<[0 := version]> out) = splice 0 hdr out)
    by (destruct out as [|a [|b out]]; [cbn in Hl; lia..|done]).
  rewrite Hh.
  assert (Hf : (λ i, l !!! i) <$> seq 0 (length l) = l).
  { apply list_eq. intros i. rewrite list_lookup_fmap. destruct (decide (i < length l)) as [Hi|Hi].
    - rewrite lookup_seq_lt by done. cbn. symmetry. by apply list_lookup_lookup_total_lt.
    - rewrite lookup_seq_ge, lookup_ge_None_2 by lia. done. }
  rewrite (write_records body (λ i, l !!! i) 2).
  - rewrite Hf. change 2 with (0 + length hdr) at 1.
    rewrite splice_splice by (rewrite length_records by done; cbn; lia).
    rewrite splice_0. unfold counted. fold hdr. do 2 f_equal. f_equal.
    by rewrite length_app, length_records by done.
  - intros i Hi. apply (Forall_lookup_total_1 _ _ _ Hg Hi).
  - intros i o Hi Ho. apply Hb; [by apply list_lookup_lookup_total_lt|exact Ho].
  - rewrite length_splice by (cbn; lia). lia.
Qed.

(** Consecutive pieces of one width make up the whole. *)
Lemma slices_concat (blob : list Z) off w n :
  off + n * w ≤ length blob →
  concat ((λ i, slice blob (off + i * w) (off + (1 + i) * w)) <$> seq 0 n)
    = slice blob off (off + n * w).
Proof.
  induction n as [|n IH]; intros Hl.
  - cbn. unfold slice. by rewrite Nat.add_0_r, Nat.sub_diag.
  - rewrite seq_S, fmap_app, concat_app, IH by lia. cbn [fmap list_fmap concat Nat.add].
    rewrite app_nil_r, slice_slice_app by lia. f_equal.
Qed.

(** A blob whose pieces are the bytes of records is the blob of the records. *)
Lemma records_of_slices (blob : list Z) (f : nat → A) off n :
  off + n * record_width = length blob →
  (∀ i, i < n → record_bytes (f i) = slice blob (off + i * record_width) (off + (1 + i) * record_width)) →
  blob = take off blob ++ records (f <$> seq 0 n).
Proof.
  intros Hl Hf. unfold records. rewrite <- list_fmap_compose.
  rewrite (list_fmap_ext _ (λ i, slice blob (off + i * record_width) (off + (1 + i) * record_width))).
  - rewrite slices_concat, Hl, slice_to_end by lia. by rewrite take_drop.
  - intros j i Hj. apply lookup_seq in Hj as [-> Hj]. cbn. by apply Hf.
Qed.

End records.
