(* ===== verification/Ratchets.v ===== *)
(** The ring of an endpoint's own ratchet keys (src/src/ratchet.rs): when to
    rotate, the candidate a rotation prepares, its commitment, and the blob the
    ring is saved as.

    The ring keeps keys, kinds of age and ages in three parallel arrays; its
    abstraction is the list of live keys with their ages, newest first
    ([live]). Reads and writes at an index or range are checked, so a result
    other than [Panic] says that they are in range. *)

From S2P Require Import Prelude Constants Primitives Records.

Definition RATCHET_RING_MAX : nat := 64.
Definition RATCHET_INTERVAL_SECS : Z := 60 * 60 * 12.
Definition RATCHET_EXPIRY_SECS : Z := 60 * 60 * 24 * 30.
Definition RATCHET_RING_BLOB_MAX : nat := 2 + RATCHET_RING_MAX * (1 + 8 + 32).

Definition RING_BLOB_VERSION : Z := 2.
Definition LEGACY_RING_BLOB_VERSION : Z := 1.

Definition AGE_UNKNOWN : Z := 0.
Definition AGE_WALL : Z := 1.
Definition AGE_UPTIME : Z := 2.

Inductive RatchetError := InvalidBlob | RatchetOutputTooSmall | InvalidCandidate.

#[export] Instance ratchet_error_eq_dec : EqDecision RatchetError.
Proof. solve_decision. Defined.

(** ** Clocks and ages *)

Record RatchetClock := { wall_secs : option Z; uptime_secs : Z }.

Module RatchetClock.

Definition new (wall : option Z) (uptime : Z) : RatchetClock :=
  {| wall_secs := wall; uptime_secs := uptime |}.

Definition from_host (wall uptime : Z) : RatchetClock :=
  new (if (wall =? 0)%Z then None else Some wall) uptime.

Definition anchor (clock : RatchetClock) : Z * Z :=
  match wall_secs clock with
  | Some wall => (AGE_WALL, wall)
  | None => (AGE_UPTIME, uptime_secs clock)
  end.

End RatchetClock.

Definition age_kind_valid (kind : Z) : bool :=
  (kind =? AGE_UNKNOWN)%Z || (kind =? AGE_WALL)%Z || (kind =? AGE_UPTIME)%Z.

Definition age_comparable (kind then_ : Z) (clock : RatchetClock) : bool :=
  if (kind =? AGE_WALL)%Z then
    match wall_secs clock with Some now => (then_ <=? now)%Z | None => false end
  else if (kind =? AGE_UPTIME)%Z then (then_ <=? uptime_secs clock)%Z
  else false.

Definition age_elapsed_at_least (kind then_ : Z) (clock : RatchetClock) (interval : Z) : bool :=
  if (kind =? AGE_WALL)%Z then
    match wall_secs clock with
    | Some now => (then_ <=? now)%Z && (interval <=? sat_sub now then_)%Z
    | None => false
    end
  else if (kind =? AGE_UPTIME)%Z then
    (then_ <=? uptime_secs clock)%Z && (interval <=? sat_sub (uptime_secs clock) then_)%Z
  else false.

Definition age_expired (kind then_ : Z) (clock : RatchetClock) : bool :=
  if (kind =? AGE_WALL)%Z then
    match wall_secs clock with
    | Some now => (then_ <=? now)%Z && (RATCHET_EXPIRY_SECS <? sat_sub now then_)%Z
    | None => false
    end
  else if (kind =? AGE_UPTIME)%Z then
    (then_ <=? uptime_secs clock)%Z && (RATCHET_EXPIRY_SECS <? sat_sub (uptime_secs clock) then_)%Z
  else false.

Definition effective_age (kind then_ : Z) (clock : RatchetClock) : Z * Z :=
  if age_comparable kind then_ clock then (kind, then_) else RatchetClock.anchor clock.

(** ** The ring *)

Inductive RatchetRotationAction := Unchanged | PersistMetadata | Rotate | FullRingProtected.

#[export] Instance rotation_action_eq_dec : EqDecision RatchetRotationAction.
Proof. solve_decision. Defined.

Inductive RatchetPreparation :=
| PrepUnchanged
| PrepPersistMetadata (blob_len : nat)
| PrepRotated (blob_len : nat) (public_key : list Z)
| PrepFullRingProtected.

Definition prep_blob_len (p : RatchetPreparation) : option nat :=
  match p with
  | PrepPersistMetadata n | PrepRotated n _ => Some n
  | PrepUnchanged | PrepFullRingProtected => None
  end.

Record RatchetRing := {
  rr_keys : list (list Z);
  rr_age_kinds : list Z;
  rr_age_secs : list Z;
  rr_len : nat
}.

Definition ring_blob_len (len : nat) : nat := 2 + len * 41.

Definition ring_blob_key (blob : list Z) (index : nat) : outcome RatchetError (list Z) :=
  let pos := 2 + index * 41 in slice_get blob (pos + 9) (pos + 41).

Definition validate_ring_entry (blob : list Z) (i : nat) : outcome RatchetError unit :=
  let pos := 2 + i * 41 in
  let* kind := index blob pos in
  if negb (age_kind_valid kind) then Err InvalidBlob
  else if (kind =? AGE_UNKNOWN)%Z then
    let* age := slice_get blob (pos + 1) (pos + 9) in
    if existsb (λ byte, negb (byte =? 0)%Z) age then Err InvalidBlob else Ok tt
  else Ok tt.

Definition validate_ring_blob (blob : list Z) (allow_legacy : bool) : outcome RatchetError unit :=
  if length blob <? 2 then Err InvalidBlob
  else
    let* count := index blob 1 in
    let len := Z.to_nat count in
    if RATCHET_RING_MAX <? len then Err InvalidBlob
    else
      let* version := index blob 0 in
      if (version =? RING_BLOB_VERSION)%Z then
        if negb (length blob =? ring_blob_len len) then Err InvalidBlob
        else for_each (λ i _, validate_ring_entry blob i) (seq 0 len) tt
      else if (version =? LEGACY_RING_BLOB_VERSION)%Z && allow_legacy
                && (length blob =? 10 + len * 32) then Ok tt
      else Err InvalidBlob.

Module RatchetRing.
Section ring.
Context `{X : X25519}.

Definition new : RatchetRing :=
  {| rr_keys := replicate RATCHET_RING_MAX (zeros 32);
     rr_age_kinds := replicate RATCHET_RING_MAX AGE_UNKNOWN;
     rr_age_secs := replicate RATCHET_RING_MAX 0%Z; rr_len := 0 |}.

Definition ratchet_public_bytes (ratchet_private : list Z) : list Z := x_public ratchet_private.

Definition len (r : RatchetRing) : nat := rr_len r.
Definition is_empty (r : RatchetRing) : bool := rr_len r =? 0.
Definition private_keys (r : RatchetRing) : list (list Z) := take (rr_len r) (rr_keys r).
Definition private_key (r : RatchetRing) (i : nat) : option (list Z) :=
  if i <? rr_len r then rr_keys r !! i else None.
Definition current_public_key (r : RatchetRing) : option (list Z) :=
  ratchet_public_bytes <$> private_key r 0.

Definition age_of (r : RatchetRing) (i : nat) : outcome RatchetError (Z * Z) :=
  let* kind := index (rr_age_kinds r) i in
  let* secs := index (rr_age_secs r) i in
  Ok (kind, secs).

Definition rotation_action (r : RatchetRing) (clock : RatchetClock)
  : outcome RatchetError RatchetRotationAction :=
  if rr_len r =? 0 then Ok Rotate
  else
    let* needs_anchor := any_of (λ i,
        let* (kind, secs) := age_of r i in Ok (negb (age_comparable kind secs clock)))
      (seq 0 (rr_len r)) in
    let* (kind0, secs0) := age_of r 0 in
    let rotation_due := age_elapsed_at_least kind0 secs0 clock RATCHET_INTERVAL_SECS in
    if negb rotation_due then Ok (if needs_anchor then PersistMetadata else Unchanged)
    else
      let* evictable :=
        if rr_len r <? RATCHET_RING_MAX then Ok true
        else let* (kind, secs) := age_of r (rr_len r - 1) in Ok (age_expired kind secs clock) in
      Ok (if evictable : bool then Rotate
          else if needs_anchor then PersistMetadata else FullRingProtected).

(** One round of the loop that writes the candidate. *)
Definition write_candidate (r : RatchetRing) (fresh_private : list Z) (clock : RatchetClock)
    (rotating : bool) (i : nat) (out : list Z) : outcome RatchetError (list Z) :=
  let pos := 2 + i * 41 in
  let source_index := if rotating then match i with O => None | S j => Some j end else Some i in
  let* (age, key) :=
    match source_index with
    | Some source =>
        let* (kind, secs) := age_of r source in
        let* key := index (rr_keys r) source in
        Ok (effective_age kind secs clock, key)
    | None => Ok (RatchetClock.anchor clock, fresh_private)
    end in
  let* out := store out pos (fst age) in
  let* out := copy_into out (pos + 1) (be_bytes 8 (snd age)) in
  copy_into out (pos + 9) key.

(** The output slice is the state; the by-value copy of the fresh key that the
    code wipes at the end is not state. *)
Definition prepare_rotation_into (r : RatchetRing) (fresh_private : list Z) (clock : RatchetClock)
  : st (list Z) RatchetError RatchetPreparation := λ out,
  match rotation_action r clock with
  | Panic => (Panic, out)
  | Err e => (Err e, out)
  | Ok Unchanged => (Ok PrepUnchanged, out)
  | Ok FullRingProtected => (Ok PrepFullRingProtected, out)
  | Ok action =>
      let rotating := bool_decide (action = Rotate) in
      let candidate_len := if rotating then Nat.min (rr_len r + 1) RATCHET_RING_MAX else rr_len r in
      let need := ring_blob_len candidate_len in
      if length out <? need then (Err RatchetOutputTooSmall, out)
      else
        match (let* out := store out 0 RING_BLOB_VERSION in
               let* out := store out 1 (Z.of_nat candidate_len `mod` 256)%Z in
               for_each (write_candidate r fresh_private clock rotating) (seq 0 candidate_len) out)
        with
        | Ok out' =>
            (Ok (if rotating then PrepRotated need (ratchet_public_bytes fresh_private)
                 else PrepPersistMetadata need), out')
        | Err e => (Err e, out)
        | Panic => (Panic, out)
        end
  end.

Definition is_valid_candidate (r : RatchetRing) (blob : list Z) : outcome RatchetError bool :=
  let* count := index blob 1 in
  let candidate_len := Z.to_nat count in
  if rr_len r =? 0 then Ok (candidate_len =? 1)
  else
    let holds (shift i : nat) :=
      let* candidate := ring_blob_key blob i in
      let* key := index (rr_keys r) (i - shift) in
      Ok (candidate =k key) in
    let* same :=
      if candidate_len =? rr_len r then all_of (holds 0) (seq 0 (rr_len r)) else Ok false in
    if same : bool then Ok true
    else
      let expected_len := Nat.min (rr_len r + 1) RATCHET_RING_MAX in
      if candidate_len =? expected_len then all_of (holds 1) (seq 1 (candidate_len - 1))
      else Ok false.

Definition set_age (i : nat) (kind secs : Z) (r : RatchetRing) : outcome RatchetError RatchetRing :=
  let* kinds := store (rr_age_kinds r) i kind in
  let* ages := store (rr_age_secs r) i secs in
  Ok {| rr_keys := rr_keys r; rr_age_kinds := kinds; rr_age_secs := ages; rr_len := rr_len r |}.

Definition set_key (i : nat) (key : list Z) (r : RatchetRing) : outcome RatchetError RatchetRing :=
  let* key := to_array 32 key in
  let* keys := store (rr_keys r) i key in
  Ok {| rr_keys := keys; rr_age_kinds := rr_age_kinds r; rr_age_secs := rr_age_secs r;
        rr_len := rr_len r |}.

(** [zeroize] leaves every field as [new] has it. *)
Definition zeroize (r : RatchetRing) : RatchetRing :=
  {| rr_keys := replicate (length (rr_keys r)) (zeros 32);
     rr_age_kinds := replicate (length (rr_age_kinds r)) 0%Z;
     rr_age_secs := replicate (length (rr_age_secs r)) 0%Z; rr_len := 0 |}.

Definition load_legacy (blob : list Z) (i : nat) (r : RatchetRing) : outcome RatchetError RatchetRing :=
  let pos := 10 + i * 32 in
  let* key := slice_get blob pos (pos + 32) in
  set_key i key r.

Definition load_entry (blob : list Z) (persisted : bool) (i : nat) (r : RatchetRing)
  : outcome RatchetError RatchetRing :=
  let pos := 2 + i * 41 in
  let* stored_kind := index blob pos in
  let kind := if persisted && (stored_kind =? AGE_UPTIME)%Z then AGE_UNKNOWN else stored_kind in
  let* encoded := slice_get blob (pos + 1) (pos + 9) in
  let secs := if (kind =? AGE_UNKNOWN)%Z then 0%Z else of_be encoded in
  let* r := set_age i kind secs r in
  let* key := slice_get blob (pos + 9) (pos + 41) in
  set_key i key r.

Definition apply_blob (blob : list Z) (persisted : bool) (r : RatchetRing)
  : outcome RatchetError RatchetRing :=
  let* version := index blob 0 in
  let* count := index blob 1 in
  let len := Z.to_nat count in
  let wiped := zeroize r in
  let r := {| rr_keys := rr_keys wiped; rr_age_kinds := rr_age_kinds wiped;
              rr_age_secs := rr_age_secs wiped; rr_len := len |} in
  if (version =? LEGACY_RING_BLOB_VERSION)%Z then
    let* encoded := slice_get blob 2 10 in
    let last_rotation := of_be encoded in
    let* r := if (0 <? len) && negb (last_rotation =? 0)%Z then set_age 0 AGE_WALL last_rotation r
              else Ok r in
    for_each (load_legacy blob) (seq 0 len) r
  else for_each (load_entry blob persisted) (seq 0 len) r.

Definition commit_prepared_blob (blob : list Z) : st RatchetRing RatchetError unit :=
  commit_state (λ r,
    let* _ := validate_ring_blob blob false in
    let* version := index blob 0 in
    let* compatible := if negb (version =? RING_BLOB_VERSION)%Z then Ok false
                       else is_valid_candidate r blob in
    if negb compatible then Err InvalidCandidate else apply_blob blob false r).

Definition load_persisted (blob : list Z) : st RatchetRing RatchetError unit :=
  commit_state (λ r, let* _ := validate_ring_blob blob true in apply_blob blob true r).

Definition deserialize (blob : list Z) : outcome RatchetError RatchetRing :=
  let (result, ring) := load_persisted blob new in let* _ := result in Ok ring.

(** One round of the loop that writes the live ring. *)
Definition write_live (r : RatchetRing) (i : nat) (out : list Z) : outcome RatchetError (list Z) :=
  let pos := 2 + i * 41 in
  let* (kind, secs) := age_of r i in
  let* out := store out pos kind in
  let* out := copy_into out (pos + 1) (be_bytes 8 secs) in
  let* key := index (rr_keys r) i in
  copy_into out (pos + 9) key.

Definition serialize_into (r : RatchetRing) : st (list Z) RatchetError nat := λ out,
  let need := ring_blob_len (rr_len r) in
  if length out <? need then (Err RatchetOutputTooSmall, out)
  else
    match (let* out := store out 0 RING_BLOB_VERSION in
           let* out := store out 1 (Z.of_nat (rr_len r) `mod` 256)%Z in
           for_each (write_live r) (seq 0 (rr_len r)) out)
    with
    | Ok out' => (Ok need, out')
    | Err e => (Err e, out)
    | Panic => (Panic, out)
    end.

(** ** The live keys with their ages *)

Record OwnRatchet := { own_kind : Z; own_secs : Z; own_key : list Z }.

#[export] Instance own_inhabited : Inhabited OwnRatchet :=
  populate {| own_kind := 0; own_secs := 0; own_key := [] |}.

Definition own_good (e : OwnRatchet) : Prop :=
  age_kind_valid (own_kind e) = true ∧ in_u64 (own_secs e) ∧
  (own_kind e = AGE_UNKNOWN → own_secs e = 0%Z) ∧ length (own_key e) = 32 ∧ bytes (own_key e).

Definition own_bytes (e : OwnRatchet) : list Z :=
  [own_kind e] ++ be_bytes 8 (own_secs e) ++ own_key e.

#[refine] #[export] Instance own_fixed : FixedWidth OwnRatchet :=
  {| record_width := 41; record_bytes := own_bytes; record_good := own_good |}.
Proof.
  intros e (_ & _ & _ & Hk & _). unfold own_bytes. by rewrite !length_app, length_be_bytes, Hk.
Defined.

Definition row (r : RatchetRing) (i : nat) : OwnRatchet :=
  {| own_kind := rr_age_kinds r !!! i; own_secs := rr_age_secs r !!! i; own_key := rr_keys r !!! i |}.

Definition live (r : RatchetRing) : list OwnRatchet := row r <$> seq 0 (rr_len r).

(** The three arrays have their declared length. *)
Definition shaped (r : RatchetRing) : Prop :=
  length (rr_keys r) = RATCHET_RING_MAX ∧ length (rr_age_kinds r) = RATCHET_RING_MAX ∧
  length (rr_age_secs r) = RATCHET_RING_MAX.

Definition ok (r : RatchetRing) : Prop :=
  shaped r ∧ rr_len r ≤ RATCHET_RING_MAX ∧ Forall own_good (live r).

Definition anchored (clock : RatchetClock) (e : OwnRatchet) : OwnRatchet :=
  let age := effective_age (own_kind e) (own_secs e) clock in
  {| own_kind := fst age; own_secs := snd age; own_key := own_key e |}.

Definition fresh_own (key : list Z) (clock : RatchetClock) : OwnRatchet :=
  let age := RatchetClock.anchor clock in
  {| own_kind := fst age; own_secs := snd age; own_key := key |}.

Definition expired (clock : RatchetClock) (e : OwnRatchet) : bool :=
  age_expired (own_kind e) (own_secs e) clock.

Definition unanchored (clock : RatchetClock) (e : OwnRatchet) : bool :=
  negb (age_comparable (own_kind e) (own_secs e) clock).

(** What to do, from the list of live keys. *)
Definition decide_rotation (l : list OwnRatchet) (clock : RatchetClock) : RatchetRotationAction :=
  match l with
  | [] => Rotate
  | e :: _ =>
      let waiting := if existsb (unanchored clock) l then PersistMetadata else Unchanged in
      let protected := if existsb (unanchored clock) l then PersistMetadata else FullRingProtected in
      if negb (age_elapsed_at_least (own_kind e) (own_secs e) clock RATCHET_INTERVAL_SECS) then waiting
      else if (length l <? RATCHET_RING_MAX)
                || match last l with Some oldest => expired clock oldest | None => false end
      then Rotate else protected
  end.

(** The keys of a candidate. *)
Definition candidate (l : list OwnRatchet) (fresh : list Z) (clock : RatchetClock)
    (action : RatchetRotationAction) : list OwnRatchet :=
  match action with
  | Rotate => fresh_own fresh clock :: take (RATCHET_RING_MAX - 1) (anchored clock <$> l)
  | _ => anchored clock <$> l
  end.

Definition ring_blob (l : list OwnRatchet) : list Z := counted RING_BLOB_VERSION l.

(** What a key's age is after a restart. *)
Definition restored (persisted : bool) (e : OwnRatchet) : OwnRatchet :=
  if persisted && (own_kind e =? AGE_UPTIME)%Z
  then {| own_kind := AGE_UNKNOWN; own_secs := 0; own_key := own_key e |} else e.

Definition clock_ok (clock : RatchetClock) : Prop :=
  in_u64 (uptime_secs clock) ∧ ∀ w, wall_secs clock = Some w → in_u64 w.

Definition key_ok (key : list Z) : Prop := length key = 32 ∧ bytes key.

Lemma length_live r : length (live r) = rr_len r.
Proof. unfold live. by rewrite length_fmap, length_seq. Qed.

Lemma live_row r i : i < rr_len r → live r !! i = Some (row r i).
Proof. intros Hi. unfold live. by rewrite list_lookup_fmap, lookup_seq_lt. Qed.

Lemma live_lookup r i e : live r !! i = Some e → i < rr_len r ∧ e = row r i.
Proof.
  intros Hi. pose proof (lookup_lt_Some _ _ _ Hi) as Hl. rewrite length_live in Hl.
  rewrite live_row in Hi by done. by simplify_eq.
Qed.

Lemma age_of_row r i :
  shaped r → i < RATCHET_RING_MAX → age_of r i = Ok (own_kind (row r i), own_secs (row r i)).
Proof.
  intros (_ & Hk & Hs) Hi. unfold age_of.
  rewrite (index_Ok _ _ (rr_age_kinds r !!! i)) by (apply list_lookup_lookup_total_lt; lia).
  cbn. by rewrite (index_Ok _ _ (rr_age_secs r !!! i)) by (apply list_lookup_lookup_total_lt; lia).
Qed.

Lemma key_of_row {E} r i :
  shaped r → i < RATCHET_RING_MAX → index (E := E) (rr_keys r) i = Ok (own_key (row r i)).
Proof.
  intros (Hk & _ & _) Hi. apply index_Ok, list_lookup_lookup_total_lt. lia.
Qed.

Lemma private_keys_live r : ok r → private_keys r = own_key <$> live r.
Proof.
  intros ((Hk & _ & _) & Hl & _). unfold private_keys, live. rewrite <- list_fmap_compose.
  apply list_eq. intros i. rewrite list_lookup_fmap. destruct (decide (i < rr_len r)) as [Hi|Hi].
  - rewrite lookup_seq_lt, lookup_take_lt by done. cbn. apply list_lookup_lookup_total_lt. lia.
  - rewrite lookup_take_ge, lookup_seq_ge by lia. done.
Qed.

Lemma existsb_ext {A B} (f : A → B) (p : B → bool) l : existsb (λ a, p (f a)) l = existsb p (f <$> l).
Proof. induction l as [|a l IH]; [done|]. cbn. by rewrite IH. Qed.

Lemma rotation_action_live r clock : ok r → rotation_action r clock = Ok (decide_rotation (live r) clock).
Proof.
  intros (Hs & Hl & _). unfold rotation_action. destruct (rr_len r =? 0) eqn:H0; bool_hyps.
  - unfold live. by rewrite H0.
  - rewrite (any_of_Ok _ (λ i, unanchored clock (row r i))).
    2:{ intros i Hi%elem_of_range. by rewrite age_of_row by (done || lia). }
    rewrite (existsb_ext (row r) (unanchored clock)). fold (live r). cbn [obind].
    rewrite age_of_row by (done || (unfold RATCHET_RING_MAX; lia)). cbn [obind].
    assert (Hne : ∃ t, live r = row r 0 :: t).
    { pose proof (live_row r 0 ltac:(lia)) as H. destruct (live r) as [|e t]; [done|].
      exists t. simpl in H. by simplify_eq. }
    assert (Hlast : last (live r) = Some (row r (rr_len r - 1))).
    { rewrite last_lookup, length_live, <- live_row by lia. f_equal. lia. }
    destruct Hne as [t Ht]. unfold decide_rotation. rewrite Ht at 2. cbv zeta.
    rewrite Hlast, length_live. destruct (negb (age_elapsed_at_least _ _ _ _)); [done|].
    destruct (rr_len r <? RATCHET_RING_MAX) eqn:Hm; bool_hyps; [done|].
    rewrite age_of_row by (done || lia). cbn [obind orb]. unfold expired. by destruct (age_expired _ _ _).
Qed.

(** ** Ages *)

Lemma anchor_good clock :
  clock_ok clock → age_kind_valid (fst (RatchetClock.anchor clock)) = true ∧
  in_u64 (snd (RatchetClock.anchor clock)) ∧ fst (RatchetClock.anchor clock) ≠ AGE_UNKNOWN.
Proof.
  intros [Hu Hw]. unfold RatchetClock.anchor. destruct (wall_secs clock); cbn; [|done].
  split; [done|]. split; [by apply Hw|done].
Qed.

Lemma anchored_good clock e : clock_ok clock → own_good e → own_good (anchored clock e).
Proof.
  intros Hc (H1 & H2 & H3 & H4). unfold own_good, anchored, effective_age. cbn.
  destruct (age_comparable _ _ _); cbn; [done|].
  destruct (anchor_good clock Hc) as (? & ? & ?). done.
Qed.

Lemma fresh_good key clock : clock_ok clock → key_ok key → own_good (fresh_own key clock).
Proof.
  intros Hc [Hk Hb]. unfold own_good, fresh_own. cbn. destruct (anchor_good clock Hc) as (? & ? & ?). done.
Qed.

Lemma restored_good p e : own_good e → own_good (restored p e).
Proof.
  intros (H1 & H2 & H3 & H4). unfold restored. destruct (p && _)%bool; [|done].
  unfold own_good. cbn. unfold in_u64, u64_max. repeat split; try done; apply H4.
Qed.

Lemma restored_false e : restored false e = e.
Proof. done. Qed.

Lemma candidate_good l fresh clock a :
  Forall own_good l → clock_ok clock → key_ok fresh → Forall own_good (candidate l fresh clock a).
Proof.
  intros Hl Hc Hf.
  assert (Ha : Forall own_good (anchored clock <$> l)).
  { apply Forall_fmap. eapply Forall_impl; [done|]. intros e. by apply anchored_good. }
  destruct a; try done. constructor; [by apply fresh_good|by apply Forall_take].
Qed.

Lemma candidate_length l fresh clock a :
  length l ≤ RATCHET_RING_MAX →
  length (candidate l fresh clock a) =
    if bool_decide (a = Rotate) then Nat.min (length l + 1) RATCHET_RING_MAX else length l.
Proof.
  intros Hl. destruct a; cbn [candidate]; rewrite ?bool_decide_eq_false_2 by done; rewrite ?length_fmap; try done.
  rewrite bool_decide_eq_true_2 by done. cbn [length]. rewrite length_take, length_fmap.
  unfold RATCHET_RING_MAX in *. lia.
Qed.

(** ** Writing a blob *)

Lemma write_fields_of e i out :
  own_good e → 2 + (1 + i) * 41 ≤ length out →
  (let* out := store (E := RatchetError) out (2 + i * 41) (own_kind e) in
   let* out := copy_into out (2 + i * 41 + 1) (be_bytes 8 (own_secs e)) in
   copy_into out (2 + i * 41 + 9) (own_key e)) = Ok (splice (2 + i * 41) (own_bytes e) out).
Proof.
  intros (_ & _ & _ & Hk & _) Hl. set (pos := 2 + i * 41).
  assert (Hpos : pos + 41 ≤ length out) by lia.
  rewrite store_Ok by lia. cbn [obind].
  assert (Hins : <[pos := own_kind e]> out = splice pos [own_kind e] out).
  { unfold splice. cbn [length]. rewrite <- (take_drop_middle (<[pos := own_kind e]> out) pos (own_kind e)).
    - rewrite take_insert, drop_insert_lt by lia. case_decide; [lia|]. by rewrite Nat.add_1_r.
    - apply list_lookup_insert_eq. lia. }
  rewrite Hins. rewrite copy_into_Ok by (rewrite length_splice, length_be_bytes; cbn; lia). cbn [obind].
  change (pos + 1) with (pos + length [own_kind e]). rewrite splice_splice
    by (rewrite length_be_bytes; cbn; lia).
  rewrite copy_into_Ok by (rewrite length_splice; rewrite ?length_app, ?length_be_bytes; cbn; lia).
  replace (pos + 9) with (pos + length ([own_kind e] ++ be_bytes 8 (own_secs e))) by done.
  rewrite splice_splice by (rewrite length_app, length_be_bytes, Hk; cbn; lia).
  unfold own_bytes. by rewrite <- app_assoc.
Qed.

(** Writing the list [l], entry by entry, behind the header. *)
Lemma write_ring (body : nat → list Z → outcome RatchetError (list Z)) l out :
  Forall own_good l → length l ≤ RATCHET_RING_MAX → ring_blob_len (length l) ≤ length out →
  (∀ i e out, l !! i = Some e → 2 + (1 + i) * 41 ≤ length out →
     body i out = Ok (splice (2 + i * 41) (own_bytes e) out)) →
  (let* out := store out 0 RING_BLOB_VERSION in
   let* out := store out 1 (Z.of_nat (length l) `mod` 256)%Z in
   for_each body (seq 0 (length l)) out)
    = Ok (ring_blob l ++ drop (ring_blob_len (length l)) out).
Proof.
  intros Hg Hm Hl Hb. apply (write_counted (FW := own_fixed) RING_BLOB_VERSION body l out); [done| |done|done].
  unfold RATCHET_RING_MAX in Hm. lia.
Qed.

Lemma live_good r i : ok r → i < rr_len r → own_good (row r i).
Proof. intros (_ & _ & Hg) Hi. apply (proj1 (Forall_lookup _ _) Hg i). by apply live_row. Qed.

(** One round of the loop of a preparation. *)
Lemma write_candidate_spec r fresh clock a i e out :
  ok r → clock_ok clock → key_ok fresh → a = Rotate ∨ a = PersistMetadata →
  candidate (live r) fresh clock a !! i = Some e → 2 + (1 + i) * 41 ≤ length out →
  write_candidate r fresh clock (bool_decide (a = Rotate)) i out
    = Ok (splice (2 + i * 41) (own_bytes e) out).
Proof.
  intros Hr Hc Hf Ha Hi Hl. destruct Hr as (Hs & Hm & Hg).
  assert (He : own_good e)
    by (eapply Forall_lookup_1; [by apply (candidate_good (live r) fresh clock a)|done]).
  assert (Hsrc : ∀ j, live r !! j = Some (row r j) → e = anchored clock (row r j) →
    (let* (kind, secs) := age_of r j in let* key := index (rr_keys r) j in
     Ok (E := RatchetError) (effective_age kind secs clock, key)) = Ok ((own_kind e, own_secs e), own_key e)).
  { intros j Hj ->. apply lookup_lt_Some in Hj. rewrite length_live in Hj.
    rewrite age_of_row, key_of_row by (done || lia). cbn [obind]. unfold anchored. cbn.
    by destruct (effective_age _ _ _). }
  unfold write_candidate. cbv zeta.
  destruct Ha as [-> | ->]; cbn [candidate] in Hi.
  - rewrite bool_decide_eq_true_2 by done. destruct i as [|j].
    + cbn in Hi. injection Hi as <-. cbn [obind].
      rewrite <- (write_fields_of (fresh_own fresh clock) 0 out) by done. done.
    + cbn in Hi. apply lookup_take_Some in Hi as [Hi _].
      rewrite list_lookup_fmap in Hi. apply fmap_Some in Hi as (x & Hx & ->).
      pose proof (live_lookup _ _ _ Hx) as [_ ->]. rewrite Hsrc by done. cbn [obind].
      by rewrite <- write_fields_of.
  - rewrite bool_decide_eq_false_2 by done.
    rewrite list_lookup_fmap in Hi. apply fmap_Some in Hi as (x & Hx & ->).
    pose proof (live_lookup _ _ _ Hx) as [_ ->]. rewrite Hsrc by done. cbn [obind].
    by rewrite <- write_fields_of.
Qed.

Lemma prepare_spec r fresh clock out :
  ok r → clock_ok clock → key_ok fresh →
  prepare_rotation_into r fresh clock out =
    let a := decide_rotation (live r) clock in
    let l := candidate (live r) fresh clock a in
    let need := ring_blob_len (length l) in
    match a with
    | Unchanged => (Ok PrepUnchanged, out)
    | FullRingProtected => (Ok PrepFullRingProtected, out)
    | _ =>
        if length out <? need then (Err RatchetOutputTooSmall, out)
        else (Ok (match a with Rotate => PrepRotated need (ratchet_public_bytes fresh)
                  | _ => PrepPersistMetadata need end),
              ring_blob l ++ drop need out)
    end.
Proof.
  intros Hr Hc Hf. unfold prepare_rotation_into. rewrite rotation_action_live by done. cbv zeta.
  set (a := decide_rotation (live r) clock).
  assert (Hmain : a = Rotate ∨ a = PersistMetadata →
    length (candidate (live r) fresh clock a) =
      (if bool_decide (a = Rotate) then Nat.min (rr_len r + 1) RATCHET_RING_MAX else rr_len r) ∧
    (ring_blob_len (length (candidate (live r) fresh clock a)) ≤ length out →
     (let* out := store out 0 RING_BLOB_VERSION in
      let* out := store out 1 (Z.of_nat (length (candidate (live r) fresh clock a)) `mod` 256)%Z in
      for_each (write_candidate r fresh clock (bool_decide (a = Rotate)))
        (seq 0 (length (candidate (live r) fresh clock a))) out)
     = Ok (ring_blob (candidate (live r) fresh clock a)
           ++ drop (ring_blob_len (length (candidate (live r) fresh clock a))) out))).
  { intros Ha. destruct Hr as (Hs & Hm & Hg).
    assert (Hlen : length (candidate (live r) fresh clock a) =
      (if bool_decide (a = Rotate) then Nat.min (rr_len r + 1) RATCHET_RING_MAX else rr_len r))
      by (rewrite candidate_length, length_live; [done|by rewrite length_live]).
    split; [done|]. intros Hl. apply write_ring; [by apply candidate_good| |done|].
    - rewrite Hlen. destruct (bool_decide _); lia.
    - intros i e o Hi Ho. by apply write_candidate_spec. }
  destruct a; [done| | |done].
  - destruct Hmain as [Hn Hw]; [by right|]. rewrite bool_decide_eq_false_2 in Hn, Hw |- * by done.
    rewrite <- Hn. destruct (_ <? _) eqn:Hl; bool_hyps; [done|]. by rewrite Hw.
  - destruct Hmain as [Hn Hw]; [by left|]. rewrite bool_decide_eq_true_2 in Hn, Hw |- * by done.
    rewrite <- Hn. destruct (_ <? _) eqn:Hl; bool_hyps; [done|]. by rewrite Hw.
Qed.

Lemma serialize_spec r out :
  ok r →
  serialize_into r out =
    let need := ring_blob_len (rr_len r) in
    if length out <? need then (Err RatchetOutputTooSmall, out)
    else (Ok need, ring_blob (live r) ++ drop need out).
Proof.
  intros Hr. unfold serialize_into. cbv zeta. destruct (_ <? _) eqn:Hl; bool_hyps; [done|].
  pose proof Hr as (Hs & Hm & Hg). rewrite <- length_live in *. rewrite (write_ring (write_live r)); try done.
  intros i e o Hi Ho. pose proof (live_lookup _ _ _ Hi) as [Hlt ->]. unfold write_live. cbv zeta.
  rewrite <- length_live in Hlt.
  rewrite age_of_row by (done || lia). cbn [obind]. rewrite <- write_fields_of by (done || by apply live_good; rewrite <- ?length_live).
  destruct (store _ _ _); [|done..]. cbn [obind]. destruct (copy_into _ _ _); [|done..]. cbn [obind].
  by rewrite key_of_row by (done || lia).
Qed.

(** ** Validation *)

Lemma length_ring_blob l : Forall own_good l → length (ring_blob l) = ring_blob_len (length l).
Proof. apply (length_counted (FW := own_fixed)). Qed.

Lemma kind_bytes e : own_bytes e !! 0 = Some (own_kind e).
Proof. done. Qed.

Lemma age_bytes e : slice (own_bytes e) 1 9 = be_bytes 8 (own_secs e).
Proof.
  unfold own_bytes. apply slice_app_exact; [done|]. by rewrite length_be_bytes.
Qed.

Lemma key_bytes e : length (own_key e) = 32 → slice (own_bytes e) 9 41 = own_key e.
Proof.
  intros Hk. unfold own_bytes. rewrite app_assoc, slice_app_r by (by rewrite length_app, length_be_bytes).
  rewrite length_app, length_be_bytes. change (slice (own_key e) 0 32 = own_key e).
  rewrite <- Hk. apply slice_full.
Qed.

(** What the parsing of a blob sees at entry [i]. *)
Lemma entry_fields {E} l i e :
  Forall own_good l → l !! i = Some e →
  index (E := E) (ring_blob l) (2 + i * 41) = Ok (own_kind e) ∧
  slice_get (E := E) (ring_blob l) (2 + i * 41 + 1) (2 + i * 41 + 9) = Ok (be_bytes 8 (own_secs e)) ∧
  slice_get (E := E) (ring_blob l) (2 + i * 41 + 9) (2 + i * 41 + 41) = Ok (own_key e).
Proof.
  intros Hg Hi. pose proof (proj1 (Forall_lookup _ _) Hg i e Hi) as (_ & _ & _ & Hk & _).
  set (hdr := [RING_BLOB_VERSION; Z.of_nat (length l)]).
  repeat split.
  - rewrite <- (Nat.add_0_r (2 + i * 41)). by apply (index_record (FW := own_fixed) hdr l i e).
  - rewrite <- age_bytes. apply (slice_record (FW := own_fixed) hdr l i e); [done|done|done|lia|cbn; lia].
  - rewrite <- (key_bytes e) by done.
    apply (slice_record (FW := own_fixed) hdr l i e); [done|done|done|lia|cbn; lia].
Qed.

Lemma nonzero_zeros n : existsb (λ byte, negb (byte =? 0)%Z) (be_bytes n 0) = false.
Proof.
  induction n as [|n IH]; [done|]. rewrite be_bytes_cons. cbn [existsb].
  by rewrite IH, Z.div_0_l by (pose proof (pow256_pos n); lia).
Qed.

Lemma zeros_of_existsb l : existsb (λ byte, negb (byte =? 0)%Z) l = false → l = zeros (length l).
Proof.
  induction l as [|b l IH]; cbn; [done|]. intros [Hb Hl]%orb_false_iff.
  apply negb_false_iff, Z.eqb_eq in Hb as ->. change (0 :: l = 0 :: zeros (length l))%Z. by f_equal; apply IH.
Qed.

Lemma validate_ring_blob_of l legacy :
  Forall own_good l → length l ≤ RATCHET_RING_MAX → validate_ring_blob (ring_blob l) legacy = Ok tt.
Proof.
  intros Hg Hm. unfold validate_ring_blob. rewrite length_ring_blob by done.
  unfold ring_blob_len at 1. destruct (2 + _ <? 2) eqn:H2; bool_hyps; [lia|].
  change (index (ring_blob l) 1) with (Ok (E := RatchetError) (Z.of_nat (length l))).
  change (index (ring_blob l) 0) with (Ok (E := RatchetError) RING_BLOB_VERSION).
  cbn [obind]. rewrite Nat2Z.id.
  rewrite (proj2 (Nat.ltb_ge _ _)) by done. cbn [Z.eqb RING_BLOB_VERSION Pos.eqb].
  rewrite Nat.eqb_refl. cbn [negb]. apply for_each_check. intros i Hi%elem_of_range.
  apply lookup_lt_is_Some in Hi as [e Hi]. destruct (entry_fields (E := RatchetError) l i e Hg Hi) as (H1 & H3 & _).
  unfold validate_ring_entry. cbv zeta. rewrite H1. cbn [obind].
  destruct (proj1 (Forall_lookup _ _) Hg i e Hi) as (Hv & _ & Hu & _). rewrite Hv. cbn [negb].
  destruct (own_kind e =? AGE_UNKNOWN)%Z eqn:Hk; bool_hyps; [|done].
  rewrite H3. cbn [obind]. by rewrite Hu, nonzero_zeros.
Qed.

(** The entry at position [i] of a blob. *)
Definition entry_at (blob : list Z) (i : nat) : OwnRatchet :=
  let pos := 2 + i * 41 in
  {| own_kind := blob !!! pos; own_secs := of_be (slice blob (pos + 1) (pos + 9));
     own_key := slice blob (pos + 9) (pos + 41) |}.

Lemma entry_at_bytes blob i :
  bytes blob → 2 + (1 + i) * 41 ≤ length blob →
  own_bytes (entry_at blob i) = slice blob (2 + i * 41) (2 + (1 + i) * 41).
Proof.
  intros Hb Hl. set (pos := 2 + i * 41). replace (2 + (1 + i) * 41) with (pos + 41) in * by lia.
  assert (Hs : length (slice blob (pos + 1) (pos + 9)) = 8) by (rewrite length_slice; lia).
  unfold own_bytes, entry_at. fold pos. cbn [own_kind own_secs own_key].
  replace (be_bytes 8) with (be_bytes (length (slice blob (pos + 1) (pos + 9)))) by (by rewrite Hs).
  rewrite be_bytes_of_be by (by apply bytes_slice).
  assert (H1 : [blob !!! pos] = slice blob pos (pos + 1)).
  { unfold slice. replace (pos + 1 - pos) with 1 by lia.
    rewrite (drop_S blob (blob !!! pos) pos) by (apply list_lookup_lookup_total_lt; lia). done. }
  rewrite H1. clearbody pos.
  rewrite (slice_slice_app blob (pos + 1) (pos + 9) (pos + 41)) by lia.
  apply slice_slice_app; lia.
Qed.

Lemma entry_at_good blob i :
  bytes blob → 2 + (1 + i) * 41 ≤ length blob → validate_ring_entry blob i = Ok tt →
  own_good (entry_at blob i).
Proof.
  intros Hb Hl. set (pos := 2 + i * 41). replace (2 + (1 + i) * 41) with (pos + 41) in * by lia.
  unfold validate_ring_entry, entry_at. fold pos.
  rewrite (index_Ok _ _ (blob !!! pos)) by (apply list_lookup_lookup_total_lt; lia).
  rewrite slice_get_Ok by lia. cbn [obind].
  assert (Hs : length (slice blob (pos + 1) (pos + 9)) = 8) by (rewrite length_slice; lia).
  intros Hv. unfold own_good. cbn [own_kind own_secs own_key].
  destruct (age_kind_valid _) eqn:Hk; [|done]. cbn [negb] in Hv.
  split; [done|]. split; [|split; [|split; [rewrite length_slice; lia|by apply bytes_slice]]].
  - pose proof (of_be_bound (slice blob (pos + 1) (pos + 9)) (bytes_slice _ _ _ Hb)) as Hbd.
    rewrite Hs in Hbd. change (256 ^ Z.of_nat 8)%Z with 18446744073709551616%Z in Hbd. unfold_u64. lia.
  - intros H0. rewrite H0, Z.eqb_refl in Hv. destruct (existsb _ _) eqn:Hx; [done|].
    apply zeros_of_existsb in Hx. rewrite Hx, Hs. done.
Qed.

(** A blob in the current format is valid exactly when it is the blob of good
    entries. *)
Lemma validate_canonical blob :
  bytes blob → validate_ring_blob blob false = Ok tt →
  ∃ l, blob = ring_blob l ∧ Forall own_good l ∧ length l ≤ RATCHET_RING_MAX.
Proof.
  intros Hb. unfold validate_ring_blob. destruct (length blob <? 2) eqn:H2; bool_hyps; [done|].
  destruct blob as [|v [|c rest]]; [cbn in H2; lia..|].
  change (index (v :: c :: rest) 1) with (Ok (E := RatchetError) c).
  change (index (v :: c :: rest) 0) with (Ok (E := RatchetError) v).
  set (blob := v :: c :: rest) in *. cbn [obind].
  destruct (RATCHET_RING_MAX <? Z.to_nat c) eqn:Hm; bool_hyps; [done|].
  destruct (v =? RING_BLOB_VERSION)%Z eqn:Hv; bool_hyps; [|by rewrite andb_false_r].
  destruct (length blob =? _) eqn:Hl; cbn [negb]; bool_hyps; [|done].
  intros Hc. rewrite for_each_check in Hc. unfold ring_blob_len in Hl.
  exists (entry_at blob <$> seq 0 (Z.to_nat c)).
  assert (Hbyte : is_byte c) by (apply (bytes_lookup blob 1); done).
  assert (Hfit : ∀ i, i < Z.to_nat c → 2 + (1 + i) * 41 ≤ length blob) by (intros; nia).
  rewrite length_fmap, length_seq. split; [|split; [|done]].
  - unfold ring_blob, counted. rewrite length_fmap, length_seq, Z2Nat.id by (unfold is_byte in Hbyte; lia).
    rewrite (records_of_slices blob (entry_at blob) 2 (Z.to_nat c)) at 1.
    + by subst v.
    + cbn [record_width own_fixed]. lia.
    + intros i Hi. apply entry_at_bytes; [done|]. by apply Hfit.
  - apply Forall_forall. intros e (i & -> & Hi)%list_elem_of_fmap. apply entry_at_good; [done| |by apply Hc].
    apply Hfit. by apply elem_of_range.
Qed.

(** Validation only ever refuses a blob, on any bytes. *)
Lemma validate_entry_cases blob i :
  2 + (1 + i) * 41 ≤ length blob →
  validate_ring_entry blob i = Ok tt ∨ validate_ring_entry blob i = Err InvalidBlob.
Proof.
  intros Hl. unfold validate_ring_entry. cbv zeta.
  rewrite (index_Ok _ _ (blob !!! (2 + i * 41))) by (apply list_lookup_lookup_total_lt; lia).
  rewrite slice_get_Ok by lia. cbn [obind].
  destruct (negb _); [by right|]. destruct (_ =? _)%Z; [|by left]. destruct (existsb _ _); auto.
Qed.

Lemma validate_cases blob legacy :
  validate_ring_blob blob legacy = Ok tt ∨ validate_ring_blob blob legacy = Err InvalidBlob.
Proof.
  unfold validate_ring_blob. destruct (length blob <? 2) eqn:H2; bool_hyps; [by right|].
  destruct blob as [|v [|c rest]]; [cbn in H2; lia..|].
  change (index (v :: c :: rest) 1) with (Ok (E := RatchetError) c).
  change (index (v :: c :: rest) 0) with (Ok (E := RatchetError) v).
  set (blob := v :: c :: rest). cbn [obind].
  destruct (_ <? Z.to_nat c); [by right|]. destruct (v =? _)%Z.
  - destruct (length blob =? _) eqn:Hl; cbn [negb]; bool_hyps; [|by right].
    apply for_each_check_cases. intros i Hi%elem_of_range. apply validate_entry_cases.
    unfold ring_blob_len in Hl. nia.
  - destruct (_ && _)%bool; auto.
Qed.

(** ** Loading *)

Lemma set_age_row i k s r :
  shaped r → i < RATCHET_RING_MAX →
  ∃ r', set_age i k s r = Ok r' ∧ shaped r' ∧ rr_len r' = rr_len r ∧
    row r' i = {| own_kind := k; own_secs := s; own_key := own_key (row r i) |} ∧
    ∀ j, j ≠ i → row r' j = row r j.
Proof.
  intros (Hk & Hkd & Hs) Hi. unfold set_age. rewrite !store_Ok by lia. cbn [obind].
  eexists. split; [done|]. split; [|split; [done|split]].
  - unfold shaped. cbn. by rewrite !length_insert.
  - unfold row. cbn. by rewrite !list_lookup_total_insert_eq by lia.
  - intros j Hj. unfold row. cbn. by rewrite !list_lookup_total_insert_ne by done.
Qed.

Lemma set_key_row i key r :
  shaped r → i < RATCHET_RING_MAX → length key = 32 →
  ∃ r', set_key i key r = Ok r' ∧ shaped r' ∧ rr_len r' = rr_len r ∧
    row r' i = {| own_kind := own_kind (row r i); own_secs := own_secs (row r i); own_key := key |} ∧
    ∀ j, j ≠ i → row r' j = row r j.
Proof.
  intros (Hk & Hkd & Hs) Hi Hl. unfold set_key. rewrite to_array_Ok by done. cbn [obind].
  rewrite store_Ok by lia. cbn [obind].
  eexists. split; [done|]. split; [|split; [done|split]].
  - unfold shaped. cbn. by rewrite length_insert.
  - unfold row. cbn. by rewrite list_lookup_total_insert_eq by lia.
  - intros j Hj. unfold row. cbn. by rewrite list_lookup_total_insert_ne by done.
Qed.

(** The ring a load starts from. *)
Definition blank (r : RatchetRing) (n : nat) : RatchetRing :=
  {| rr_keys := rr_keys (zeroize r); rr_age_kinds := rr_age_kinds (zeroize r);
     rr_age_secs := rr_age_secs (zeroize r); rr_len := n |}.

Lemma blank_shaped r n : shaped r → shaped (blank r n).
Proof. intros (H1 & H2 & H3). unfold shaped, blank. cbn. by rewrite !length_replicate. Qed.

Lemma blank_row r n i :
  shaped r → i < RATCHET_RING_MAX →
  row (blank r n) i = {| own_kind := AGE_UNKNOWN; own_secs := 0; own_key := zeros 32 |}.
Proof.
  intros (H1 & H2 & H3) Hi. unfold row, blank. cbn. by rewrite !lookup_total_replicate_2 by lia.
Qed.

(** A ring holding the rows [l]. *)
Definition holds (l : list OwnRatchet) (n : nat) (r : RatchetRing) : Prop :=
  shaped r ∧ rr_len r = length l ∧ ∀ j e, j < n → l !! j = Some e → row r j = e.

Lemma holds_live l r : holds l (length l) r → live r = l.
Proof.
  intros (_ & Hl & Hr). apply list_eq. intros j. destruct (decide (j < length l)) as [Hj|Hj].
  - rewrite live_row by lia. destruct (lookup_lt_is_Some_2 l j Hj) as [e He]. rewrite He. f_equal. by apply Hr.
  - rewrite !lookup_ge_None_2; [done|lia|]. rewrite length_live. lia.
Qed.

Lemma holds_ok l r :
  holds l (length l) r → length l ≤ RATCHET_RING_MAX → Forall own_good l → ok r ∧ live r = l.
Proof.
  intros H Hm Hg. pose proof (holds_live _ _ H) as Hl. destruct H as (Hs & Hn & _).
  split; [|done]. split; [done|]. split; [by rewrite Hn|by rewrite Hl].
Qed.

Lemma load_entry_spec l p i r :
  Forall own_good l → length l ≤ RATCHET_RING_MAX → i < length l →
  holds (restored p <$> l) i r →
  ∃ r', load_entry (ring_blob l) p i r = Ok r' ∧ holds (restored p <$> l) (1 + i) r'.
Proof.
  intros Hg Hm Hi (Hs & Hn & Hrow). destruct (lookup_lt_is_Some_2 l i Hi) as [e He].
  pose proof (proj1 (Forall_lookup _ _) Hg i e He) as (_ & Hu & H0 & Hk & _).
  destruct (entry_fields (E := RatchetError) l i e Hg He) as (F1 & F2 & F3).
  unfold load_entry. cbv zeta. rewrite F1, F2, F3. cbn [obind].
  rewrite of_be_be_bytes by (unfold_u64; change (256 ^ Z.of_nat 8)%Z with 18446744073709551616%Z; lia).
  set (k := if (p && _)%bool then _ else _). set (s := if (k =? _)%Z then _ else _).
  destruct (set_age_row i k s r Hs ltac:(lia)) as (r1 & -> & Hs1 & Hn1 & Hi1 & Ho1). cbn [obind].
  destruct (set_key_row i (own_key e) r1 Hs1 ltac:(lia) Hk) as (r2 & -> & Hs2 & Hn2 & Hi2 & Ho2).
  exists r2. split; [done|]. split; [done|]. split; [congruence|].
  intros j x Hj Hx. destruct (decide (j = i)) as [->|Hne].
  - rewrite list_lookup_fmap, He in Hx. cbn in Hx. injection Hx as <-. rewrite Hi2, Hi1. cbn.
    unfold restored, s, k. destruct (p && _)%bool; [done|].
    destruct (own_kind e =? AGE_UNKNOWN)%Z eqn:Hq; bool_hyps; destruct e; cbn in *; [|done].
    by rewrite H0.
  - rewrite Ho2, Ho1 by done. apply Hrow; [lia|done].
Qed.

Lemma apply_blob_spec l p r :
  shaped r → Forall own_good l → length l ≤ RATCHET_RING_MAX →
  ∃ r', apply_blob (ring_blob l) p r = Ok r' ∧ ok r' ∧ live r' = restored p <$> l.
Proof.
  intros Hs Hg Hm. unfold apply_blob.
  change (index (ring_blob l) 1) with (Ok (E := RatchetError) (Z.of_nat (length l))).
  change (index (ring_blob l) 0) with (Ok (E := RatchetError) RING_BLOB_VERSION).
  cbn [obind]. rewrite Nat2Z.id. cbn [Z.eqb RING_BLOB_VERSION LEGACY_RING_BLOB_VERSION Pos.eqb].
  fold (blank r (length l)).
  destruct (for_each_range (holds (restored p <$> l)) (load_entry (ring_blob l) p) (length l)
              (blank r (length l))) as (r' & Hr' & Hh).
  - split; [by apply blank_shaped|]. split; [by rewrite length_fmap|]. intros; lia.
  - intros i s Hi Hh. by apply load_entry_spec.
  - exists r'. split; [done|]. rewrite <- (length_fmap (restored p) l) in Hh at 1.
    apply (holds_ok _ _) in Hh; [done|by rewrite length_fmap|].
    apply Forall_fmap. eapply Forall_impl; [done|]. intros e. by apply restored_good.
Qed.

(** ** The previous format: the time of the last rotation, and keys without ages *)

#[local] Instance key_fixed : FixedWidth (list Z) :=
  {| record_width := 32; record_bytes := id; record_good := key_ok; record_length := λ k Hk, proj1 Hk |}.

Definition legacy_header (last_rotation : Z) (n : nat) : list Z :=
  [LEGACY_RING_BLOB_VERSION; Z.of_nat n] ++ be_bytes 8 last_rotation.

Definition legacy_blob (last_rotation : Z) (keys : list (list Z)) : list Z :=
  legacy_header last_rotation (length keys) ++ records keys.

(** The last rotation is the wall-clock age of the newest key; zero and the
    other keys have none. *)
Definition legacy_entry (last_rotation : Z) (i : nat) (key : list Z) : OwnRatchet :=
  if (i =? 0) && negb (last_rotation =? 0)%Z
  then {| own_kind := AGE_WALL; own_secs := last_rotation; own_key := key |}
  else {| own_kind := AGE_UNKNOWN; own_secs := 0; own_key := key |}.

Lemma legacy_canonical blob :
  bytes blob → validate_ring_blob blob true = Ok tt → validate_ring_blob blob false ≠ Ok tt →
  ∃ last keys, blob = legacy_blob last keys ∧ in_u64 last ∧ Forall key_ok keys ∧
    length keys ≤ RATCHET_RING_MAX.
Proof.
  intros Hb. unfold validate_ring_blob. destruct (length blob <? 2) eqn:H2; bool_hyps; [done|].
  destruct blob as [|v [|c rest]]; [cbn in H2; lia..|].
  change (index (v :: c :: rest) 1) with (Ok (E := RatchetError) c).
  change (index (v :: c :: rest) 0) with (Ok (E := RatchetError) v).
  assert (Hc : is_byte c) by (apply (bytes_lookup (v :: c :: rest) 1); done).
  set (blob := v :: c :: rest) in *. cbn [obind].
  destruct (RATCHET_RING_MAX <? Z.to_nat c) eqn:Hm; bool_hyps; [done|].
  destruct (v =? RING_BLOB_VERSION)%Z; [done|]. rewrite andb_true_r.
  destruct (_ && _)%bool eqn:Hv; [|done]. bool_hyps. intros _ _.
  match goal with H : length blob = _ |- _ => rename H into Hl end.
  match goal with H : v = _ |- _ => rename H into Hver end.
  assert (Hs8 : length (slice blob 2 10) = 8) by (rewrite length_slice; lia).
  exists (of_be (slice blob 2 10)), ((λ i, slice blob (10 + i * 32) (10 + (1 + i) * 32)) <$> seq 0 (Z.to_nat c)).
  rewrite length_fmap, length_seq. split; [|split; [|split; [|done]]].
  - unfold legacy_blob, legacy_header. rewrite length_fmap, length_seq, Z2Nat.id by (unfold is_byte in Hc; lia).
    replace (be_bytes 8) with (be_bytes (length (slice blob 2 10))) by (by rewrite Hs8).
    rewrite be_bytes_of_be by (by apply bytes_slice). unfold records.
    rewrite list_fmap_id, slices_concat by lia. rewrite <- Hl, slice_to_end, <- Hver.
    change [v; c] with (take 2 blob). rewrite take_slice_app by lia. by rewrite take_drop.
  - pose proof (of_be_bound (slice blob 2 10) (bytes_slice _ _ _ Hb)) as Hbd.
    rewrite Hs8 in Hbd. change (256 ^ Z.of_nat 8)%Z with 18446744073709551616%Z in Hbd. unfold_u64. lia.
  - apply Forall_forall. intros k (i & -> & Hi%elem_of_range)%list_elem_of_fmap.
    split; [rewrite length_slice; nia|by apply bytes_slice].
Qed.

Lemma load_legacy_spec last keys i r :
  Forall key_ok keys → length keys ≤ RATCHET_RING_MAX → i < length keys →
  shaped r → (∀ j, i ≤ j → j < length keys → row r j = legacy_entry last j (zeros 32)) →
  holds (imap (legacy_entry last) keys) i r →
  ∃ r', load_legacy (legacy_blob last keys) i r = Ok r' ∧
    (∀ j, 1 + i ≤ j → j < length keys → row r' j = legacy_entry last j (zeros 32)) ∧
    holds (imap (legacy_entry last) keys) (1 + i) r'.
Proof.
  intros Hg Hm Hi Hs Hrest (_ & Hn & Hrow). destruct (lookup_lt_is_Some_2 keys i Hi) as [k Hk].
  pose proof (proj1 (Forall_lookup _ _) Hg i k Hk) as Hkk.
  unfold load_legacy. cbv zeta.
  assert (Hf : slice_get (E := RatchetError) (legacy_blob last keys) (10 + i * 32) (10 + i * 32 + 32) = Ok k).
  { rewrite <- (Nat.add_0_r (10 + i * 32)) at 1.
    unfold legacy_blob. rewrite (slice_record (FW := key_fixed) _ keys i k (10 + i * 32) 0 32); try done; [|lia].
    cbn [record_bytes key_fixed id]. rewrite <- (proj1 Hkk). by rewrite slice_full. }
  rewrite Hf. cbn [obind].
  destruct (set_key_row i k r Hs ltac:(lia) (proj1 Hkk)) as (r2 & -> & Hs2 & Hn2 & Hi2 & Ho2).
  exists r2. split; [done|]. split; [|split; [done|split; [congruence|]]].
  - intros j Hj Hj'. rewrite Ho2 by lia. apply Hrest; lia.
  - intros j x Hj Hx. destruct (decide (j = i)) as [->|Hne].
    + rewrite list_lookup_imap, Hk in Hx. cbn in Hx. injection Hx as <-.
      rewrite Hi2, Hrest by lia. unfold legacy_entry. by destruct (_ && _)%bool.
    + rewrite Ho2 by done. apply Hrow; [lia|done].
Qed.

Lemma legacy_fields {E} last keys :
  in_u64 last →
  index (E := E) (legacy_blob last keys) 0 = Ok LEGACY_RING_BLOB_VERSION ∧
  index (E := E) (legacy_blob last keys) 1 = Ok (Z.of_nat (length keys)) ∧
  slice_get (E := E) (legacy_blob last keys) 2 10 = Ok (be_bytes 8 last).
Proof.
  intros Hu. split; [done|]. split; [done|].
  unfold legacy_blob, legacy_header.
  rewrite slice_get_Ok by (rewrite ?length_app, ?length_be_bytes; cbn; lia).
  rewrite <- app_assoc. by rewrite slice_app_exact by (rewrite ?length_be_bytes; done).
Qed.

Lemma apply_legacy_spec last keys p r :
  shaped r → in_u64 last → Forall key_ok keys → length keys ≤ RATCHET_RING_MAX →
  ∃ r', apply_blob (legacy_blob last keys) p r = Ok r' ∧ ok r' ∧ live r' = imap (legacy_entry last) keys.
Proof.
  intros Hs Hu Hg Hm. destruct (legacy_fields (E := RatchetError) last keys Hu) as (F0 & F1 & F2).
  unfold apply_blob. rewrite F0, F1, F2. cbn [obind]. rewrite Nat2Z.id.
  cbn [Z.eqb LEGACY_RING_BLOB_VERSION Pos.eqb]. fold (blank r (length keys)).
  rewrite of_be_be_bytes by (unfold_u64; change (256 ^ Z.of_nat 8)%Z with 18446744073709551616%Z; lia).
  set (b := blank r (length keys)).
  assert (Hb : shaped b) by (by apply blank_shaped).
  assert (Hstart : ∃ s, (if (0 <? length keys) && negb (last =? 0)%Z then set_age 0 AGE_WALL last b
      else Ok b) = Ok s ∧ shaped s ∧ rr_len s = length keys ∧
      ∀ j, j < length keys → row s j = legacy_entry last j (zeros 32)).
  { destruct (0 <? length keys) eqn:H0; bool_hyps; cbn [andb].
    - destruct (negb (last =? 0)%Z) eqn:Hz.
      + destruct (set_age_row 0 AGE_WALL last b Hb ltac:(unfold RATCHET_RING_MAX; lia)) as (s & -> & Hss & Hn & Hi & Ho).
        exists s. split; [done|]. split; [done|]. split; [done|]. intros j Hj. unfold legacy_entry. rewrite Hz.
        destruct j as [|j]; [rewrite Hi; unfold b; by rewrite blank_row by (done || (unfold RATCHET_RING_MAX; lia))|].
        rewrite Ho by done. unfold b. by rewrite blank_row by (done || lia).
      + exists b. split; [done|]. split; [done|]. split; [done|]. intros j Hj. unfold legacy_entry, b.
        by rewrite Hz, andb_false_r, blank_row by (done || lia).
    - exists b. split; [done|]. split; [done|]. split; [done|]. intros; lia. }
  destruct Hstart as (s & Hse & Hss & Hn & Hrow). rewrite Hse. cbn [obind].
  destruct (for_each_range (λ i s, (∀ j, i ≤ j → j < length keys → row s j = legacy_entry last j (zeros 32)) ∧
      holds (imap (legacy_entry last) keys) i s) (load_legacy (legacy_blob last keys)) (length keys) s)
    as (r' & Hr' & _ & Hh).
  - split; [intros; by apply Hrow|]. split; [done|]. split; [by rewrite length_imap|]. intros; lia.
  - intros i x Hi [Hrest Hh]. destruct (load_legacy_spec last keys i x) as (y & ? & ? & ?); try done; [by apply Hh|].
    by exists y.
  - exists r'. split; [done|]. rewrite <- (length_imap (legacy_entry last) keys) in Hh at 1.
    apply holds_ok in Hh; [done|by rewrite length_imap|].
    apply Forall_lookup. intros i e Hi. rewrite list_lookup_imap in Hi.
    apply fmap_Some in Hi as (k & Hk & ->). destruct (proj1 (Forall_lookup _ _) Hg i k Hk) as [? ?].
    unfold legacy_entry.
    destruct ((i =? 0) && negb (last =? 0)%Z);
      (split; [done|]; split; [unfold_u64; cbn; lia|]; split; [by cbn|done]).
Qed.

Lemma apply_ok blob p r :
  ok r → bytes blob → validate_ring_blob blob true = Ok tt →
  ∃ r', apply_blob blob p r = Ok r' ∧ ok r'.
Proof.
  intros (Hs & _) Hb Hv. destruct (validate_cases blob false) as [Hf|Hf].
  - destruct (validate_canonical blob Hb Hf) as (l & -> & Hg & Hm).
    destruct (apply_blob_spec l p r Hs Hg Hm) as (r' & ? & ? & _). by exists r'.
  - destruct (legacy_canonical blob Hb Hv) as (last & keys & -> & Hu & Hk & Hm); [by rewrite Hf|].
    destruct (apply_legacy_spec last keys p r Hs Hu Hk Hm) as (r' & ? & ? & _). by exists r'.
Qed.

Lemma validate_legacy last keys :
  in_u64 last → Forall key_ok keys → length keys ≤ RATCHET_RING_MAX →
  validate_ring_blob (legacy_blob last keys) true = Ok tt.
Proof.
  intros Hu Hg Hm. destruct (legacy_fields (E := RatchetError) last keys Hu) as (F0 & F1 & _).
  assert (Hl : length (legacy_blob last keys) = 10 + length keys * 32).
  { unfold legacy_blob, legacy_header. by rewrite !length_app, length_records, length_be_bytes by done. }
  unfold validate_ring_blob. rewrite Hl, F0, F1. destruct (10 + _ <? 2) eqn:H2; bool_hyps; [lia|].
  cbn [obind]. rewrite Nat2Z.id, (proj2 (Nat.ltb_ge _ _)) by done.
  cbn [Z.eqb LEGACY_RING_BLOB_VERSION RING_BLOB_VERSION Pos.eqb]. by rewrite Nat.eqb_refl.
Qed.

(** ** Candidates *)

(** The key sequences a ring accepts as its next one. *)
Definition successor_keys (old new : list (list Z)) : Prop :=
  match old with
  | [] => length new = 1
  | _ => new = old ∨ ∃ key, new = key :: take (RATCHET_RING_MAX - 1) old
  end.

Lemma candidate_key l i e :
  Forall own_good l → l !! i = Some e → ring_blob_key (ring_blob l) i = Ok (own_key e).
Proof. intros Hg Hi. by destruct (entry_fields (E := RatchetError) l i e Hg Hi) as (_ & _ & ?). Qed.

Lemma forallb_keys (f g : nat → list Z) ks :
  forallb (λ i, f i =k g i) ks = true ↔ ∀ i, i ∈ ks → f i = g i.
Proof.
  rewrite forallb_forall. split; intros H i Hi.
  - apply list_elem_of_In, H in Hi. by apply bool_decide_eq_true in Hi.
  - apply bool_decide_eq_true, H. by apply list_elem_of_In.
Qed.

Lemma keys_at l i : i < length l → own_key (l !!! i) = (own_key <$> l) !!! i.
Proof.
  intros Hi. symmetry. apply list_lookup_total_correct. rewrite list_lookup_fmap.
  by rewrite list_lookup_lookup_total_lt.
Qed.

Lemma row_total r i : i < rr_len r → live r !!! i = row r i.
Proof. intros Hi. by apply list_lookup_total_correct, live_row. Qed.

(** The checks read the keys of the candidate and of the ring. *)
Lemma all_keys_spec r l shift a n :
  ok r → Forall own_good l → a + n ≤ length l → shift ≤ a → a + n - shift ≤ rr_len r →
  all_of (λ i, let* candidate := ring_blob_key (ring_blob l) i in
               let* key := index (rr_keys r) (i - shift) in Ok (candidate =k key)) (seq a n)
    = Ok (bool_decide (own_key <$> slice l a (a + n) = own_key <$> slice (live r) (a - shift) (a + n - shift))).
Proof.
  intros Hr Hg Hn Hs Hm. destruct Hr as (Hsh & H64 & _).
  rewrite (all_of_Ok _ (λ i, own_key (l !!! i) =k own_key (live r !!! (i - shift)))).
  - f_equal. apply eq_true_iff_eq. rewrite forallb_keys, bool_decide_eq_true. split.
    + intros H. apply list_eq. intros j. rewrite !list_lookup_fmap. unfold slice.
      rewrite !lookup_take. replace (a + n - shift - (a - shift)) with n by lia.
      replace (a + n - a) with n by lia. case_decide as Hj; [|done].
      rewrite !lookup_drop, !list_lookup_lookup_total_lt by (rewrite ?length_live; lia). cbn. f_equal.
      replace (a - shift + j) with (a + j - shift) by lia. apply H. apply list_elem_of_In, in_seq. lia.
    + intros H i Hi. apply list_elem_of_In, in_seq in Hi.
      apply (f_equal (λ k, k !! (i - a))) in H. rewrite !list_lookup_fmap in H. unfold slice in H.
      rewrite !lookup_take, !lookup_drop in H. rewrite !decide_True in H by lia.
      replace (a + (i - a)) with i in H by lia. replace (a - shift + (i - a)) with (i - shift) in H by lia.
      rewrite !list_lookup_lookup_total_lt in H by (rewrite ?length_live; lia). by injection H.
  - intros i Hi. apply list_elem_of_In, in_seq in Hi.
    rewrite (candidate_key l i (l !!! i)) by (done || (apply list_lookup_lookup_total_lt; lia)).
    cbn [obind]. rewrite key_of_row by (done || lia). cbn [obind]. by rewrite row_total by lia.
Qed.

Lemma keys_whole l : own_key <$> slice l 0 (length l) = own_key <$> l.
Proof. by rewrite slice_full. Qed.

(** The check of a candidate, on the blob of good entries. *)
Lemma is_valid_candidate_spec r l :
  ok r → Forall own_good l →
  ∃ b, is_valid_candidate r (ring_blob l) = Ok b ∧
    (b = true ↔ successor_keys (own_key <$> live r) (own_key <$> l)).
Proof.
  intros Hr Hg. pose proof Hr as (_ & Hm & _). unfold is_valid_candidate.
  change (index (ring_blob l) 1) with (Ok (E := RatchetError) (Z.of_nat (length l))).
  cbn [obind]. rewrite Nat2Z.id. pose proof (length_live r) as Hlen.
  destruct (rr_len r =? 0) eqn:H0; bool_hyps.
  { eexists. split; [done|]. destruct (live r); [|cbn in Hlen; lia]. cbn.
    rewrite length_fmap. apply Nat.eqb_eq. }
  assert (Hmax : 0 < RATCHET_RING_MAX) by (unfold RATCHET_RING_MAX; lia).
  assert (Hs : successor_keys (own_key <$> live r) (own_key <$> l) ↔
    own_key <$> l = own_key <$> live r ∨
    ∃ key, own_key <$> l = key :: take (RATCHET_RING_MAX - 1) (own_key <$> live r)).
  { destruct (live r); [cbn in Hlen; lia|done]. }
  set (same := own_key <$> l = own_key <$> live r) in *.
  assert (Hsame : ∃ b, (if length l =? rr_len r then
      all_of (λ i, let* candidate := ring_blob_key (ring_blob l) i in
        let* key := index (rr_keys r) (i - 0) in Ok (candidate =k key)) (seq 0 (rr_len r))
      else Ok false) = Ok b ∧ (b = true ↔ same)).
  { destruct (length l =? rr_len r) eqn:Hl; bool_hyps.
    - rewrite (all_keys_spec r l 0 0 (rr_len r)) by (done || lia). eexists. split; [done|].
      rewrite bool_decide_eq_true, !Nat.sub_0_r, !Nat.add_0_l. rewrite <- Hl at 1. rewrite <- Hlen.
      by rewrite !keys_whole.
    - exists false. split; [done|]. split; [done|]. intros H. apply (f_equal length) in H.
      rewrite !length_fmap in H. lia. }
  destruct Hsame as (b & -> & Hb). cbn [obind]. destruct b.
  { exists true. split; [done|]. rewrite Hs. split; [|done]. left. by apply Hb. }
  destruct (length l =? Nat.min _ _) eqn:Hl; bool_hyps.
  - assert (Hpos : length l - 1 + 1 = length l) by lia.
    rewrite (all_keys_spec r l 1 1 (length l - 1)) by (done || lia). eexists. split; [done|].
    rewrite bool_decide_eq_true, Hs.
    replace (1 + (length l - 1)) with (length l) by lia. rewrite slice_to_end.
    assert (Htk : slice (live r) (1 - 1) (length l - 1) = take (RATCHET_RING_MAX - 1) (live r)).
    { unfold slice. rewrite Nat.sub_diag, Nat.sub_0_r, drop_0.
      destruct (decide (rr_len r < RATCHET_RING_MAX)).
      - by rewrite (take_ge _ (length l - 1)), take_ge by lia.
      - f_equal. lia. }
    rewrite Htk. destruct l as [|e l]; [cbn in Hpos; lia|]. cbn [drop]. rewrite drop_0. split.
    + intros H. right. exists (own_key e). rewrite fmap_cons, H. by rewrite fmap_take.
    + intros [H|[key H]]; [apply Hb in H; done|]. rewrite fmap_cons in H. injection H as _ H.
      by rewrite H, fmap_take.
  - exists false. split; [done|]. split; [done|]. rewrite Hs. intros [H|[key H]]; [by apply Hb in H|].
    apply (f_equal length) in H. cbn in H. rewrite length_take, !length_fmap, Hlen in H.
    unfold RATCHET_RING_MAX in *. lia.
Qed.

(** ** Commitment and restoring *)

Lemma commit_spec blob r :
  ok r → bytes blob →
  match commit_prepared_blob blob r with
  | (Ok _, r') => ∃ l, blob = ring_blob l ∧ Forall own_good l ∧
      successor_keys (own_key <$> live r) (own_key <$> l) ∧ ok r' ∧ live r' = l
  | (Err e, r') => r' = r ∧ (e = InvalidBlob ∨ e = InvalidCandidate)
  | (Panic, _) => False
  end.
Proof.
  intros Hr Hb. unfold commit_prepared_blob, commit_state.
  destruct (validate_cases blob false) as [Hv|Hv]; rewrite Hv; cbn [obind]; [|auto].
  destruct (validate_canonical blob Hb Hv) as (l & -> & Hg & Hm).
  change (index (ring_blob l) 0) with (Ok (E := RatchetError) RING_BLOB_VERSION). cbn [obind].
  rewrite Z.eqb_refl. cbn [negb].
  destruct (is_valid_candidate_spec r l Hr Hg) as (b & -> & Hs). cbn [obind].
  destruct b; cbn [negb]; [|auto].
  destruct (apply_blob_spec l false r (proj1 Hr) Hg Hm) as (r' & -> & Hok & Hl).
  exists l. split; [done|]. split; [done|]. split; [by apply Hs|]. split; [done|].
  rewrite Hl. rewrite (list_fmap_ext _ id) by done. apply list_fmap_id.
Qed.

Lemma commit_candidate l r :
  ok r → Forall own_good l → length l ≤ RATCHET_RING_MAX →
  successor_keys (own_key <$> live r) (own_key <$> l) →
  ∃ r', commit_prepared_blob (ring_blob l) r = (Ok tt, r') ∧ ok r' ∧ live r' = l.
Proof.
  intros Hr Hg Hm Hs. unfold commit_prepared_blob, commit_state.
  rewrite validate_ring_blob_of by done. cbn [obind].
  change (index (ring_blob l) 0) with (Ok (E := RatchetError) RING_BLOB_VERSION). cbn [obind].
  rewrite Z.eqb_refl. cbn [negb].
  destruct (is_valid_candidate_spec r l Hr Hg) as (b & -> & Hb). cbn [obind].
  rewrite (proj2 Hb Hs). cbn [negb].
  destruct (apply_blob_spec l false r (proj1 Hr) Hg Hm) as (r' & -> & Hok & Hl).
  exists r'. split; [done|]. split; [done|].
  rewrite Hl. rewrite (list_fmap_ext _ id) by done. apply list_fmap_id.
Qed.

Lemma load_spec blob r :
  ok r → bytes blob →
  match load_persisted blob r with
  | (Ok _, r') => ok r'
  | (Err e, r') => e = InvalidBlob ∧ r' = r
  | (Panic, _) => False
  end.
Proof.
  intros Hr Hb. unfold load_persisted, commit_state.
  destruct (validate_cases blob true) as [Hv|Hv]; rewrite Hv; cbn [obind]; [|done].
  by destruct (apply_ok blob true r Hr Hb Hv) as (r' & -> & Hok).
Qed.

Lemma load_ring_blob l r :
  ok r → Forall own_good l → length l ≤ RATCHET_RING_MAX →
  ∃ r', load_persisted (ring_blob l) r = (Ok tt, r') ∧ ok r' ∧ live r' = restored true <$> l.
Proof.
  intros Hr Hg Hm. unfold load_persisted, commit_state. rewrite validate_ring_blob_of by done. cbn [obind].
  destruct (apply_blob_spec l true r (proj1 Hr) Hg Hm) as (r' & -> & Hok & Hl). by exists r'.
Qed.

Lemma new_ok : ok new.
Proof.
  split; [done|]. split; [unfold RATCHET_RING_MAX; cbn; lia|constructor].
Qed.

Lemma deserialize_ring_blob l :
  Forall own_good l → length l ≤ RATCHET_RING_MAX →
  ∃ r', deserialize (ring_blob l) = Ok r' ∧ ok r' ∧ live r' = restored true <$> l.
Proof.
  intros Hg Hm. destruct (load_ring_blob l new new_ok Hg Hm) as (r' & H & Hok & Hl).
  exists r'. unfold deserialize. by rewrite H.
Qed.

(** What a preparation asks to commit is a successor. *)
Lemma candidate_successor l fresh clock a :
  length l ≤ RATCHET_RING_MAX → a = decide_rotation l clock → a = Rotate ∨ a = PersistMetadata →
  successor_keys (own_key <$> l) (own_key <$> candidate l fresh clock a).
Proof.
  intros Hm Ha Hc.
  assert (Hk : own_key <$> (anchored clock <$> l) = own_key <$> l)
    by (rewrite <- list_fmap_compose; by apply list_fmap_ext).
  destruct l as [|e l].
  - subst a. by destruct Hc.
  - cbn [successor_keys fmap list_fmap]. destruct Hc as [-> | ->]; cbn [candidate].
    + right. exists fresh. rewrite fmap_cons. f_equal. by rewrite fmap_take, Hk.
    + left. by rewrite Hk.
Qed.

End ring.
End RatchetRing.
