(* ===== verification/RatchetRuns.v ===== *)
(** What the ring of own ratchet keys promises a host that prepares, stores and
    commits its rotations and restarts from the stored blob
    (src/src/ratchet.rs). *)

From S2P Require Import Prelude Constants Primitives Records Ratchets.
Import RatchetRing.

Module RatchetRuns.
Section runs.
Context `{X : X25519}.

(** A round of a host: prepare in a buffer of the largest size, store, commit
    the bytes stored. *)
Definition round (fresh : list Z) (clock : RatchetClock) (r : RatchetRing)
  : outcome RatchetError RatchetRing :=
  let (prepared, buffer) := prepare_rotation_into r fresh clock (zeros RATCHET_RING_BLOB_MAX) in
  let* p := prepared in
  match prep_blob_len p with
  | None => Ok r
  | Some n =>
      let* blob := slice_get buffer 0 n in
      let (result, r') := commit_prepared_blob blob r in
      let* _ := result in Ok r'
  end.

(** Saving the ring and starting again from the blob. *)
Definition restart (r : RatchetRing) : outcome RatchetError RatchetRing :=
  let (written, buffer) := serialize_into r (zeros RATCHET_RING_BLOB_MAX) in
  let* n := written in
  let* blob := slice_get buffer 0 n in
  deserialize blob.

Inductive event :=
| Round (fresh : list Z) (clock : RatchetClock)
| Restart.

Definition perform (ev : event) (r : RatchetRing) : outcome RatchetError RatchetRing :=
  match ev with
  | Round fresh clock => round fresh clock r
  | Restart => restart r
  end.

Definition event_ok (ev : event) : Prop :=
  match ev with Round fresh clock => key_ok fresh ∧ clock_ok clock | Restart => True end.

(** The wall clock of the event, if it has one, is within [lo] and [hi]. *)
Definition event_within (lo hi : Z) (ev : event) : Prop :=
  match ev with
  | Round _ clock => ∃ w, wall_secs clock = Some w ∧ (lo ≤ w ≤ hi)%Z
  | Restart => True
  end.

(** ** Preparing and committing *)

Lemma ring_blob_len_max n : n ≤ RATCHET_RING_MAX → ring_blob_len n ≤ RATCHET_RING_BLOB_MAX.
Proof. unfold ring_blob_len, RATCHET_RING_BLOB_MAX. lia. Qed.

Lemma prepared_length r fresh clock a :
  ok r → length (candidate (live r) fresh clock a) ≤ RATCHET_RING_MAX.
Proof.
  intros (_ & Hm & _). rewrite candidate_length by (by rewrite length_live).
  rewrite length_live. case_bool_decide; lia.
Qed.

(** Nothing but an expired key is ever the last of a full ring that rotates. *)
Lemma rotate_evicts l clock e :
  length l ≤ RATCHET_RING_MAX → decide_rotation l clock = Rotate →
  l !! (RATCHET_RING_MAX - 1) = Some e → expired clock e = true.
Proof.
  intros Hm Hd He. pose proof (lookup_lt_Some _ _ _ He) as Hlt.
  assert (Hl : last l = Some e).
  { rewrite last_lookup. rewrite <- He. f_equal. unfold RATCHET_RING_MAX in *. lia. }
  destruct l as [|x l]; [done|]. unfold decide_rotation in Hd. cbv zeta in Hd. rewrite Hl in Hd.
  destruct (length (x :: l) <? RATCHET_RING_MAX) eqn:H64; bool_hyps; [unfold RATCHET_RING_MAX in *; lia|].
  destruct (negb _); [by destruct (existsb _ _)|]. cbn [orb] in Hd.
  destruct (expired clock e); [done|]. by destruct (existsb _ _).
Qed.

Lemma commit_prepared r fresh clock a rest :
  ok r → clock_ok clock → key_ok fresh →
  a = decide_rotation (live r) clock → a = Rotate ∨ a = PersistMetadata →
  let l := candidate (live r) fresh clock a in
  ∃ r', commit_prepared_blob (take (ring_blob_len (length l)) (ring_blob l ++ rest)) r = (Ok tt, r') ∧
    ok r' ∧ live r' = l.
Proof.
  intros Hr Hc Hf Ha Hw l. pose proof Hr as (_ & Hm & Hg).
  assert (Hgl : Forall own_good l) by (by apply candidate_good).
  assert (Hml : length l ≤ RATCHET_RING_MAX) by (by apply prepared_length).
  rewrite <- (length_ring_blob l) by done. rewrite take_app_length.
  apply commit_candidate; [done..|]. apply candidate_successor; [by rewrite length_live|done..].
Qed.

Lemma current_of_live r e l : ok r → live r = e :: l → current_public_key r = Some (x_public (own_key e)).
Proof.
  intros Hr Hl. pose proof (private_keys_live r Hr) as Hp. rewrite Hl in Hp. cbn in Hp.
  pose proof (length_live r) as Hn. rewrite Hl in Hn. cbn in Hn.
  unfold current_public_key, private_key. rewrite <- Hn. cbn [Nat.ltb Nat.leb].
  unfold private_keys in Hp. apply (f_equal (λ k, k !! 0)) in Hp.
  rewrite lookup_take_lt in Hp by lia. cbn in Hp. by rewrite Hp.
Qed.

(** C36: A prepared rotation commits to exactly the list it stands for. From
    a ring in order, preparing with any output buffer either (a) asks for
    nothing and leaves the buffer alone; (b) reports a buffer smaller than the
    largest blob as too small and leaves it alone; or (c) writes a blob whose
    commitment succeeds and leaves the ring holding, for a rotation, the fresh
    key before the newest 63 keys with their ages anchored, the public key
    reported being its current one and a key that falls out being expired by
    the clock given; for a metadata change, the same keys with anchored ages. *)
Theorem rotation_commits_candidate (r : RatchetRing) (fresh : list Z) (clock : RatchetClock)
    (out : list Z) :
  ok r → clock_ok clock → key_ok fresh →
  match prepare_rotation_into r fresh clock out with
  | (Ok (PrepRotated n pub), out') =>
      pub = x_public fresh ∧
      (∀ e, live r !! (RATCHET_RING_MAX - 1) = Some e → expired clock e = true) ∧
      ∃ r', commit_prepared_blob (take n out') r = (Ok tt, r') ∧ ok r' ∧
        live r' = fresh_own fresh clock :: take (RATCHET_RING_MAX - 1) (anchored clock <$> live r) ∧
        current_public_key r' = Some pub
  | (Ok (PrepPersistMetadata n), out') =>
      ∃ r', commit_prepared_blob (take n out') r = (Ok tt, r') ∧ ok r' ∧
        live r' = anchored clock <$> live r
  | (Ok PrepUnchanged, out') => out' = out ∧ decide_rotation (live r) clock = Unchanged
  | (Ok PrepFullRingProtected, out') =>
      out' = out ∧ decide_rotation (live r) clock = FullRingProtected
  | (Err e, out') => e = RatchetOutputTooSmall ∧ out' = out ∧ length out < RATCHET_RING_BLOB_MAX
  | (Panic, _) => False
  end.
Proof.
  intros Hr Hc Hf. rewrite prepare_spec by done. cbv zeta.
  assert (Hsmall : ∀ a, length out < ring_blob_len (length (candidate (live r) fresh clock a)) →
    length out < RATCHET_RING_BLOB_MAX).
  { intros a Hl. pose proof (ring_blob_len_max _ (prepared_length r fresh clock a Hr)). lia. }
  pose proof (commit_prepared r fresh clock _
    (drop (ring_blob_len (length (candidate (live r) fresh clock (decide_rotation (live r) clock)))) out)
    Hr Hc Hf eq_refl) as Hcommit. cbv zeta in Hcommit.
  destruct (decide_rotation (live r) clock) eqn:Ha; [done| | |done].
  - destruct (_ <? _) eqn:Hl; bool_hyps; [by split; [|split; [|apply (Hsmall PersistMetadata)]]|].
    destruct Hcommit as (r' & H1 & H2 & H3); [by right|]. by exists r'.
  - destruct (_ <? _) eqn:Hl; bool_hyps; [by split; [|split; [|apply (Hsmall Rotate)]]|].
    split; [done|]. split.
    { intros e He. apply (rotate_evicts (live r)); [|done..]. rewrite length_live. apply Hr. }
    destruct Hcommit as (r' & H1 & H2 & H3); [by left|]. exists r'. split; [done|]. split; [done|].
    split; [done|]. by rewrite (current_of_live r' _ _ H2 H3).
Qed.

(** ** Rounds and restarts *)

Lemma zeros_length n : length (zeros n) = n.
Proof. apply length_replicate. Qed.

Lemma round_spec r fresh clock :
  ok r → clock_ok clock → key_ok fresh →
  ∃ r', round fresh clock r = Ok r' ∧ ok r' ∧
    live r' = match decide_rotation (live r) clock with
              | Rotate => candidate (live r) fresh clock Rotate
              | PersistMetadata => candidate (live r) fresh clock PersistMetadata
              | _ => live r
              end.
Proof.
  intros Hr Hc Hf. unfold round. rewrite prepare_spec by done. cbv zeta. rewrite zeros_length.
  assert (Hfit : ∀ a, ring_blob_len (length (candidate (live r) fresh clock a)) ≤ RATCHET_RING_BLOB_MAX)
    by (intros a; by apply ring_blob_len_max, prepared_length).
  assert (Hcase : ∀ a, a = decide_rotation (live r) clock → a = Rotate ∨ a = PersistMetadata →
    let l := candidate (live r) fresh clock a in
    ∃ r', (let* blob := slice_get (E := RatchetError)
             (ring_blob l ++ drop (ring_blob_len (length l)) (zeros RATCHET_RING_BLOB_MAX))
             0 (ring_blob_len (length l)) in
           let (result, r') := commit_prepared_blob blob r in let* _ := result in Ok r') = Ok r' ∧
      ok r' ∧ live r' = l).
  { intros a Ha Hw l.
    destruct (commit_prepared r fresh clock a (drop (ring_blob_len (length l)) (zeros RATCHET_RING_BLOB_MAX))
      Hr Hc Hf Ha Hw) as (r' & H1 & H2 & H3). fold l in H1, H3. exists r'.
    rewrite slice_get_Ok by (rewrite ?length_app, ?length_drop, ?zeros_length, ?length_ring_blob by
      (by apply candidate_good; try apply Hr); lia).
    cbn [obind]. unfold slice. rewrite drop_0, Nat.sub_0_r, H1. done. }
  destruct (decide_rotation (live r) clock) eqn:Ha; [by exists r| | |by exists r].
  - rewrite (proj2 (Nat.ltb_ge _ _) (Hfit PersistMetadata)). cbn [obind prep_blob_len].
    apply Hcase; [done|by right].
  - rewrite (proj2 (Nat.ltb_ge _ _) (Hfit Rotate)). cbn [obind prep_blob_len].
    apply Hcase; [done|by left].
Qed.

Lemma restart_spec r :
  ok r → ∃ r', restart r = Ok r' ∧ ok r' ∧ live r' = restored true <$> live r.
Proof.
  intros Hr. pose proof Hr as (_ & Hm & Hg). unfold restart. rewrite serialize_spec by done. cbv zeta.
  rewrite zeros_length, (proj2 (Nat.ltb_ge _ _) (ring_blob_len_max _ Hm)). cbn [obind].
  rewrite slice_get_Ok by (rewrite ?length_app, ?length_ring_blob, ?length_live by done; lia). cbn [obind].
  unfold slice. rewrite drop_0, Nat.sub_0_r, <- length_live, <- length_ring_blob, take_app_length by done.
  apply deserialize_ring_blob; [done|by rewrite length_live].
Qed.

Definition stamped (at_ : Z) (key : list Z) : OwnRatchet :=
  {| own_kind := AGE_WALL; own_secs := at_; own_key := key |}.

(** A key stamped by the wall clock keeps its stamp as long as the wall clock
    is not before it. *)
Lemma anchored_stamped at_ key clock w :
  wall_secs clock = Some w → (at_ ≤ w)%Z → anchored clock (stamped at_ key) = stamped at_ key.
Proof.
  intros Hw Hle. unfold anchored, effective_age, age_comparable, stamped. cbn. rewrite Hw.
  by rewrite (proj2 (Z.leb_le _ _) Hle).
Qed.

Lemma stamped_alive at_ key clock w :
  wall_secs clock = Some w → (w ≤ at_ + RATCHET_EXPIRY_SECS)%Z → expired clock (stamped at_ key) = false.
Proof.
  intros Hw Hle. unfold expired, age_expired, stamped. cbn. rewrite Hw.
  apply andb_false_iff. right. apply Z.ltb_ge. unfold sat_sub, RATCHET_EXPIRY_SECS in *. lia.
Qed.

Lemma perform_keeps ev r at_ key :
  ok r → event_ok ev → event_within at_ (at_ + RATCHET_EXPIRY_SECS) ev →
  stamped at_ key ∈ live r →
  ∃ r', perform ev r = Ok r' ∧ ok r' ∧ stamped at_ key ∈ live r'.
Proof.
  intros Hr He Hw Hin. destruct ev as [fresh clock|]; cbn in *.
  - destruct Hw as (w & Hw & Hlo & Hhi).
    destruct (round_spec r fresh clock Hr (proj2 He) (proj1 He)) as (r' & H1 & H2 & H3).
    exists r'. split; [done|]. split; [done|]. rewrite H3.
    assert (Hanch : stamped at_ key ∈ anchored clock <$> live r).
    { rewrite <- (anchored_stamped at_ key clock w) by done. by apply list_elem_of_fmap_2. }
    destruct (decide_rotation (live r) clock) eqn:Hd; [done|exact Hanch| |done].
    cbn [candidate]. right. apply list_elem_of_lookup in Hin as [i Hi].
    assert (Hi63 : i < RATCHET_RING_MAX - 1).
    { pose proof (lookup_lt_Some _ _ _ Hi) as Hlt. rewrite length_live in Hlt.
      pose proof Hr as (_ & Hm & _). destruct (decide (i = RATCHET_RING_MAX - 1)) as [->|]; [|lia].
      apply (rotate_evicts (live r) clock) in Hi; [|by rewrite length_live|done].
      by rewrite (stamped_alive at_ key clock w) in Hi. }
    apply (list_elem_of_lookup_2 _ i). rewrite lookup_take_lt by done.
    rewrite list_lookup_fmap, Hi. cbn. f_equal. by apply (anchored_stamped at_ key clock w).
  - destruct (restart_spec r Hr) as (r' & H1 & H2 & H3). exists r'. split; [done|]. split; [done|].
    rewrite H3. by apply (list_elem_of_fmap_2 (restored true) (live r) (stamped at_ key)).
Qed.

(** A published key can be decrypted with until it expires. From any ring
    in order that holds a key stamped with wall-clock second [at_], however
    often the host rotates and restarts, as long as its wall clock reads between
    that second and the end of the expiry period thirty days later, every round
    and restart succeeds and the key is among the private keys after them. *)
Lemma stamped_run at_ key evs : ∀ r,
  ok r → stamped at_ key ∈ live r → Forall event_ok evs →
  Forall (event_within at_ (at_ + RATCHET_EXPIRY_SECS)) evs →
  ∃ r', for_each perform evs r = Ok r' ∧ ok r' ∧ key ∈ private_keys r'.
Proof.
  induction evs as [|ev evs IH]; intros r Hr Hin Hok Hw.
  - exists r. split; [done|]. split; [done|]. rewrite private_keys_live by done.
    by apply (list_elem_of_fmap_2 own_key (live r) (stamped at_ key)).
  - apply Forall_cons in Hok as [He Hok]. apply Forall_cons in Hw as [Hwe Hw].
    destruct (perform_keeps ev r at_ key Hr He Hwe Hin) as (r1 & H1 & H2 & H3).
    cbn [for_each]. rewrite H1. cbn [obind]. by apply IH.
Qed.

(** ** Loading arbitrary bytes *)

(** C37: Loading a stored ring is exact and all or nothing. On any bytes it
    returns, and never panics; it accepts precisely the blobs of good entries
    and the blobs of the previous format, and then holds exactly those keys,
    ages by uptime having become unknown; anything else is reported as an
    invalid blob and leaves the ring as it was. *)
Theorem ring_load_exact (r : RatchetRing) (blob : list Z) :
  ok r → bytes blob →
  match load_persisted blob r with
  | (Ok _, r') => ok r' ∧
      ((∃ l, blob = ring_blob l ∧ Forall own_good l ∧ live r' = restored true <$> l) ∨
       (∃ last keys, blob = legacy_blob last keys ∧ in_u64 last ∧ Forall key_ok keys ∧
          live r' = imap (legacy_entry last) keys))
  | (Err e, r') => e = InvalidBlob ∧ r' = r ∧
      (∀ l, Forall own_good l → length l ≤ RATCHET_RING_MAX → blob ≠ ring_blob l) ∧
      (∀ last keys, in_u64 last → Forall key_ok keys → length keys ≤ RATCHET_RING_MAX →
         blob ≠ legacy_blob last keys)
  | (Panic, _) => False
  end.
Proof.
  intros Hr Hb. unfold load_persisted, commit_state.
  destruct (validate_cases blob true) as [Hv|Hv]; rewrite Hv; cbn [obind].
  - destruct (validate_cases blob false) as [Hf|Hf].
    + destruct (validate_canonical blob Hb Hf) as (l & -> & Hg & Hm).
      destruct (apply_blob_spec l true r (proj1 Hr) Hg Hm) as (r' & -> & Hok & Hl).
      split; [done|]. left. by exists l.
    + destruct (legacy_canonical blob Hb Hv) as (last & keys & -> & Hu & Hk & Hm); [by rewrite Hf|].
      destruct (apply_legacy_spec last keys true r (proj1 Hr) Hu Hk Hm) as (r' & -> & Hok & Hl).
      split; [done|]. right. by exists last, keys.
  - split; [done|]. split; [done|]. split.
    + intros l Hg Hm ->. by rewrite validate_ring_blob_of in Hv.
    + intros last keys Hu Hk Hm ->. by rewrite validate_legacy in Hv.
Qed.

(** A ring survives being saved and loaded. Writing it needs exactly two
    bytes and 41 for each key, reports a smaller buffer without touching it,
    and leaves the rest of a larger one alone; the bytes written load, into any
    ring, as the same keys in the same order with the same ages, except that an
    age by uptime is unknown afterwards. *)
Lemma ring_blob_roundtrip (r old : RatchetRing) (out : list Z) :
  ok r → ok old →
  let n := ring_blob_len (rr_len r) in
  match serialize_into r out with
  | (Ok n', out') => n' = n ∧ length out' = length out ∧ drop n out' = drop n out ∧
      ∃ r', load_persisted (take n out') old = (Ok tt, r') ∧ ok r' ∧
        live r' = restored true <$> live r ∧ private_keys r' = private_keys r
  | (Err e, out') => e = RatchetOutputTooSmall ∧ out' = out ∧ length out < n
  | (Panic, _) => False
  end.
Proof.
  intros Hr Ho n. pose proof Hr as (_ & Hm & Hg). rewrite serialize_spec by done. cbv zeta. fold n.
  destruct (length out <? n) eqn:Hl; bool_hyps; [done|].
  assert (Hn : n = length (ring_blob (live r))) by (by rewrite length_ring_blob, length_live).
  split; [done|]. split; [rewrite length_app, length_drop; lia|].
  split; [rewrite Hn, drop_app_length; done|].
  rewrite Hn, take_app_length.
  destruct (load_ring_blob (live r) old Ho Hg) as (r' & H1 & H2 & H3); [by rewrite length_live|].
  exists r'. split; [done|]. split; [done|]. split; [done|].
  rewrite !private_keys_live, H3, <- list_fmap_compose by done. apply list_fmap_ext.
  intros _ e _. cbn. unfold restored. by destruct (_ && _)%bool.
Qed.

End runs.

(** ** A ring with one key *)

#[local] Existing Instance Toy.x25519.

Definition example_key : list Z := replicate 32 7%Z.
Definition example_clock (wall : Z) : RatchetClock := RatchetClock.new (Some wall) 5.

(** A ring whose only key was stamped at second 1000. *)
Definition example_ring : RatchetRing :=
  {| rr_keys := <[0 := example_key]> (rr_keys new);
     rr_age_kinds := <[0 := AGE_WALL]> (rr_age_kinds new);
     rr_age_secs := <[0 := 1000%Z]> (rr_age_secs new); rr_len := 1 |}.

Lemma example_key_ok k : is_byte k → key_ok (replicate 32 k).
Proof. intros Hk. split; [done|]. apply Forall_replicate. exact Hk. Qed.

Lemma example_ring_ok : ok example_ring.
Proof.
  split; [done|]. split; [unfold RATCHET_RING_MAX; cbn; lia|].
  constructor; [|constructor]. split; [done|]. split; [unfold_u64; cbn; lia|]. split; [done|].
  apply example_key_ok. unfold is_byte. lia.
Qed.

Lemma example_clock_ok wall : in_u64 wall → clock_ok (example_clock wall).
Proof. intros Hw. split; [unfold_u64; cbn; lia|]. intros w [= <-]. done. Qed.

(** Twelve hours later the ring rotates to a second key. *)
Lemma rotation_commits_candidate_witness :
  prepare_rotation_into example_ring (replicate 32 9%Z) (example_clock 44200) (zeros 84)
    = (Ok (PrepRotated 84 (x_public (replicate 32 9%Z))),
       ring_blob [fresh_own (replicate 32 9%Z) (example_clock 44200); stamped 1000 example_key]) ∧
  match prepare_rotation_into example_ring (replicate 32 9%Z) (example_clock 44200) (zeros 84) with
  | (Ok (PrepRotated n pub), out') =>
      ∃ r', commit_prepared_blob (take n out') example_ring = (Ok tt, r') ∧ current_public_key r' = Some pub
  | _ => False
  end.
Proof.
  pose proof (rotation_commits_candidate example_ring (replicate 32 9%Z) (example_clock 44200) (zeros 84)
    example_ring_ok (example_clock_ok 44200 ltac:(unfold_u64; lia))
    (example_key_ok 9 ltac:(unfold is_byte; lia))) as H.
  assert (E : prepare_rotation_into example_ring (replicate 32 9%Z) (example_clock 44200) (zeros 84)
    = (Ok (PrepRotated 84 (x_public (replicate 32 9%Z))),
       ring_blob [fresh_own (replicate 32 9%Z) (example_clock 44200); stamped 1000 example_key]))
    by (vm_compute; reflexivity).
  split; [exact E|]. rewrite E in H |- *. destruct H as (_ & _ & r' & H1 & _ & _ & H2).
  exists r'. split; [exact H1|exact H2].
Defined.

(** A blob of the previous format with one key. *)
Lemma ring_load_exact_witness :
  fst (load_persisted (legacy_blob 1000 [example_key]) new) = Ok tt ∧
  live (snd (load_persisted (legacy_blob 1000 [example_key]) new)) = [stamped 1000 example_key] ∧
  match load_persisted (replicate 3 9%Z) example_ring with
  | (Err e, r') => e = InvalidBlob ∧ r' = example_ring
  | _ => False
  end.
Proof.
  split; [vm_compute; reflexivity|]. split; [vm_compute; reflexivity|].
  pose proof (ring_load_exact example_ring (replicate 3 9%Z) example_ring_ok) as H.
  assert (E : fst (load_persisted (replicate 3 9%Z) example_ring) = Err InvalidBlob) by reflexivity.
  destruct (load_persisted (replicate 3 9%Z) example_ring) as [[u|e|] r']; [discriminate E| |discriminate E].
  destruct H as (H1 & H2 & _); [|split; assumption].
  repeat constructor; unfold is_byte; lia.
Defined.

Lemma ring_blob_roundtrip_witness :
  match serialize_into example_ring (zeros 50) with
  | (Ok n, out') => n = 43 ∧ ∃ r', load_persisted (take n out') new = (Ok tt, r') ∧ private_keys r' = [example_key]
  | _ => False
  end.
Proof.
  pose proof (ring_blob_roundtrip example_ring new (zeros 50) example_ring_ok new_ok) as H. cbv zeta in H.
  assert (E : fst (serialize_into example_ring (zeros 50)) = Ok 43) by (vm_compute; reflexivity).
  destruct (serialize_into example_ring (zeros 50)) as [[n|e|] out']; [|discriminate E|discriminate E].
  injection E as ->. split; [reflexivity|]. destruct H as (_ & _ & _ & r' & H1 & _ & _ & H2).
  exists r'. split; [exact H1|]. rewrite H2. vm_compute. reflexivity.
Defined.

End RatchetRuns.
