(* ===== verification/PeerRatchets.v ===== *)
(** The table of peers' ratchet keys (src/src/ratchet.rs): remembering the key a
    validated announce carries, looking one up, anchoring ages after a restart,
    and the blob the table is saved as.

    The table is an array with a visible length; its abstraction is the list of
    visible entries, newest first. The loops that move entries up and down are
    loops over the indices they visit; [purge_loop] has the visible length as
    fuel, which [purge_loop_spec] shows to be enough. *)

From S2P Require Import Prelude Constants Slots Records Ratchets.

Definition PEER_RATCHETS_MAX : nat := 32.
Definition PEER_RATCHETS_BLOB_MAX : nat := 2 + PEER_RATCHETS_MAX * (DESTINATION_LENGTH + 32 + 1 + 8).
Definition PEER_BLOB_VERSION : Z := 2.
Definition LEGACY_PEER_BLOB_VERSION : Z := 1.

Record PeerRatchet := {
  pr_dest_hash : list Z;
  pr_ratchet : list Z;
  pr_age_kind : Z;
  pr_age_secs : Z
}.

Definition EMPTY_PEER : PeerRatchet :=
  {| pr_dest_hash := zeros DESTINATION_LENGTH; pr_ratchet := zeros 32;
     pr_age_kind := AGE_UNKNOWN; pr_age_secs := 0 |}.

#[export] Instance peer_inhabited : Inhabited PeerRatchet := populate EMPTY_PEER.

Definition is_expired (e : PeerRatchet) (clock : RatchetClock) : bool :=
  age_expired (pr_age_kind e) (pr_age_secs e) clock.

Record PeerRatchets := { prs_entries : list PeerRatchet; prs_len : nat }.

Definition peer_blob_len (len : nat) : nat := 2 + len * 57.

Definition validate_peer_entry (blob : list Z) (i : nat) : outcome RatchetError unit :=
  let pos := 2 + i * 57 in
  let* kind := index blob (pos + 48) in
  if negb (age_kind_valid kind) then Err InvalidBlob
  else if (kind =? AGE_UNKNOWN)%Z then
    let* age := slice_get blob (pos + 49) (pos + 57) in
    if existsb (λ byte, negb (byte =? 0)%Z) age then Err InvalidBlob else Ok tt
  else Ok tt.

Definition validate_peer_blob (blob : list Z) : outcome RatchetError unit :=
  if length blob <? 2 then Err InvalidBlob
  else
    let* n := index blob 1 in
    let count := Z.to_nat n in
    if PEER_RATCHETS_MAX <? count then Err InvalidBlob
    else
      let* version := index blob 0 in
      if (version =? PEER_BLOB_VERSION)%Z then
        if negb (length blob =? peer_blob_len count) then Err InvalidBlob
        else for_each (λ i _, validate_peer_entry blob i) (seq 0 count) tt
      else if (version =? LEGACY_PEER_BLOB_VERSION)%Z && (length blob =? 2 + count * 56) then Ok tt
      else Err InvalidBlob.

Module PeerRatchets.

Definition new : PeerRatchets :=
  {| prs_entries := replicate PEER_RATCHETS_MAX EMPTY_PEER; prs_len := 0 |}.

Definition len (t : PeerRatchets) : nat := prs_len t.
Definition is_empty (t : PeerRatchets) : bool := prs_len t =? 0.

(** [self.entries[..self.len]] *)
Definition visible (t : PeerRatchets) : list PeerRatchet := take (prs_len t) (prs_entries t).

Definition set_entry (i : nat) (e : PeerRatchet) (t : PeerRatchets) : outcome RatchetError PeerRatchets :=
  let* entries := store (prs_entries t) i e in
  Ok {| prs_entries := entries; prs_len := prs_len t |}.

(** [self.entries[to] = self.entries[from]] *)
Definition move_entry (from to_ : nat) (t : PeerRatchets) : outcome RatchetError PeerRatchets :=
  let* e := index (prs_entries t) from in set_entry to_ e t.

(** The cursor runs from [i] while the next index is visible; the subtraction
    that would underflow on an empty table panics. *)
Definition remove (i : nat) (t : PeerRatchets) : outcome RatchetError PeerRatchets :=
  let* t := for_each (λ cursor t, move_entry (cursor + 1) cursor t) (seq i (prs_len t - 1 - i)) t in
  if prs_len t =? 0 then Panic
  else set_entry (prs_len t - 1) EMPTY_PEER {| prs_entries := prs_entries t; prs_len := prs_len t - 1 |}.

Fixpoint purge_loop (fuel i : nat) (clock : RatchetClock) (t : PeerRatchets)
  : outcome RatchetError PeerRatchets :=
  match fuel with
  | O => Ok t
  | S fuel =>
      if i <? prs_len t then
        let* e := index (prs_entries t) i in
        if is_expired e clock then
          let* t := remove i t in purge_loop fuel i clock t
        else purge_loop fuel (i + 1) clock t
      else Ok t
  end.

Definition purge_expired (clock : RatchetClock) (t : PeerRatchets) : outcome RatchetError PeerRatchets :=
  purge_loop (prs_len t) 0 clock t.

(** Whether the state changed, and the new state. *)
Definition remember (dest_hash ratchet : list Z) (clock : RatchetClock) (t : PeerRatchets)
  : outcome RatchetError (bool * PeerRatchets) :=
  let found := position (λ e, pr_dest_hash e =k dest_hash) (visible t) in
  let* known := match found with
                | Some i => let* e := index (prs_entries t) i in Ok (pr_ratchet e =k ratchet)
                | None => Ok false
                end in
  if known : bool then Ok (false, t)
  else
    let* t := match found with Some i => remove i t | None => Ok t end in
    let* t := purge_expired clock t in
    let* t := if prs_len t =? PEER_RATCHETS_MAX then remove (prs_len t - 1) t else Ok t in
    let* t := for_each (λ i t, move_entry (i - 1) i t) (reverse (seq 1 (prs_len t))) t in
    let (age_kind, age_secs) := RatchetClock.anchor clock in
    let* t := set_entry 0 {| pr_dest_hash := dest_hash; pr_ratchet := ratchet;
                             pr_age_kind := age_kind; pr_age_secs := age_secs |} t in
    Ok (true, {| prs_entries := prs_entries t; prs_len := prs_len t + 1 |}).

Definition reanchor (clock : RatchetClock) (e : PeerRatchet) : PeerRatchet :=
  if age_comparable (pr_age_kind e) (pr_age_secs e) clock then e
  else let (kind, secs) := RatchetClock.anchor clock in
       {| pr_dest_hash := pr_dest_hash e; pr_ratchet := pr_ratchet e; pr_age_kind := kind; pr_age_secs := secs |}.

Definition anchor_unknown_ages (clock : RatchetClock) (t : PeerRatchets) : bool * PeerRatchets :=
  (existsb (λ e, negb (age_comparable (pr_age_kind e) (pr_age_secs e) clock)) (visible t),
   {| prs_entries := (reanchor clock <$> visible t) ++ drop (prs_len t) (prs_entries t);
      prs_len := prs_len t |}).

Definition get (dest_hash : list Z) (clock : RatchetClock) (t : PeerRatchets) : option (list Z) :=
  pr_ratchet <$> List.find (λ e, (pr_dest_hash e =k dest_hash) && negb (is_expired e clock)) (visible t).

(** One round of the loop that writes the entries. *)
Definition write_entry (t : PeerRatchets) (i : nat) (out : list Z) : outcome RatchetError (list Z) :=
  let pos := 2 + i * 57 in
  let* e := index (prs_entries t) i in
  let* out := copy_into out pos (pr_dest_hash e) in
  let* out := copy_into out (pos + 16) (pr_ratchet e) in
  let* out := store out (pos + 48) (pr_age_kind e) in
  copy_into out (pos + 49) (be_bytes 8 (pr_age_secs e)).

Definition serialize_into (t : PeerRatchets) : st (list Z) RatchetError nat := λ out,
  let need := peer_blob_len (prs_len t) in
  if length out <? need then (Err RatchetOutputTooSmall, out)
  else
    match (let* out := store out 0 PEER_BLOB_VERSION in
           let* out := store out 1 (Z.of_nat (prs_len t) `mod` 256)%Z in
           for_each (write_entry t) (seq 0 (prs_len t)) out)
    with
    | Ok out' => (Ok need, out')
    | Err e => (Err e, out)
    | Panic => (Panic, out)
    end.

(** The position, kind and age of entry [i] of a blob. *)
Definition blob_age (version : Z) (blob : list Z) (i : nat) : outcome RatchetError (nat * Z * Z) :=
  if (version =? LEGACY_PEER_BLOB_VERSION)%Z then
    let pos := 2 + i * 56 in
    let* encoded := slice_get blob (pos + 48) (pos + 56) in
    let seconds := of_be encoded in
    Ok (pos, (if (seconds =? 0)%Z then AGE_UNKNOWN else AGE_WALL), seconds)
  else
    let pos := 2 + i * 57 in
    let* stored_kind := index blob (pos + 48) in
    let* encoded := slice_get blob (pos + 49) (pos + 57) in
    let seconds := of_be encoded in
    if (stored_kind =? AGE_UPTIME)%Z then Ok (pos, AGE_UNKNOWN, 0%Z) else Ok (pos, stored_kind, seconds).

Definition load_entry (version : Z) (blob : list Z) (i : nat) (t : PeerRatchets)
  : outcome RatchetError PeerRatchets :=
  let* age := blob_age version blob i in
  let '(pos, age_kind, age_secs) := age in
  let* dest := slice_get blob pos (pos + 16) in
  let* ratchet := slice_get blob (pos + 16) (pos + 48) in
  set_entry i {| pr_dest_hash := dest; pr_ratchet := ratchet;
                 pr_age_kind := age_kind; pr_age_secs := age_secs |} t.

Definition zeroize (t : PeerRatchets) : PeerRatchets :=
  {| prs_entries := replicate (length (prs_entries t)) EMPTY_PEER; prs_len := 0 |}.

Definition load_persisted (blob : list Z) : st PeerRatchets RatchetError unit :=
  commit_state (λ t,
    let* _ := validate_peer_blob blob in
    let* version := index blob 0 in
    let* n := index blob 1 in
    let count := Z.to_nat n in
    for_each (load_entry version blob) (seq 0 count)
      {| prs_entries := prs_entries (zeroize t); prs_len := count |}).

Definition deserialize (blob : list Z) : outcome RatchetError PeerRatchets :=
  let (result, table) := load_persisted blob new in let* _ := result in Ok table.

(** ** The visible entries *)

Definition shaped (t : PeerRatchets) : Prop :=
  length (prs_entries t) = PEER_RATCHETS_MAX ∧ prs_len t ≤ PEER_RATCHETS_MAX.

Lemma length_peers t : shaped t → length (visible t) = prs_len t.
Proof. intros [H1 H2]. unfold visible. rewrite length_take. lia. Qed.

Lemma visible_lookup t i : i < prs_len t → visible t !! i = prs_entries t !! i.
Proof. intros Hi. by apply lookup_take_lt. Qed.

Lemma visible_index {E} t i e : visible t !! i = Some e → index (E := E) (prs_entries t) i = Ok e.
Proof. intros Hi. apply index_Ok. unfold visible in Hi. by apply lookup_take_Some in Hi as [? _]. Qed.

Lemma move_entry_spec from to_ t :
  shaped t → from < PEER_RATCHETS_MAX → to_ < PEER_RATCHETS_MAX →
  ∃ t', move_entry from to_ t = Ok t' ∧ shaped t' ∧ prs_len t' = prs_len t ∧
    ∀ j, prs_entries t' !! j = if bool_decide (j = to_) then prs_entries t !! from else prs_entries t !! j.
Proof.
  intros [H1 H2] Hf Ht. destruct (lookup_lt_is_Some_2 (prs_entries t) from) as [e He]; [lia|].
  unfold move_entry, set_entry. rewrite (index_Ok _ _ e) by done. cbn [obind].
  rewrite store_Ok by lia. cbn [obind]. eexists. split; [done|]. split; [|split; [done|]].
  - unfold shaped. cbn. by rewrite length_insert.
  - intros j. cbn. case_bool_decide as Hj.
    + subst j. rewrite He. apply list_lookup_insert_eq. lia.
    + by apply list_lookup_insert_ne.
Qed.

(** Closing the gap an entry leaves. *)
Lemma shift_down_spec t i n :
  shaped t → i + n < PEER_RATCHETS_MAX →
  ∃ t', for_each (λ cursor t, move_entry (cursor + 1) cursor t) (seq i n) t = Ok t' ∧
    shaped t' ∧ prs_len t' = prs_len t ∧
    ∀ j, prs_entries t' !! j =
      if bool_decide (i ≤ j < i + n) then prs_entries t !! (j + 1) else prs_entries t !! j.
Proof.
  intros Ht Hn.
  destruct (for_each_list (λ m s, shaped s ∧ prs_len s = prs_len t ∧ ∀ j, prs_entries s !! j =
      if bool_decide (i ≤ j < i + m) then prs_entries t !! (j + 1) else prs_entries t !! j)
    (λ cursor t, move_entry (cursor + 1) cursor t) (seq i n) 0 t) as (s' & H1 & H2).
  - split; [done|]. split; [done|]. intros j. by rewrite bool_decide_eq_false_2 by lia.
  - intros m k s [-> Hm]%lookup_seq (Hs & Hl & Hj). cbn in *.
    destruct (move_entry_spec (i + m + 1) (i + m) s Hs) as (s' & -> & Hs' & Hl' & Hj'); [lia..|].
    exists s'. split; [done|]. split; [done|]. split; [congruence|]. intros j. rewrite Hj', !Hj.
    repeat case_bool_decide; try lia; try done. by subst.
  - rewrite length_seq in H2. cbn in H2. by exists s'.
Qed.

(** Making room at the front. *)
Lemma shift_up_spec t n :
  shaped t → n < PEER_RATCHETS_MAX →
  ∃ t', for_each (λ i t, move_entry (i - 1) i t) (reverse (seq 1 n)) t = Ok t' ∧
    shaped t' ∧ prs_len t' = prs_len t ∧
    ∀ j, prs_entries t' !! j =
      if bool_decide (0 < j ≤ n) then prs_entries t !! (j - 1) else prs_entries t !! j.
Proof.
  intros Ht Hn.
  destruct (for_each_list (λ m s, shaped s ∧ prs_len s = prs_len t ∧ ∀ j, prs_entries s !! j =
      if bool_decide (n - m < j ≤ n) then prs_entries t !! (j - 1) else prs_entries t !! j)
    (λ i t, move_entry (i - 1) i t) (reverse (seq 1 n)) 0 t) as (s' & H1 & H2).
  - split; [done|]. split; [done|]. intros j. by rewrite bool_decide_eq_false_2 by lia.
  - intros m k s Hk (Hs & Hl & Hj).
    pose proof (lookup_lt_Some _ _ _ Hk) as Hm. rewrite length_reverse, length_seq in Hm.
    rewrite reverse_lookup in Hk by (by rewrite length_seq). apply lookup_seq in Hk as [-> _].
    rewrite length_seq in *. change (0 + m) with m in *.
    destruct (move_entry_spec (1 + (n - S m) - 1) (1 + (n - S m)) s Hs) as (s' & -> & Hs' & Hl' & Hj'); [lia..|].
    exists s'. split; [done|]. split; [done|]. split; [congruence|]. intros j. rewrite Hj', !Hj.
    repeat case_bool_decide; try lia; try done. f_equal. lia.
  - rewrite length_reverse, length_seq in H2. cbn in H2. rewrite Nat.sub_diag in H2. by exists s'.
Qed.

Lemma remove_spec i t :
  shaped t → i < prs_len t →
  ∃ t', remove i t = Ok t' ∧ shaped t' ∧ visible t' = delete i (visible t) ∧ prs_len t' = prs_len t - 1.
Proof.
  intros Ht Hi. pose proof Ht as [H1 H2]. unfold remove.
  destruct (shift_down_spec t i (prs_len t - 1 - i) Ht) as (s & -> & Hs & Hl & Hj); [lia|]. cbn [obind].
  rewrite Hl. destruct (prs_len t =? 0) eqn:H0; bool_hyps; [lia|].
  pose proof Hs as [Hs1 Hs2]. unfold set_entry. cbn [prs_entries prs_len].
  rewrite store_Ok by lia. cbn [obind]. eexists. split; [done|]. split; [|split; [|done]].
  - unfold shaped. cbn. rewrite length_insert. lia.
  - apply list_eq. intros j. unfold visible at 1. cbn [prs_entries prs_len]. rewrite lookup_take.
    case_decide as Hjl.
    + rewrite list_lookup_insert_ne, Hj by lia. case_bool_decide as Hc.
      * rewrite list_lookup_delete_ge by lia. rewrite visible_lookup by lia. f_equal. lia.
      * rewrite list_lookup_delete_lt by lia. by rewrite visible_lookup by lia.
    + symmetry. apply lookup_ge_None_2. rewrite length_delete by (apply lookup_lt_is_Some; rewrite length_peers by done; lia).
      rewrite length_peers by done. lia.
Qed.

Definition unexpired (clock : RatchetClock) (l : list PeerRatchet) : list PeerRatchet :=
  base.filter (λ e, is_expired e clock = false) l.

Lemma purge_loop_spec fuel clock : ∀ i t,
  shaped t → prs_len t - i ≤ fuel → i ≤ prs_len t →
  ∃ t', purge_loop fuel i clock t = Ok t' ∧ shaped t' ∧
    visible t' = take i (visible t) ++ unexpired clock (drop i (visible t)).
Proof.
  induction fuel as [|fuel IH]; intros i t Ht Hf Hi; cbn [purge_loop];
    pose proof (length_peers t Ht) as Hlen.
  - exists t. split; [done|]. split; [done|]. rewrite take_ge, drop_ge by lia. cbn. by rewrite app_nil_r.
  - destruct (i <? prs_len t) eqn:Hlt; bool_hyps.
    2:{ exists t. split; [done|]. split; [done|]. rewrite take_ge, drop_ge by lia. cbn. by rewrite app_nil_r. }
    destruct (lookup_lt_is_Some_2 (visible t) i) as [e He]; [lia|].
    rewrite (visible_index t i e) by done. cbn [obind].
    rewrite (drop_S _ e) by done. destruct (is_expired e clock) eqn:Hx.
    + destruct (remove_spec i t Ht Hlt) as (t1 & -> & Ht1 & Hv & Hl). cbn [obind].
      destruct (IH i t1 Ht1) as (t' & -> & Ht' & Hv'); [lia..|]. exists t'. split; [done|]. split; [done|].
      rewrite Hv', Hv, delete_take_drop.
      rewrite take_app_le, take_take, Nat.min_id by (rewrite length_take; lia).
      rewrite drop_app_ge, length_take by (rewrite length_take; lia).
      rewrite (Nat.min_l i), Nat.sub_diag, drop_0 by lia. f_equal. unfold unexpired.
      rewrite filter_cons_False by congruence. done.
    + destruct (IH (i + 1) t Ht) as (t' & -> & Ht' & Hv'); [lia..|]. exists t'. split; [done|]. split; [done|].
      rewrite Hv', Nat.add_1_r, (take_S_r _ _ e) by done. unfold unexpired.
      rewrite filter_cons_True by done. by rewrite <- app_assoc.
Qed.

Lemma purge_expired_spec clock t :
  shaped t → ∃ t', purge_expired clock t = Ok t' ∧ shaped t' ∧ visible t' = unexpired clock (visible t).
Proof.
  intros Ht. destruct (purge_loop_spec (prs_len t) clock 0 t Ht) as (t' & H1 & H2 & H3); [lia..|].
  exists t'. by rewrite take_0, drop_0 in H3.
Qed.

(** ** Remembering *)

Definition same_dest (d : list Z) (e : PeerRatchet) : bool := pr_dest_hash e =k d.

(** The list without its first entry for [d]. *)
Definition forget (d : list Z) (l : list PeerRatchet) : list PeerRatchet :=
  match position (same_dest d) l with Some i => delete i l | None => l end.

Definition fresh_peer (d key : list Z) (clock : RatchetClock) : PeerRatchet :=
  let age := RatchetClock.anchor clock in
  {| pr_dest_hash := d; pr_ratchet := key; pr_age_kind := fst age; pr_age_secs := snd age |}.

Lemma evict_last_spec t :
  shaped t →
  ∃ t', (if prs_len t =? PEER_RATCHETS_MAX then remove (prs_len t - 1) t else Ok t) = Ok t' ∧
    shaped t' ∧ visible t' = take (PEER_RATCHETS_MAX - 1) (visible t) ∧ prs_len t' < PEER_RATCHETS_MAX.
Proof.
  intros Ht. pose proof Ht as [H1 H2]. pose proof (length_peers t Ht) as Hl.
  assert (Hmax : 0 < PEER_RATCHETS_MAX) by (unfold PEER_RATCHETS_MAX; lia).
  destruct (prs_len t =? PEER_RATCHETS_MAX) eqn:Hm; bool_hyps.
  - destruct (remove_spec (prs_len t - 1) t Ht) as (t' & Hr & Ht' & Hv & Hn); [lia|].
    exists t'. split; [done|]. split; [done|]. split; [|lia].
    rewrite Hv, delete_take_drop, drop_ge, app_nil_r by lia. by rewrite Hm.
  - exists t. split; [done|]. split; [done|]. split; [by rewrite take_ge by lia|lia].
Qed.

Lemma push_front_spec t e :
  shaped t → prs_len t < PEER_RATCHETS_MAX →
  ∃ t', (let* t := for_each (λ i t, move_entry (i - 1) i t) (reverse (seq 1 (prs_len t))) t in
         let* t := set_entry 0 e t in
         Ok {| prs_entries := prs_entries t; prs_len := prs_len t + 1 |}) = Ok t' ∧
    shaped t' ∧ visible t' = e :: visible t.
Proof.
  intros Ht Hn. destruct (shift_up_spec t (prs_len t) Ht Hn) as (s & -> & Hs & Hl & Hj). cbn [obind].
  pose proof Hs as [Hs1 Hs2]. unfold set_entry. rewrite store_Ok by lia. cbn [obind prs_entries prs_len].
  eexists. split; [done|]. split.
  - unfold shaped. cbn. rewrite length_insert. lia.
  - unfold visible at 1. cbn [prs_entries prs_len]. apply list_eq. intros [|j].
    + rewrite lookup_take_lt by lia. rewrite list_lookup_insert_eq by lia. done.
    + rewrite lookup_take. cbn [lookup list_lookup].
      change (visible t !! j) with (visible t !! j). case_decide as Hd.
      * rewrite list_lookup_insert_ne, Hj by lia. rewrite bool_decide_eq_true_2 by lia.
        rewrite visible_lookup by lia. f_equal. lia.
      * symmetry. apply lookup_ge_None_2. rewrite length_peers by done. lia.
Qed.

Lemma remember_spec d key clock t :
  shaped t →
  ∃ changed t', remember d key clock t = Ok (changed, t') ∧ shaped t' ∧
    match position (same_dest d) (visible t) ≫= (visible t !!.) with
    | Some e =>
        if pr_ratchet e =k key then changed = false ∧ t' = t
        else changed = true ∧
          visible t' = fresh_peer d key clock :: take (PEER_RATCHETS_MAX - 1) (unexpired clock (forget d (visible t)))
    | None => changed = true ∧
        visible t' = fresh_peer d key clock :: take (PEER_RATCHETS_MAX - 1) (unexpired clock (forget d (visible t)))
    end.
Proof.
  intros Ht. unfold remember. fold (same_dest d).
  change (λ e, pr_dest_hash e =k d) with (same_dest d).
  assert (Htail : ∀ s, shaped s → visible s = forget d (visible t) → ∃ t',
    (let* t := purge_expired clock s in
     let* t := if prs_len t =? PEER_RATCHETS_MAX then remove (prs_len t - 1) t else Ok t in
     let* t := for_each (λ i t, move_entry (i - 1) i t) (reverse (seq 1 (prs_len t))) t in
     let (age_kind, age_secs) := RatchetClock.anchor clock in
     let* t := set_entry 0 {| pr_dest_hash := d; pr_ratchet := key;
                              pr_age_kind := age_kind; pr_age_secs := age_secs |} t in
     Ok (true, {| prs_entries := prs_entries t; prs_len := prs_len t + 1 |})) = Ok (true, t') ∧ shaped t' ∧
    visible t' = fresh_peer d key clock :: take (PEER_RATCHETS_MAX - 1) (unexpired clock (forget d (visible t)))).
  { intros s Hs Hv. destruct (purge_expired_spec clock s Hs) as (t1 & -> & Ht1 & Hv1). cbn [obind].
    destruct (evict_last_spec t1 Ht1) as (t2 & -> & Ht2 & Hv2 & Hn2). cbn [obind].
    destruct (push_front_spec t2 (fresh_peer d key clock) Ht2 Hn2) as (t3 & Ht3 & Hs3 & Hv3).
    exists t3. split; [|split; [done|by rewrite Hv3, Hv2, Hv1, Hv]].
    unfold fresh_peer in Ht3. destruct (RatchetClock.anchor clock) as [kind secs]. cbn [fst snd] in Ht3.
    destruct (for_each _ _ t2); cbn [obind] in *; [|done..].
    destruct (set_entry _ _ _); cbn [obind] in *; [|done..]. by injection Ht3 as <-. }
  unfold forget in Htail |- *. destruct (position (same_dest d) (visible t)) as [i|] eqn:Hp; cbn [mbind option_bind].
  - pose proof (position_lt _ _ _ Hp) as Hi.
    destruct (lookup_lt_is_Some_2 (visible t) i Hi) as [e He]. rewrite He.
    rewrite (visible_index t i e) by done. cbn [obind]. case_bool_decide as Hk.
    + by exists false, t.
    + rewrite length_peers in Hi by done. destruct (remove_spec i t Ht Hi) as (s & -> & Hs & Hv & _).
      cbn [obind]. destruct (Htail s Hs Hv) as (t' & H1 & H2 & H3). by exists true, t'.
  - cbn [obind]. destruct (Htail t Ht eq_refl) as (t' & H1 & H2 & H3). by exists true, t'.
Qed.

(** ** What the list of entries gives a sender *)

Definition find_key (d : list Z) (clock : RatchetClock) (l : list PeerRatchet) : option (list Z) :=
  pr_ratchet <$> List.find (λ e, (pr_dest_hash e =k d) && negb (is_expired e clock)) l.

Lemma get_find d clock t : get d clock t = find_key d clock (visible t).
Proof. done. Qed.

Lemma find_key_cons d clock e l :
  find_key d clock (e :: l) =
    if (pr_dest_hash e =k d) && negb (is_expired e clock) then Some (pr_ratchet e) else find_key d clock l.
Proof. unfold find_key. cbn. by destruct (_ && _)%bool. Qed.

(** Expired entries are never found, so removing them changes nothing. *)
Lemma find_key_unexpired d clock l : find_key d clock (unexpired clock l) = find_key d clock l.
Proof.
  induction l as [|e l IH]; [done|]. unfold unexpired in *. destruct (is_expired e clock) eqn:Hx.
  - rewrite filter_cons_False by congruence. by rewrite find_key_cons, Hx, andb_false_r.
  - rewrite filter_cons_True by done. by rewrite !find_key_cons, IH.
Qed.

Lemma find_key_forget d d' clock l : d' ≠ d → find_key d' clock (forget d l) = find_key d' clock l.
Proof.
  intros Hd. unfold forget. destruct (position (same_dest d) l) as [i|] eqn:Hp; [|done].
  apply position_Some in Hp as (e & He & Hs & _). apply bool_decide_eq_true in Hs.
  rewrite delete_take_drop. rewrite <- (take_drop_middle l i e He) at 3.
  generalize (take i l). intros a. induction a as [|x a IH]; cbn [app].
  - rewrite find_key_cons. by rewrite bool_decide_eq_false_2 by congruence.
  - rewrite !find_key_cons. by rewrite IH.
Qed.

Lemma fresh_not_expired d key clock : is_expired (fresh_peer d key clock) clock = false.
Proof.
  unfold is_expired, age_expired, fresh_peer, RatchetClock.anchor, sat_sub, RATCHET_EXPIRY_SECS.
  destruct (wall_secs clock) as [w|] eqn:Hw; cbn; rewrite ?Hw; rewrite Z.sub_diag; cbn; by rewrite andb_false_r.
Qed.

(** At most one entry for each destination. *)
Definition one_each (l : list PeerRatchet) : Prop := NoDup (pr_dest_hash <$> l).

Lemma one_each_sublist l l' : sublist l' l → one_each l → one_each l'.
Proof. intros Hs Hn. eapply sublist_NoDup; [done|]. by apply fmap_sublist. Qed.

Lemma forget_absent d l : one_each l → d ∉ pr_dest_hash <$> forget d l.
Proof.
  unfold forget, one_each. intros Hn. destruct (position (same_dest d) l) as [i|] eqn:Hp.
  - apply position_Some in Hp as (e & He & Hs & _). apply bool_decide_eq_true in Hs. subst d.
    rewrite delete_take_drop, fmap_app. rewrite <- (take_drop_middle l i e He), fmap_app, fmap_cons in Hn.
    apply NoDup_app in Hn as (_ & H1 & H2). apply NoDup_cons in H2 as [H2 _].
    rewrite elem_of_app. intros [H|H]; [|done]. apply (H1 _ H). left.
  - rewrite position_None in Hp. intros (e & -> & He)%list_elem_of_fmap.
    apply list_elem_of_lookup in He as [i Hi]. specialize (Hp i e Hi).
    by apply bool_decide_eq_false in Hp.
Qed.

Lemma forget_sublist d l : sublist (forget d l) l.
Proof. unfold forget. destruct (position _ _); [apply sublist_delete|done]. Qed.

Lemma remembered_one_each d key clock l n :
  one_each l → one_each (fresh_peer d key clock :: take n (unexpired clock (forget d l))).
Proof.
  intros Hn.
  assert (Hs : sublist (take n (unexpired clock (forget d l))) (forget d l))
    by (etrans; [apply sublist_take|apply sublist_filter]).
  unfold one_each. rewrite fmap_cons. apply NoDup_cons. split.
  - intros Hin. apply (forget_absent d l Hn). eapply elem_of_sublist; [exact Hin|]. by apply fmap_sublist.
  - apply (one_each_sublist (forget d l)); [done|]. by apply (one_each_sublist l); [apply forget_sublist|].
Qed.

(** ** The blob *)

Definition peer_good (e : PeerRatchet) : Prop :=
  length (pr_dest_hash e) = DESTINATION_LENGTH ∧ bytes (pr_dest_hash e) ∧
  RatchetRing.key_ok (pr_ratchet e) ∧ age_kind_valid (pr_age_kind e) = true ∧
  in_u64 (pr_age_secs e) ∧ (pr_age_kind e = AGE_UNKNOWN → pr_age_secs e = 0%Z).

Definition ok (t : PeerRatchets) : Prop := shaped t ∧ Forall peer_good (visible t).

Definition peer_bytes (e : PeerRatchet) : list Z :=
  (pr_dest_hash e ++ pr_ratchet e) ++ [pr_age_kind e] ++ be_bytes 8 (pr_age_secs e).

#[refine] #[export] Instance peer_fixed : FixedWidth PeerRatchet :=
  {| record_width := 57; record_bytes := peer_bytes; record_good := peer_good |}.
Proof.
  intros e (Hd & _ & [Hk _] & _). unfold peer_bytes. by rewrite !length_app, Hd, Hk, length_be_bytes.
Defined.

Definition peer_blob (l : list PeerRatchet) : list Z := counted PEER_BLOB_VERSION l.

(** What an entry's age is after a restart. *)
Definition restored (e : PeerRatchet) : PeerRatchet :=
  if (pr_age_kind e =? AGE_UPTIME)%Z
  then {| pr_dest_hash := pr_dest_hash e; pr_ratchet := pr_ratchet e;
          pr_age_kind := AGE_UNKNOWN; pr_age_secs := 0 |}
  else e.

Lemma restored_peer_good e : peer_good e → peer_good (restored e).
Proof.
  intros (H1 & H2 & H3 & H4 & H5 & H6). unfold restored. destruct (_ =? _)%Z; [|done].
  unfold peer_good. cbn. unfold_u64. repeat split; (done || lia || apply H3).
Qed.

Lemma length_peer_blob l : Forall peer_good l → length (peer_blob l) = peer_blob_len (length l).
Proof. apply (length_counted (FW := peer_fixed)). Qed.

Lemma write_entry_spec t i e out :
  peer_good e → visible t !! i = Some e → 2 + (1 + i) * 57 ≤ length out →
  write_entry t i out = Ok (splice (2 + i * 57) (peer_bytes e) out).
Proof.
  intros (Hd & _ & [Hk _] & _) Hi Hl. unfold write_entry. cbv zeta.
  rewrite (visible_index t i e) by done. cbn [obind]. set (pos := 2 + i * 57).
  assert (Hpos : pos + 57 ≤ length out) by lia. clearbody pos. clear Hl. unfold DESTINATION_LENGTH in Hd.
  rewrite copy_into_Ok by lia. cbn [obind].
  rewrite copy_into_Ok by (rewrite length_splice; lia). cbn [obind].
  replace (pos + 16) with (pos + length (pr_dest_hash e)) by lia. rewrite splice_splice by lia.
  set (a := pr_dest_hash e ++ pr_ratchet e).
  assert (Ha : length a = 48) by (unfold a; rewrite length_app; lia).
  rewrite store_Ok by (rewrite length_splice; lia). cbn [obind].
  assert (Hins : <[pos + 48 := pr_age_kind e]> (splice pos a out)
    = splice (pos + length a) [pr_age_kind e] (splice pos a out)).
  { rewrite Ha. unfold splice at 2. cbn [length].
    rewrite <- (take_drop_middle (<[pos + 48 := pr_age_kind e]> (splice pos a out)) (pos + 48) (pr_age_kind e)).
    - rewrite take_insert, drop_insert_lt by lia. case_decide; [lia|]. by rewrite Nat.add_1_r.
    - apply list_lookup_insert_eq. rewrite length_splice; lia. }
  rewrite Hins, splice_splice by (cbn; lia).
  rewrite copy_into_Ok by (rewrite length_splice; rewrite ?length_app, ?length_be_bytes; cbn; lia).
  replace (pos + 49) with (pos + length (a ++ [pr_age_kind e])) by (rewrite length_app, Ha; done).
  rewrite splice_splice by (rewrite length_app, length_be_bytes; cbn; lia).
  unfold peer_bytes. fold a. by rewrite <- !app_assoc.
Qed.

Lemma serialize_peers_spec t out :
  ok t →
  serialize_into t out =
    let need := peer_blob_len (prs_len t) in
    if length out <? need then (Err RatchetOutputTooSmall, out)
    else (Ok need, peer_blob (visible t) ++ drop need out).
Proof.
  intros [Hs Hg]. unfold serialize_into. cbv zeta. destruct (_ <? _) eqn:Hl; bool_hyps; [done|].
  pose proof (length_peers t Hs) as Hv. rewrite <- Hv in *.
  rewrite (write_counted (FW := peer_fixed) PEER_BLOB_VERSION (write_entry t) (visible t) out).
  - done.
  - done.
  - pose proof Hs as [_ H]. rewrite Hv. unfold PEER_RATCHETS_MAX in H. lia.
  - exact Hl.
  - intros i e o Hi Ho. apply write_entry_spec; [|done|done]. by apply (Forall_lookup_1 _ _ _ _ Hg Hi).
Qed.

(** What the parsing of a blob sees at entry [i]. *)
Lemma peer_entry_fields {E} l i e :
  Forall peer_good l → l !! i = Some e →
  slice_get (E := E) (peer_blob l) (2 + i * 57) (2 + i * 57 + 16) = Ok (pr_dest_hash e) ∧
  slice_get (E := E) (peer_blob l) (2 + i * 57 + 16) (2 + i * 57 + 48) = Ok (pr_ratchet e) ∧
  index (E := E) (peer_blob l) (2 + i * 57 + 48) = Ok (pr_age_kind e) ∧
  slice_get (E := E) (peer_blob l) (2 + i * 57 + 49) (2 + i * 57 + 57) = Ok (be_bytes 8 (pr_age_secs e)).
Proof.
  intros Hg Hi. destruct (Forall_lookup_1 _ _ _ _ Hg Hi) as (Hd & _ & [Hk _] & _). unfold DESTINATION_LENGTH in Hd.
  set (hdr := [PEER_BLOB_VERSION; Z.of_nat (length l)]).
  assert (Hslice : ∀ x y, x ≤ y → y ≤ 57 →
    slice_get (E := E) (peer_blob l) (2 + i * 57 + x) (2 + i * 57 + y) = Ok (slice (peer_bytes e) x y))
    by (intros x y Hxy Hy; by apply (slice_record (FW := peer_fixed) hdr l i e)).
  assert (H48 : length (pr_dest_hash e ++ pr_ratchet e) = 48) by (rewrite length_app; lia).
  repeat split.
  - rewrite <- (Nat.add_0_r (2 + i * 57)) at 1. rewrite Hslice by lia. f_equal. unfold peer_bytes.
    rewrite <- app_assoc, <- (app_nil_l (_ ++ _)). apply slice_app_exact; [done|exact Hd].
  - rewrite Hslice by lia. f_equal. unfold peer_bytes. rewrite <- app_assoc.
    apply slice_app_exact; lia.
  - apply (index_record (FW := peer_fixed) hdr l i e); [done..|].
    cbn [record_bytes peer_fixed]. unfold peer_bytes. rewrite lookup_app_r by lia. by rewrite H48.
  - rewrite Hslice by lia. f_equal. unfold peer_bytes.
    rewrite app_assoc, slice_app_r by (rewrite length_app; cbn; lia). rewrite length_app, H48.
    change (slice (be_bytes 8 (pr_age_secs e)) 0 8 = be_bytes 8 (pr_age_secs e)).
    rewrite <- (length_be_bytes 8 (pr_age_secs e)) at 1. apply slice_full.
Qed.

Lemma validate_peer_blob_of l :
  Forall peer_good l → length l ≤ PEER_RATCHETS_MAX → validate_peer_blob (peer_blob l) = Ok tt.
Proof.
  intros Hg Hm. unfold validate_peer_blob. rewrite length_peer_blob by done.
  unfold peer_blob_len at 1. destruct (2 + _ <? 2) eqn:H2; bool_hyps; [lia|].
  change (index (peer_blob l) 1) with (Ok (E := RatchetError) (Z.of_nat (length l))).
  change (index (peer_blob l) 0) with (Ok (E := RatchetError) PEER_BLOB_VERSION).
  cbn [obind]. rewrite Nat2Z.id, (proj2 (Nat.ltb_ge _ _)) by done. rewrite Z.eqb_refl.
  rewrite Nat.eqb_refl. cbn [negb]. apply for_each_check. intros i Hi%elem_of_range.
  apply lookup_lt_is_Some in Hi as [e Hi].
  destruct (peer_entry_fields (E := RatchetError) l i e Hg Hi) as (_ & _ & H3 & H4).
  unfold validate_peer_entry. cbv zeta. rewrite H3. cbn [obind].
  destruct (Forall_lookup_1 _ _ _ _ Hg Hi) as (_ & _ & _ & Hv & _ & Hu). rewrite Hv. cbn [negb].
  destruct (pr_age_kind e =? AGE_UNKNOWN)%Z eqn:Hk; bool_hyps; [|done].
  rewrite H4. cbn [obind]. by rewrite Hu, RatchetRing.nonzero_zeros.
Qed.

(** ** Loading *)

Definition holds (l : list PeerRatchet) (n : nat) (t : PeerRatchets) : Prop :=
  shaped t ∧ prs_len t = length l ∧ ∀ j, j < n → prs_entries t !! j = l !! j.

Lemma holds_visible l t : holds l (length l) t → visible t = l.
Proof.
  intros (Hs & Hl & Hj). apply list_eq. intros j. unfold visible. rewrite Hl, lookup_take.
  case_decide as Hd; [by apply Hj|]. symmetry. apply lookup_ge_None_2. lia.
Qed.

Lemma load_one version blob l i t e :
  load_entry version blob i t = set_entry i e t → l !! i = Some e → holds l i t →
  ∃ t', load_entry version blob i t = Ok t' ∧ holds l (1 + i) t'.
Proof.
  intros -> He ([Hs1 Hs2] & Hl & Hj). pose proof (lookup_lt_Some _ _ _ He) as Hlt.
  unfold set_entry. rewrite store_Ok by lia. cbn [obind]. eexists. split; [done|].
  split; [|split; [done|]].
  - unfold shaped. cbn. rewrite length_insert. lia.
  - intros j Hji. cbn. destruct (decide (j = i)) as [->|Hne].
    + rewrite He. apply list_lookup_insert_eq. lia.
    + rewrite list_lookup_insert_ne by done. apply Hj. lia.
Qed.

(** Loading entry by entry what [f] says each is. *)
Lemma load_all version blob l t :
  shaped t → length l ≤ PEER_RATCHETS_MAX →
  (∀ i e s, l !! i = Some e → load_entry version blob i s = set_entry i e s) →
  ∃ t', for_each (load_entry version blob) (seq 0 (length l))
      {| prs_entries := prs_entries (zeroize t); prs_len := length l |} = Ok t' ∧ shaped t' ∧ visible t' = l.
Proof.
  intros [H1 H2] Hm Hload.
  destruct (for_each_range (holds l) (load_entry version blob) (length l)
    {| prs_entries := prs_entries (zeroize t); prs_len := length l |}) as (t' & Ht & Hh).
  - split; [|split; [done|intros; lia]]. unfold shaped. cbn. by rewrite length_replicate.
  - intros i s Hi Hh. destruct (lookup_lt_is_Some_2 l i Hi) as [e He].
    by apply (load_one version blob l i s e); [apply Hload|..].
  - exists t'. split; [done|]. split; [apply Hh|by apply holds_visible].
Qed.

Lemma load_peer_blob l t :
  shaped t → Forall peer_good l → length l ≤ PEER_RATCHETS_MAX →
  ∃ t', load_persisted (peer_blob l) t = (Ok tt, t') ∧ ok t' ∧ visible t' = restored <$> l.
Proof.
  intros Hs Hg Hm. unfold load_persisted, commit_state. rewrite validate_peer_blob_of by done. cbn [obind].
  change (index (peer_blob l) 1) with (Ok (E := RatchetError) (Z.of_nat (length l))).
  change (index (peer_blob l) 0) with (Ok (E := RatchetError) PEER_BLOB_VERSION).
  cbn [obind]. rewrite Nat2Z.id, <- (length_fmap restored l).
  destruct (load_all PEER_BLOB_VERSION (peer_blob l) (restored <$> l) t Hs) as (t' & -> & Hs' & Hv).
  - by rewrite length_fmap.
  - intros i x s Hi. rewrite list_lookup_fmap in Hi. apply fmap_Some in Hi as (e & Hi & ->).
    destruct (peer_entry_fields (E := RatchetError) l i e Hg Hi) as (F1 & F2 & F3 & F4).
    destruct (Forall_lookup_1 _ _ _ _ Hg Hi) as (_ & _ & _ & _ & Hu & _).
    unfold load_entry, blob_age. cbv zeta. rewrite F3, F4. change (PEER_BLOB_VERSION =? LEGACY_PEER_BLOB_VERSION)%Z with false.
    cbn [obind]. rewrite of_be_be_bytes
      by (unfold_u64; change (256 ^ Z.of_nat 8)%Z with 18446744073709551616%Z; lia).
    unfold restored. destruct (pr_age_kind e =? AGE_UPTIME)%Z; cbn [obind]; rewrite F1, F2; cbn [obind]; [done|].
    by destruct e.
  - exists t'. split; [done|]. split; [|done]. split; [done|]. rewrite Hv. apply Forall_fmap.
    eapply Forall_impl; [done|]. intros e. apply restored_peer_good.
Qed.

(** ** Arbitrary bytes *)

(** The entry at position [i] of a blob of either version. *)
Definition decoded (version : Z) (blob : list Z) (i : nat) : PeerRatchet :=
  if (version =? LEGACY_PEER_BLOB_VERSION)%Z then
    let pos := 2 + i * 56 in
    let secs := of_be (slice blob (pos + 48) (pos + 56)) in
    {| pr_dest_hash := slice blob pos (pos + 16); pr_ratchet := slice blob (pos + 16) (pos + 48);
       pr_age_kind := if (secs =? 0)%Z then AGE_UNKNOWN else AGE_WALL; pr_age_secs := secs |}
  else
    let pos := 2 + i * 57 in
    restored {| pr_dest_hash := slice blob pos (pos + 16); pr_ratchet := slice blob (pos + 16) (pos + 48);
                pr_age_kind := blob !!! (pos + 48); pr_age_secs := of_be (slice blob (pos + 49) (pos + 57)) |}.

(** How much of a blob entry [i] needs. *)
Definition entry_end (version : Z) (i : nat) : nat :=
  2 + (1 + i) * if (version =? LEGACY_PEER_BLOB_VERSION)%Z then 56 else 57.

Lemma load_entry_decoded version blob i t :
  entry_end version i ≤ length blob →
  load_entry version blob i t = set_entry i (decoded version blob i) t.
Proof.
  unfold entry_end, load_entry, blob_age, decoded. intros Hl.
  destruct (version =? LEGACY_PEER_BLOB_VERSION)%Z; cbv zeta.
  - rewrite slice_get_Ok by lia. cbn [obind]. by rewrite !slice_get_Ok by lia.
  - rewrite (index_Ok _ _ (blob !!! (2 + i * 57 + 48))) by (apply list_lookup_lookup_total_lt; lia).
    rewrite slice_get_Ok by lia. cbn [obind]. unfold restored. cbn [pr_age_kind].
    destruct (_ =? AGE_UPTIME)%Z; cbn [obind]; by rewrite !slice_get_Ok by lia.
Qed.

Lemma age_range blob i : bytes blob → i + 8 ≤ length blob → in_u64 (of_be (slice blob i (i + 8))).
Proof.
  intros Hb Hl. pose proof (of_be_bound (slice blob i (i + 8)) (bytes_slice _ _ _ Hb)) as H.
  rewrite length_slice in H by lia. replace (i + 8 - i) with 8 in H by lia.
  change (256 ^ Z.of_nat 8)%Z with 18446744073709551616%Z in H. unfold_u64. lia.
Qed.

Lemma fields_good blob pos :
  bytes blob → pos + 48 ≤ length blob →
  length (slice blob pos (pos + 16)) = DESTINATION_LENGTH ∧ bytes (slice blob pos (pos + 16)) ∧
  RatchetRing.key_ok (slice blob (pos + 16) (pos + 48)).
Proof.
  intros Hb Hl. unfold DESTINATION_LENGTH, RatchetRing.key_ok. rewrite !length_slice by lia.
  split; [lia|]. split; [by apply bytes_slice|]. split; [lia|by apply bytes_slice].
Qed.

Lemma decoded_legacy_good blob i :
  bytes blob → entry_end LEGACY_PEER_BLOB_VERSION i ≤ length blob →
  peer_good (decoded LEGACY_PEER_BLOB_VERSION blob i).
Proof.
  intros Hb Hl. change (2 + (1 + i) * 56 ≤ length blob) in Hl.
  change (decoded LEGACY_PEER_BLOB_VERSION blob i) with
    (let pos := 2 + i * 56 in let secs := of_be (slice blob (pos + 48) (pos + 56)) in
     {| pr_dest_hash := slice blob pos (pos + 16); pr_ratchet := slice blob (pos + 16) (pos + 48);
        pr_age_kind := if (secs =? 0)%Z then AGE_UNKNOWN else AGE_WALL; pr_age_secs := secs |}).
  cbv zeta. set (pos := 2 + i * 56). assert (Hpos : pos + 56 ≤ length blob) by lia. clearbody pos.
  destruct (fields_good blob pos Hb ltac:(lia)) as (H1 & H2 & H3).
  pose proof (age_range blob (pos + 48) Hb ltac:(lia)) as Hu. replace (pos + 48 + 8) with (pos + 56) in Hu by lia.
  unfold peer_good. cbn [pr_dest_hash pr_ratchet pr_age_kind pr_age_secs].
  split; [done|]. split; [done|]. split; [done|]. destruct (_ =? 0)%Z eqn:H0; bool_hyps; by rewrite ?H0.
Qed.

Lemma decoded_current_good blob i :
  bytes blob → entry_end PEER_BLOB_VERSION i ≤ length blob → validate_peer_entry blob i = Ok tt →
  peer_good (decoded PEER_BLOB_VERSION blob i).
Proof.
  intros Hb Hl Hv. change (2 + (1 + i) * 57 ≤ length blob) in Hl. unfold decoded.
  change (PEER_BLOB_VERSION =? LEGACY_PEER_BLOB_VERSION)%Z with false. cbv iota zeta. apply restored_peer_good.
  unfold validate_peer_entry in Hv. cbv zeta in Hv.
  set (pos := 2 + i * 57) in *. assert (Hpos : pos + 57 ≤ length blob) by lia. clearbody pos.
  rewrite (index_Ok _ _ (blob !!! (pos + 48))) in Hv by (apply list_lookup_lookup_total_lt; lia).
  rewrite slice_get_Ok in Hv by lia. cbn [obind] in Hv.
  destruct (fields_good blob pos Hb ltac:(lia)) as (H1 & H2 & H3).
  pose proof (age_range blob (pos + 49) Hb ltac:(lia)) as Hu. replace (pos + 49 + 8) with (pos + 57) in Hu by lia.
  unfold peer_good. cbn [pr_dest_hash pr_ratchet pr_age_kind pr_age_secs].
  destruct (age_kind_valid _); [|done]. cbn [negb] in Hv.
  split; [done|]. split; [done|]. split; [done|]. split; [done|]. split; [done|].
  intros H0. rewrite H0, Z.eqb_refl in Hv. destruct (existsb _ _) eqn:Hx; [done|].
  apply RatchetRing.zeros_of_existsb in Hx. rewrite Hx, length_slice by lia.
  by replace (pos + 57 - (pos + 49)) with 8 by lia.
Qed.

(** A blob that is accepted, and any other. *)
Lemma validate_peer_cases blob :
  bytes blob →
  (validate_peer_blob blob = Ok tt ∧ ∃ version count, index (E := RatchetError) blob 0 = Ok version ∧
     index (E := RatchetError) blob 1 = Ok (Z.of_nat count) ∧ count ≤ PEER_RATCHETS_MAX ∧
     ∀ i, i < count → entry_end version i ≤ length blob ∧ peer_good (decoded version blob i)) ∨
  validate_peer_blob blob = Err InvalidBlob.
Proof.
  intros Hb. unfold validate_peer_blob. destruct (length blob <? 2) eqn:H2; bool_hyps; [by right|].
  destruct blob as [|v [|c rest]]; [cbn in H2; lia..|].
  change (index (v :: c :: rest) 1) with (Ok (E := RatchetError) c).
  change (index (v :: c :: rest) 0) with (Ok (E := RatchetError) v).
  assert (Hc : is_byte c) by (apply (bytes_lookup (v :: c :: rest) 1); done).
  set (blob := v :: c :: rest) in *. cbn [obind].
  destruct (PEER_RATCHETS_MAX <? Z.to_nat c) eqn:Hm; bool_hyps; [by right|].
  assert (Hcount : Ok (E := RatchetError) c = Ok (Z.of_nat (Z.to_nat c)))
    by (rewrite Z2Nat.id by (unfold is_byte in Hc; lia); done).
  destruct (v =? PEER_BLOB_VERSION)%Z eqn:Hv; bool_hyps; [subst v|].
  - destruct (length blob =? _) eqn:Hl; cbn [negb]; bool_hyps; [|by right]. unfold peer_blob_len in Hl.
    assert (Hfit : ∀ i, i < Z.to_nat c → entry_end PEER_BLOB_VERSION i ≤ length blob)
      by (intros i Hi; change (entry_end PEER_BLOB_VERSION i) with (2 + (1 + i) * 57); nia).
    destruct (for_each_check_cases (validate_peer_entry blob) InvalidBlob (seq 0 (Z.to_nat c))) as [Hok|Hbad];
      [|left|by right].
    + intros i Hi%elem_of_range. specialize (Hfit i Hi).
      change (entry_end PEER_BLOB_VERSION i) with (2 + (1 + i) * 57) in Hfit.
      unfold validate_peer_entry. cbv zeta.
      rewrite (index_Ok _ _ (blob !!! (2 + i * 57 + 48))) by (apply list_lookup_lookup_total_lt; lia).
      rewrite slice_get_Ok by lia. cbn [obind]. destruct (negb _); [by right|].
      destruct (_ =? _)%Z; [|by left]. destruct (existsb _ _); auto.
    + split; [done|]. exists PEER_BLOB_VERSION, (Z.to_nat c). split; [done|]. split; [done|]. split; [done|].
      intros i Hi. split; [by apply Hfit|]. rewrite for_each_check in Hok.
      apply decoded_current_good; [done|by apply Hfit|]. apply Hok. by apply elem_of_range.
  - destruct (_ && _)%bool eqn:Hg; [left|by right]. bool_hyps.
    match goal with H : v = _ |- _ => subst v end.
    assert (Hfit : ∀ i, i < Z.to_nat c → entry_end LEGACY_PEER_BLOB_VERSION i ≤ length blob)
      by (intros i Hi; change (entry_end LEGACY_PEER_BLOB_VERSION i) with (2 + (1 + i) * 56); nia).
    split; [done|]. exists LEGACY_PEER_BLOB_VERSION, (Z.to_nat c). split; [done|]. split; [done|]. split; [done|].
    intros i Hi. split; [by apply Hfit|]. apply decoded_legacy_good; [done|by apply Hfit].
Qed.

Lemma load_total blob t :
  ok t → bytes blob →
  match load_persisted blob t with
  | (Ok _, t') => ok t' ∧ ∃ version count, index (E := RatchetError) blob 0 = Ok version ∧
      index (E := RatchetError) blob 1 = Ok (Z.of_nat count) ∧
      visible t' = decoded version blob <$> seq 0 count
  | (Err e, t') => e = InvalidBlob ∧ t' = t
  | (Panic, _) => False
  end.
Proof.
  intros [Hs Hg] Hb. unfold load_persisted, commit_state.
  destruct (validate_peer_cases blob Hb) as [(Hv & version & count & H0 & H1 & Hm & Hi)|Hv];
    rewrite Hv; cbn [obind]; [|done]. rewrite H0, H1. cbn [obind]. rewrite Nat2Z.id.
  set (l := decoded version blob <$> seq 0 count).
  assert (Hl : length l = count) by (unfold l; by rewrite length_fmap, length_seq). rewrite <- Hl.
  assert (Hlook : ∀ i e, l !! i = Some e → i < count ∧ e = decoded version blob i).
  { intros i e He. unfold l in He. rewrite list_lookup_fmap in He. apply fmap_Some in He as (j & Hj & ->).
    by apply lookup_seq in Hj as [-> Hj]. }
  destruct (load_all version blob l t Hs) as (t' & -> & Hs' & Hvis); [by rewrite Hl| |].
  - intros i e s He. apply Hlook in He as [Hlt ->]. by apply load_entry_decoded, Hi.
  - split; [split; [done|]|exists version, count; by rewrite Hvis, Hl].
    rewrite Hvis. apply Forall_lookup. intros i e He. apply Hlook in He as [Hlt ->]. by apply Hi.
Qed.

(** ** The promises of the table *)

Lemma fresh_peer_good d key clock :
  length d = DESTINATION_LENGTH → bytes d → RatchetRing.key_ok key → RatchetRing.clock_ok clock →
  peer_good (fresh_peer d key clock).
Proof.
  intros Hd Hb Hk Hc. destruct (RatchetRing.anchor_good clock Hc) as (H1 & H2 & H3).
  unfold peer_good, fresh_peer. cbn. done.
Qed.

Lemma remembered_good d key clock l n :
  peer_good (fresh_peer d key clock) → Forall peer_good l →
  Forall peer_good (fresh_peer d key clock :: take n (unexpired clock (forget d l))).
Proof.
  intros Hf Hg. constructor; [done|]. apply Forall_take, Forall_forall.
  intros e [_ He]%list_elem_of_filter. rewrite Forall_forall in Hg. apply Hg.
  eapply elem_of_sublist; [exact He|apply forget_sublist].
Qed.


(** A peer table survives being saved and loaded. Saving needs exactly two
    bytes and 57 for each entry and reports a smaller buffer without touching
    it; the bytes written load, whatever the table held before, as the same
    entries in the same order, ages by uptime having become unknown; and on any
    bytes at all loading does not panic: it either yields a table in order or
    reports an invalid blob and leaves the table as it was. *)
Lemma peer_blob_roundtrip (t old : PeerRatchets) (out : list Z) :
  ok t → ok old →
  let n := peer_blob_len (prs_len t) in
  match serialize_into t out with
  | (Ok n', out') => n' = n ∧ length out' = length out ∧ drop n out' = drop n out ∧
      ∃ t', load_persisted (take n out') old = (Ok tt, t') ∧ ok t' ∧ visible t' = restored <$> visible t
  | (Err e, out') => e = RatchetOutputTooSmall ∧ out' = out ∧ length out < n
  | (Panic, _) => False
  end ∧
  ∀ blob, bytes blob →
    match load_persisted blob old with
    | (Ok _, t') => ok t'
    | (Err e, t') => e = InvalidBlob ∧ t' = old
    | (Panic, _) => False
    end.
Proof.
  intros Ht Ho n. split.
  2:{ intros blob Hb. pose proof (load_total blob old Ho Hb) as H.
      destruct (load_persisted blob old) as [[u|e|] t']; [apply H|done|done]. }
  pose proof Ht as [Hs Hg]. pose proof (length_peers t Hs) as Hv. rewrite serialize_peers_spec by done. cbv zeta. fold n.
  destruct (length out <? n) eqn:Hl; bool_hyps; [done|].
  assert (Hn : n = length (peer_blob (visible t))) by (rewrite length_peer_blob, Hv; done).
  split; [done|]. split; [rewrite length_app, length_drop; lia|].
  split; [rewrite Hn, drop_app_length; done|]. rewrite Hn, take_app_length.
  apply load_peer_blob; [apply Ho|done|]. rewrite Hv. apply Hs.
Qed.

(** ** A table with one peer *)

Definition example_dest (b : Z) : list Z := replicate DESTINATION_LENGTH b.
Definition example_clock (wall : Z) : RatchetClock := RatchetClock.new (Some wall) 5.
Definition example_table : PeerRatchets :=
  {| prs_entries := <[0 := fresh_peer (example_dest 3) (replicate 32 7%Z) (example_clock 1000)]> (prs_entries new);
     prs_len := 1 |}.

Lemma peer_clock_ok wall : in_u64 wall → RatchetRing.clock_ok (example_clock wall).
Proof. intros Hw. split; [unfold_u64; cbn; lia|]. intros w [= <-]. done. Qed.

Lemma example_bytes n b : is_byte b → bytes (replicate n b).
Proof. intros Hb. by apply Forall_replicate. Qed.

Lemma new_peers_ok : ok new.
Proof. split; [split; [done|unfold PEER_RATCHETS_MAX; cbn; lia]|constructor]. Qed.

Lemma example_table_ok : ok example_table.
Proof.
  split; [split; [done|unfold PEER_RATCHETS_MAX; cbn; lia]|]. constructor; [|constructor].
  apply fresh_peer_good; [done|apply example_bytes; unfold is_byte; lia| |].
  - split; [done|apply example_bytes; unfold is_byte; lia].
  - apply peer_clock_ok. unfold_u64. lia.
Qed.


Lemma peer_blob_roundtrip_witness :
  match serialize_into example_table (zeros 60) with
  | (Ok n, out') => n = 59 ∧ ∃ t', load_persisted (take n out') new = (Ok tt, t') ∧
      visible t' = [fresh_peer (example_dest 3) (replicate 32 7%Z) (example_clock 1000)]
  | _ => False
  end.
Proof.
  destruct (peer_blob_roundtrip example_table new (zeros 60) example_table_ok new_peers_ok) as [H _]. cbv zeta in H.
  assert (E : fst (serialize_into example_table (zeros 60)) = Ok 59) by (vm_compute; reflexivity).
  destruct (serialize_into example_table (zeros 60)) as [[n|e|] out']; [|discriminate E|discriminate E].
  injection E as ->. split; [reflexivity|]. destruct H as (_ & _ & _ & t' & H1 & _ & H2).
  exists t'. split; [exact H1|]. rewrite H2. vm_compute. reflexivity.
Defined.

End PeerRatchets.
