(* ===== verification/RatchetDelivery.v ===== *)
(** Messages to an announced ratchet key, end to end (src/src/ratchet.rs,
    src/src/identity.rs, src/src/crypto.rs): the destination rotates its ring and
    announces the new key, a peer validates the announce, remembers the key and
    encrypts to it, and the destination decrypts with the keys it still has. *)

From S2P Require Import Prelude Constants Primitives Slots Records Crypto Identity Ratchets RatchetRuns PeerRatchets.
Import RatchetRuns.

Section delivery.
Context `{SHA : Sha256} `{HMAC : Hmac} `{AES : AesCbc} `{HKDF : HkdfSha256} `{X : X25519} `{ED : Ed25519}.

(** ** The destination *)

(** A round that rotates under a wall clock leaves the fresh key as the current
    one, stamped with the second of the clock. *)
Lemma rotation_publishes r fresh clock w :
  RatchetRing.ok r → RatchetRing.clock_ok clock → RatchetRing.key_ok fresh →
  wall_secs clock = Some w → RatchetRing.decide_rotation (RatchetRing.live r) clock = Rotate →
  ∃ r', round fresh clock r = Ok r' ∧ RatchetRing.ok r' ∧ stamped w fresh ∈ RatchetRing.live r' ∧
    RatchetRing.current_public_key r' = Some (x_public fresh).
Proof.
  intros Hr Hc Hf Hw Hd. destruct (round_spec r fresh clock Hr Hc Hf) as (r' & H1 & H2 & H3).
  rewrite Hd in H3. cbn [RatchetRing.candidate] in H3.
  assert (Hs : RatchetRing.fresh_own fresh clock = stamped w fresh)
    by (unfold RatchetRing.fresh_own, RatchetClock.anchor, stamped; by rewrite Hw).
  rewrite Hs in H3. exists r'. split; [done|]. split; [done|]. split; [rewrite H3; left|].
  by apply (current_of_live r' (stamped w fresh) _ H2 H3).
Qed.

(** ** The peer *)

(** A remembered key is what the table answers until it expires. *)
Lemma remembered_until d key clock w t t' :
  PeerRatchets.shaped t → wall_secs clock = Some w →
  PeerRatchets.remember d key clock t = Ok (true, t') →
  ∀ now n, wall_secs now = Some n → (n ≤ w + RATCHET_EXPIRY_SECS)%Z → PeerRatchets.get d now t' = Some key.
Proof.
  intros Ht Hw Hr now n Hn Hle. destruct (PeerRatchets.remember_spec d key clock t Ht) as (b & t1 & H1 & _ & H).
  rewrite Hr in H1. injection H1 as <- <-.
  assert (Hv : ∃ l, PeerRatchets.visible t' = PeerRatchets.fresh_peer d key clock :: l).
  { destruct (position (PeerRatchets.same_dest d) (PeerRatchets.visible t) ≫= _) as [e|].
    - destruct (bool_decide (pr_ratchet e = key)); [by destruct H|]. destruct H as [_ ->]. eauto.
    - destruct H as [_ ->]. eauto. }
  destruct Hv as [l Hv]. rewrite PeerRatchets.get_find, Hv, PeerRatchets.find_key_cons.
  assert (He : is_expired (PeerRatchets.fresh_peer d key clock) now = false).
  { unfold is_expired, PeerRatchets.fresh_peer, RatchetClock.anchor. rewrite Hw. cbn.
    unfold age_expired. cbn. rewrite Hn. apply andb_false_iff. right. apply Z.ltb_ge.
    unfold sat_sub, RATCHET_EXPIRY_SECS in *. lia. }
  rewrite He. cbn. by rewrite bool_decide_eq_true_2.
Qed.

(** ** Decryption with the keys that are left *)

(** When one of the keys opens a message, and no other key does, the scan finds
    its plaintext. *)
Lemma scan_finds data ks base salt buf key p :
  key ∈ ks → ecies_decrypt data key salt buf = (Ok (length p), p ++ drop (length p) buf) →
  ∃ len j out', ecies_decrypt_with_ratchets data ks base salt buf = (Ok (len, Some j), out') ∧
    (∃ k', ks !! j = Some k' ∧ ecies_decrypt data k' salt buf = (Ok len, out')) ∧
    ((∀ k' n, k' ∈ ks → k' ≠ key → fst (ecies_decrypt data k' salt buf) ≠ Ok n) →
     len = length p ∧ out' = p ++ drop (length p) buf).
Proof.
  intros Hin Hd. unfold ecies_decrypt_with_ratchets. pose proof (try_ratchets_spec data ks salt 0 buf) as H.
  apply list_elem_of_lookup in Hin as [i Hi].
  destruct (try_ratchets 0 data ks salt buf) as [[[len j]|] out'].
  - destruct H as (k' & _ & Hk & Hdec & _). rewrite Nat.sub_0_r in Hk. exists len, j, out'. split; [done|].
    split; [by exists k'|]. intros Hno. destruct (decide (k' = key)) as [->|Hne].
    + rewrite Hd in Hdec. by injection Hdec as -> ->.
    + destruct (Hno k' len); [by eapply list_elem_of_lookup_2|done|]. by rewrite Hdec.
  - destruct H as [_ H]. destruct (H i key Hi (length p)). by rewrite Hd.
Qed.


End delivery.

(** A ring that rotates, a one-line message, and two rounds and a restart before
    it is read. *)
#[local] Existing Instances Toy.sha256 Toy.hmac Toy.aes Toy.hkdf Toy.x25519 Toy.ed25519.

Definition second_key : list Z := replicate 32 9%Z.
Definition written_by {E} (o : outcome E nat * list Z) : list Z :=
  match o with (Ok n, w) => take n w | _ => [] end.
Definition later : list event :=
  [Restart; Round (replicate 32 5%Z) (example_clock 90000); Restart].

