(* ===== verification/Links.v ===== *)
(** Link handshake and link encryption (src/src/link.rs): signalling bytes,
    request and proof payloads, session keys and identification. *)

From S2P Require Import Prelude Constants Primitives Buffer Wire Identity Crypto.

Definition KEYSIZE : nat := 32.
Definition ECPUBSIZE : nat := 64.
Definition LINK_MTU_SIZE : nat := 3.
Definition LINK_REQUEST_LEGACY_LEN : nat := ECPUBSIZE.
Definition LINK_REQUEST_LEN : nat := ECPUBSIZE + LINK_MTU_SIZE.
Definition LINK_PROOF_LEGACY_LEN : nat := SIGNATURE_LENGTH + KEYSIZE.
Definition LINK_PROOF_LEN : nat := SIGNATURE_LENGTH + KEYSIZE + LINK_MTU_SIZE.
Definition MODE_AES256_CBC : Z := 1.
Definition DEFAULT_MODE : Z := MODE_AES256_CBC.
Definition LINK_KEY_LENGTH : nat := 64.

(** 0x001F_FFFF and 0x00E0. *)
Definition MTU_BYTEMASK : Z := 2097151.
Definition MODE_BYTEMASK : Z := 224.
Definition LINK_PADDED_MAX : nat := MDU.

Definition link_mdu (mtu : nat) : nat :=
  let overhead := 1 + HEADER_MINSIZE + TOKEN_OVERHEAD in
  if mtu <=? overhead then 0
  else
    let blocks := (mtu - overhead) / 16 in
    if blocks =? 0 then 0 else blocks * 16 - 1.

Definition LINK_MDU : nat := link_mdu MTU.

Inductive LinkError := LinkOutputTooSmall | LinkInvalidLength | UnsupportedMode | InvalidMtu.

#[export] Instance LinkError_eq_dec : EqDecision LinkError.
Proof. solve_decision. Defined.

(** * Signalling *)

Record SignallingData := { sd_mode : Z; sd_mtu : Z }.

Module SignallingData.

Definition new (mode mtu : Z) : SignallingData :=
  {| sd_mode := Z.land mode 7; sd_mtu := Z.land mtu MTU_BYTEMASK |}.

Definition effective_mtu (s : SignallingData) : outcome LinkError Z :=
  if (sd_mtu s =? 0)%Z then Ok (Z.of_nat MTU)
  else if (500 <=? sd_mtu s)%Z && (sd_mtu s <=? MTU_BYTEMASK)%Z then Ok (sd_mtu s)
  else Err InvalidMtu.

Definition try_new (mode mtu : Z) : outcome LinkError SignallingData :=
  if (7 <? mode)%Z then Err UnsupportedMode
  else
    let checked := {| sd_mode := mode; sd_mtu := mtu |} in
    let* m := effective_mtu checked in
    Ok {| sd_mode := mode; sd_mtu := m |}.

Definition fixed_endpoint (s : SignallingData) : outcome LinkError SignallingData :=
  if negb (sd_mode s =? MODE_AES256_CBC)%Z then Err UnsupportedMode
  else
    let* checked := try_new (sd_mode s) (sd_mtu s) in
    if negb (sd_mtu checked =? Z.of_nat MTU)%Z then Err InvalidMtu else Ok checked.

Definition default_signalling : SignallingData := new DEFAULT_MODE (Z.of_nat MTU).

Definition pack (s : SignallingData) : list Z :=
  let value := Z.lor (Z.land (sd_mtu s) MTU_BYTEMASK)
                 (Z.shiftl (Z.land (Z.shiftl (sd_mode s) 5) MODE_BYTEMASK) 16) in
  drop 1 (be_bytes 4 value).

Definition unpack (bytes : list Z) : option SignallingData :=
  match bytes with
  | b0 :: b1 :: b2 :: _ =>
      let value := Z.lor (Z.lor (Z.shiftl b0 16) (Z.shiftl b1 8)) b2 in
      Some {| sd_mode := Z.land (Z.shiftr value 21) 7; sd_mtu := Z.land value MTU_BYTEMASK |}
  | _ => None
  end.

(** The wire domain of the fields. *)
Definition wf (s : SignallingData) : Prop := (0 ≤ sd_mode s < 8)%Z ∧ (0 ≤ sd_mtu s < 2 ^ 21)%Z.

Lemma mtu_mask z : Z.land z MTU_BYTEMASK = (z mod 2 ^ 21)%Z.
Proof. change MTU_BYTEMASK with (Z.ones 21). by apply Z.land_ones. Qed.

Lemma mode_field m : (0 ≤ m < 8)%Z → Z.land (Z.shiftl m 5) MODE_BYTEMASK = Z.shiftl m 5.
Proof.
  intros Hm. assert (Hc : m = 0%Z ∨ m = 1%Z ∨ m = 2%Z ∨ m = 3%Z ∨ m = 4%Z ∨ m = 5%Z ∨ m = 6%Z ∨ m = 7%Z)
    by lia.
  repeat (destruct Hc as [->|Hc]; [done|]). by subst.
Qed.

Lemma pack_spec s : wf s → pack s = be_bytes 3 (sd_mtu s + sd_mode s * 2 ^ 21).
Proof.
  intros [Hm Ht]. unfold pack. rewrite mtu_mask, (Z.mod_small _ _ Ht), mode_field by done.
  rewrite Z.shiftl_shiftl by lia. change (5 + 16)%Z with 21%Z. rewrite lor_shiftl by lia. done.
Qed.

Lemma value_of_be b0 b1 b2 :
  is_byte b0 → is_byte b1 → is_byte b2 →
  Z.lor (Z.lor (Z.shiftl b0 16) (Z.shiftl b1 8)) b2 = of_be [b0; b1; b2].
Proof.
  unfold is_byte. intros H0 H1 H2. rewrite (Z.lor_comm _ b2), (Z.lor_comm (Z.shiftl b0 16)).
  change 16%Z with (8 + 8)%Z at 1. rewrite <- Z.shiftl_shiftl, <- Z.shiftl_lor by lia.
  rewrite (lor_shiftl b1) by lia. rewrite lor_shiftl by lia.
  unfold of_be. cbn [fold_left]. rewrite !be_step_eq. lia.
Qed.

Lemma value_fields v :
  (0 ≤ v)%Z → Z.land (Z.shiftr v 21) 7 = ((v / 2 ^ 21) mod 8)%Z.
Proof.
  intros Hv. change 7%Z with (Z.ones 3). rewrite Z.land_ones, Z.shiftr_div_pow2 by lia. done.
Qed.

Lemma unpack_pack s rest : wf s → unpack (pack s ++ rest) = Some s.
Proof.
  intros Hs. rewrite pack_spec by done. destruct Hs as [Hm Ht].
  set (v := (sd_mtu s + sd_mode s * 2 ^ 21)%Z). assert (Hv : (0 ≤ v < 256 ^ Z.of_nat 3)%Z)
    by (change (256 ^ Z.of_nat 3)%Z with (2 ^ 24)%Z; unfold v; lia).
  pose proof (of_be_be_bytes 3 v Hv) as Hbe. pose proof (bytes_be_bytes 3 v) as Hb.
  destruct (be_bytes 3 v) as [|b0 [|b1 [|b2 [|]]]] eqn:He; try (pose proof (length_be_bytes 3 v); rewrite He in *; done).
  apply Forall_cons in Hb as [H0 Hb]. apply Forall_cons in Hb as [H1 Hb]. apply Forall_cons in Hb as [H2 _].
  cbn [app unpack]. rewrite value_of_be, Hbe, mtu_mask, value_fields by (done || lia).
  unfold v. rewrite Z.div_add, Z.mod_add, (Z.div_small (sd_mtu s)), !Z.mod_small by lia.
  f_equal. destruct s. reflexivity.
Qed.

(** The trailer is stored without loss: any three bytes are those of what they
    unpack to. *)
Lemma pack_unpack l s : bytes l → length l = 3 → unpack l = Some s → pack s = l ∧ wf s.
Proof.
  intros Hb Hl. destruct l as [|b0 [|b1 [|b2 [|]]]]; try done. cbn [unpack].
  pose proof (of_be_bound _ Hb) as Hbd. change (256 ^ Z.of_nat (length [b0; b1; b2]))%Z with (2 ^ 24)%Z in Hbd.
  pose proof (be_bytes_of_be _ Hb) as Hbe.
  apply Forall_cons in Hb as [H0 Hb]. apply Forall_cons in Hb as [H1 Hb]. apply Forall_cons in Hb as [H2 _].
  rewrite value_of_be by done. set (v := of_be _) in *. intros Hs. apply Some_inj in Hs. subst s.
  rewrite mtu_mask, value_fields by lia.
  assert (Hwf : wf {| sd_mode := (v / 2 ^ 21) mod 8; sd_mtu := v mod 2 ^ 21 |})
    by (split; cbn; apply Z.mod_pos_bound; lia).
  split; [|done]. rewrite pack_spec by done. cbn [sd_mode sd_mtu].
  assert (v / 2 ^ 21 < 8)%Z by (apply Z.div_lt_upper_bound; lia).
  rewrite (Z.mod_small (v / _)) by (split; [apply Z.div_pos|]; lia).
  rewrite <- Hbe. f_equal. pose proof (Z.div_mod v (2 ^ 21)). lia.
Qed.

End SignallingData.

(** * Requests, proofs and keys *)

Record LinkRequestView := {
  lr_peer_x25519_pub : list Z;
  lr_peer_ed25519_pub : list Z;
  lr_signalling : SignallingData
}.

Record LinkProofView := {
  lp_signature : list Z;
  lp_responder_x25519_pub : list Z;
  lp_signalling : SignallingData;
  lp_signalling_present : bool
}.

(** The combined session key. *)
Definition LinkKeys : Type := list Z.

Section links.
Context `{SHA : Sha256} `{HMAC : Hmac} `{AES : AesCbc} `{HKDF : HkdfSha256} `{X : X25519} `{ED : Ed25519}.

Definition build_identification (identity : LocalIdentity) (link_id : list Z)
  : st (list Z) LinkError nat := λ out,
  if length out <? 128 then (Err LinkOutputTooSmall, out)
  else
    let signed := splice 16 (li_public_key identity) (splice 0 link_id (zeros 80)) in
    let out := splice 0 (li_public_key identity) out in
    let out := splice 64 (sign identity signed) out in
    (Ok 128, out).

Definition verify_identification (link_id plaintext : list Z) : option (list Z) :=
  if negb (length plaintext =? PUBLIC_KEY_LENGTH + SIGNATURE_LENGTH) then None
  else
    let public_key := take PUBLIC_KEY_LENGTH plaintext in
    let ed_public := drop KEYSIZE public_key in
    if negb (ed_key_ok ed_public) then None
    else
      let signed := splice DESTINATION_LENGTH public_key
                      (splice 0 link_id (zeros (DESTINATION_LENGTH + PUBLIC_KEY_LENGTH))) in
      let signature := drop PUBLIC_KEY_LENGTH plaintext in
      if negb (ed_verify ed_public signed signature) then None else Some public_key.

(** The hashed prefix of the scratch array is what the writes put there. *)
Definition compute_link_id (destination_hash request_data : list Z) : list Z :=
  let key_len := Nat.min (length request_data) ECPUBSIZE in
  let hashable := zeros (1 + DESTINATION_LENGTH + 1 + ECPUBSIZE) in
  let hashable := write_fields 0 [[2%Z]; destination_hash; [0%Z]; take key_len request_data] hashable in
  let body := 2 + DESTINATION_LENGTH in
  truncated_hash (take (body + key_len) hashable).

Definition build_link_request (x25519_priv ed25519_seed : list Z) (signalling : SignallingData)
  : st (list Z) LinkError nat := λ out,
  match SignallingData.fixed_endpoint signalling with
  | Err e => (Err e, out)
  | Panic => (Panic, out)
  | Ok signalling =>
      if length out <? LINK_REQUEST_LEN then (Err LinkOutputTooSmall, out)
      else
        (Ok LINK_REQUEST_LEN,
         write_fields 0 [x_public x25519_priv; ed_public ed25519_seed; SignallingData.pack signalling] out)
  end.

Definition signalling_or_default (data : list Z) (present : bool) (from to : nat) : SignallingData :=
  if present then
    match SignallingData.unpack (slice data from to) with
    | Some s => s
    | None => SignallingData.default_signalling
    end
  else SignallingData.default_signalling.

Definition parse_request (data : list Z) : outcome LinkError LinkRequestView :=
  if negb (length data =? LINK_REQUEST_LEGACY_LEN) && negb (length data =? LINK_REQUEST_LEN)
  then Err LinkInvalidLength
  else
    let signalling :=
      signalling_or_default data (length data =? LINK_REQUEST_LEN) ECPUBSIZE LINK_REQUEST_LEN in
    let* _ := SignallingData.effective_mtu signalling in
    Ok {| lr_peer_x25519_pub := take KEYSIZE data;
          lr_peer_ed25519_pub := slice data KEYSIZE ECPUBSIZE;
          lr_signalling := signalling |}.

Definition build_link_proof (identity : LocalIdentity) (responder_x25519_priv link_id : list Z)
    (signalling : SignallingData) : st (list Z) LinkError nat := λ out,
  match SignallingData.fixed_endpoint signalling with
  | Err e => (Err e, out)
  | Panic => (Panic, out)
  | Ok signalling =>
      if length out <? LINK_PROOF_LEN then (Err LinkOutputTooSmall, out)
      else
        let responder_x25519_pub := x_public responder_x25519_priv in
        let identity_ed25519_pub := slice (li_public_key identity) KEYSIZE PUBLIC_KEY_LENGTH in
        let sig_bytes := SignallingData.pack signalling in
        let signed := write_fields 0 [link_id; responder_x25519_pub; identity_ed25519_pub; sig_bytes]
                        (zeros (DESTINATION_LENGTH + KEYSIZE + KEYSIZE + LINK_MTU_SIZE)) in
        let s := DESTINATION_LENGTH + KEYSIZE + KEYSIZE + LINK_MTU_SIZE in
        let signature := sign identity (take s signed) in
        (Ok LINK_PROOF_LEN, write_fields 0 [signature; responder_x25519_pub; sig_bytes] out)
  end.

Definition parse_proof (data : list Z) : outcome LinkError LinkProofView :=
  if negb (length data =? LINK_PROOF_LEGACY_LEN) && negb (length data =? LINK_PROOF_LEN)
  then Err LinkInvalidLength
  else
    let signalling :=
      signalling_or_default data (length data =? LINK_PROOF_LEN) (SIGNATURE_LENGTH + KEYSIZE)
        LINK_PROOF_LEN in
    let* _ := SignallingData.effective_mtu signalling in
    Ok {| lp_signature := take SIGNATURE_LENGTH data;
          lp_responder_x25519_pub := slice data SIGNATURE_LENGTH (SIGNATURE_LENGTH + KEYSIZE);
          lp_signalling := signalling;
          lp_signalling_present := length data =? LINK_PROOF_LEN |}.

Definition validate_link_proof (v : LinkProofView) (identity_public_key link_id : list Z) : bool :=
  match SignallingData.fixed_endpoint (lp_signalling v) with
  | Ok _ =>
      let ed_pub := slice identity_public_key KEYSIZE PUBLIC_KEY_LENGTH in
      if negb (ed_key_ok ed_pub) then false
      else
        let sig_bytes := SignallingData.pack (lp_signalling v) in
        let signed := write_fields 0
          ([link_id; lp_responder_x25519_pub v; ed_pub]
           ++ if lp_signalling_present v then [sig_bytes] else [])
          (zeros (DESTINATION_LENGTH + KEYSIZE + KEYSIZE + LINK_MTU_SIZE)) in
        let s := DESTINATION_LENGTH + KEYSIZE + KEYSIZE
                 + if lp_signalling_present v then LINK_MTU_SIZE else 0 in
        ed_verify ed_pub (take s signed) (lp_signature v)
  | _ => false
  end.

(** [LinkKeys::derive]; the ignored failure of [expand] leaves the zero key. *)
Definition derive_link_keys (my_x25519_priv peer_x25519_pub link_id : list Z) : LinkKeys :=
  let shared := x_shared my_x25519_priv peer_x25519_pub in
  match hkdf_expand link_id shared LINK_KEY_LENGTH with
  | Some okm => okm
  | None => zeros LINK_KEY_LENGTH
  end.

Definition signing_key (keys : LinkKeys) : list Z := take 32 keys.
Definition encryption_key (keys : LinkKeys) : list Z := drop 32 keys.

Definition link_encrypt (keys : LinkKeys) (plaintext iv : list Z) : st (list Z) CryptoError nat :=
  token_encrypt LINK_PADDED_MAX plaintext keys iv.

Definition link_decrypt (keys : LinkKeys) (ciphertext : list Z) : st (list Z) CryptoError nat :=
  token_decrypt LINK_PADDED_MAX ciphertext keys.

(** ** What the endpoints exchange *)

(** The signalling both endpoints use. *)
Definition endpoint_signalling : SignallingData := {| sd_mode := 1; sd_mtu := 500 |}.

Lemma fixed_endpoint_spec s :
  SignallingData.fixed_endpoint s =
    if negb (sd_mode s =? 1)%Z then Err UnsupportedMode
    else if (sd_mtu s =? 0)%Z || (sd_mtu s =? 500)%Z then Ok endpoint_signalling
    else Err InvalidMtu.
Proof.
  unfold SignallingData.fixed_endpoint, SignallingData.try_new, SignallingData.effective_mtu, MODE_AES256_CBC.
  cbn [sd_mode sd_mtu]. destruct (sd_mode s =? 1)%Z eqn:Hm; cbn [negb]; [|done]. bool_hyps. rewrite Hm.
  cbn [Z.ltb Z.compare Pos.compare Pos.compare_cont]. change (7 <? 1)%Z with false. cbv iota.
  change (Z.of_nat MTU) with 500%Z.
  destruct (sd_mtu s =? 0)%Z eqn:H0; bool_hyps; [done|]. cbn [orb].
  destruct (sd_mtu s =? 500)%Z eqn:H5; bool_hyps.
  - by rewrite H5.
  - destruct (_ && _); [|done]. cbn [obind sd_mtu]. by rewrite (proj2 (Z.eqb_neq _ _)).
Qed.

Lemma endpoint_wf : SignallingData.wf endpoint_signalling.
Proof. split; simpl; lia. Qed.

Lemma endpoint_fixed : SignallingData.fixed_endpoint endpoint_signalling = Ok endpoint_signalling.
Proof. done. Qed.

Lemma length_pack s : length (SignallingData.pack s) = 3.
Proof. unfold SignallingData.pack. rewrite length_drop, length_be_bytes. done. Qed.

(** The bytes of a request and of a proof, and what a proof signs. *)
Definition request_bytes (x_pub ed_pub : list Z) : list Z :=
  x_pub ++ ed_pub ++ SignallingData.pack endpoint_signalling.
Definition proof_signed (link_id x_pub ed_pub trailer : list Z) : list Z :=
  link_id ++ x_pub ++ ed_pub ++ trailer.
Definition identification_signed (link_id public_key : list Z) : list Z := link_id ++ public_key.

Lemma link_id_eq d request :
  length d = DESTINATION_LENGTH →
  compute_link_id d request = truncated_hash (2%Z :: (d ++ [0%Z]) ++ take ECPUBSIZE request).
Proof.
  intros Hd. unfold compute_link_id.
  assert (Hk : take (Nat.min (length request) ECPUBSIZE) request = take ECPUBSIZE request).
  { destruct (decide (length request ≤ ECPUBSIZE)).
    - rewrite Nat.min_l, !take_ge by lia. done.
    - by rewrite Nat.min_r by lia. }
  rewrite Hk.
  assert (Hfs : concat [[2%Z]; d; [0%Z]; take ECPUBSIZE request]
    = 2%Z :: (d ++ [0%Z]) ++ take ECPUBSIZE request).
  { cbn [concat]. rewrite app_nil_r, <- !app_assoc. done. }
  assert (Hl : length (2%Z :: (d ++ [0%Z]) ++ take ECPUBSIZE request)
    = 2 + DESTINATION_LENGTH + Nat.min (length request) ECPUBSIZE).
  { cbn [length]. rewrite !length_app, length_take, Hd. cbn [length]. lia. }
  rewrite write_fields_0; rewrite Hfs.
  - by rewrite <- Hl, take_app_length.
  - rewrite Hl. unfold zeros. rewrite length_replicate. lia.
Qed.

(** ** Requests *)

Lemma fixed_endpoint_Ok s s' : SignallingData.fixed_endpoint s = Ok s' → s' = endpoint_signalling.
Proof. rewrite fixed_endpoint_spec. destruct (negb _); [done|]. destruct (_ || _); congruence. Qed.

Lemma fixed_endpoint_cases s :
  SignallingData.fixed_endpoint s = Ok endpoint_signalling ∨
  (∃ e, SignallingData.fixed_endpoint s = Err e ∧
     (e = UnsupportedMode ∧ sd_mode s ≠ 1%Z ∨ e = InvalidMtu ∧ sd_mtu s ≠ 0%Z ∧ sd_mtu s ≠ 500%Z)).
Proof.
  rewrite fixed_endpoint_spec. destruct (sd_mode s =? 1)%Z eqn:Hm; cbn [negb]; bool_hyps; [|right; eauto].
  destruct (_ || _) eqn:Ht; [by left|]. right. eexists. split; [done|]. bool_hyps. auto.
Qed.

Lemma length_request_bytes xp ep :
  length xp = 32 → length ep = 32 → length (request_bytes xp ep) = LINK_REQUEST_LEN.
Proof. intros Hx He. unfold request_bytes. by rewrite !length_app, length_pack, Hx, He. Qed.

Lemma concat3 (a b c : list Z) : concat [a; b; c] = a ++ b ++ c.
Proof. cbn [concat]. by rewrite app_nil_r. Qed.

Lemma build_link_request_spec xi ei sg out :
  build_link_request xi ei sg out =
    match SignallingData.fixed_endpoint sg with
    | Ok _ =>
        let r := request_bytes (x_public xi) (ed_public ei) in
        if length out <? LINK_REQUEST_LEN then (Err LinkOutputTooSmall, out)
        else (Ok LINK_REQUEST_LEN, r ++ drop LINK_REQUEST_LEN out)
    | Err e => (Err e, out)
    | Panic => (Panic, out)
    end.
Proof.
  unfold build_link_request. destruct (SignallingData.fixed_endpoint sg) as [s'|e|] eqn:Hf; [|done..].
  apply fixed_endpoint_Ok in Hf as ->. destruct (length out <? _) eqn:Hl; [done|]. bool_hyps.
  pose proof (length_request_bytes _ _ (x_public_length xi) (ed_public_length ei)) as Hr.
  rewrite write_fields_0; rewrite concat3; fold (request_bytes (x_public xi) (ed_public ei)).
  - by rewrite Hr.
  - lia.
Qed.

Lemma parse_request_of xp ep :
  length xp = 32 → length ep = 32 →
  parse_request (request_bytes xp ep) =
    Ok {| lr_peer_x25519_pub := xp; lr_peer_ed25519_pub := ep; lr_signalling := endpoint_signalling |}.
Proof.
  intros Hx He. unfold parse_request. rewrite length_request_bytes by done.
  rewrite Nat.eqb_refl. cbn [negb andb]. rewrite andb_false_r.
  assert (Hs : slice (request_bytes xp ep) ECPUBSIZE LINK_REQUEST_LEN = SignallingData.pack endpoint_signalling).
  { rewrite <- (length_request_bytes xp ep), slice_to_end by done. unfold request_bytes.
    rewrite app_assoc. apply drop_app_exact. rewrite length_app, Hx, He. done. }
  unfold signalling_or_default. rewrite Hs, <- (app_nil_r (SignallingData.pack _)).
  rewrite SignallingData.unpack_pack by apply endpoint_wf. cbn [obind].
  change (SignallingData.effective_mtu endpoint_signalling) with (@Ok LinkError Z 500%Z). cbn [obind].
  unfold request_bytes. f_equal. f_equal.
  - by apply take_app_length'.
  - apply slice_app_exact; rewrite Hx, ?He; done.
Qed.

(** ** Proofs *)

Definition proof_bytes (sg xp : list Z) : list Z := sg ++ xp ++ SignallingData.pack endpoint_signalling.

Lemma length_proof_bytes sg xp :
  length sg = 64 → length xp = 32 → length (proof_bytes sg xp) = LINK_PROOF_LEN.
Proof. intros Hs Hx. unfold proof_bytes. by rewrite !length_app, length_pack, Hs, Hx. Qed.

Lemma ed_half k :
  slice (li_public_key (from_private_key k)) KEYSIZE PUBLIC_KEY_LENGTH = ed_public (drop 32 k).
Proof.
  cbn [from_private_key li_public_key]. rewrite <- (length_derived_key k), slice_to_end.
  apply drop_app_exact, x_public_length.
Qed.

(** The signature a responder puts in its proof. *)
Definition proof_signature (k eph lid : list Z) : list Z :=
  ed_sign (drop 32 k) (proof_signed lid (x_public eph) (ed_public (drop 32 k))
    (SignallingData.pack endpoint_signalling)).

Lemma build_link_proof_spec k eph lid sg out :
  length lid = DESTINATION_LENGTH →
  build_link_proof (from_private_key k) eph lid sg out =
    match SignallingData.fixed_endpoint sg with
    | Ok _ =>
        if length out <? LINK_PROOF_LEN then (Err LinkOutputTooSmall, out)
        else (Ok LINK_PROOF_LEN,
              proof_bytes (proof_signature k eph lid) (x_public eph) ++ drop LINK_PROOF_LEN out)
    | Err e => (Err e, out)
    | Panic => (Panic, out)
    end.
Proof.
  intros Hl. unfold build_link_proof.
  destruct (SignallingData.fixed_endpoint sg) as [s'|e|] eqn:Hf; [|done..].
  apply fixed_endpoint_Ok in Hf as ->. destruct (length out <? _) eqn:Ho; [done|]. bool_hyps.
  rewrite ed_half. set (t := SignallingData.pack endpoint_signalling).
  assert (Hc : concat [lid; x_public eph; ed_public (drop 32 k); t]
    = proof_signed lid (x_public eph) (ed_public (drop 32 k)) t)
    by (cbn [concat]; by rewrite app_nil_r).
  assert (Hlen : length (proof_signed lid (x_public eph) (ed_public (drop 32 k)) t) = 83).
  { unfold proof_signed, t. rewrite !length_app, length_pack, x_public_length, ed_public_length, Hl. done. }
  rewrite (write_fields_0 _ (zeros _)) by (rewrite Hc, Hlen; done). rewrite Hc.
  change (DESTINATION_LENGTH + KEYSIZE + KEYSIZE + LINK_MTU_SIZE) with 83.
  rewrite take_app_length' by done. unfold sign. cbn [from_private_key li_private_key].
  unfold t. fold (proof_signature k eph lid).
  pose proof (length_proof_bytes (proof_signature k eph lid) (x_public eph) (ed_sign_length _ _)
    (x_public_length _)) as Hpl.
  rewrite write_fields_0; rewrite concat3; fold (proof_bytes (proof_signature k eph lid) (x_public eph)).
  - by rewrite Hpl.
  - lia.
Qed.

Lemma parse_proof_of sg xp :
  length sg = 64 → length xp = 32 →
  parse_proof (proof_bytes sg xp) =
    Ok {| lp_signature := sg; lp_responder_x25519_pub := xp; lp_signalling := endpoint_signalling;
          lp_signalling_present := true |}.
Proof.
  intros Hs Hx. unfold parse_proof. rewrite length_proof_bytes by done.
  rewrite Nat.eqb_refl. cbn [negb andb]. rewrite andb_false_r.
  assert (Ht : slice (proof_bytes sg xp) (SIGNATURE_LENGTH + KEYSIZE) LINK_PROOF_LEN
    = SignallingData.pack endpoint_signalling).
  { rewrite <- (length_proof_bytes sg xp), slice_to_end by done. unfold proof_bytes.
    rewrite app_assoc. apply drop_app_exact. rewrite length_app, Hs, Hx. done. }
  unfold signalling_or_default. rewrite Ht, <- (app_nil_r (SignallingData.pack _)).
  rewrite SignallingData.unpack_pack by apply endpoint_wf.
  change (SignallingData.effective_mtu endpoint_signalling) with (@Ok LinkError Z 500%Z). cbn [obind].
  unfold proof_bytes. f_equal. f_equal.
  - by apply take_app_length'.
  - apply slice_app_exact; rewrite Hs, ?Hx; done.
Qed.

(** The bytes of a parsed proof. *)
Lemma parse_proof_shape data :
  bytes data →
  match parse_proof data with
  | Ok v => ∃ trailer, data = lp_signature v ++ lp_responder_x25519_pub v ++ trailer ∧
      length (lp_signature v) = 64 ∧ length (lp_responder_x25519_pub v) = 32 ∧
      trailer = (if lp_signalling_present v then SignallingData.pack (lp_signalling v) else []) ∧
      (lp_signalling_present v = false → lp_signalling v = endpoint_signalling)
  | Err LinkInvalidLength => length data ≠ 96 ∧ length data ≠ 99
  | Err InvalidMtu => length data = 99
  | _ => False
  end.
Proof.
  intros Hb. unfold parse_proof. change LINK_PROOF_LEGACY_LEN with 96. change LINK_PROOF_LEN with 99.
  change (SIGNATURE_LENGTH + KEYSIZE) with 96. change SIGNATURE_LENGTH with 64.
  destruct (_ && _) eqn:Hl; bool_hyps; [by split|].
  assert (Hsplit : data = take 64 data ++ slice data 64 96 ++ drop 96 data).
  { rewrite slice_drop_app by lia. by rewrite take_drop. }
  unfold signalling_or_default. destruct (length data =? 99) eqn:H99; bool_hyps.
  - assert (Htl : slice data 96 99 = drop 96 data) by (rewrite <- H99; apply slice_to_end).
    rewrite Htl. assert (Hdl : length (drop 96 data) = 3) by (rewrite length_drop; lia).
    destruct (SignallingData.unpack (drop 96 data)) as [sd|] eqn:Hu.
    2:{ destruct (drop 96 data) as [|? [|? [|? ?]]]; done. }
    destruct (SignallingData.pack_unpack _ _ (bytes_drop 96 _ Hb) Hdl Hu) as [Hp _].
    unfold SignallingData.effective_mtu. destruct (_ =? 0)%Z; [|destruct (_ && _)]; cbn [obind]; [| |done].
    all: exists (drop 96 data);
      cbn [lp_signature lp_responder_x25519_pub lp_signalling lp_signalling_present]; rewrite Hp; split; [done|]; rewrite length_take, length_slice by lia;
      split; [lia|]; split; [lia|done].
  - destruct Hl as [Hl|Hl]; bool_hyps; [|done].
    change (SignallingData.effective_mtu SignallingData.default_signalling) with (@Ok LinkError Z 500%Z).
    cbn [obind]. exists [].
    cbn [lp_signature lp_responder_x25519_pub lp_signalling lp_signalling_present]. rewrite app_nil_r. rewrite (drop_ge data 96), app_nil_r in Hsplit by lia.
    split; [done|]. rewrite length_take, length_slice by lia. split; [lia|]. split; [lia|]. by split.
Qed.

Lemma validate_link_proof_spec v pub lid :
  length lid = DESTINATION_LENGTH → length pub = PUBLIC_KEY_LENGTH →
  length (lp_responder_x25519_pub v) = 32 →
  validate_link_proof v pub lid =
    match SignallingData.fixed_endpoint (lp_signalling v) with
    | Ok _ => ed_key_ok (drop 32 pub) &&
        ed_verify (drop 32 pub) (proof_signed lid (lp_responder_x25519_pub v) (drop 32 pub)
          (if lp_signalling_present v then SignallingData.pack (lp_signalling v) else []))
          (lp_signature v)
    | _ => false
    end.
Proof.
  intros Hl Hp Hx. unfold validate_link_proof. destruct (SignallingData.fixed_endpoint _); [|done..].
  assert (Hs : slice pub KEYSIZE PUBLIC_KEY_LENGTH = drop 32 pub) by (rewrite <- Hp; apply slice_to_end).
  rewrite Hs. destruct (ed_key_ok (drop 32 pub)); cbn [negb andb]; [|done].
  set (tr := if lp_signalling_present v then SignallingData.pack (lp_signalling v) else []).
  assert (Hc : concat ([lid; lp_responder_x25519_pub v; drop 32 pub]
    ++ (if lp_signalling_present v then [SignallingData.pack (lp_signalling v)] else []))
    = proof_signed lid (lp_responder_x25519_pub v) (drop 32 pub) tr).
  { unfold tr, proof_signed. destruct (lp_signalling_present v); cbn [app concat]; by rewrite ?app_nil_r. }
  assert (Hlen : length (proof_signed lid (lp_responder_x25519_pub v) (drop 32 pub) tr)
    = DESTINATION_LENGTH + KEYSIZE + KEYSIZE + (if lp_signalling_present v then LINK_MTU_SIZE else 0)).
  { unfold proof_signed, tr. rewrite !length_app, length_drop, Hl, Hp, Hx.
    destruct (lp_signalling_present v); rewrite ?length_pack; done. }
  rewrite write_fields_0; rewrite Hc.
  - by rewrite <- Hlen, take_app_length.
  - rewrite Hlen. unfold zeros. rewrite length_replicate. destruct (lp_signalling_present v); lia.
Qed.

(** ** Identification *)

Lemma identification_scratch lid pk n :
  length lid = 16 → length pk = 64 → n = 80 →
  splice 16 pk (splice 0 lid (zeros n)) = identification_signed lid pk.
Proof.
  intros Hl Hp ->. rewrite <- Hl at 1. change (length lid) with (0 + length lid).
  rewrite splice_splice, splice_0.
  - rewrite drop_ge, app_nil_r; [done|]. rewrite length_app, Hl, Hp. unfold zeros. rewrite length_replicate. lia.
  - unfold zeros. rewrite length_replicate, Hl, Hp. lia.
Qed.

Lemma build_identification_spec k lid out :
  length lid = DESTINATION_LENGTH →
  let pk := li_public_key (from_private_key k) in
  build_identification (from_private_key k) lid out =
    if length out <? 128 then (Err LinkOutputTooSmall, out)
    else (Ok 128, (pk ++ ed_sign (drop 32 k) (identification_signed lid pk)) ++ drop 128 out).
Proof.
  intros Hl pk. unfold build_identification. fold pk.
  assert (Hp : length pk = 64) by apply length_derived_key.
  destruct (length out <? 128) eqn:Ho; [done|]. bool_hyps.
  rewrite identification_scratch by done. unfold sign. cbn [from_private_key li_private_key].
  f_equal. rewrite <- Hp at 1. change (length pk) with (0 + length pk).
  rewrite splice_splice, splice_0 by (rewrite Hp, ed_sign_length; lia).
  by rewrite length_app, Hp, ed_sign_length.
Qed.

Lemma verify_identification_spec lid pt pk :
  length lid = DESTINATION_LENGTH →
  verify_identification lid pt = Some pk ↔
  ∃ sg, pt = pk ++ sg ∧ length pk = 64 ∧ length sg = 64 ∧ ed_key_ok (drop 32 pk) = true ∧
    ed_verify (drop 32 pk) (identification_signed lid pk) sg = true.
Proof.
  intros Hl. unfold verify_identification. change (PUBLIC_KEY_LENGTH + SIGNATURE_LENGTH) with 128.
  change PUBLIC_KEY_LENGTH with 64. change KEYSIZE with 32. change (DESTINATION_LENGTH) with 16.
  destruct (length pt =? 128) eqn:Hlen; cbn [negb]; bool_hyps.
  - assert (Htk : length (take 64 pt) = 64) by (rewrite length_take; lia).
    rewrite identification_scratch by done. split.
    + destruct (ed_key_ok _) eqn:Hk; cbn [negb]; [|done].
      destruct (ed_verify _ _ _) eqn:Hv; cbn [negb]; [|done]. intros [= <-].
      exists (drop 64 pt). rewrite take_drop, length_drop. split; [done|]. split; [done|].
      split; [lia|]. by split.
    + intros (sg & -> & Hpk & Hsg & Hk & Hv). rewrite take_app_length' in * by done.
      rewrite drop_app_exact by done. by rewrite Hk, Hv.
  - split; [done|]. intros (sg & -> & Hpk & Hsg & _). rewrite length_app in Hlen. lia.
Qed.

Lemma link_request_nibble h :
  packet_type (flags h) = LinkRequest → destination_type (flags h) = Single →
  Z.land (Wire.pack (flags h)) 15 = 2%Z.
Proof.
  destruct h as [[ht cf tt dt pt] hp tid d c]. cbn. intros -> ->.
  destruct ht, cf, tt; vm_compute; reflexivity.
Qed.

(** Relays and endpoints agree on the link id. *)
Lemma relay_link_id h request :
  wf_header h → packet_type (flags h) = LinkRequest → destination_type (flags h) = Single →
  context h = CtxNone →
  link_id_from_raw (header_bytes h ++ request) (header_type (flags h))
    = compute_link_id (Wire.destination_hash h) request.
Proof.
  intros Hh Ht Hd Hc. rewrite link_id_format, link_request_nibble, Hc by done.
  rewrite link_id_eq; [done|]. apply Hh.
Qed.

(** ** Properties *)

(** C23: the handshake. Building a request fails only for a mode or MTU the
    endpoint does not speak or an output too small, leaving the output alone.
    Otherwise the request parses back to the initiator's keys; every relay, on
    any header that carries it, computes the link id the endpoints compute; the
    responder's proof for it can only fail for want of room, parses and
    validates at the initiator under the destination's key; and the two derive
    the same session key. *)
Theorem link_handshake_agrees xi ei k d eph sg rout pout :
  length d = DESTINATION_LENGTH →
  match build_link_request xi ei sg rout with
  | (Err e, r') => r' = rout ∧
      (e = UnsupportedMode ∧ sd_mode sg ≠ 1%Z ∨ e = InvalidMtu ∧ sd_mtu sg ≠ 0%Z ∧ sd_mtu sg ≠ 500%Z
       ∨ e = LinkOutputTooSmall ∧ length rout < 67)
  | (Panic, _) => False
  | (Ok n, r') => n = 67 ∧ n ≤ length rout ∧ drop n r' = drop n rout ∧
      let lid := compute_link_id d (take n r') in
      (∀ h, wf_header h → Wire.destination_hash h = d → packet_type (flags h) = LinkRequest →
         destination_type (flags h) = Single → context h = CtxNone →
         link_id_from_raw (header_bytes h ++ take n r') (header_type (flags h)) = lid) ∧
      ∃ rv, parse_request (take n r') = Ok rv ∧ lr_peer_ed25519_pub rv = ed_public ei ∧
      match build_link_proof (from_private_key k) eph lid (lr_signalling rv) pout with
      | (Err e, p') => e = LinkOutputTooSmall ∧ p' = pout ∧ length pout < 99
      | (Panic, _) => False
      | (Ok m, p') => m = 99 ∧ m ≤ length pout ∧ drop m p' = drop m pout ∧
          ∃ pv, parse_proof (take m p') = Ok pv ∧
            validate_link_proof pv (li_public_key (from_private_key k)) lid = true ∧
            derive_link_keys xi (lp_responder_x25519_pub pv) lid
              = derive_link_keys eph (lr_peer_x25519_pub rv) lid
      end
  end.
Proof.
  intros Hd. rewrite build_link_request_spec.
  destruct (fixed_endpoint_cases sg) as [->|(e & -> & He)]; [|naive_solver].
  destruct (length rout <? LINK_REQUEST_LEN) eqn:Hr; bool_hyps;
    [split; [done|]; right; right; by split|].
  change LINK_REQUEST_LEN with 67 in *. cbv beta iota zeta.
  set (req := request_bytes (x_public xi) (ed_public ei)).
  assert (Hrl : length req = 67)
    by (apply length_request_bytes; [apply x_public_length|apply ed_public_length]).
  rewrite drop_app_exact, take_app_length' by done. do 3 (split; [done|]).
  split; [intros h Hh <- Ht Hs Hc; by apply relay_link_id|].
  eexists. split; [apply parse_request_of; [apply x_public_length|apply ed_public_length]|].
  cbn [lr_peer_ed25519_pub lr_signalling lr_peer_x25519_pub]. split; [done|].
  set (lid := compute_link_id d req). assert (Hlid : length lid = DESTINATION_LENGTH)
    by (unfold lid; rewrite link_id_eq by done; apply length_truncated_hash).
  rewrite build_link_proof_spec, endpoint_fixed by done.
  destruct (length pout <? LINK_PROOF_LEN) eqn:Hp; bool_hyps; [done|]. change LINK_PROOF_LEN with 99 in *.
  assert (Hpl : length (proof_bytes (proof_signature k eph lid) (x_public eph)) = 99)
    by (apply length_proof_bytes; [apply ed_sign_length|apply x_public_length]).
  rewrite drop_app_exact, take_app_length' by done. do 3 (split; [done|]). eexists.
  split; [apply parse_proof_of; [apply ed_sign_length|apply x_public_length]|].
  rewrite validate_link_proof_spec by (done || apply length_derived_key || apply x_public_length).
  cbn [lp_signalling lp_responder_x25519_pub lp_signalling_present lp_signature].
  rewrite endpoint_fixed. assert (Hk : drop 32 (li_public_key (from_private_key k)) = ed_public (drop 32 k))
    by (apply drop_app_exact, x_public_length).
  rewrite Hk, ed_public_ok. cbn [andb]. split; [apply ed_verify_sign|].
  unfold derive_link_keys. by rewrite x_shared_comm.
Qed.

(** C24: what an accepted link proof proves. Parsing arbitrary bytes never
    panics and fails only for a wrong length or, in the long form, an MTU out of
    range. A parsed proof that validates asks for the mode and the effective MTU
    this endpoint speaks, and its 64-byte signature verifies, under the
    destination's key, over exactly the link id, the responder's key, the
    destination's key and the trailer bytes as they were received. *)
Theorem link_proof_sound data pub lid :
  bytes data → length lid = DESTINATION_LENGTH → length pub = PUBLIC_KEY_LENGTH →
  match parse_proof data with
  | Err LinkInvalidLength => length data ≠ 96 ∧ length data ≠ 99
  | Err InvalidMtu => length data = 99
  | Ok v => validate_link_proof v pub lid = true →
      ∃ sg xp trailer, data = sg ++ xp ++ trailer ∧ length sg = 64 ∧ length xp = 32 ∧
        (trailer = [] ∨ length trailer = 3) ∧
        xp = lp_responder_x25519_pub v ∧
        sd_mode (lp_signalling v) = 1%Z ∧
        SignallingData.effective_mtu (lp_signalling v) = Ok 500%Z ∧
        ed_verify (drop 32 pub) (lid ++ xp ++ drop 32 pub ++ trailer) sg = true
  | _ => False
  end.
Proof.
  intros Hb Hl Hp. pose proof (parse_proof_shape data Hb) as Hs.
  destruct (parse_proof data) as [v|e|]; [|done|done].
  destruct Hs as (trailer & Hd & Hsg & Hx & Ht & _). intros Hv.
  rewrite validate_link_proof_spec in Hv by done.
  exists (lp_signature v), (lp_responder_x25519_pub v), trailer.
  pose proof (fixed_endpoint_spec (lp_signalling v)) as Hf.
  destruct (SignallingData.fixed_endpoint (lp_signalling v)) as [s'|e|]; [|done..].
  destruct (sd_mode (lp_signalling v) =? 1)%Z eqn:Hm; cbn [negb] in Hf; [|done]. bool_hyps.
  split; [done|]. split; [done|]. split; [done|]. split.
  { rewrite Ht. destruct (lp_signalling_present v); [right; apply length_pack|by left]. }
  split; [done|]. split; [done|]. split.
  - unfold SignallingData.effective_mtu. destruct (sd_mtu (lp_signalling v) =? 0)%Z eqn:Hz; [done|].
    cbn [orb] in Hf. destruct (sd_mtu (lp_signalling v) =? 500)%Z eqn:H5; [|done]. bool_hyps.
    by rewrite H5.
  - by rewrite Ht.
Qed.

(** Identification over the link. The identification payload an initiator
    builds, encrypted with the session key, decrypts at the responder to a
    payload that verifies to the initiator's public key; building fails only for
    want of room. Verification accepts exactly a public key followed by a
    signature, by that key, of the link id and the key. *)
Lemma link_identification k lid keys iv out enc dec pt pk :
  length lid = DESTINATION_LENGTH → length iv = 16 → 128 ≤ length out →
  192 ≤ length enc → 128 ≤ length dec →
  (∃ out', build_identification (from_private_key k) lid out = (Ok 128, out') ∧
   ∃ n enc', link_encrypt keys (take 128 out') iv enc = (Ok n, enc') ∧
   ∃ dec', link_decrypt keys (take n enc') dec = (Ok 128, dec') ∧
     verify_identification lid (take 128 dec') = Some (li_public_key (from_private_key k))) ∧
  (verify_identification lid pt = Some pk ↔
   ∃ sg, pt = pk ++ sg ∧ length pk = 64 ∧ length sg = 64 ∧ ed_key_ok (drop 32 pk) = true ∧
     ed_verify (drop 32 pk) (lid ++ pk) sg = true).
Proof.
  intros Hl Hiv Ho He Hdec. split; [|by apply verify_identification_spec].
  rewrite build_identification_spec by done. rewrite (proj2 (Nat.ltb_ge _ _)) by done.
  eexists. split; [done|]. set (pk0 := li_public_key (from_private_key k)).
  set (pay := pk0 ++ ed_sign (drop 32 k) (identification_signed lid pk0)).
  assert (Hpk : length pk0 = 64) by apply length_derived_key.
  assert (Hpay : length pay = 128) by (unfold pay; rewrite length_app, Hpk, ed_sign_length; done).
  rewrite take_app_length' by done. unfold link_encrypt, link_decrypt.
  rewrite token_encrypt_spec, Hpay by done. change (pad_len 128) with 16.
  change (LINK_PADDED_MAX <? 128 + 16) with false. rewrite (proj2 (Nat.ltb_ge _ _)) by lia.
  eexists _, _. split; [done|]. rewrite take_app_length.
  rewrite token_decrypt_spec, open_token_token by done.
  rewrite length_token, Hpay by done. change (pad_len 128) with 16.
  change (LINK_PADDED_MAX <? 128 + 16 + 48 - 48) with false.
  rewrite (proj2 (Nat.ltb_ge _ _)) by done. eexists. split; [done|]. rewrite take_app_length' by done.
  apply verify_identification_spec; [done|].
  exists (ed_sign (drop 32 k) (identification_signed lid pk0)).
  assert (Hk : drop 32 pk0 = ed_public (drop 32 k)) by (apply drop_app_exact, x_public_length).
  rewrite Hk. split; [done|]. split; [done|]. split; [apply ed_sign_length|].
  split; [apply ed_public_ok|apply ed_verify_sign].
Qed.

End links.

(** * Witnesses *)

Lemma link_handshake_agrees_witness :
  let _ := Toy.sha256 in let _ := Toy.ed25519 in let _ := Toy.x25519 in let _ := Toy.hkdf in
  let req := take 67 (snd (build_link_request (seqZ 1 32) (seqZ 2 32) endpoint_signalling (zeros 67))) in
  let lid := compute_link_id (zeros 16) req in
  ∃ rv p', parse_request req = Ok rv ∧
    build_link_proof (from_private_key (seqZ 0 64)) (seqZ 3 32) lid (lr_signalling rv) (zeros 99) = (Ok 99, p') ∧
    ∃ pv, parse_proof (take 99 p') = Ok pv ∧
      validate_link_proof pv (li_public_key (from_private_key (seqZ 0 64))) lid = true.
Proof.
  intros s e x h req lid.
  pose proof (link_handshake_agrees (SHA := s) (HKDF := h) (X := x) (ED := e) (seqZ 1 32) (seqZ 2 32)
    (seqZ 0 64) (zeros 16) (seqZ 3 32) endpoint_signalling (zeros 67) (zeros 99) eq_refl) as H.
  subst req lid.
  assert (Hn : fst (build_link_request (seqZ 1 32) (seqZ 2 32) endpoint_signalling (zeros 67)) = Ok 67)
    by reflexivity.
  destruct (build_link_request (seqZ 1 32) (seqZ 2 32) endpoint_signalling (zeros 67)) as [r r'].
  cbn [fst] in Hn. subst r. cbn [snd]. cbv zeta in H.
  destruct H as (_ & _ & _ & _ & rv & Hp & _ & H). exists rv.
  destruct (build_link_proof _ _ _ _ _) as [[m|err|] p'];
    [|exfalso; destruct H as (_ & _ & H); vm_compute in H; lia|destruct H].
  destruct H as (-> & _ & _ & pv & Hpp & Hv & _).
  exists p'. split; [exact Hp|]. split; [done|]. exists pv. split; [exact Hpp|exact Hv].
Defined.

Lemma link_proof_sound_witness :
  let _ := Toy.sha256 in let _ := Toy.ed25519 in let _ := Toy.x25519 in
  let data := take 99 (snd (build_link_proof (from_private_key (seqZ 0 64)) (seqZ 3 32) (zeros 16)
                              endpoint_signalling (zeros 99))) in
  let pub := li_public_key (from_private_key (seqZ 0 64)) in
  ∃ v sg xp trailer, parse_proof data = Ok v ∧ data = sg ++ xp ++ trailer ∧
    ed_verify (drop 32 pub) (zeros 16 ++ xp ++ drop 32 pub ++ trailer) sg = true.
Proof.
  intros s e x data pub.
  assert (Hb : bytes data).
  { apply (Forall_impl (λ b, (0 <=? b)%Z && (b <? 256)%Z = true)).
    - apply Forall_forall. intros b Hb.
      assert (Hall : forallb (λ b, (0 <=? b)%Z && (b <? 256)%Z) data = true) by (vm_compute; reflexivity).
      rewrite forallb_forall in Hall. by apply Hall, list_elem_of_In.
    - intros b Hb. bool_hyps. unfold is_byte. lia. }
  pose proof (link_proof_sound (ED := e) data pub (zeros 16) Hb eq_refl ltac:(vm_compute; reflexivity)) as H.
  assert (Hok : match parse_proof data with
    | Ok v => validate_link_proof v pub (zeros 16) = true | _ => False end) by (vm_compute; reflexivity).
  destruct (parse_proof data) as [v|er|]; [|destruct Hok..].
  destruct (H Hok) as (sg & xp & trailer & Hd & _ & _ & _ & _ & _ & _ & Hv).
  exists v, sg, xp, trailer. split; [done|]. split; [exact Hd|exact Hv].
Defined.

Lemma link_identification_witness :
  let _ := Toy.sha256 in let _ := Toy.ed25519 in let _ := Toy.x25519 in
  let _ := Toy.hmac in let _ := Toy.aes in
  ∃ out', build_identification (from_private_key (seqZ 0 64)) (zeros 16) (zeros 128) = (Ok 128, out').
Proof.
  intros s e x h a.
  destruct (link_identification (SHA := s) (HMAC := h) (AES := a) (X := x) (ED := e) (seqZ 0 64) (zeros 16)
    (zeros 64) (zeros 16) (zeros 128) (zeros 192) (zeros 128) [] [] eq_refl eq_refl
    ltac:(vm_compute; lia) ltac:(vm_compute; lia) ltac:(vm_compute; lia)) as [(out' & H & _) _].
  exists out'. exact H.
Defined.
