(* ===== verification/Msgpack.v ===== *)
(** Resource advertisements (src/src/resource.rs): the small msgpack writer and
    reader, the flags, and packing and parsing an advertisement.

    A writer is the output slice with a position, a reader the data with a
    position; both are states of the error monad of the prelude. What a writer
    emits and what a reader accepts are related to plain byte strings by
    [writes] and [reads], which compose along the monad. *)

From S2P Require Import Prelude Constants Crypto.

Definition MAPHASH_LEN : nat := 4.
Definition RANDOM_HASH_SIZE : nat := 4.
Definition ADV_OVERHEAD : nat := 134.
Definition REQUEST_ID_MAX : nat := 32.
Definition MAX_PARTS : nat := 8.
Definition ADV_PACKED_MAX : nat := 192.

(** Map hashes that fit beside the other fields in one advertisement. *)
Definition hashmap_max_len (mdu : nat) : nat :=
  if ADV_OVERHEAD <? mdu then (mdu - ADV_OVERHEAD) / MAPHASH_LEN else 0.

Module ResourceError.
Inductive t :=
| TooLarge | InvalidAdvertisement | CompressedUnsupported | SplitUnsupported | MetadataUnsupported
| RequestResponseUnsupported | EncryptionRequired | MapHashCollision | InvalidRequest | Incomplete
| HashMismatch | Corrupt | InvalidState | OutputTooSmall | Crypto (e : CryptoError).
End ResourceError.

(** ** Flags *)

Record ResourceFlags := {
  rf_encrypted : bool;
  rf_compressed : bool;
  rf_split : bool;
  rf_is_request : bool;
  rf_is_response : bool;
  rf_has_metadata : bool
}.

Module ResourceFlags.

Definition default : ResourceFlags :=
  {| rf_encrypted := false; rf_compressed := false; rf_split := false;
     rf_is_request := false; rf_is_response := false; rf_has_metadata := false |}.

Definition to_byte (f : ResourceFlags) : Z :=
  let b (x : bool) (n : Z) := Z.shiftl (Z.b2z x) n in
  (Z.lor (Z.lor (Z.lor (Z.lor (Z.lor (b (rf_encrypted f) 0) (b (rf_compressed f) 1))
    (b (rf_split f) 2)) (b (rf_is_request f) 3)) (b (rf_is_response f) 4)) (b (rf_has_metadata f) 5))%Z.

Definition from_byte (b : Z) : ResourceFlags :=
  let has mask := negb (Z.land b mask =? 0)%Z in
  {| rf_encrypted := has 1%Z; rf_compressed := has 2%Z; rf_split := has 4%Z;
     rf_is_request := has 8%Z; rf_is_response := has 16%Z; rf_has_metadata := has 32%Z |}.

Lemma from_to_byte f : from_byte (to_byte f) = f.
Proof. by destruct f as [[] [] [] [] [] []]. Qed.

Lemma to_byte_range f : (0 ≤ to_byte f < 64)%Z.
Proof. destruct f as [[] [] [] [] [] []]; vm_compute; split; congruence. Qed.

End ResourceFlags.

(** ** The writer *)

Record MpWriter := { mw_out : list Z; mw_pos : nat }.

Module MpWriter.

Definition put (bs : list Z) : st MpWriter ResourceError.t unit := λ w,
  match usize_add (mw_pos w) (length bs) with
  | None => (Err ResourceError.OutputTooSmall, w)
  | Some end_ =>
      if length (mw_out w) <? end_ then (Err ResourceError.OutputTooSmall, w)
      else (Ok tt, {| mw_out := splice (mw_pos w) bs (mw_out w); mw_pos := end_ |})
  end.

Definition key (k : Z) : st MpWriter ResourceError.t unit := put [161%Z; k].

(** [v as u8], [(v as u16).to_be_bytes()] and [v.to_be_bytes()]. *)
Definition uint (v : Z) : st MpWriter ResourceError.t unit :=
  if (v <? 128)%Z then put (be_bytes 1 v)
  else if (v <=? 255)%Z then put (204%Z :: be_bytes 1 v)
  else if (v <=? 65535)%Z then put (205%Z :: be_bytes 2 v)
  else put (206%Z :: be_bytes 4 v).

Definition bin (data : list Z) : st MpWriter ResourceError.t unit :=
  if (Z.of_nat (length data) <=? 255)%Z then
    put (196%Z :: be_bytes 1 (Z.of_nat (length data))) ;;; put data
  else if (Z.of_nat (length data) <=? 65535)%Z then
    put (197%Z :: be_bytes 2 (Z.of_nat (length data))) ;;; put data
  else st_err ResourceError.TooLarge.

Definition nil : st MpWriter ResourceError.t unit := put [192%Z].

End MpWriter.

(** ** The reader *)

Module MpReader.
Section reader.
Context (data : list Z).

(** The state is the position. *)
Definition byte : st nat ResourceError.t Z := λ pos,
  match data !! pos with
  | Some b => (Ok b, pos + 1)
  | None => (Err ResourceError.InvalidAdvertisement, pos)
  end.

Definition peek (pos : nat) : option Z := data !! pos.

Definition take (n : nat) : st nat ResourceError.t (list Z) := λ pos,
  match usize_add pos n with
  | None => (Err ResourceError.InvalidAdvertisement, pos)
  | Some end_ =>
      if length data <? end_ then (Err ResourceError.InvalidAdvertisement, pos)
      else (Ok (slice data pos end_), end_)
  end.

Definition uint : st nat ResourceError.t Z :=
  let! b := byte in
  if (b <=? 127)%Z then st_ret b
  else if (b =? 204)%Z then byte
  else if (b =? 205)%Z then let! s := take 2 in st_ret (of_be s)
  else if (b =? 206)%Z then let! s := take 4 in st_ret (of_be s)
  else if (b =? 207)%Z then
    let! s := take 8 in
    if (of_be s <=? u32_max)%Z then st_ret (of_be s) else st_err ResourceError.TooLarge
  else st_err ResourceError.InvalidAdvertisement.

Definition bin : st nat ResourceError.t (list Z) :=
  let! b := byte in
  if (b =? 196)%Z then let! n := byte in take (Z.to_nat n)
  else if (b =? 197)%Z then let! s := take 2 in take (Z.to_nat (of_be s))
  else st_err ResourceError.InvalidAdvertisement.

End reader.
End MpReader.

(** ** Advertisements *)

Record ResourceAdv := {
  ra_transfer_size : Z;
  ra_data_size : Z;
  ra_num_parts : Z;
  ra_resource_hash : list Z;
  ra_random_hash : list Z;
  ra_original_hash : list Z;
  ra_segment_index : Z;
  ra_total_segments : Z;
  ra_request_id_len : nat;
  ra_request_id : list Z;
  ra_flags : ResourceFlags;
  ra_hashmap_len : nat;
  ra_hashmap : list Z
}.

Module ResourceAdv.

Definition default : ResourceAdv :=
  {| ra_transfer_size := 0; ra_data_size := 0; ra_num_parts := 0; ra_resource_hash := zeros 32;
     ra_random_hash := zeros RANDOM_HASH_SIZE; ra_original_hash := zeros 32; ra_segment_index := 0;
     ra_total_segments := 0; ra_request_id_len := 0; ra_request_id := zeros REQUEST_ID_MAX;
     ra_flags := ResourceFlags.default; ra_hashmap_len := 0;
     ra_hashmap := zeros (MAX_PARTS * MAPHASH_LEN) |}.

(** The ASCII codes of the keys t, d, n, h, r, o, i, l, q, f, m. *)
Definition KEYS : list Z := [116; 100; 110; 104; 114; 111; 105; 108; 113; 102; 109]%Z.

Definition pack (adv : ResourceAdv) : st (list Z) ResourceError.t nat := λ out,
  if (length (ra_hashmap adv) <? ra_hashmap_len adv)
     || (length (ra_request_id adv) <? ra_request_id_len adv)
  then (Err ResourceError.InvalidAdvertisement, out)
  else
    let (result, w) :=
      (MpWriter.put [139%Z] ;;;
       MpWriter.key 116 ;;; MpWriter.uint (ra_transfer_size adv) ;;;
       MpWriter.key 100 ;;; MpWriter.uint (ra_data_size adv) ;;;
       MpWriter.key 110 ;;; MpWriter.uint (ra_num_parts adv) ;;;
       MpWriter.key 104 ;;; MpWriter.bin (ra_resource_hash adv) ;;;
       MpWriter.key 114 ;;; MpWriter.bin (ra_random_hash adv) ;;;
       MpWriter.key 111 ;;; MpWriter.bin (ra_original_hash adv) ;;;
       MpWriter.key 105 ;;; MpWriter.uint (ra_segment_index adv) ;;;
       MpWriter.key 108 ;;; MpWriter.uint (ra_total_segments adv) ;;;
       MpWriter.key 113 ;;;
       (if ra_request_id_len adv =? 0 then MpWriter.nil
        else MpWriter.bin (take (ra_request_id_len adv) (ra_request_id adv))) ;;;
       MpWriter.key 102 ;;; MpWriter.uint (ResourceFlags.to_byte (ra_flags adv)) ;;;
       MpWriter.key 109 ;;; MpWriter.bin (take (ra_hashmap_len adv) (ra_hashmap adv)))
        {| mw_out := out; mw_pos := 0 |} in
    match result with
    | Ok _ => (Ok (mw_pos w), mw_out w)
    | Err e => (Err e, mw_out w)
    | Panic => (Panic, mw_out w)
    end.

(** Assignments to one field, or to an array and its length. *)
Definition set_transfer_size (v : Z) (a : ResourceAdv) : ResourceAdv :=
  {| ra_transfer_size := v; ra_data_size := ra_data_size a; ra_num_parts := ra_num_parts a;
     ra_resource_hash := ra_resource_hash a; ra_random_hash := ra_random_hash a;
     ra_original_hash := ra_original_hash a; ra_segment_index := ra_segment_index a;
     ra_total_segments := ra_total_segments a; ra_request_id_len := ra_request_id_len a;
     ra_request_id := ra_request_id a; ra_flags := ra_flags a;
     ra_hashmap_len := ra_hashmap_len a; ra_hashmap := ra_hashmap a |}.

Definition set_data_size (v : Z) (a : ResourceAdv) : ResourceAdv :=
  {| ra_transfer_size := ra_transfer_size a; ra_data_size := v; ra_num_parts := ra_num_parts a;
     ra_resource_hash := ra_resource_hash a; ra_random_hash := ra_random_hash a;
     ra_original_hash := ra_original_hash a; ra_segment_index := ra_segment_index a;
     ra_total_segments := ra_total_segments a; ra_request_id_len := ra_request_id_len a;
     ra_request_id := ra_request_id a; ra_flags := ra_flags a;
     ra_hashmap_len := ra_hashmap_len a; ra_hashmap := ra_hashmap a |}.

Definition set_num_parts (v : Z) (a : ResourceAdv) : ResourceAdv :=
  {| ra_transfer_size := ra_transfer_size a; ra_data_size := ra_data_size a; ra_num_parts := v;
     ra_resource_hash := ra_resource_hash a; ra_random_hash := ra_random_hash a;
     ra_original_hash := ra_original_hash a; ra_segment_index := ra_segment_index a;
     ra_total_segments := ra_total_segments a; ra_request_id_len := ra_request_id_len a;
     ra_request_id := ra_request_id a; ra_flags := ra_flags a;
     ra_hashmap_len := ra_hashmap_len a; ra_hashmap := ra_hashmap a |}.

Definition set_resource_hash (v : list Z) (a : ResourceAdv) : ResourceAdv :=
  {| ra_transfer_size := ra_transfer_size a; ra_data_size := ra_data_size a;
     ra_num_parts := ra_num_parts a; ra_resource_hash := v; ra_random_hash := ra_random_hash a;
     ra_original_hash := ra_original_hash a; ra_segment_index := ra_segment_index a;
     ra_total_segments := ra_total_segments a; ra_request_id_len := ra_request_id_len a;
     ra_request_id := ra_request_id a; ra_flags := ra_flags a;
     ra_hashmap_len := ra_hashmap_len a; ra_hashmap := ra_hashmap a |}.

Definition set_random_hash (v : list Z) (a : ResourceAdv) : ResourceAdv :=
  {| ra_transfer_size := ra_transfer_size a; ra_data_size := ra_data_size a;
     ra_num_parts := ra_num_parts a; ra_resource_hash := ra_resource_hash a; ra_random_hash := v;
     ra_original_hash := ra_original_hash a; ra_segment_index := ra_segment_index a;
     ra_total_segments := ra_total_segments a; ra_request_id_len := ra_request_id_len a;
     ra_request_id := ra_request_id a; ra_flags := ra_flags a;
     ra_hashmap_len := ra_hashmap_len a; ra_hashmap := ra_hashmap a |}.

Definition set_original_hash (v : list Z) (a : ResourceAdv) : ResourceAdv :=
  {| ra_transfer_size := ra_transfer_size a; ra_data_size := ra_data_size a;
     ra_num_parts := ra_num_parts a; ra_resource_hash := ra_resource_hash a;
     ra_random_hash := ra_random_hash a; ra_original_hash := v;
     ra_segment_index := ra_segment_index a; ra_total_segments := ra_total_segments a;
     ra_request_id_len := ra_request_id_len a; ra_request_id := ra_request_id a;
     ra_flags := ra_flags a; ra_hashmap_len := ra_hashmap_len a; ra_hashmap := ra_hashmap a |}.

Definition set_segment_index (v : Z) (a : ResourceAdv) : ResourceAdv :=
  {| ra_transfer_size := ra_transfer_size a; ra_data_size := ra_data_size a;
     ra_num_parts := ra_num_parts a; ra_resource_hash := ra_resource_hash a;
     ra_random_hash := ra_random_hash a; ra_original_hash := ra_original_hash a;
     ra_segment_index := v; ra_total_segments := ra_total_segments a;
     ra_request_id_len := ra_request_id_len a; ra_request_id := ra_request_id a;
     ra_flags := ra_flags a; ra_hashmap_len := ra_hashmap_len a; ra_hashmap := ra_hashmap a |}.

Definition set_total_segments (v : Z) (a : ResourceAdv) : ResourceAdv :=
  {| ra_transfer_size := ra_transfer_size a; ra_data_size := ra_data_size a;
     ra_num_parts := ra_num_parts a; ra_resource_hash := ra_resource_hash a;
     ra_random_hash := ra_random_hash a; ra_original_hash := ra_original_hash a;
     ra_segment_index := ra_segment_index a; ra_total_segments := v;
     ra_request_id_len := ra_request_id_len a; ra_request_id := ra_request_id a;
     ra_flags := ra_flags a; ra_hashmap_len := ra_hashmap_len a; ra_hashmap := ra_hashmap a |}.

Definition set_flags (v : ResourceFlags) (a : ResourceAdv) : ResourceAdv :=
  {| ra_transfer_size := ra_transfer_size a; ra_data_size := ra_data_size a;
     ra_num_parts := ra_num_parts a; ra_resource_hash := ra_resource_hash a;
     ra_random_hash := ra_random_hash a; ra_original_hash := ra_original_hash a;
     ra_segment_index := ra_segment_index a; ra_total_segments := ra_total_segments a;
     ra_request_id_len := ra_request_id_len a; ra_request_id := ra_request_id a; ra_flags := v;
     ra_hashmap_len := ra_hashmap_len a; ra_hashmap := ra_hashmap a |}.

Definition set_request_id (v : list Z) (a : ResourceAdv) : ResourceAdv :=
  {| ra_transfer_size := ra_transfer_size a; ra_data_size := ra_data_size a;
     ra_num_parts := ra_num_parts a; ra_resource_hash := ra_resource_hash a;
     ra_random_hash := ra_random_hash a; ra_original_hash := ra_original_hash a;
     ra_segment_index := ra_segment_index a; ra_total_segments := ra_total_segments a;
     ra_request_id_len := length v; ra_request_id := splice 0 v (ra_request_id a);
     ra_flags := ra_flags a; ra_hashmap_len := ra_hashmap_len a; ra_hashmap := ra_hashmap a |}.

(** A hashmap over the capacity is only measured, not copied. *)
Definition set_hashmap (v : list Z) (a : ResourceAdv) : ResourceAdv :=
  {| ra_transfer_size := ra_transfer_size a; ra_data_size := ra_data_size a;
     ra_num_parts := ra_num_parts a; ra_resource_hash := ra_resource_hash a;
     ra_random_hash := ra_random_hash a; ra_original_hash := ra_original_hash a;
     ra_segment_index := ra_segment_index a; ra_total_segments := ra_total_segments a;
     ra_request_id_len := ra_request_id_len a; ra_request_id := ra_request_id a;
     ra_flags := ra_flags a; ra_hashmap_len := length v;
     ra_hashmap := if length v <=? MAX_PARTS * MAPHASH_LEN then splice 0 v (ra_hashmap a)
       else ra_hashmap a |}.

(** The bit that marks a key as seen. *)
Definition key_bit (k : Z) : option Z :=
  if (k =? 116)%Z then Some 1%Z else if (k =? 100)%Z then Some 2%Z else if (k =? 110)%Z then Some 4%Z
  else if (k =? 104)%Z then Some 8%Z else if (k =? 114)%Z then Some 16%Z else if (k =? 111)%Z then Some 32%Z
  else if (k =? 105)%Z then Some 64%Z else if (k =? 108)%Z then Some 128%Z
  else if (k =? 113)%Z then Some 256%Z else if (k =? 102)%Z then Some 512%Z
  else if (k =? 109)%Z then Some 1024%Z else None.

(** The value of a key that [key_bit] knows. *)
Definition parse_value (data : list Z) (k : Z) (adv : ResourceAdv) : st nat ResourceError.t ResourceAdv :=
  let exact (n : nat) (set : list Z → ResourceAdv → ResourceAdv) :=
    let! s := MpReader.bin data in
    if length s =? n then st_ret (set s adv) else st_err ResourceError.InvalidAdvertisement in
  if (k =? 116)%Z then let! v := MpReader.uint data in st_ret (set_transfer_size v adv)
  else if (k =? 100)%Z then let! v := MpReader.uint data in st_ret (set_data_size v adv)
  else if (k =? 110)%Z then let! v := MpReader.uint data in st_ret (set_num_parts v adv)
  else if (k =? 104)%Z then exact 32 set_resource_hash
  else if (k =? 114)%Z then exact RANDOM_HASH_SIZE set_random_hash
  else if (k =? 111)%Z then exact 32 set_original_hash
  else if (k =? 105)%Z then let! v := MpReader.uint data in st_ret (set_segment_index v adv)
  else if (k =? 108)%Z then let! v := MpReader.uint data in st_ret (set_total_segments v adv)
  else if (k =? 113)%Z then
    λ pos, if MpReader.peek data pos =k Some 192%Z then (let! _ := MpReader.byte data in st_ret adv) pos
    else (let! s := MpReader.bin data in
          if REQUEST_ID_MAX <? length s then st_err ResourceError.InvalidAdvertisement
          else st_ret (set_request_id s adv)) pos
  else if (k =? 102)%Z then
    let! f := MpReader.uint data in
    if (255 <? f)%Z then st_err ResourceError.InvalidAdvertisement
    else st_ret (set_flags (ResourceFlags.from_byte f) adv)
  else
    let! s := MpReader.bin data in
    if negb (length s `mod` MAPHASH_LEN =? 0) then st_err ResourceError.InvalidAdvertisement
    else st_ret (set_hashmap s adv).

(** One round of the loop over the eleven entries. *)
Definition parse_entry (data : list Z) (adv : ResourceAdv) (seen : Z)
  : st nat ResourceError.t (ResourceAdv * Z) :=
  let! tag := MpReader.byte data in
  if negb (tag =? 161)%Z then st_err ResourceError.InvalidAdvertisement
  else
    let! k := MpReader.byte data in
    match key_bit k with
    | None => st_err ResourceError.InvalidAdvertisement
    | Some bit =>
        if negb (Z.land seen bit =? 0)%Z then st_err ResourceError.InvalidAdvertisement
        else let! adv := parse_value data k adv in st_ret (adv, Z.lor seen bit)
    end.

Fixpoint parse_entries (n : nat) (data : list Z) (adv : ResourceAdv) (seen : Z)
  : st nat ResourceError.t ResourceAdv :=
  match n with
  | O => st_ret adv
  | S n => let! (adv, seen) := parse_entry data adv seen in parse_entries n data adv seen
  end.

Definition parse_bounded (data : list Z) : outcome ResourceError.t ResourceAdv :=
  fst ((let! head := MpReader.byte data in
        if negb ((128 <=? head)%Z && (head <=? 143)%Z) || negb (Z.land head 15 =? 11)%Z
        then st_err ResourceError.InvalidAdvertisement
        else parse_entries 11 data default 0) 0).

Definition parse (data : list Z) : outcome ResourceError.t ResourceAdv :=
  let* adv := parse_bounded data in
  if MAX_PARTS * MAPHASH_LEN <? ra_hashmap_len adv then Err ResourceError.TooLarge else Ok adv.

Definition rejection_hash (data : list Z) : outcome ResourceError.t (list Z) :=
  let* adv := parse_bounded data in Ok (ra_resource_hash adv).

Definition response_id (data : list Z) : outcome ResourceError.t (list Z) :=
  let* adv := parse_bounded data in
  if negb (rf_is_response (ra_flags adv)) || rf_is_request (ra_flags adv)
     || negb (ra_request_id_len adv =? 16)
  then Err ResourceError.InvalidAdvertisement
  else Ok (take 16 (ra_request_id adv)).

(** ** What a writer emits *)

(** The writer emits [bs] where there is room, and reports a lack of room. *)
Definition writes (c : st MpWriter ResourceError.t unit) (bs : list Z) : Prop :=
  ∀ w, mw_pos w ≤ length (mw_out w) → (Z.of_nat (length (mw_out w)) ≤ u64_max)%Z →
  if mw_pos w + length bs <=? length (mw_out w)
  then c w = (Ok tt, {| mw_out := splice (mw_pos w) bs (mw_out w); mw_pos := mw_pos w + length bs |})
  else fst (c w) = Err ResourceError.OutputTooSmall.

Lemma writes_put bs : writes (MpWriter.put bs) bs.
Proof.
  intros w Hp Hu. unfold MpWriter.put, usize_add.
  destruct (_ <=? length (mw_out w)) eqn:Hl; bool_hyps.
  - rewrite (proj2 (Z.leb_le _ _)) by lia. by rewrite (proj2 (Nat.ltb_ge _ _)) by lia.
  - destruct (_ <=? u64_max)%Z; [|done]. by rewrite (proj2 (Nat.ltb_lt _ _)) by lia.
Qed.

Lemma writes_seq c1 c2 b1 b2 : writes c1 b1 → writes c2 b2 → writes (c1 ;;; c2) (b1 ++ b2).
Proof.
  intros H1 H2 w Hp Hu. specialize (H1 w Hp Hu). unfold st_bind. rewrite length_app, Nat.add_assoc.
  destruct (mw_pos w + length b1 <=? length (mw_out w)) eqn:Hl1; bool_hyps.
  - rewrite H1. set (w1 := {| mw_out := _; mw_pos := _ |}).
    assert (Hlen : length (mw_out w1) = length (mw_out w)) by (apply length_splice; lia).
    specialize (H2 w1). rewrite Hlen in H2. specialize (H2 Hl1 Hu).
    change (mw_pos w1) with (mw_pos w + length b1) in H2.
    destruct (_ <=? length (mw_out w)) eqn:Hl2; bool_hyps; [|done].
    rewrite H2. cbn [mw_out w1]. by rewrite splice_splice by lia.
  - rewrite (proj2 (Nat.leb_gt _ _)) by lia.
    destruct (c1 w) as [[u|e|] w']; cbn [fst] in *; [discriminate H1|exact H1|discriminate H1].
Qed.

Definition uint_bytes (v : Z) : list Z :=
  if (v <? 128)%Z then be_bytes 1 v
  else if (v <=? 255)%Z then 204%Z :: be_bytes 1 v
  else if (v <=? 65535)%Z then 205%Z :: be_bytes 2 v
  else 206%Z :: be_bytes 4 v.

Definition bin_bytes (d : list Z) : list Z := [196%Z; Z.of_nat (length d)] ++ d.

Lemma writes_uint v : writes (MpWriter.uint v) (uint_bytes v).
Proof. unfold MpWriter.uint, uint_bytes. repeat case_match; apply writes_put. Qed.

Lemma be_byte v : (0 ≤ v < 256)%Z → be_bytes 1 v = [v].
Proof. intros Hv. rewrite be_bytes_cons. cbn. rewrite Z.div_1_r. by rewrite Z.mod_small. Qed.

Lemma writes_bin d : length d < 256 → writes (MpWriter.bin d) (bin_bytes d).
Proof.
  intros Hd. unfold MpWriter.bin, bin_bytes. rewrite (proj2 (Z.leb_le _ _)) by lia.
  rewrite be_byte by lia. apply writes_seq; apply writes_put.
Qed.

(** ** What a reader accepts *)

(** The reader takes [bs] off the data and returns [a]. *)
Definition reads {A} (c : list Z → st nat ResourceError.t A) (bs : list Z) (a : A) : Prop :=
  ∀ pre post, (Z.of_nat (length (pre ++ bs ++ post)) ≤ u64_max)%Z →
  c (pre ++ bs ++ post) (length pre) = (Ok a, length pre + length bs).

Lemma reads_bind {A B} (c : list Z → st nat ResourceError.t A) (k : A → list Z → st nat ResourceError.t B)
    bs1 bs2 a b :
  reads c bs1 a → reads (k a) bs2 b → reads (λ data, let! x := c data in k x data) (bs1 ++ bs2) b.
Proof.
  intros H1 H2 pre post Hu. rewrite <- app_assoc in *. unfold st_bind. rewrite H1 by done.
  specialize (H2 (pre ++ bs1) post). rewrite !length_app, <- app_assoc in *.
  rewrite H2 by lia. by rewrite Nat.add_assoc.
Qed.

Lemma reads_ret {A} (a : A) : reads (λ _, st_ret a) [] a.
Proof. intros pre post _. cbn. by rewrite Nat.add_0_r. Qed.

(** A final step that takes nothing off. *)
Lemma reads_map {A B} (c : list Z → st nat ResourceError.t A) (f : A → B) bs a :
  reads c bs a → reads (λ data, let! x := c data in st_ret (f x)) bs (f a).
Proof. intros H pre post Hu. unfold st_bind. by rewrite H. Qed.

Lemma reads_byte b : reads MpReader.byte [b] b.
Proof.
  intros pre post _. unfold MpReader.byte. rewrite lookup_app_r by lia. by rewrite Nat.sub_diag.
Qed.

Lemma reads_take n bs : length bs = n → reads (λ data, MpReader.take data n) bs bs.
Proof.
  intros <- pre post Hu. unfold MpReader.take, usize_add. rewrite !length_app in *.
  rewrite (proj2 (Z.leb_le _ _)) by lia. rewrite (proj2 (Nat.ltb_ge _ _)) by lia.
  by rewrite slice_app_exact by done.
Qed.

Lemma reads_uint v : in_u32 v → reads MpReader.uint (uint_bytes v) v.
Proof.
  intros Hv. unfold uint_bytes. destruct (v <? 128)%Z eqn:H1; bool_hyps.
  { rewrite be_byte by (unfold_u64; lia). rewrite <- (app_nil_r [v]).
    apply (reads_bind MpReader.byte (λ b data, _) [v] [] v); [apply reads_byte|].
    rewrite (proj2 (Z.leb_le v 127)) by lia. apply reads_ret. }
  destruct (v <=? 255)%Z eqn:H2; bool_hyps.
  { rewrite be_byte by (unfold_u64; lia).
    apply (reads_bind MpReader.byte (λ b data, _) [204%Z] [v] 204%Z); [apply reads_byte|]. apply reads_byte. }
  assert (Hf : ∀ n, (v < 256 ^ Z.of_nat n)%Z →
    reads (λ data, let! s := MpReader.take data n in st_ret (of_be s)) (be_bytes n v) v).
  { intros n Hn. rewrite <- (of_be_be_bytes n v) at 2 by (unfold_u64; lia).
    apply (reads_map (λ data, MpReader.take data n) of_be), reads_take, length_be_bytes. }
  destruct (v <=? 65535)%Z eqn:H3; bool_hyps.
  - apply (reads_bind MpReader.byte (λ b data, _) [205%Z] (be_bytes 2 v) 205%Z); [apply reads_byte|].
    apply Hf. cbn. lia.
  - apply (reads_bind MpReader.byte (λ b data, _) [206%Z] (be_bytes 4 v) 206%Z); [apply reads_byte|].
    apply Hf. change (256 ^ Z.of_nat 4)%Z with 4294967296%Z. unfold_u64. lia.
Qed.

Lemma reads_bin d : length d < 256 → reads MpReader.bin (bin_bytes d) d.
Proof.
  intros Hd. unfold bin_bytes.
  apply (reads_bind MpReader.byte (λ b data, _) [196%Z] ([Z.of_nat (length d)] ++ d) 196%Z); [apply reads_byte|].
  apply (reads_bind MpReader.byte (λ n data, MpReader.take data (Z.to_nat n)) [_] d (Z.of_nat (length d))); [apply reads_byte|].
  apply reads_take. lia.
Qed.

(** ** The bytes of an advertisement *)

Record good (a : ResourceAdv) : Prop := {
  good_transfer_size : in_u32 (ra_transfer_size a);
  good_data_size : in_u32 (ra_data_size a);
  good_num_parts : in_u32 (ra_num_parts a);
  good_resource_hash : length (ra_resource_hash a) = 32;
  good_random_hash : length (ra_random_hash a) = RANDOM_HASH_SIZE;
  good_original_hash : length (ra_original_hash a) = 32;
  good_segment_index : in_u32 (ra_segment_index a);
  good_total_segments : in_u32 (ra_total_segments a);
  good_request_id : ra_request_id_len a ≤ REQUEST_ID_MAX ∧ ∃ v, length v = ra_request_id_len a ∧
    ra_request_id a = v ++ zeros (REQUEST_ID_MAX - ra_request_id_len a);
  good_hashmap : ra_hashmap_len a ≤ MAX_PARTS * MAPHASH_LEN ∧ ra_hashmap_len a `mod` MAPHASH_LEN = 0 ∧
    ∃ v, length v = ra_hashmap_len a ∧
      ra_hashmap a = v ++ zeros (MAX_PARTS * MAPHASH_LEN - ra_hashmap_len a)
}.

Definition request_id_of (a : ResourceAdv) : list Z := take (ra_request_id_len a) (ra_request_id a).
Definition hashmap_of (a : ResourceAdv) : list Z := take (ra_hashmap_len a) (ra_hashmap a).

(** The value written for a key, and the assignment it makes when read. *)
Definition value_bytes (a : ResourceAdv) (k : Z) : list Z :=
  if (k =? 116)%Z then uint_bytes (ra_transfer_size a)
  else if (k =? 100)%Z then uint_bytes (ra_data_size a)
  else if (k =? 110)%Z then uint_bytes (ra_num_parts a)
  else if (k =? 104)%Z then bin_bytes (ra_resource_hash a)
  else if (k =? 114)%Z then bin_bytes (ra_random_hash a)
  else if (k =? 111)%Z then bin_bytes (ra_original_hash a)
  else if (k =? 105)%Z then uint_bytes (ra_segment_index a)
  else if (k =? 108)%Z then uint_bytes (ra_total_segments a)
  else if (k =? 113)%Z then
    if ra_request_id_len a =? 0 then [192%Z] else bin_bytes (request_id_of a)
  else if (k =? 102)%Z then uint_bytes (ResourceFlags.to_byte (ra_flags a))
  else bin_bytes (hashmap_of a).

Definition assign (a : ResourceAdv) (k : Z) : ResourceAdv → ResourceAdv :=
  if (k =? 116)%Z then set_transfer_size (ra_transfer_size a)
  else if (k =? 100)%Z then set_data_size (ra_data_size a)
  else if (k =? 110)%Z then set_num_parts (ra_num_parts a)
  else if (k =? 104)%Z then set_resource_hash (ra_resource_hash a)
  else if (k =? 114)%Z then set_random_hash (ra_random_hash a)
  else if (k =? 111)%Z then set_original_hash (ra_original_hash a)
  else if (k =? 105)%Z then set_segment_index (ra_segment_index a)
  else if (k =? 108)%Z then set_total_segments (ra_total_segments a)
  else if (k =? 113)%Z then
    if ra_request_id_len a =? 0 then id else set_request_id (request_id_of a)
  else if (k =? 102)%Z then set_flags (ra_flags a)
  else set_hashmap (hashmap_of a).

Definition entry_bytes (a : ResourceAdv) (k : Z) : list Z := [161%Z; k] ++ value_bytes a k.

(** An advertisement with its keys in the order [ks]. *)
Definition adv_bytes (a : ResourceAdv) (ks : list Z) : list Z :=
  [139%Z] ++ concat (entry_bytes a <$> ks).

Lemma request_id_length a : good a → length (request_id_of a) = ra_request_id_len a.
Proof.
  intros Ha. destruct (good_request_id a Ha) as (Hle & v & Hv & He). unfold request_id_of.
  rewrite He, <- Hv, take_app_length. done.
Qed.

Lemma hashmap_length a : good a → length (hashmap_of a) = ra_hashmap_len a.
Proof.
  intros Ha. destruct (good_hashmap a Ha) as (Hle & _ & v & Hv & He). unfold hashmap_of.
  rewrite He, <- Hv, take_app_length. done.
Qed.

(** ** Packing *)

Lemma pack_writes a out :
  good a → (Z.of_nat (length out) ≤ u64_max)%Z →
  let n := length (adv_bytes a KEYS) in
  if n <=? length out then pack a out = (Ok n, splice 0 (adv_bytes a KEYS) out)
  else fst (pack a out) = Err ResourceError.OutputTooSmall.
Proof.
  intros Ha Hu. cbv zeta. unfold pack.
  destruct (good_request_id a Ha) as (Hq & v & Hv & Hve).
  destruct (good_hashmap a Ha) as (Hm & _ & h & Hh & Hhe).
  assert (Hlq : length (ra_request_id a) = REQUEST_ID_MAX)
    by (rewrite Hve, length_app; unfold zeros; rewrite length_replicate; lia).
  assert (Hlm : length (ra_hashmap a) = MAX_PARTS * MAPHASH_LEN)
    by (rewrite Hhe, length_app; unfold zeros; rewrite length_replicate; lia).
  rewrite Hlq, Hlm, (proj2 (Nat.ltb_ge _ _)), (proj2 (Nat.ltb_ge _ _)) by done. cbn [orb].
  match goal with |- context [let (_, _) := ?c {| mw_out := out; mw_pos := 0 |} in _] =>
    set (prog := c); assert (Hw : writes prog (adv_bytes a KEYS)); [unfold prog; clear prog|clearbody prog] end.
  - unfold adv_bytes, KEYS, entry_bytes. cbn [fmap list_fmap concat value_bytes Z.eqb Pos.eqb].
    rewrite <- !app_assoc, app_nil_r.
    repeat (apply writes_seq; [first [apply writes_put | apply writes_uint | apply writes_bin
      | destruct (ra_request_id_len a =? 0); [apply writes_put | apply writes_bin]]|]);
      try apply writes_bin; fold (request_id_of a) (hashmap_of a);
      rewrite ?(good_resource_hash a Ha), ?(good_random_hash a Ha), ?(good_original_hash a Ha),
        ?request_id_length, ?hashmap_length by done;
      unfold REQUEST_ID_MAX, RANDOM_HASH_SIZE, MAX_PARTS, MAPHASH_LEN in *; lia.
  - specialize (Hw {| mw_out := out; mw_pos := 0 |} ltac:(cbn; lia) Hu). cbn [mw_out mw_pos] in Hw.
    rewrite Nat.add_0_l in Hw. destruct (_ <=? length out).
    + by rewrite Hw.
    + destruct (prog _) as [[u|e|] w]; cbn in Hw |- *; [discriminate Hw|by injection Hw as ->|discriminate Hw].
Qed.

(** ** Parsing, in any order of the keys *)

Lemma reads_value a b k :
  good a → k ∈ KEYS → reads (λ data, parse_value data k b) (value_bytes a k) (assign a k b).
Proof.
  intros Ha Hk.
  assert (Hbin : ∀ n v (set : list Z → ResourceAdv → ResourceAdv), length v = n → n < 256 → reads (λ data, let! s := MpReader.bin data in
      if length s =? n then st_ret (set s b) else st_err ResourceError.InvalidAdvertisement)
    (bin_bytes v) (set v b)).
  { intros n v set Hn Hlt pre post Hu. unfold st_bind. rewrite reads_bin by (done || lia).
    by rewrite Hn, Nat.eqb_refl. }
  assert (Hlq : length (request_id_of a) ≤ REQUEST_ID_MAX)
    by (rewrite request_id_length by done; apply (good_request_id a Ha)).
  assert (Hlm : length (hashmap_of a) ≤ MAX_PARTS * MAPHASH_LEN)
    by (rewrite hashmap_length by done; apply (good_hashmap a Ha)).
  unfold KEYS in Hk. repeat (apply elem_of_cons in Hk as [->|Hk]); [..|by apply not_elem_of_nil in Hk];
    unfold parse_value, value_bytes, assign; cbn [Z.eqb Pos.eqb].
  - apply (reads_map MpReader.uint (λ v, set_transfer_size v b)), reads_uint, Ha.
  - apply (reads_map MpReader.uint (λ v, set_data_size v b)), reads_uint, Ha.
  - apply (reads_map MpReader.uint (λ v, set_num_parts v b)), reads_uint, Ha.
  - apply Hbin; [apply Ha|lia].
  - apply Hbin; [apply Ha|unfold RANDOM_HASH_SIZE; lia].
  - apply Hbin; [apply Ha|lia].
  - apply (reads_map MpReader.uint (λ v, set_segment_index v b)), reads_uint, Ha.
  - apply (reads_map MpReader.uint (λ v, set_total_segments v b)), reads_uint, Ha.
  - intros pre post Hu. unfold MpReader.peek. destruct (ra_request_id_len a =? 0) eqn:H0.
    + rewrite bool_decide_eq_true_2 by (rewrite lookup_app_r, Nat.sub_diag by lia; done). unfold st_bind. by rewrite (reads_byte 192%Z).
    + rewrite bool_decide_eq_false_2 by (rewrite lookup_app_r, Nat.sub_diag by lia; done). unfold st_bind.
      rewrite (reads_bin (request_id_of a)) by (done || (unfold REQUEST_ID_MAX in Hlq; lia)).
      by rewrite (proj2 (Nat.ltb_ge _ _)).
  - intros pre post Hu. pose proof (ResourceFlags.to_byte_range (ra_flags a)) as Hr.
    unfold st_bind. rewrite reads_uint by (done || (unfold_u64; lia)).
    rewrite (proj2 (Z.ltb_ge _ _)) by lia. by rewrite ResourceFlags.from_to_byte.
  - intros pre post Hu. unfold st_bind.
    rewrite (reads_bin (hashmap_of a)) by (done || (unfold MAX_PARTS, MAPHASH_LEN in Hlm; lia)).
    rewrite hashmap_length by done. destruct (good_hashmap a Ha) as (_ & -> & _). done.
Qed.

(** Bits of different keys are disjoint. *)
Lemma key_bits k : k ∈ KEYS → is_Some (key_bit k).
Proof.
  intros Hk. unfold KEYS in Hk. repeat (apply elem_of_cons in Hk as [->|Hk]); [..|by apply not_elem_of_nil in Hk];
    eexists; reflexivity.
Qed.

Lemma key_bits_disjoint k k' b b' :
  k ∈ KEYS → k' ∈ KEYS → k ≠ k' → key_bit k = Some b → key_bit k' = Some b' → Z.land b b' = 0%Z.
Proof.
  intros Hk Hk' Hne Hb Hb'.
  assert (Hall : forallb (λ k, forallb (λ k', (k =? k')%Z ||
    match key_bit k, key_bit k' with Some b, Some b' => (Z.land b b' =? 0)%Z | _, _ => false end) KEYS) KEYS = true)
    by (vm_compute; reflexivity).
  rewrite forallb_forall in Hall. specialize (Hall k ltac:(by apply list_elem_of_In)).
  rewrite forallb_forall in Hall. specialize (Hall k' ltac:(by apply list_elem_of_In)).
  rewrite (proj2 (Z.eqb_neq _ _) Hne), Hb, Hb' in Hall. by apply Z.eqb_eq in Hall.
Qed.

Lemma reads_entry a b seen bit k :
  good a → k ∈ KEYS → key_bit k = Some bit → Z.land seen bit = 0%Z →
  reads (λ data, parse_entry data b seen) (entry_bytes a k) (assign a k b, Z.lor seen bit).
Proof.
  intros Ha Hk Hb Hs. unfold entry_bytes.
  apply (reads_bind MpReader.byte (λ tag data, _) [161%Z] ([k] ++ value_bytes a k) 161%Z); [apply reads_byte|].
  change (negb (161 =? 161)%Z) with false. cbv iota.
  apply (reads_bind MpReader.byte (λ k data, _) [k] (value_bytes a k) k); [apply reads_byte|].
  rewrite Hb, Hs. change (negb (0 =? 0)%Z) with false. cbv iota.
  apply (reads_map (λ data, parse_value data k b) (λ adv, (adv, Z.lor seen bit))). by apply reads_value.
Qed.

Lemma reads_entries a ks : ∀ b seen,
  good a → NoDup ks → (∀ k, k ∈ ks → k ∈ KEYS) →
  (∀ k bit, k ∈ ks → key_bit k = Some bit → Z.land seen bit = 0%Z) →
  reads (λ data, parse_entries (length ks) data b seen) (concat (entry_bytes a <$> ks))
    (fold_left (λ x k, assign a k x) ks b).
Proof.
  induction ks as [|k ks IH]; intros b seen Ha Hn Hin Hs; [apply reads_ret|].
  apply NoDup_cons in Hn as [Hk Hn]. destruct (key_bits k) as [bit Hb]; [apply Hin; left|].
  rewrite fmap_cons. cbn [concat fold_left length parse_entries].
  apply (reads_bind (λ data, parse_entry data b seen)
    (λ p data, let '(adv, seen) := p in parse_entries (length ks) data adv seen) _ _ (assign a k b, Z.lor seen bit)).
  - apply reads_entry; [done|apply Hin; left|done|apply (Hs k); [left|done]].
  - cbv iota beta. apply IH; [done|done|intros k' Hk'; apply Hin; by right|].
    intros k' bit' Hk' Hb'. rewrite Z.land_lor_distr_l, (Hs k' bit'), Z.lor_0_l by (done || by right).
    apply (key_bits_disjoint k k'); [apply Hin; left|apply Hin; by right| |done|done]. by intros ->.
Qed.

(** Assignments to different fields commute. *)
Lemma assign_comm a k k' b : assign a k (assign a k' b) = assign a k' (assign a k b).
Proof.
  destruct (decide (k = k')) as [->|Hne]; [done|]. unfold assign.
  destruct (k =? 116)%Z eqn:?; [|destruct (k =? 100)%Z eqn:?; [|destruct (k =? 110)%Z eqn:?;
    [|destruct (k =? 104)%Z eqn:?; [|destruct (k =? 114)%Z eqn:?; [|destruct (k =? 111)%Z eqn:?;
    [|destruct (k =? 105)%Z eqn:?; [|destruct (k =? 108)%Z eqn:?; [|destruct (k =? 113)%Z eqn:?;
    [destruct (ra_request_id_len a =? 0)|destruct (k =? 102)%Z eqn:?]]]]]]]]];
  (destruct (k' =? 116)%Z eqn:?; [|destruct (k' =? 100)%Z eqn:?; [|destruct (k' =? 110)%Z eqn:?;
    [|destruct (k' =? 104)%Z eqn:?; [|destruct (k' =? 114)%Z eqn:?; [|destruct (k' =? 111)%Z eqn:?;
    [|destruct (k' =? 105)%Z eqn:?; [|destruct (k' =? 108)%Z eqn:?; [|destruct (k' =? 113)%Z eqn:?;
    [|destruct (k' =? 102)%Z eqn:?]]]]]]]]]); try reflexivity;
  destruct (ra_request_id_len a =? 0); reflexivity.
Qed.

Lemma fold_left_permutation {A B} (f : A → B → A) :
  (∀ a x y, f (f a x) y = f (f a y) x) →
  ∀ l l', l ≡ₚ l' → ∀ a, fold_left f l a = fold_left f l' a.
Proof.
  intros Hc l l' Hp. induction Hp as [|x l l' _ IH|x y l|l1 l2 l3 _ IH1 _ IH2]; intros a; cbn; [done|by apply IH| |].
  - by rewrite Hc.
  - by rewrite IH1.
Qed.

Lemma adv_ext a b :
  ra_transfer_size a = ra_transfer_size b → ra_data_size a = ra_data_size b →
  ra_num_parts a = ra_num_parts b → ra_resource_hash a = ra_resource_hash b →
  ra_random_hash a = ra_random_hash b → ra_original_hash a = ra_original_hash b →
  ra_segment_index a = ra_segment_index b → ra_total_segments a = ra_total_segments b →
  ra_request_id_len a = ra_request_id_len b → ra_request_id a = ra_request_id b →
  ra_flags a = ra_flags b → ra_hashmap_len a = ra_hashmap_len b → ra_hashmap a = ra_hashmap b → a = b.
Proof. destruct a, b. cbn. intros. by subst. Qed.

Lemma assigned_all a : good a → fold_left (λ x k, assign a k x) KEYS default = a.
Proof.
  intros Ha. cbn [fold_left KEYS]. unfold assign. cbn [Z.eqb Pos.eqb].
  pose proof (request_id_length a Ha) as Hlq. pose proof (hashmap_length a Ha) as Hlm.
  destruct (good_request_id a Ha) as (Hq & v & Hv & Hve).
  destruct (good_hashmap a Ha) as (Hm & _ & h & Hh & Hhe).
  assert (Hreq : splice 0 (request_id_of a) (zeros REQUEST_ID_MAX) = ra_request_id a).
  { rewrite splice_0, Hlq. unfold request_id_of. rewrite Hve, <- Hv, take_app_length. f_equal.
    unfold zeros. rewrite drop_replicate. done. }
  assert (Hmap : splice 0 (hashmap_of a) (zeros (MAX_PARTS * MAPHASH_LEN)) = ra_hashmap a).
  { rewrite splice_0, Hlm. unfold hashmap_of. rewrite Hhe, <- Hh, take_app_length. f_equal.
    unfold zeros. rewrite drop_replicate. done. }
  assert (Hm' : (if length (hashmap_of a) <=? MAX_PARTS * MAPHASH_LEN
     then splice 0 (hashmap_of a) (ra_hashmap default) else ra_hashmap default) = ra_hashmap a)
    by (rewrite Hlm, (proj2 (Nat.leb_le _ _) Hm); exact Hmap).
  destruct (ra_request_id_len a =? 0) eqn:H0; bool_hyps;
    (apply adv_ext; [reflexivity..| | |reflexivity|exact Hlm|exact Hm']).
  - symmetry. exact H0.
  - change (zeros REQUEST_ID_MAX = ra_request_id a). rewrite Hve, H0.
    destruct v; [|cbn in Hv; lia]. by rewrite Nat.sub_0_r.
  - exact Hlq.
  - exact Hreq.
Qed.

Lemma parse_bytes a ks post :
  good a → ks ≡ₚ KEYS → (Z.of_nat (length (adv_bytes a ks ++ post)) ≤ u64_max)%Z →
  parse (adv_bytes a ks ++ post) = Ok a.
Proof.
  intros Ha Hp Hu. unfold parse, parse_bounded.
  assert (Hkeys : NoDup KEYS) by (apply (bool_decide_eq_true (NoDup KEYS)); vm_compute; reflexivity).
  pose proof (reads_entries a ks default 0%Z Ha) as Hr.
  assert (Hreads : reads (λ data, parse_entries 11 data default 0) (concat (entry_bytes a <$> ks)) a).
  { assert (Hlen : length ks = 11) by (rewrite Hp; done). rewrite <- Hlen.
    rewrite <- (assigned_all a) at 2 by done.
    rewrite <- (fold_left_permutation (λ x k, assign a k x)) with (l := ks) by (done || intros; apply assign_comm).
    apply Hr; [by rewrite Hp|intros k; by rewrite Hp|intros; apply Z.land_0_l]. }
  assert (Hall : reads (λ data, let! head := MpReader.byte data in
      if negb ((128 <=? head)%Z && (head <=? 143)%Z) || negb (Z.land head 15 =? 11)%Z
      then st_err ResourceError.InvalidAdvertisement else parse_entries 11 data default 0) (adv_bytes a ks) a).
  { apply (reads_bind MpReader.byte (λ head data, _) [139%Z] _ 139%Z); [apply reads_byte|exact Hreads]. }
  specialize (Hall [] post Hu). cbn [app] in Hall. change (length (A := Z) []) with 0 in Hall.
  rewrite Hall. cbn [fst obind]. by rewrite (proj2 (Nat.ltb_ge _ _)) by apply (good_hashmap a Ha).
Qed.

(** ** Parsing arbitrary bytes *)

(** Whatever the position, the reader returns something with [Q] or refuses. *)
Definition sound {A} (c : st nat ResourceError.t A) (Q : A → Prop) : Prop :=
  ∀ pos, match fst (c pos) with
         | Ok a => Q a
         | Err e => e = ResourceError.InvalidAdvertisement ∨ e = ResourceError.TooLarge
         | Panic => False
         end.

Lemma sound_bind {A B} (c : st nat ResourceError.t A) (k : A → st nat ResourceError.t B) Q R :
  sound c Q → (∀ a, Q a → sound (k a) R) → sound (let! x := c in k x) R.
Proof.
  intros Hc Hk pos. unfold st_bind. specialize (Hc pos). destruct (c pos) as [[a|e|] pos']; cbn in *; [|done|done].
  by apply Hk.
Qed.

Lemma sound_ret {A} (a : A) (Q : A → Prop) : Q a → sound (st_ret a) Q.
Proof. by intros Ha pos. Qed.

Lemma sound_invalid {A} (Q : A → Prop) : sound (st_err ResourceError.InvalidAdvertisement) Q.
Proof. intros pos. by left. Qed.

Lemma sound_large {A} (Q : A → Prop) : sound (st_err ResourceError.TooLarge) Q.
Proof. intros pos. by right. Qed.

#[local] Hint Resolve sound_ret sound_invalid sound_large : lite.

Lemma sound_byte data : bytes data → sound (MpReader.byte data) is_byte.
Proof.
  intros Hb pos. unfold MpReader.byte. destruct (data !! pos) as [b|] eqn:He; cbn; [by eapply bytes_lookup|by left].
Qed.

Lemma sound_take data n : bytes data → sound (MpReader.take data n) (λ s, length s = n ∧ bytes s).
Proof.
  intros Hb pos. unfold MpReader.take, usize_add. destruct (_ <=? u64_max)%Z; [|by left].
  destruct (_ <? _) eqn:Hl; bool_hyps; cbn; [by left|]. split; [rewrite length_slice; lia|by apply bytes_slice].
Qed.

Lemma sound_be data n : bytes data → n ≤ 4 →
  sound (let! s := MpReader.take data n in st_ret (of_be s)) in_u32.
Proof.
  intros Hb Hn. eapply sound_bind; [by apply sound_take|]. intros s [Hs Hsb]. apply sound_ret.
  pose proof (of_be_bound s Hsb) as H. rewrite Hs in H.
  assert (256 ^ Z.of_nat n ≤ 256 ^ 4)%Z by (apply Z.pow_le_mono_r; lia).
  change (256 ^ 4)%Z with 4294967296%Z in *. unfold_u64. lia.
Qed.

Lemma sound_uint data : bytes data → sound (MpReader.uint data) in_u32.
Proof.
  intros Hb. eapply sound_bind; [by apply sound_byte|]. intros b Hbb. unfold is_byte in Hbb.
  destruct (b <=? 127)%Z; [apply sound_ret; unfold_u64; lia|].
  destruct (b =? 204)%Z.
  { intros pos. pose proof (sound_byte data Hb pos) as H. destruct (fst _); [|done|done].
    unfold is_byte in H. unfold_u64. lia. }
  destruct (b =? 205)%Z; [apply sound_be; [done|lia]|].
  destruct (b =? 206)%Z; [apply sound_be; [done|lia]|].
  destruct (b =? 207)%Z; [|apply sound_invalid].
  eapply sound_bind; [by apply sound_take|]. intros s [Hs Hsb]. pose proof (of_be_bound s Hsb) as H.
  destruct (of_be s <=? u32_max)%Z eqn:Hle; bool_hyps; [|apply sound_large]. apply sound_ret. unfold_u64. lia.
Qed.

Lemma sound_bin data : bytes data → sound (MpReader.bin data) bytes.
Proof.
  intros Hb. eapply sound_bind; [by apply sound_byte|]. intros b _.
  assert (Htake : ∀ n, sound (MpReader.take data n) bytes).
  { intros n pos. pose proof (sound_take data n Hb pos) as H. destruct (fst _); [apply H|done|done]. }
  destruct (b =? 196)%Z; [eapply sound_bind; [by apply sound_byte|]; intros; apply Htake|].
  destruct (b =? 197)%Z; [|apply sound_invalid].
  eapply sound_bind; [by apply sound_take|]. intros; apply Htake.
Qed.

(** What the fields read so far are; a key not seen has its default. *)
Record partial (seen : Z) (a : ResourceAdv) : Prop := {
  partial_ints : in_u32 (ra_transfer_size a) ∧ in_u32 (ra_data_size a) ∧ in_u32 (ra_num_parts a) ∧
    in_u32 (ra_segment_index a) ∧ in_u32 (ra_total_segments a);
  partial_hashes : length (ra_resource_hash a) = 32 ∧ length (ra_random_hash a) = RANDOM_HASH_SIZE ∧
    length (ra_original_hash a) = 32;
  partial_request : ra_request_id_len a ≤ REQUEST_ID_MAX ∧ ∃ v, length v = ra_request_id_len a ∧
    ra_request_id a = v ++ zeros (REQUEST_ID_MAX - ra_request_id_len a);
  partial_request_unseen : Z.land seen 256 = 0%Z → ra_request_id_len a = 0;
  partial_hashmap : ra_hashmap_len a `mod` MAPHASH_LEN = 0 ∧
    (ra_hashmap_len a ≤ MAX_PARTS * MAPHASH_LEN → ∃ v, length v = ra_hashmap_len a ∧
      ra_hashmap a = v ++ zeros (MAX_PARTS * MAPHASH_LEN - ra_hashmap_len a));
  partial_hashmap_unseen : Z.land seen 1024 = 0%Z → ra_hashmap_len a = 0
}.

Lemma partial_default : partial 0 default.
Proof.
  assert (H0 : in_u32 0%Z) by (unfold_u64; lia).
  split; try done; cbn.
  - unfold REQUEST_ID_MAX. split; [lia|]. by exists [].
  - split; [done|]. intros _. by exists [].
Qed.

(** Marking further keys keeps what is known. *)
Lemma partial_mark seen bit a : partial seen a → partial (Z.lor seen bit) a.
Proof.
  intros [H1 H2 H3 H4 H5 H6]. split; [done..| |done|]; intros H; rewrite Z.land_lor_distr_l in H;
    apply Z.lor_eq_0_iff in H as [H _]; auto.
Qed.

Lemma partial_set_request seen s a :
  partial seen a → Z.land seen 256 = 0%Z → length s ≤ REQUEST_ID_MAX →
  partial (Z.lor seen 256) (set_request_id s a).
Proof.
  intros Ha Hs Hl. pose proof (partial_mark seen 256 a Ha) as [H1 H2 H3 H4 H5 H6].
  split; cbn [set_request_id ra_transfer_size ra_data_size ra_num_parts ra_segment_index ra_total_segments
    ra_resource_hash ra_random_hash ra_original_hash ra_request_id_len ra_request_id ra_hashmap_len ra_hashmap];
    [done|done| | |done|done].
  - split; [done|]. exists s. split; [done|]. destruct (partial_request seen a Ha) as (_ & v & Hv & Hve).
    rewrite (partial_request_unseen seen a Ha Hs) in Hv, Hve. destruct v; [|done].
    rewrite Hve, Nat.sub_0_r, splice_0. cbn [app]. unfold zeros. by rewrite drop_replicate.
  - intros H. rewrite Z.land_lor_distr_l, Hs in H. done.
Qed.

Lemma partial_set_hashmap seen s a :
  partial seen a → Z.land seen 1024 = 0%Z → length s `mod` MAPHASH_LEN = 0 →
  partial (Z.lor seen 1024) (set_hashmap s a).
Proof.
  intros Ha Hs Hl. pose proof (partial_mark seen 1024 a Ha) as [H1 H2 H3 H4 H5 H6].
  split; cbn [set_hashmap ra_transfer_size ra_data_size ra_num_parts ra_segment_index ra_total_segments
    ra_resource_hash ra_random_hash ra_original_hash ra_request_id_len ra_request_id ra_hashmap_len ra_hashmap];
    [done|done|done|done| |].
  - split; [done|]. intros Hle. exists s. split; [done|]. rewrite (proj2 (Nat.leb_le _ _) Hle).
    pose proof (partial_hashmap_unseen seen a Ha Hs) as H0.
    destruct (partial_hashmap seen a Ha) as (_ & Hp). destruct Hp as (v & Hv & Hve); [lia|].
    rewrite H0 in Hv, Hve. destruct v; [|done].
    rewrite Hve, Nat.sub_0_r, splice_0. cbn [app]. unfold zeros. by rewrite drop_replicate.
  - intros H. rewrite Z.land_lor_distr_l, Hs in H. done.
Qed.

(** The invariant after an assignment to a plain field. *)
Ltac plain_field Ha :=
  destruct Ha as [(? & ? & ? & ? & ?) (? & ? & ?) ? ? ? ?]; split; cbn; auto.

Lemma sound_value data k bit seen a :
  bytes data → key_bit k = Some bit → Z.land seen bit = 0%Z → partial seen a →
  sound (parse_value data k a) (partial (Z.lor seen bit)).
Proof.
  intros Hb Hk Hs Ha. pose proof (partial_mark seen bit a Ha) as Hm.
  assert (Hint : ∀ set : Z → ResourceAdv → ResourceAdv, (∀ v, in_u32 v → partial (Z.lor seen bit) (set v a)) →
    sound (let! v := MpReader.uint data in st_ret (set v a)) (partial (Z.lor seen bit))).
  { intros set Hset. eapply sound_bind; [by apply sound_uint|]. intros v Hv. by apply sound_ret, Hset. }
  assert (Hbin : ∀ n (set : list Z → ResourceAdv → ResourceAdv),
    (∀ s, length s = n → partial (Z.lor seen bit) (set s a)) →
    sound (let! s := MpReader.bin data in
      if length s =? n then st_ret (set s a) else st_err ResourceError.InvalidAdvertisement)
      (partial (Z.lor seen bit))).
  { intros n set Hset. eapply sound_bind; [by apply sound_bin|]. intros s _.
    destruct (length s =? n) eqn:Hn; bool_hyps; [by apply sound_ret, Hset|apply sound_invalid]. }
  unfold key_bit in Hk. unfold parse_value.
  destruct (k =? 116)%Z; [apply Hint; intros; plain_field Hm|].
  destruct (k =? 100)%Z; [apply Hint; intros; plain_field Hm|].
  destruct (k =? 110)%Z; [apply Hint; intros; plain_field Hm|].
  destruct (k =? 104)%Z; [apply Hbin; intros; plain_field Hm|].
  destruct (k =? 114)%Z; [apply Hbin; intros; plain_field Hm|].
  destruct (k =? 111)%Z; [apply Hbin; intros; plain_field Hm|].
  destruct (k =? 105)%Z; [apply Hint; intros; plain_field Hm|].
  destruct (k =? 108)%Z; [apply Hint; intros; plain_field Hm|].
  destruct (k =? 113)%Z.
  { injection Hk as <-. intros pos. destruct (bool_decide _).
    - revert pos. eapply sound_bind; [by apply sound_byte|]. intros; by apply sound_ret.
    - revert pos. eapply sound_bind; [by apply sound_bin|]. intros s _.
      destruct (REQUEST_ID_MAX <? length s) eqn:Hl; bool_hyps; [apply sound_invalid|].
      by apply sound_ret, partial_set_request. }
  destruct (k =? 102)%Z.
  { eapply sound_bind; [by apply sound_uint|]. intros f _. destruct (255 <? f)%Z; [apply sound_invalid|].
    apply sound_ret. plain_field Hm. }
  destruct (k =? 109)%Z; [|done]. injection Hk as <-.
  eapply sound_bind; [by apply sound_bin|]. intros s _.
  destruct (_ =? 0) eqn:Hl; bool_hyps; cbn [negb]; [|apply sound_invalid]. by apply sound_ret, partial_set_hashmap.
Qed.

Lemma sound_entries data n : ∀ a seen,
  bytes data → partial seen a → sound (parse_entries n data a seen) (λ a, ∃ seen, partial seen a).
Proof.
  induction n as [|n IH]; intros a seen Hb Ha; [apply sound_ret; by exists seen|].
  cbn [parse_entries]. apply (sound_bind _ _ (λ p, partial (snd p) (fst p))).
  - unfold parse_entry. eapply sound_bind; [by apply sound_byte|]. intros tag _.
    destruct (negb _); [apply sound_invalid|]. eapply sound_bind; [by apply sound_byte|]. intros k _.
    destruct (key_bit k) as [bit|] eqn:Hk; [|apply sound_invalid].
    destruct (_ =? 0)%Z eqn:Hs; bool_hyps; cbn [negb]; [|apply sound_invalid].
    eapply sound_bind; [by apply (sound_value data k bit seen a)|]. intros a' Ha'. by apply sound_ret.
  - intros [a' seen'] Ha'. by apply IH.
Qed.

Lemma parse_sound data :
  bytes data →
  match parse data with
  | Ok a => good a
  | Err e => e = ResourceError.InvalidAdvertisement ∨ e = ResourceError.TooLarge
  | Panic => False
  end.
Proof.
  intros Hb. unfold parse, parse_bounded.
  assert (Hs : sound (let! head := MpReader.byte data in
      if negb ((128 <=? head)%Z && (head <=? 143)%Z) || negb (Z.land head 15 =? 11)%Z
      then st_err ResourceError.InvalidAdvertisement
      else parse_entries 11 data default 0) (λ a, ∃ seen, partial seen a)).
  { eapply sound_bind; [by apply sound_byte|]. intros head _. destruct (_ || _)%bool; [apply sound_invalid|].
    apply sound_entries; [done|apply partial_default]. }
  specialize (Hs 0). destruct (fst _) as [a|e|]; cbn [obind]; [|done|done].
  destruct Hs as (seen & [H1 H2 H3 H4 [H5 H6] H7]). destruct (_ <? _) eqn:Hl; bool_hyps; [by right|].
  split; try apply H1; try apply H2; try done. split; [done|]. split; [done|]. by apply H6.
Qed.

(** ** The size of a packed advertisement *)

Lemma length_uint_bytes v : length (uint_bytes v) ≤ 5.
Proof. unfold uint_bytes. repeat case_match; cbn [length]; rewrite ?length_be_bytes; lia. Qed.

Lemma length_adv_bytes a : good a → length (adv_bytes a KEYS) ≤ ADV_PACKED_MAX.
Proof.
  intros Ha. unfold adv_bytes, KEYS, entry_bytes. cbn [fmap list_fmap concat value_bytes Z.eqb Pos.eqb].
  rewrite !length_app. cbn [length].
  pose proof (length_uint_bytes (ra_transfer_size a)). pose proof (length_uint_bytes (ra_data_size a)).
  pose proof (length_uint_bytes (ra_num_parts a)). pose proof (length_uint_bytes (ra_segment_index a)).
  pose proof (length_uint_bytes (ra_total_segments a)).
  assert (Hf : length (uint_bytes (ResourceFlags.to_byte (ra_flags a))) = 1).
  { pose proof (ResourceFlags.to_byte_range (ra_flags a)). unfold uint_bytes.
    rewrite (proj2 (Z.ltb_lt _ _)) by lia. apply length_be_bytes. }
  assert (Hq : length (if ra_request_id_len a =? 0 then [192%Z] else bin_bytes (request_id_of a)) ≤ 34).
  { destruct (_ =? 0); [cbn; lia|]. unfold bin_bytes. rewrite length_app, request_id_length by done.
    pose proof (good_request_id a Ha) as [H' _]. unfold REQUEST_ID_MAX in H'. cbn. lia. }
  assert (Hm : length (bin_bytes (hashmap_of a)) ≤ 34).
  { unfold bin_bytes. rewrite length_app, hashmap_length by done.
    pose proof (good_hashmap a Ha) as [H' _]. unfold MAX_PARTS, MAPHASH_LEN in H'. cbn. lia. }
  unfold bin_bytes at 1 2 3. rewrite !length_app.
  rewrite (good_resource_hash a Ha), (good_random_hash a Ha), (good_original_hash a Ha), Hf.
  unfold RANDOM_HASH_SIZE, ADV_PACKED_MAX. cbn [length]. lia.
Qed.

(** C35: An advertisement survives its encoding. Packing a well-formed one takes
    at most the 192 bytes reserved for it, reports a smaller buffer as too small
    and otherwise writes only its own bytes; parsing them, whatever follows,
    gives the advertisement back. Parsing does not depend on the order of the
    eleven keys. On arbitrary bytes it does not panic: it refuses them, or
    returns an advertisement that is well formed and so packs and parses back. *)
Theorem advertisement_roundtrip (a : ResourceAdv) (out : list Z) :
  good a → (Z.of_nat (length out) ≤ u64_max)%Z →
  match pack a out with
  | (Ok n, out') => n ≤ ADV_PACKED_MAX ∧ drop n out' = drop n out ∧
      ∀ rest, (Z.of_nat (length (take n out' ++ rest)) ≤ u64_max)%Z → parse (take n out' ++ rest) = Ok a
  | (Err e, _) => e = ResourceError.OutputTooSmall ∧ length out < ADV_PACKED_MAX
  | (Panic, _) => False
  end ∧
  (∀ ks rest, ks ≡ₚ KEYS → (Z.of_nat (length (adv_bytes a ks ++ rest)) ≤ u64_max)%Z →
     parse (adv_bytes a ks ++ rest) = Ok a) ∧
  (∀ data, bytes data →
     match parse data with
     | Ok b => good b
     | Err e => e = ResourceError.InvalidAdvertisement ∨ e = ResourceError.TooLarge
     | Panic => False
     end).
Proof.
  intros Ha Hu. split; [|split; [intros ks rest Hp Hr; by apply parse_bytes|apply parse_sound]].
  pose proof (pack_writes a out Ha Hu) as Hp. cbv zeta in Hp. pose proof (length_adv_bytes a Ha) as Hmax.
  destruct (_ <=? length out) eqn:Hl; bool_hyps.
  - rewrite Hp, splice_0. split; [done|]. rewrite drop_app_length, take_app_length. split; [done|].
    intros rest Hr. by apply parse_bytes.
  - destruct (pack a out) as [[n|e|] o]; cbn in Hp; [discriminate Hp| |discriminate Hp].
    injection Hp as ->. split; [done|lia].
Qed.

End ResourceAdv.

(** An advertisement of one part. *)
Definition example_adv : ResourceAdv :=
  {| ra_transfer_size := 64; ra_data_size := 5; ra_num_parts := 1; ra_resource_hash := replicate 32 7%Z;
     ra_random_hash := [1; 2; 3; 4]%Z; ra_original_hash := replicate 32 7%Z; ra_segment_index := 1;
     ra_total_segments := 1; ra_request_id_len := 0; ra_request_id := zeros REQUEST_ID_MAX;
     ra_flags := ResourceFlags.from_byte 1; ra_hashmap_len := 4;
     ra_hashmap := [9; 8; 7; 6]%Z ++ zeros 28 |}.

Lemma example_adv_good : ResourceAdv.good example_adv.
Proof.
  split; cbn; try reflexivity; try (unfold_u64; lia).
  - unfold REQUEST_ID_MAX. split; [lia|]. by exists [].
  - unfold MAX_PARTS, MAPHASH_LEN. split; [lia|]. split; [reflexivity|]. by exists [9; 8; 7; 6]%Z.
Qed.

Lemma advertisement_roundtrip_witness :
  match ResourceAdv.pack example_adv (zeros 150) with
  | (Ok n, out') => n = 110 ∧ ResourceAdv.parse (take n out' ++ []) = Ok example_adv
  | _ => False
  end.
Proof.
  destruct (ResourceAdv.advertisement_roundtrip example_adv (zeros 150) example_adv_good) as [H _];
    [vm_compute; discriminate|].
  assert (E : fst (ResourceAdv.pack example_adv (zeros 150)) = Ok 110) by (vm_compute; reflexivity).
  assert (L : (Z.of_nat (length (take 110 (snd (ResourceAdv.pack example_adv (zeros 150))) ++ [])) ≤ u64_max)%Z)
    by (vm_compute; discriminate).
  destruct (ResourceAdv.pack example_adv (zeros 150)) as [[n|e|] out']; [|discriminate E|discriminate E].
  injection E as ->. split; [reflexivity|]. destruct H as (_ & _ & H). apply H. exact L.
Defined.
