(* ===== verification/ResourcePolicy.v ===== *)
(** The two host-driven policies of resource transfers (src/src/resource.rs):
    the receiver's window, and the retries of an unanswered advertisement. *)

From S2P Require Import Prelude.

Definition WINDOW_INITIAL : nat := 4.
Definition WINDOW_MIN : nat := 2.
Definition WINDOW_MAX_SLOW : nat := 10.
Definition WINDOW_MAX_VERY_SLOW : nat := 4.
Definition WINDOW_MAX_FAST : nat := 75.
Definition FAST_RATE_THRESHOLD : nat := 4.
Definition VERY_SLOW_RATE_THRESHOLD : nat := 2.
Definition RATE_FAST : Z := 6250.
Definition RATE_VERY_SLOW : Z := 250.
Definition WINDOW_FLEXIBILITY : nat := 4.

Record WindowState := {
  ws_window : nat;
  ws_window_min : nat;
  ws_window_max : nat;
  ws_fast_rate_rounds : nat;
  ws_very_slow_rate_rounds : nat
}.

Module WindowState.

Definition new : WindowState :=
  {| ws_window := WINDOW_INITIAL; ws_window_min := WINDOW_MIN; ws_window_max := WINDOW_MAX_SLOW;
     ws_fast_rate_rounds := 0; ws_very_slow_rate_rounds := 0 |}.

(** The rounds are counted without overflow checks that could matter: a count
    of 64 bits does not run out. [Nat.sub] is the saturating subtraction. *)
Definition widen (w : WindowState) : WindowState :=
  if ws_window w <? ws_window_max w then
    let window := ws_window w + 1 in
    {| ws_window := window;
       ws_window_min := if WINDOW_FLEXIBILITY - 1 <? window - ws_window_min w
                        then ws_window_min w + 1 else ws_window_min w;
       ws_window_max := ws_window_max w; ws_fast_rate_rounds := ws_fast_rate_rounds w;
       ws_very_slow_rate_rounds := ws_very_slow_rate_rounds w |}
  else w.

Definition grow (rate : Z) (w : WindowState) : WindowState :=
  let w := widen w in
  if (rate =? 0)%Z then w
  else if (RATE_FAST <? rate)%Z then
    let rounds := ws_fast_rate_rounds w + 1 in
    {| ws_window := ws_window w; ws_window_min := ws_window_min w;
       ws_window_max := if FAST_RATE_THRESHOLD <=? rounds then WINDOW_MAX_FAST else ws_window_max w;
       ws_fast_rate_rounds := rounds; ws_very_slow_rate_rounds := 0 |}
  else if (rate <? RATE_VERY_SLOW)%Z then
    let rounds := ws_very_slow_rate_rounds w + 1 in
    let demoted := VERY_SLOW_RATE_THRESHOLD <=? rounds in
    {| ws_window := if demoted && (WINDOW_MAX_VERY_SLOW <? ws_window w) then WINDOW_MAX_VERY_SLOW
                    else ws_window w;
       ws_window_min := ws_window_min w;
       ws_window_max := if demoted then WINDOW_MAX_VERY_SLOW else ws_window_max w;
       ws_fast_rate_rounds := 0; ws_very_slow_rate_rounds := rounds |}
  else
    {| ws_window := ws_window w; ws_window_min := ws_window_min w; ws_window_max := ws_window_max w;
       ws_fast_rate_rounds := 0; ws_very_slow_rate_rounds := 0 |}.

Definition shrink (w : WindowState) : WindowState :=
  let window := if ws_window_min w <? ws_window w then ws_window w - 1 else ws_window w in
  let max := if ws_window_min w <? ws_window_max w then ws_window_max w - 1 else ws_window_max w in
  let max := if WINDOW_FLEXIBILITY - 1 <? max - window then max - 1 else max in
  {| ws_window := window; ws_window_min := ws_window_min w; ws_window_max := max;
     ws_fast_rate_rounds := ws_fast_rate_rounds w;
     ws_very_slow_rate_rounds := ws_very_slow_rate_rounds w |}.

(** ** What the host can do to a window *)

Inductive step : WindowState → WindowState → Prop :=
| step_grow w rate : step w (grow rate w)
| step_shrink w : step w (shrink w).

(** Never fewer than two parts, never more than the ceiling, which is at most
    that of a fast link. *)
Definition bounded (w : WindowState) : Prop :=
  WINDOW_MIN ≤ ws_window w ≤ ws_window_max w ∧ ws_window_max w ≤ WINDOW_MAX_FAST ∧
  WINDOW_MIN ≤ ws_window_min w.

Lemma bounded_new : bounded new.
Proof. unfold bounded, new, WINDOW_MIN, WINDOW_INITIAL, WINDOW_MAX_SLOW, WINDOW_MAX_FAST. cbn. lia. Qed.

Ltac unfold_window :=
  unfold bounded, WINDOW_MIN, WINDOW_INITIAL, WINDOW_MAX_SLOW, WINDOW_MAX_VERY_SLOW, WINDOW_MAX_FAST,
    FAST_RATE_THRESHOLD, VERY_SLOW_RATE_THRESHOLD, WINDOW_FLEXIBILITY in *.

Lemma bounded_widen w : bounded w → bounded (widen w).
Proof.
  unfold widen. destruct (_ <? ws_window_max w) eqn:Hl; bool_hyps; [|done].
  unfold_window. cbn [ws_window ws_window_min ws_window_max]. intros. repeat case_if; lia.
Qed.

Lemma bounded_grow rate w : bounded w → bounded (grow rate w).
Proof.
  intros Hw. apply bounded_widen in Hw. unfold grow. cbv zeta. generalize dependent (widen w). clear w.
  intros w Hw. destruct (rate =? 0)%Z; [done|]. destruct (RATE_FAST <? rate)%Z; [|destruct (rate <? RATE_VERY_SLOW)%Z].
  - unfold_window. cbn. case_if; lia.
  - unfold_window. cbn [ws_window ws_window_min ws_window_max]. destruct (2 <=? ws_very_slow_rate_rounds w + 1); cbn [andb]; [|lia]. case_if; lia.
  - done.
Qed.

Lemma bounded_shrink w : bounded w → bounded (shrink w).
Proof.
  unfold shrink. unfold_window. cbn [ws_window ws_window_min ws_window_max]. intros Hw.
  repeat case_if; lia.
Qed.

Lemma bounded_step w w' : bounded w → step w w' → bounded w'.
Proof. intros Hw Hs. destruct Hs; [by apply bounded_grow|by apply bounded_shrink]. Qed.

Lemma bounded_reachable w : rtc step new w → bounded w.
Proof. intros H. eapply rtc_preserves; [|exact bounded_new|exact H]. apply bounded_step. Qed.

End WindowState.

(** ** Retries of an advertisement *)

Definition MAX_ADV_RETRIES : nat := 4.
Definition ADV_PROCESSING_GRACE_MS : Z := 1000.
Definition TRAFFIC_TIMEOUT_FACTOR : Z := 6.

Inductive AdvWatchdogAction := Wait | Resend | Failed.

#[export] Instance watchdog_action_eq_dec : EqDecision AdvWatchdogAction.
Proof. solve_decision. Defined.

Record AdvWatchdog := { aw_marked_ms : Z; aw_retries : nat; aw_concluded : bool }.

Module AdvWatchdog.

Definition new (sent_at_ms : Z) : AdvWatchdog :=
  {| aw_marked_ms := sent_at_ms; aw_retries := 0; aw_concluded := false |}.

Definition deadline_ms (rtt_ms : Z) : Z :=
  sat_add64 (sat_mul64 rtt_ms TRAFFIC_TIMEOUT_FACTOR) ADV_PROCESSING_GRACE_MS.

Definition request_seen (w : AdvWatchdog) : AdvWatchdog :=
  {| aw_marked_ms := aw_marked_ms w; aw_retries := aw_retries w; aw_concluded := true |}.

Definition poll (now_ms rtt_ms : Z) (w : AdvWatchdog) : AdvWatchdogAction * AdvWatchdog :=
  if aw_concluded w || (sat_sub now_ms (aw_marked_ms w) <=? deadline_ms rtt_ms)%Z then (Wait, w)
  else if aw_retries w <? MAX_ADV_RETRIES then
    (Resend, {| aw_marked_ms := now_ms; aw_retries := aw_retries w + 1; aw_concluded := false |})
  else (Failed, {| aw_marked_ms := aw_marked_ms w; aw_retries := aw_retries w; aw_concluded := true |}).

(** What a host does with a watchdog; a request yields no action. *)
Inductive event := Poll (now_ms rtt_ms : Z) | RequestSeen.

Definition perform (ev : event) (w : AdvWatchdog) : option AdvWatchdogAction * AdvWatchdog :=
  match ev with
  | Poll now rtt => let (a, w) := poll now rtt w in (Some a, w)
  | RequestSeen => (None, request_seen w)
  end.

Fixpoint actions (evs : list event) (w : AdvWatchdog) : list AdvWatchdogAction :=
  match evs with
  | [] => []
  | ev :: evs =>
      let (a, w) := perform ev w in
      match a with Some a => a :: actions evs w | None => actions evs w end
  end.

Definition not_wait (l : list AdvWatchdogAction) : list AdvWatchdogAction :=
  base.filter (λ a, a ≠ Wait) l.

Lemma actions_concluded evs : ∀ w, aw_concluded w = true → not_wait (actions evs w) = [].
Proof.
  induction evs as [|ev evs IH]; intros w Hw; [done|]. cbn [actions].
  destruct ev as [now rtt|]; cbn [perform].
  - unfold poll. rewrite Hw. cbn [orb]. unfold not_wait. rewrite filter_cons_False by auto. by apply IH.
  - by apply IH.
Qed.

(** The actions other than waiting are resends, at most those left, and a
    failure only after the last of them. *)
Definition allowed (left_ : nat) (l : list AdvWatchdogAction) : Prop :=
  (∃ n, n ≤ left_ ∧ l = replicate n Resend) ∨ l = replicate left_ Resend ++ [Failed].

Lemma allowed_resend n l : allowed n l → allowed (S n) (Resend :: l).
Proof.
  intros [(m & Hm & ->)| ->]; [left; exists (S m); split; [lia|done]|by right].
Qed.

Lemma actions_allowed evs : ∀ w,
  aw_retries w ≤ MAX_ADV_RETRIES → aw_concluded w = false →
  allowed (MAX_ADV_RETRIES - aw_retries w) (not_wait (actions evs w)).
Proof.
  assert (Hnil : ∀ n, allowed n []) by (intros n; left; exists 0; split; [lia|done]).
  induction evs as [|ev evs IH]; intros w Hr Hc; [apply Hnil|]. cbn [actions].
  destruct ev as [now rtt|]; cbn [perform].
  - unfold poll. rewrite Hc. cbn [orb]. unfold not_wait in *. destruct (_ <=? deadline_ms rtt)%Z.
    { rewrite filter_cons_False by auto. by apply IH. }
    destruct (aw_retries w <? MAX_ADV_RETRIES) eqn:Hl; bool_hyps; rewrite filter_cons_True by done.
    + replace (MAX_ADV_RETRIES - aw_retries w) with (S (MAX_ADV_RETRIES - (aw_retries w + 1))) by lia.
      apply allowed_resend.
      apply (IH {| aw_marked_ms := now; aw_retries := aw_retries w + 1; aw_concluded := false |}); [cbn; lia|done].
    + pose proof (actions_concluded evs {| aw_marked_ms := aw_marked_ms w; aw_retries := aw_retries w;
        aw_concluded := true |} eq_refl) as H0. unfold not_wait in H0. rewrite H0.
      right. replace (MAX_ADV_RETRIES - aw_retries w) with 0 by lia. done.
  - rewrite actions_concluded by done. apply Hnil.
Qed.

(** C39: An advertisement is repeated at most four times, and given up only
    after that. Over any polls and requests, the actions of a new watchdog other
    than waiting are at most four resends, or exactly four and then one failure,
    and after a request or a failure it only waits. A poll acts exactly when the
    watchdog is not concluded and more than six round trips and a second have
    passed since the advertisement was last sent, and then restarts that time;
    so polls spaced wider than that see four resends and the failure. *)
Theorem watchdog_gives_up (sent now rtt : Z) (evs : list event) (w : AdvWatchdog) :
  allowed MAX_ADV_RETRIES (not_wait (actions evs (new sent))) ∧
  not_wait (actions evs (request_seen w)) = [] ∧
  (fst (poll now rtt w) ≠ Wait ↔
     aw_concluded w = false ∧ (deadline_ms rtt < sat_sub now (aw_marked_ms w))%Z) ∧
  (fst (poll now rtt w) = Resend → aw_marked_ms (snd (poll now rtt w)) = now) ∧
  (fst (poll now rtt w) = Failed → not_wait (actions evs (snd (poll now rtt w))) = []) ∧
  (∀ d, (deadline_ms rtt < d)%Z → (0 ≤ sent)%Z →
     actions (map (λ i, Poll (sent + Z.of_nat i * d) rtt) (seq 1 5)) (new sent)
       = [Resend; Resend; Resend; Resend; Failed]).
Proof.
  split; [apply (actions_allowed evs (new sent)); [cbn; lia|done]|].
  split; [by apply actions_concluded|].
  split; [|split; [|split]].
  - unfold poll. destruct (aw_concluded w) eqn:Hc; cbn [orb]; [split; [done|naive_solver]|].
    destruct (_ <=? deadline_ms rtt)%Z eqn:Hd; bool_hyps.
    + split; [done|]. intros [_ H]. lia.
    + split; [done|]. intros _. by destruct (aw_retries w <? MAX_ADV_RETRIES).
  - unfold poll. destruct (_ || _)%bool; [done|]. by destruct (aw_retries w <? MAX_ADV_RETRIES).
  - unfold poll. destruct (_ || _)%bool; [done|]. destruct (aw_retries w <? MAX_ADV_RETRIES); [done|].
    intros _. by apply actions_concluded.
  - intros d Hd Hs. cbn [seq map actions perform].
    assert (Hstep : ∀ i r c, poll (sent + Z.of_nat (S i) * d) rtt
        {| aw_marked_ms := sent + Z.of_nat i * d; aw_retries := r; aw_concluded := false |} = c →
      c = if r <? MAX_ADV_RETRIES
          then (Resend, {| aw_marked_ms := sent + Z.of_nat (S i) * d; aw_retries := r + 1; aw_concluded := false |})
          else (Failed, {| aw_marked_ms := sent + Z.of_nat i * d; aw_retries := r; aw_concluded := true |})).
    { intros i r c <-. unfold poll. cbn [aw_concluded aw_marked_ms aw_retries orb].
      rewrite (proj2 (Z.leb_gt _ _)); [done|]. unfold sat_sub. lia. }
    replace (new sent) with {| aw_marked_ms := sent + Z.of_nat 0 * d; aw_retries := 0; aw_concluded := false |}
      by (unfold new; f_equal; lia).
    rewrite (Hstep 0 0 _ eq_refl). cbn [MAX_ADV_RETRIES Nat.ltb Nat.leb Nat.add].
    rewrite (Hstep 1 1 _ eq_refl). cbn [MAX_ADV_RETRIES Nat.ltb Nat.leb Nat.add].
    rewrite (Hstep 2 2 _ eq_refl). cbn [MAX_ADV_RETRIES Nat.ltb Nat.leb Nat.add].
    rewrite (Hstep 3 3 _ eq_refl). cbn [MAX_ADV_RETRIES Nat.ltb Nat.leb Nat.add].
    rewrite (Hstep 4 4 _ eq_refl). done.
Qed.

End AdvWatchdog.
