(* ===== verification/Resource.v ===== *)
(** Resource transfers (src/src/resource.rs): the sender's resource with its
    parts, advertisement and proof check, the receiver's reassembly with its
    requests, assembly and proof, and part requests on the wire.

    Sizes and counts that the code keeps in narrow integers ([u8], [u16],
    [u32]) are [nat] here; [ok_in] and [built] bound them far below those
    widths. An array indexed below the number of parts is read with the total
    lookup [!!!]: what is proved of a built resource and of every receiver
    includes that such indices lie within the arrays. The sender's embedded buffer and the receiver's are lists of
    [TRANSFER_MAX] bytes. *)

From S2P Require Import Prelude Constants Primitives Records Crypto Links Msgpack ResourcePolicy.

Definition HASHMAP_IS_NOT_EXHAUSTED : Z := 0.
Definition HASHMAP_IS_EXHAUSTED : Z := 255.
Definition PROOF_LEN : nat := 64.

Definition resource_sdu (mtu : nat) : nat := mtu - (HEADER_MAXSIZE + 1).
Definition SDU : nat := resource_sdu MTU.
Definition TRANSFER_MAX : nat := MAX_PARTS * SDU.
Definition DATA_MAX : nat := (TRANSFER_MAX - TOKEN_OVERHEAD) - 1 - RANDOM_HASH_SIZE.
Definition REQUEST_MAX : nat := 1 + 32 + MAX_PARTS * MAPHASH_LEN.

Definition token_len (pt_len : nat) : nat := 16 + (pt_len / 16 + 1) * 16 + 32.

(** [total.div_ceil(SDU)] *)
Definition parts_of (total : nat) : nat := (total + SDU - 1) / SDU.

(** ** Part requests *)

Record PartRequestView := {
  pv_wants_more_hashmap : bool;
  pv_last_map_hash : option (list Z);
  pv_resource_hash : list Z;
  pv_requested : list Z
}.

Module PartRequestView.

Definition parse (data : list Z) : outcome ResourceError.t PartRequestView :=
  let* flag := ok_or (data !! 0) ResourceError.InvalidRequest in
  let wants_more_hashmap := (flag =? HASHMAP_IS_EXHAUSTED)%Z in
  let offset := if wants_more_hashmap then 1 + MAPHASH_LEN else 1 in
  let hash_end := offset + 32 in
  if length data <? hash_end then Err ResourceError.InvalidRequest
  else
    let* last_map_hash :=
      if wants_more_hashmap then let* mh := slice_get data 1 (1 + MAPHASH_LEN) in Ok (Some mh)
      else Ok None in
    let* resource_hash := slice_get data offset hash_end in
    Ok {| pv_wants_more_hashmap := wants_more_hashmap; pv_last_map_hash := last_map_hash;
          pv_resource_hash := resource_hash; pv_requested := drop hash_end data |}.

Definition requested_count (v : PartRequestView) : nat := length (pv_requested v) / MAPHASH_LEN.

(** [chunks_exact]: whole hashes only. *)
Definition requested_hashes (v : PartRequestView) : list (list Z) :=
  (λ i, slice (pv_requested v) (i * MAPHASH_LEN) (i * MAPHASH_LEN + MAPHASH_LEN)) <$> seq 0 (requested_count v).

End PartRequestView.

(** [for (i, a) in hashes: if hashes[..i].contains(a) return true] *)
Fixpoint collision_after (prior hashes : list (list Z)) : bool :=
  match hashes with
  | [] => false
  | a :: rest => existsb (λ p, p =k a) prior || collision_after (prior ++ [a]) rest
  end.

Definition has_map_hash_collision (hashes : list (list Z)) : bool := collision_after [] hashes.

Section resource.
Context `{SHA : Sha256} `{HMAC : Hmac} `{AES : AesCbc}.

Definition hash_pair (a b : list Z) : list Z := sha256_digest (a ++ b).
Definition get_map_hash (part random_hash : list Z) : list Z := take MAPHASH_LEN (hash_pair part random_hash).
Definition compute_resource_hash (data random_hash : list Z) : list Z := hash_pair data random_hash.
Definition compute_expected_proof (data resource_hash : list Z) : list Z := hash_pair data resource_hash.
End resource.

(** ** The sender *)

Record OutboundResource := {
  or_buf : list Z;
  or_total_size : nat;
  or_data_size : nat;
  or_num_parts : nat;
  or_resource_hash : list Z;
  or_expected_proof : list Z;
  or_random_hash : list Z;
  or_map_hashes : list (list Z)
}.

Module OutboundResource.
Section outbound.
Context `{SHA : Sha256} `{HMAC : Hmac} `{AES : AesCbc}.

Definition zeroed : OutboundResource :=
  {| or_buf := zeros TRANSFER_MAX; or_total_size := 0; or_data_size := 0; or_num_parts := 0;
     or_resource_hash := zeros 32; or_expected_proof := zeros 32; or_random_hash := zeros RANDOM_HASH_SIZE;
     or_map_hashes := replicate MAX_PARTS (zeros MAPHASH_LEN) |}.

(** The resource between invalidation and success: no parts, a new buffer. *)
Definition invalidated (buf : list Z) (r : OutboundResource) : OutboundResource :=
  {| or_buf := buf; or_total_size := 0; or_data_size := 0; or_num_parts := 0;
     or_resource_hash := or_resource_hash r; or_expected_proof := or_expected_proof r;
     or_random_hash := or_random_hash r; or_map_hashes := or_map_hashes r |}.

(** The map hashes of the parts of a ciphertext: [iter_mut().take(num_parts)]
    visits at most the capacity. *)
Definition hash_parts (buf random_hash : list Z) (total : nat) : outcome ResourceError.t (list (list Z)) :=
  collect (λ i, let* part := slice_get buf (i * SDU) (Nat.min ((i + 1) * SDU) total) in
                Ok (get_map_hash part random_hash))
    (seq 0 (Nat.min (parts_of total) MAX_PARTS)).

Definition build_into (data : list Z) (keys : LinkKeys) (random_hash iv : list Z)
  : st OutboundResource ResourceError.t unit := λ r,
  if DATA_MAX <? length data then (Err ResourceError.TooLarge, r)
  else
    let resource_hash := compute_resource_hash data random_hash in
    let expected_proof := compute_expected_proof data resource_hash in
    let buf := splice (16 + RANDOM_HASH_SIZE) data (splice 16 random_hash (zeros TRANSFER_MAX)) in
    match token_encrypt_in_place keys iv (RANDOM_HASH_SIZE + length data) buf with
    | (Err e, buf) => (Err (ResourceError.Crypto e), invalidated buf r)
    | (Panic, buf) => (Panic, invalidated buf r)
    | (Ok total, buf) =>
        let num_parts := parts_of total in
        match (let* hashes := hash_parts buf random_hash total in
               if MAX_PARTS <? num_parts then Panic else Ok hashes) with
        | Err e => (Err e, invalidated buf r)
        | Panic => (Panic, invalidated buf r)
        | Ok hashes =>
            if has_map_hash_collision hashes
            then (Err ResourceError.MapHashCollision, invalidated buf r)
            else (Ok tt, {| or_buf := buf; or_total_size := total; or_data_size := length data;
                            or_num_parts := num_parts; or_resource_hash := resource_hash;
                            or_expected_proof := expected_proof; or_random_hash := random_hash;
                            or_map_hashes := hashes ++ replicate (MAX_PARTS - num_parts) (zeros MAPHASH_LEN) |})
        end
    end.

Definition build (data : list Z) (keys : LinkKeys) (random_hash iv : list Z)
  : outcome ResourceError.t OutboundResource :=
  let (result, r) := build_into data keys random_hash iv zeroed in let* _ := result in Ok r.

Definition part (r : OutboundResource) (i : nat) : outcome ResourceError.t (option (list Z)) :=
  if or_num_parts r <=? i then Ok None
  else let* p := slice_get (or_buf r) (i * SDU) (Nat.min ((i + 1) * SDU) (or_total_size r)) in Ok (Some p).

Definition advertisement (r : OutboundResource) : ResourceAdv :=
  {| ra_transfer_size := Z.of_nat (or_total_size r); ra_data_size := Z.of_nat (or_data_size r);
     ra_num_parts := Z.of_nat (or_num_parts r); ra_resource_hash := or_resource_hash r;
     ra_random_hash := or_random_hash r; ra_original_hash := or_resource_hash r;
     ra_segment_index := 1; ra_total_segments := 1; ra_request_id_len := 0;
     ra_request_id := zeros REQUEST_ID_MAX;
     ra_flags := {| rf_encrypted := true; rf_compressed := false; rf_split := false;
                    rf_is_request := false; rf_is_response := false; rf_has_metadata := false |};
     ra_hashmap_len := or_num_parts r * MAPHASH_LEN;
     ra_hashmap := fold_left (λ h i, splice (i * MAPHASH_LEN) (or_map_hashes r !!! i) h)
       (seq 0 (or_num_parts r)) (zeros (MAX_PARTS * MAPHASH_LEN)) |}.

(** The array of indices and how many of them are set. *)
Definition requested_parts (r : OutboundResource) (req : PartRequestView) : list nat * nat :=
  if negb (pv_resource_hash req =k or_resource_hash r) then (replicate MAX_PARTS 0, 0)
  else fold_left (λ (acc : list nat * nat) i, let (idx, n) := acc in
      if existsb (λ h, h =k or_map_hashes r !!! i) (PartRequestView.requested_hashes req)
      then (<[n := i]> idx, n + 1) else (idx, n))
    (seq 0 (or_num_parts r)) (replicate MAX_PARTS 0, 0).

Definition validate_proof (r : OutboundResource) (proof : list Z) : bool :=
  (length proof =? PROOF_LEN) && (take 32 proof =k or_resource_hash r)
    && (drop 32 proof =k or_expected_proof r).

End outbound.
End OutboundResource.

(** ** The receiver *)

Inductive InboundState := Transferring | Assembled | CorruptState.

#[export] Instance inbound_state_eq_dec : EqDecision InboundState.
Proof. solve_decision. Defined.

Record InboundResource := {
  ir_buf : list Z;
  ir_resource_hash : list Z;
  ir_random_hash : list Z;
  ir_proof : list Z;
  ir_transfer_size : nat;
  ir_data_size : nat;
  ir_data_len : nat;
  ir_num_parts : nat;
  ir_consecutive_completed : nat;
  ir_received : list bool;
  ir_map_hashes : list (list Z);
  ir_state : InboundState;
  ir_window : WindowState
}.

Module InboundResource.
Section inbound.
Context `{SHA : Sha256} `{HMAC : Hmac} `{AES : AesCbc}.

(** The map hashes and the number of parts of an advertisement that is
    acceptable for the purpose. *)
Definition validate_adv (adv : ResourceAdv) (expected_response : option (list Z))
  : outcome ResourceError.t (list (list Z) * nat) :=
  let f := ra_flags adv in
  if rf_compressed f then Err ResourceError.CompressedUnsupported
  else if rf_has_metadata f then Err ResourceError.MetadataUnsupported
  else if rf_split f || negb (ra_total_segments adv =? 1)%Z || negb (ra_segment_index adv =? 1)%Z
  then Err ResourceError.SplitUnsupported
  else
    let purpose_valid :=
      match expected_response with
      | None => negb (rf_is_request f) && negb (rf_is_response f) && (ra_request_id_len adv =? 0)
      | Some id => negb (rf_is_request f) && rf_is_response f && (ra_request_id_len adv =? 16)
                     && (take 16 (ra_request_id adv) =k id)
      end in
    if negb purpose_valid then Err ResourceError.RequestResponseUnsupported
    else if negb (rf_encrypted f) then Err ResourceError.EncryptionRequired
    else
      let transfer := Z.to_nat (ra_transfer_size adv) in
      let data_size := Z.to_nat (ra_data_size adv) in
      if (Z.of_nat TRANSFER_MAX <? ra_transfer_size adv)%Z || (Z.of_nat DATA_MAX <? ra_data_size adv)%Z
      then Err ResourceError.TooLarge
      else if transfer <? TOKEN_OVERHEAD + 16 then Err ResourceError.InvalidAdvertisement
      else if negb (token_len (RANDOM_HASH_SIZE + data_size) =? transfer)
      then Err ResourceError.InvalidAdvertisement
      else
        let num_parts := parts_of transfer in
        if negb (ra_num_parts adv =? Z.of_nat num_parts)%Z then Err ResourceError.InvalidAdvertisement
        else if negb (ra_hashmap_len adv =? num_parts * MAPHASH_LEN)
        then Err ResourceError.InvalidAdvertisement
        else
          let* hashes := collect (λ i, slice_get (ra_hashmap adv) (i * MAPHASH_LEN) ((i + 1) * MAPHASH_LEN))
                           (seq 0 (Nat.min num_parts MAX_PARTS)) in
          Ok (hashes ++ replicate (MAX_PARTS - num_parts) (zeros MAPHASH_LEN), num_parts).

(** The receiver of an accepted advertisement. *)
Definition accepted (adv : ResourceAdv) (map_hashes : list (list Z)) (num_parts : nat) : InboundResource :=
  {| ir_buf := zeros TRANSFER_MAX; ir_resource_hash := ra_resource_hash adv;
     ir_random_hash := ra_random_hash adv; ir_proof := zeros 32;
     ir_transfer_size := Z.to_nat (ra_transfer_size adv); ir_data_size := Z.to_nat (ra_data_size adv);
     ir_data_len := 0; ir_num_parts := num_parts; ir_consecutive_completed := 0;
     ir_received := replicate MAX_PARTS false; ir_map_hashes := map_hashes; ir_state := Transferring;
     ir_window := WindowState.new |}.

Definition accept_into (adv : ResourceAdv) (expected : option (list Z))
  : st InboundResource ResourceError.t unit :=
  commit_state (λ _, let* (map_hashes, num_parts) := validate_adv adv expected in
                     Ok (accepted adv map_hashes num_parts)).

Definition from_advertisement_into (adv : ResourceAdv) : st InboundResource ResourceError.t unit :=
  accept_into adv None.

Definition from_response_into (adv : ResourceAdv) (expected_request_id : list Z)
  : st InboundResource ResourceError.t unit :=
  accept_into adv (Some expected_request_id).

Definition from_advertisement (adv : ResourceAdv) : outcome ResourceError.t InboundResource :=
  let* (map_hashes, num_parts) := validate_adv adv None in Ok (accepted adv map_hashes num_parts).

Definition expected_part_len (r : InboundResource) (i : nat) : nat :=
  if i + 1 =? ir_num_parts r then ir_transfer_size r - i * SDU else SDU.

(** The end of the current window. *)
Definition window_end (r : InboundResource) : nat :=
  Nat.min (ir_consecutive_completed r + ws_window (ir_window r)) (ir_num_parts r).

Definition matches_part (r : InboundResource) (part : list Z) : bool :=
  if bool_decide (ir_state r = CorruptState) then false
  else
    let hash := get_map_hash part (ir_random_hash r) in
    existsb (λ i,
        ((ir_received r !!! i) || ((ir_consecutive_completed r <=? i) && (i <? window_end r)))
        && (ir_map_hashes r !!! i =k hash) && (length part =? expected_part_len r i))
      (seq 0 (ir_num_parts r)).

(** [while consecutive_completed < total && received[consecutive_completed]],
    with the number of parts as fuel. *)
Fixpoint advance (fuel : nat) (received : list bool) (total completed : nat) : nat :=
  match fuel with
  | O => completed
  | S fuel => if (completed <? total) && (received !!! completed)
              then advance fuel received total (completed + 1) else completed
  end.

Definition stored (r : InboundResource) (i : nat) (buf : list Z) : InboundResource :=
  let received := <[i := true]> (ir_received r) in
  {| ir_buf := buf; ir_resource_hash := ir_resource_hash r; ir_random_hash := ir_random_hash r;
     ir_proof := ir_proof r; ir_transfer_size := ir_transfer_size r; ir_data_size := ir_data_size r;
     ir_data_len := ir_data_len r; ir_num_parts := ir_num_parts r;
     ir_consecutive_completed := advance (ir_num_parts r) received (ir_num_parts r) (ir_consecutive_completed r);
     ir_received := received; ir_map_hashes := ir_map_hashes r; ir_state := ir_state r;
     ir_window := ir_window r |}.

(** The first slot of the window that is empty and fits the part. *)
Definition open_slot (r : InboundResource) (part : list Z) : option nat :=
  let mh := get_map_hash part (ir_random_hash r) in
  List.find (λ i, negb (ir_received r !!! i) && (ir_map_hashes r !!! i =k mh)
                    && (length part =? expected_part_len r i))
    (seq (ir_consecutive_completed r) (window_end r - ir_consecutive_completed r)).

(** Whether a slot was filled, and the new state. *)
Definition receive_part (part : list Z) (r : InboundResource)
  : outcome ResourceError.t (bool * InboundResource) :=
  if negb (bool_decide (ir_state r = Transferring)) then Ok (false, r)
  else
    match open_slot r part with
    | None => Ok (false, r)
    | Some i => let* buf := copy_into (ir_buf r) (i * SDU) part in Ok (true, stored r i buf)
    end.

Definition is_complete (r : InboundResource) : bool := ir_consecutive_completed r =? ir_num_parts r.

(** The loops over the window that stop once [window] missing parts are seen:
    the indices they visit. *)
Fixpoint missing_until (received : list bool) (window count : nat) (ks : list nat) : list nat :=
  match ks with
  | [] => []
  | i :: rest =>
      if (received !!! i : bool) then missing_until received window count rest
      else i :: (if window <=? count + 1 then [] else missing_until received window (count + 1) rest)
  end.

Definition missing (r : InboundResource) : list nat :=
  missing_until (ir_received r) (ws_window (ir_window r)) 0
    (seq (ir_consecutive_completed r) (window_end r - ir_consecutive_completed r)).

(** One round of the loop that writes the wanted hashes. *)
Definition write_wanted (r : InboundResource) (i : nat) (s : nat * list Z)
  : outcome ResourceError.t (nat * list Z) :=
  let (pos, out) := s in
  let* out := copy_into out pos (ir_map_hashes r !!! i) in Ok (pos + MAPHASH_LEN, out).

Definition build_part_request (r : InboundResource) : st (list Z) ResourceError.t nat := λ out,
  if negb (bool_decide (ir_state r = Transferring)) || is_complete r
  then (Err ResourceError.InvalidState, out)
  else
    let needed := 1 + 32 + length (missing r) * MAPHASH_LEN in
    if length out <? needed then (Err ResourceError.OutputTooSmall, out)
    else
      match (let* out := store out 0 HASHMAP_IS_NOT_EXHAUSTED in
             let* out := copy_into out 1 (ir_resource_hash r) in
             for_each (write_wanted r) (missing r) (33, out)) with
      | Ok (pos, out') => (Ok pos, out')
      | Err e => (Err e, out)
      | Panic => (Panic, out)
      end.

Definition with_outcome (r : InboundResource) (buf proof : list Z) (data_len : nat) (state : InboundState)
  : InboundResource :=
  {| ir_buf := buf; ir_resource_hash := ir_resource_hash r; ir_random_hash := ir_random_hash r;
     ir_proof := proof; ir_transfer_size := ir_transfer_size r; ir_data_size := ir_data_size r;
     ir_data_len := data_len; ir_num_parts := ir_num_parts r;
     ir_consecutive_completed := ir_consecutive_completed r; ir_received := ir_received r;
     ir_map_hashes := ir_map_hashes r; ir_state := state; ir_window := ir_window r |}.

Definition assemble (keys : LinkKeys) : st InboundResource ResourceError.t nat := λ r,
  if negb (bool_decide (ir_state r = Transferring)) then (Err ResourceError.InvalidState, r)
  else if negb (is_complete r) then (Err ResourceError.Incomplete, r)
  else
    let failed (buf : list Z) := with_outcome r buf (ir_proof r) (ir_data_len r) CorruptState in
    match on_range 0 (ir_transfer_size r) (token_decrypt_in_place keys) (ir_buf r) with
    | (Err e, buf) => (Err (ResourceError.Crypto e), failed buf)
    | (Panic, buf) => (Panic, failed buf)
    | (Ok n, buf) =>
        if n <? RANDOM_HASH_SIZE then (Err ResourceError.Corrupt, failed buf)
        else
          let data_off := 16 + RANDOM_HASH_SIZE in
          let data_len := n - RANDOM_HASH_SIZE in
          match slice_get buf data_off (data_off + data_len) with
          | Ok data =>
              if negb (compute_resource_hash data (ir_random_hash r) =k ir_resource_hash r)
              then (Err ResourceError.HashMismatch, failed buf)
              else (Ok data_len,
                    with_outcome r buf (compute_expected_proof data (ir_resource_hash r)) data_len Assembled)
          | Err e => (Err e, failed buf)
          | Panic => (Panic, failed buf)
          end
    end.

Definition data (r : InboundResource) : outcome ResourceError.t (option (list Z)) :=
  if negb (bool_decide (ir_state r = Assembled)) then Ok None
  else let off := 16 + RANDOM_HASH_SIZE in
       let* d := slice_get (ir_buf r) off (off + ir_data_len r) in Ok (Some d).

Definition build_proof (r : InboundResource) : st (list Z) ResourceError.t nat := λ out,
  if negb (bool_decide (ir_state r = Assembled)) then (Err ResourceError.InvalidState, out)
  else if length out <? PROOF_LEN then (Err ResourceError.OutputTooSmall, out)
  else
    match (let* out := copy_into out 0 (ir_resource_hash r) in copy_into out 32 (ir_proof r)) with
    | Ok out' => (Ok PROOF_LEN, out')
    | Err e => (Err e, out)
    | Panic => (Panic, out)
    end.

End inbound.
End InboundResource.
