(* ===== verification/ResourceSender.v ===== *)
(** What a successfully built resource is (src/src/resource.rs): the Token of
    the random tag and the data, cut into parts with distinct map hashes, and
    what its advertisement and its answers to requests contain. *)

From S2P Require Import Prelude Constants Primitives Records Crypto Links Msgpack ResourcePolicy Resource.
Import OutboundResource.

(** ** Sizes *)

Lemma SDU_eq : SDU = 464.
Proof. reflexivity. Qed.

Lemma TRANSFER_MAX_eq : TRANSFER_MAX = MAX_PARTS * SDU.
Proof. reflexivity. Qed.

Lemma token_len_eq n : token_len n = n + pad_len n + 48.
Proof.
  unfold token_len, pad_len. pose proof (Nat.div_mod_eq n 16). pose proof (Nat.mod_upper_bound n 16). lia.
Qed.

Lemma token_len_mono n m : n ≤ m → token_len n ≤ token_len m.
Proof. intros H. unfold token_len. pose proof (Nat.Div0.div_le_mono n m 16 H). lia. Qed.

Lemma token_fits n : n ≤ DATA_MAX → 64 ≤ token_len (RANDOM_HASH_SIZE + n) ≤ TRANSFER_MAX.
Proof.
  intros H. split.
  - change 64 with (token_len 4). apply token_len_mono. unfold RANDOM_HASH_SIZE. lia.
  - apply Nat.le_trans with (token_len (RANDOM_HASH_SIZE + DATA_MAX)); [apply token_len_mono; lia|].
    apply Nat.leb_le. vm_compute. reflexivity.
Qed.

Lemma parts_of_spec total :
  0 < total → 1 ≤ parts_of total ∧ (parts_of total - 1) * SDU < total ≤ parts_of total * SDU.
Proof.
  intros H. unfold parts_of. rewrite SDU_eq. pose proof (Nat.div_mod_eq (total + 464 - 1) 464).
  pose proof (Nat.mod_upper_bound (total + 464 - 1) 464). nia.
Qed.

Lemma parts_of_max total : 0 < total → total ≤ TRANSFER_MAX → parts_of total ≤ MAX_PARTS.
Proof.
  intros H0 H. destruct (parts_of_spec total H0) as [_ [Hl _]]. rewrite TRANSFER_MAX_eq, SDU_eq in *.
  unfold MAX_PARTS in *. lia.
Qed.

(** The bytes of part [i] of a ciphertext. *)
Definition part_of (tok : list Z) (i : nat) : list Z :=
  slice tok (i * SDU) (Nat.min ((i + 1) * SDU) (length tok)).

Lemma part_bounds (tok : list Z) i :
  i < parts_of (length tok) → 0 < length tok →
  i * SDU < Nat.min ((i + 1) * SDU) (length tok) ∧
  Nat.min ((i + 1) * SDU) (length tok) ≤ length tok.
Proof.
  intros Hi H0. destruct (parts_of_spec _ H0) as [_ [Hl _]]. rewrite SDU_eq in *.
  assert (i * 464 ≤ (parts_of (length tok) - 1) * 464) by (apply Nat.mul_le_mono_r; lia). lia.
Qed.

Lemma length_part (tok : list Z) i :
  i < parts_of (length tok) → 0 < length tok →
  length (part_of tok i) = if i + 1 =? parts_of (length tok) then length tok - i * SDU else SDU.
Proof.
  intros Hi H0. destruct (part_bounds tok i Hi H0) as [H1 H2]. unfold part_of.
  rewrite length_slice by lia. destruct (parts_of_spec _ H0) as [_ [Hl Hr]].
  destruct (i + 1 =? parts_of (length tok)) eqn:He; bool_hyps; rewrite SDU_eq in *.
  - rewrite He. lia.
  - assert ((i + 1) * 464 ≤ (parts_of (length tok) - 1) * 464) by (apply Nat.mul_le_mono_r; lia). lia.
Qed.

(** ** Collisions *)

Lemma collision_after_spec hs : ∀ prior,
  collision_after prior hs = false ↔ NoDup hs ∧ ∀ h, h ∈ hs → h ∉ prior.
Proof.
  induction hs as [|a hs IH]; intros prior; cbn.
  - split; [|done]. intros _. split; [constructor|]. intros h Hh. by apply not_elem_of_nil in Hh.
  - rewrite orb_false_iff, IH, NoDup_cons.
    assert (Hex : existsb (λ p, p =k a) prior = false ↔ a ∉ prior).
    { rewrite <- not_true_iff_false, existsb_exists. split.
      - intros H Ha. apply H. exists a. split; [by apply list_elem_of_In|]. by apply bool_decide_eq_true.
      - intros H (p & Hp & He). apply bool_decide_eq_true in He as ->. by apply list_elem_of_In in Hp. }
    rewrite Hex. split.
    + intros (Ha & Hn & Hp). split; [split; [|done]|].
      * intros Hin. apply (Hp a Hin). apply elem_of_app. right. by apply list_elem_of_singleton.
      * intros h [->|Hh]%elem_of_cons; [done|]. intros Hin. apply (Hp h Hh). apply elem_of_app. by left.
    + intros ((Ha & Hn) & Hp). split; [apply Hp; left|]. split; [done|].
      intros h Hh [Hin| ->%list_elem_of_singleton]%elem_of_app; [by apply (Hp h); [right|]|done].
Qed.

Lemma collision_spec hs : has_map_hash_collision hs = false ↔ NoDup hs.
Proof.
  unfold has_map_hash_collision. rewrite collision_after_spec. split; [naive_solver|].
  intros H. split; [done|]. intros h _. apply not_elem_of_nil.
Qed.

Section sender.
Context `{SHA : Sha256} `{HMAC : Hmac} `{AES : AesCbc}.

Definition blob_of (keys : LinkKeys) (iv random_hash payload : list Z) : list Z :=
  token keys iv (random_hash ++ payload).

(** The map hashes of a ciphertext. *)
Definition hashes_of (tok random_hash : list Z) : list (list Z) :=
  (λ i, get_map_hash (part_of tok i) random_hash) <$> seq 0 (parts_of (length tok)).

(** What a successful build leaves behind. *)
Record built (payload : list Z) (keys : LinkKeys) (random_hash iv : list Z) (r : OutboundResource) : Prop := {
  built_payload : length payload ≤ DATA_MAX;
  built_random : length random_hash = RANDOM_HASH_SIZE;
  built_iv : length iv = 16;
  built_buf : ∃ rest, or_buf r = blob_of keys iv random_hash payload ++ rest;
  built_total : or_total_size r = length (blob_of keys iv random_hash payload);
  built_data_size : or_data_size r = length payload;
  built_num_parts : or_num_parts r = parts_of (or_total_size r);
  built_hash : or_resource_hash r = compute_resource_hash payload random_hash;
  built_proof : or_expected_proof r = compute_expected_proof payload (or_resource_hash r);
  built_tag : or_random_hash r = random_hash;
  built_hashes : or_map_hashes r = hashes_of (blob_of keys iv random_hash payload) random_hash
    ++ replicate (MAX_PARTS - or_num_parts r) (zeros MAPHASH_LEN);
  built_distinct : NoDup (hashes_of (blob_of keys iv random_hash payload) random_hash)
}.

Lemma length_resource_blob keys iv random_hash payload :
  length iv = 16 → length random_hash = RANDOM_HASH_SIZE →
  length (blob_of keys iv random_hash payload) = token_len (RANDOM_HASH_SIZE + length payload).
Proof.
  intros Hiv Hr. unfold blob_of. rewrite length_token, length_app, Hr, token_len_eq by done. done.
Qed.

Lemma length_hashes tok random_hash : length (hashes_of tok random_hash) = parts_of (length tok).
Proof. unfold hashes_of. by rewrite length_fmap, length_seq. Qed.

Lemma hash_length (p random_hash : list Z) : length (get_map_hash p random_hash) = MAPHASH_LEN.
Proof. unfold get_map_hash, hash_pair. rewrite length_take, sha256_length. done. Qed.

Lemma lookup_hashes tok random_hash i :
  i < parts_of (length tok) →
  hashes_of tok random_hash !! i = Some (get_map_hash (part_of tok i) random_hash).
Proof. intros Hi. unfold hashes_of. by rewrite list_lookup_fmap, lookup_seq_lt. Qed.

Lemma hash_parts_spec tok rest random_hash :
  0 < length tok → parts_of (length tok) ≤ MAX_PARTS →
  hash_parts (tok ++ rest) random_hash (length tok) = Ok (hashes_of tok random_hash).
Proof.
  intros H0 Hm. unfold hash_parts. rewrite Nat.min_l by done. apply collect_Ok.
  intros i Hi%elem_of_range. destruct (part_bounds tok i Hi H0) as [H1 H2].
  rewrite slice_get_Ok by (rewrite ?length_app; lia). cbn [obind]. unfold part_of.
  by rewrite slice_app_l by lia.
Qed.

Lemma buffer_layout (random_hash payload : list Z) :
  length random_hash = RANDOM_HASH_SIZE → length payload ≤ DATA_MAX →
  splice (16 + RANDOM_HASH_SIZE) payload (splice 16 random_hash (zeros TRANSFER_MAX))
    = zeros 16 ++ (random_hash ++ payload) ++ zeros (TRANSFER_MAX - 20 - length payload).
Proof.
  intros Hr Hp. pose proof (token_fits _ Hp) as Hfit. rewrite token_len_eq in Hfit.
  pose proof (pad_len_range (RANDOM_HASH_SIZE + length payload)). unfold RANDOM_HASH_SIZE in *.
  assert (Hz : zeros TRANSFER_MAX = zeros 16 ++ zeros (TRANSFER_MAX - 16))
    by (unfold zeros; rewrite <- replicate_add; f_equal; lia).
  rewrite Hz, (splice_app 16) by (by apply length_replicate). rewrite app_assoc.
  rewrite (splice_app (16 + 4)) by (rewrite length_app; unfold zeros; rewrite length_replicate; lia).
  rewrite <- !app_assoc. do 3 f_equal. unfold zeros. rewrite !drop_replicate. f_equal. lia.
Qed.

(** Building succeeds, or finds two parts with one map hash. *)
Lemma build_into_spec payload keys random_hash iv r :
  length random_hash = RANDOM_HASH_SIZE → length iv = 16 →
  match build_into payload keys random_hash iv r with
  | (Ok _, r') => built payload keys random_hash iv r'
  | (Err e, r') =>
      (e = ResourceError.TooLarge ∧ DATA_MAX < length payload ∧ r' = r) ∨
      (e = ResourceError.MapHashCollision ∧ or_num_parts r' = 0 ∧
       ¬ NoDup (hashes_of (blob_of keys iv random_hash payload) random_hash))
  | (Panic, _) => False
  end.
Proof.
  intros Hr Hiv. unfold build_into. destruct (DATA_MAX <? length payload) eqn:Hl; bool_hyps; [by left|].
  cbv zeta. rewrite buffer_layout by done. pose proof (token_fits _ Hl) as [H64 Hmax].
  pose proof (length_resource_blob keys iv random_hash payload Hiv Hr) as Hlen.
  replace (RANDOM_HASH_SIZE + length payload) with (length (random_hash ++ payload))
    by (rewrite length_app; lia).
  rewrite token_encrypt_in_place_spec.
  2: done. 2: by apply length_replicate.
  2:{ rewrite length_app, Hr. unfold u64_max.
      assert (length payload ≤ 3659) by exact Hl. unfold RANDOM_HASH_SIZE. lia. }
  fold (blob_of keys iv random_hash payload). set (tok := blob_of keys iv random_hash payload) in *.
  set (buf := zeros 16 ++ _).
  assert (Hbuf : length buf = TRANSFER_MAX).
  { unfold buf, zeros. rewrite !length_app, !length_replicate, Hr. rewrite token_len_eq in Hmax.
    pose proof (pad_len_range (RANDOM_HASH_SIZE + length payload)). unfold RANDOM_HASH_SIZE in *. lia. }
  rewrite Hbuf, (proj2 (Nat.ltb_ge _ _)) by lia.
  assert (Hparts : parts_of (length tok) ≤ MAX_PARTS) by (apply parts_of_max; lia).
  rewrite hash_parts_spec by (done || lia). cbn [obind]. rewrite (proj2 (Nat.ltb_ge _ _)) by done.
  destruct (has_map_hash_collision _) eqn:Hc.
  - right. split; [done|]. split; [done|]. rewrite <- collision_spec. by rewrite Hc.
  - apply collision_spec in Hc. split; try done; cbn.
    by exists (drop (length tok) buf).
Qed.

(** ** Lists of map hashes as bytes *)

#[local] Instance hash_fixed : FixedWidth (list Z) :=
  {| record_width := MAPHASH_LEN; record_bytes := id; record_good := λ h, length h = MAPHASH_LEN;
     record_length := λ h Hh, Hh |}.

Lemma records_hashes (hs : list (list Z)) : records hs = concat hs.
Proof. unfold records. cbn [record_bytes hash_fixed]. by rewrite list_fmap_id. Qed.

Lemma hashes_good tok random_hash : Forall (λ h, length h = MAPHASH_LEN) (hashes_of tok random_hash).
Proof. apply Forall_fmap, Forall_forall. intros i _. apply hash_length. Qed.

Lemma slice_hash {E} (pre : list Z) hs post i h :
  Forall (λ h, length h = MAPHASH_LEN) hs → hs !! i = Some h →
  slice_get (E := E) (pre ++ concat hs ++ post) (length pre + i * MAPHASH_LEN) (length pre + i * MAPHASH_LEN + MAPHASH_LEN)
    = Ok h.
Proof.
  intros Hg Hi. pose proof (proj1 (Forall_lookup _ _) Hg i h Hi) as Hh. cbn in Hh.
  pose proof (length_records (FW := hash_fixed) hs Hg) as Hlen. rewrite records_hashes in Hlen. cbn [record_width hash_fixed] in Hlen.
  pose proof (lookup_lt_Some _ _ _ Hi) as Hlt.
  pose proof (slice_record (E := E) (FW := hash_fixed) pre hs i h (length pre + i * MAPHASH_LEN) 0 MAPHASH_LEN
    Hg Hi eq_refl ltac:(lia) ltac:(done)) as H. rewrite records_hashes, Nat.add_0_r in H.
  cbn [record_bytes hash_fixed id] in H. assert (Hf : slice h 0 MAPHASH_LEN = h) by (rewrite <- Hh; apply slice_full). rewrite Hf in H.
  assert (i * MAPHASH_LEN + MAPHASH_LEN ≤ length hs * MAPHASH_LEN) by (unfold MAPHASH_LEN in *; lia).
  rewrite slice_get_Ok in H |- * by (rewrite ?length_app; lia). rewrite app_assoc, slice_app_l; [done|lia|].
  rewrite length_app. lia.
Qed.

Lemma splice_hashes (l : list (list Z)) n (h0 : list Z) :
  Forall (λ h, length h = MAPHASH_LEN) l → n ≤ length l → n * MAPHASH_LEN ≤ length h0 →
  fold_left (λ h i, splice (i * MAPHASH_LEN) (l !!! i) h) (seq 0 n) h0 = splice 0 (concat (take n l)) h0.
Proof.
  intros Hg. induction n as [|n IH]; intros Hn Hl; [by rewrite take_0|].
  rewrite seq_S, fold_left_app, IH by lia. cbn [fold_left Nat.add].
  assert (Hi : l !! n = Some (l !!! n)) by (apply list_lookup_lookup_total_lt; lia).
  pose proof (Forall_lookup_1 _ _ _ _ Hg Hi) as Hh. cbn in Hh.
  pose proof (length_records (FW := hash_fixed) (take n l) (Forall_take _ _ _ Hg)) as Hlen.
  rewrite records_hashes, length_take, Nat.min_l in Hlen by lia. cbn [record_width hash_fixed] in Hlen.
  rewrite (take_S_r _ _ _ Hi), concat_app. cbn [concat]. rewrite app_nil_r, <- Hlen.
  apply (splice_splice 0). lia.
Qed.

(** ** The parts and the advertisement of a built resource *)

Context (payload : list Z) (keys : LinkKeys) (random_hash iv : list Z) (r : OutboundResource).
Hypothesis Hb : built payload keys random_hash iv r.

Abbreviation tok := (blob_of keys iv random_hash payload).

Lemma total_fits : 64 ≤ length tok ≤ TRANSFER_MAX.
Proof using Hb.
  rewrite length_resource_blob by apply Hb. apply token_fits, Hb.
Qed.

Lemma num_parts_eq : or_num_parts r = parts_of (length tok) ∧ 1 ≤ or_num_parts r ≤ MAX_PARTS.
Proof using Hb.
  pose proof total_fits as [H1 H2]. assert (0 < length tok) as H0 by lia.
  rewrite (built_num_parts _ _ _ _ _ Hb), (built_total _ _ _ _ _ Hb). split; [done|].
  split; [by apply parts_of_spec|by apply parts_of_max].
Qed.

Lemma part_spec i : i < or_num_parts r → part r i = Ok (Some (part_of tok i)).
Proof using Hb.
  intros Hi. pose proof num_parts_eq as [Hn _]. pose proof total_fits as [H64 _].
  unfold part. rewrite (proj2 (Nat.leb_gt _ _)) by done.
  destruct (built_buf _ _ _ _ _ Hb) as [rest ->]. rewrite (built_total _ _ _ _ _ Hb).
  destruct (part_bounds tok i) as [H1 H2]; [by rewrite <- Hn|lia|].
  rewrite slice_get_Ok by (rewrite ?length_app; lia). cbn [obind]. unfold part_of. by rewrite slice_app_l by lia.
Qed.

Lemma length_map_hashes : length (or_map_hashes r) = MAX_PARTS.
Proof using Hb.
  pose proof num_parts_eq as [Hn Hm]. rewrite (built_hashes _ _ _ _ _ Hb), length_app, length_hashes, length_replicate. lia.
Qed.

Lemma map_hashes_good : Forall (λ h, length h = MAPHASH_LEN) (or_map_hashes r).
Proof using Hb.
  rewrite (built_hashes _ _ _ _ _ Hb). apply Forall_app. split; [apply hashes_good|]. by apply Forall_replicate.
Qed.

Lemma map_hash_at i : i < or_num_parts r → or_map_hashes r !!! i = get_map_hash (part_of tok i) random_hash.
Proof using Hb.
  intros Hi. pose proof num_parts_eq as [Hn _]. apply list_lookup_total_correct.
  rewrite (built_hashes _ _ _ _ _ Hb). apply lookup_app_l_Some, lookup_hashes. lia.
Qed.

(** A map hash names one part. *)
Lemma map_hash_inj i j :
  i < or_num_parts r → j < or_num_parts r → or_map_hashes r !!! i = or_map_hashes r !!! j → i = j.
Proof using Hb.
  intros Hi Hj H. pose proof num_parts_eq as [Hn _]. rewrite !map_hash_at in H by done.
  eapply (NoDup_lookup _ i j _ (built_distinct _ _ _ _ _ Hb)); [apply lookup_hashes; lia|].
  rewrite lookup_hashes by lia. by rewrite H.
Qed.

Lemma take_map_hashes : take (or_num_parts r) (or_map_hashes r) = hashes_of tok random_hash.
Proof using Hb.
  pose proof num_parts_eq as [Hn _]. rewrite (built_hashes _ _ _ _ _ Hb), Hn, <- (length_hashes tok random_hash).
  apply take_app_length.
Qed.

Lemma advertised_hashmap :
  ra_hashmap (advertisement r) = concat (hashes_of tok random_hash)
    ++ zeros (MAX_PARTS * MAPHASH_LEN - or_num_parts r * MAPHASH_LEN) ∧
  length (concat (hashes_of tok random_hash)) = or_num_parts r * MAPHASH_LEN.
Proof using Hb.
  pose proof num_parts_eq as [Hn Hm]. pose proof length_map_hashes as Hl.
  assert (Hlen : length (concat (hashes_of tok random_hash)) = or_num_parts r * MAPHASH_LEN).
  { rewrite <- records_hashes, (length_records (FW := hash_fixed)) by apply hashes_good.
    by rewrite length_hashes, Hn. }
  split; [|done]. cbn [advertisement ra_hashmap].
  rewrite splice_hashes by (apply map_hashes_good || (unfold zeros; rewrite ?length_replicate; unfold MAPHASH_LEN; lia)).
  rewrite take_map_hashes, splice_0, Hlen. unfold zeros. by rewrite drop_replicate.
Qed.

Lemma advertisement_good : ResourceAdv.good (advertisement r).
Proof using Hb.
  pose proof num_parts_eq as [Hn Hm]. pose proof total_fits as [_ Hmax].
  destruct advertised_hashmap as [Hmap Hlen]. rewrite TRANSFER_MAX_eq, SDU_eq in Hmax. unfold MAX_PARTS in Hm, Hmax.
  pose proof (built_payload _ _ _ _ _ Hb) as Hp. assert (length payload ≤ 3659) by exact Hp.
  split; cbn [advertisement ra_transfer_size ra_data_size ra_num_parts ra_resource_hash ra_random_hash
    ra_original_hash ra_segment_index ra_total_segments ra_request_id_len ra_request_id ra_hashmap_len].
  - rewrite (built_total _ _ _ _ _ Hb). unfold_u64. lia.
  - rewrite (built_data_size _ _ _ _ _ Hb). unfold_u64. lia.
  - unfold_u64. lia.
  - rewrite (built_hash _ _ _ _ _ Hb). apply sha256_length.
  - rewrite (built_tag _ _ _ _ _ Hb). apply Hb.
  - rewrite (built_hash _ _ _ _ _ Hb). apply sha256_length.
  - unfold_u64. lia.
  - unfold_u64. lia.
  - split; [lia|]. by exists [].
  - split; [unfold MAX_PARTS, MAPHASH_LEN; lia|]. split; [by apply Nat.Div0.mod_mul|].
    exists (concat (hashes_of tok random_hash)). split; [done|]. exact Hmap.
Qed.

(** ** Answering a request *)

Definition wanted (hs : list (list Z)) (i : nat) : bool := existsb (λ h, h =k or_map_hashes r !!! i) hs.

Lemma requested_parts_spec req :
  pv_resource_hash req = or_resource_hash r →
  let (idx, n) := requested_parts r req in
  n ≤ MAX_PARTS ∧
  take n idx = base.filter (λ i, wanted (PartRequestView.requested_hashes req) i = true) (seq 0 (or_num_parts r)).
Proof using Hb.
  intros Hh. unfold requested_parts. rewrite bool_decide_eq_true_2 by done. cbn [negb].
  pose proof num_parts_eq as [_ [_ Hm]]. set (hs := PartRequestView.requested_hashes req).
  assert (H : ∀ k, k ≤ MAX_PARTS →
    let (idx, n) := fold_left (λ (acc : list nat * nat) i, let (idx, n) := acc in
      if existsb (λ h, h =k or_map_hashes r !!! i) hs then (<[n := i]> idx, n + 1) else (idx, n))
      (seq 0 k) (replicate MAX_PARTS 0, 0) in
    length idx = MAX_PARTS ∧ n ≤ k ∧ take n idx = base.filter (λ i, wanted hs i = true) (seq 0 k)).
  { induction k as [|k IH]; intros Hk; [split; [by apply length_replicate|]; by split; [lia|]|].
    rewrite seq_S, fold_left_app, filter_app. specialize (IH ltac:(lia)).
    destruct (fold_left _ (seq 0 k) _) as [idx n]. destruct IH as (H1 & H2 & H3). cbn [fold_left Nat.add].
    fold (wanted hs k). destruct (wanted hs k) eqn:Hw.
    - split; [by rewrite length_insert|]. split; [lia|]. rewrite filter_cons_True by done. cbn.
      rewrite Nat.add_1_r, (take_S_r _ _ k) by (apply list_lookup_insert_eq; lia).
      rewrite take_insert. case_decide; [lia|]. by rewrite H3.
    - split; [done|]. split; [lia|]. rewrite filter_cons_False by congruence. cbn. by rewrite app_nil_r. }
  specialize (H (or_num_parts r) Hm). destruct (fold_left _ _ _) as [idx n]. split; [lia|apply H].
Qed.

End sender.
