(* ===== verification/ResourceReceiver.v ===== *)
(** The receiver of a resource transfer (src/src/resource.rs): what holds of it
    after any sequence of admissions, parts, window changes and assembly
    attempts, whatever the bytes. *)

From S2P Require Import Prelude Constants Primitives Records Crypto Links Msgpack ResourcePolicy Resource ResourceSender.
Import InboundResource.

(** ** The run of received parts *)

Lemma advance_spec fuel (received : list bool) total : ∀ completed,
  completed ≤ total → total ≤ completed + fuel →
  let c := advance fuel received total completed in
  completed ≤ c ≤ total ∧ (∀ i, completed ≤ i < c → received !!! i = true) ∧
  (c < total → received !!! c = false).
Proof.
  induction fuel as [|fuel IH]; intros c Hc Hf; cbn [advance].
  { split; [lia|]. split; [intros; lia|lia]. }
  destruct (c <? total) eqn:Hl; bool_hyps; cbn [andb].
  2:{ split; [lia|]. split; [intros; lia|lia]. }
  destruct (received !!! c) eqn:Hr.
  - destruct (IH (c + 1)) as (H1 & H2 & H3); [lia|lia|]. split; [lia|]. split; [|done].
    intros i Hi. destruct (decide (i = c)) as [->|]; [done|]. apply H2. lia.
  - split; [lia|]. split; [intros; lia|done].
Qed.

Lemma missing_until_spec (received : list bool) window ks : ∀ count,
  length ks + count ≤ window →
  missing_until received window count ks = base.filter (λ i, received !!! i = false) ks.
Proof.
  induction ks as [|i ks IH]; intros count Hw; [done|]. cbn [missing_until]. cbn [length] in Hw.
  rewrite filter_cons. destruct (received !!! i) eqn:Hr.
  - rewrite decide_False by congruence. apply IH. lia.
  - rewrite decide_True by done. f_equal. destruct (window <=? count + 1) eqn:He; bool_hyps; [|apply IH; lia].
    destruct ks; [done|]. cbn [length] in Hw. lia.
Qed.

Lemma missing_spec r :
  missing r = base.filter (λ i, ir_received r !!! i = false)
    (seq (ir_consecutive_completed r) (window_end r - ir_consecutive_completed r)).
Proof. apply missing_until_spec. rewrite length_seq. unfold window_end. lia. Qed.

Lemma elem_of_missing r i :
  i ∈ missing r ↔ ir_consecutive_completed r ≤ i < window_end r ∧ ir_received r !!! i = false.
Proof. rewrite missing_spec, list_elem_of_filter, elem_of_seq. split; intros; split; lia || tauto. Qed.

Lemma NoDup_missing r : NoDup (missing r).
Proof. rewrite missing_spec. apply NoDup_filter, NoDup_seq. Qed.

Section receiver.
Context `{SHA : Sha256} `{HMAC : Hmac} `{AES : AesCbc}.

(** ** The invariant *)

(** The payload in the buffer of an assembled resource. *)
Definition payload_of (r : InboundResource) : list Z := slice (ir_buf r) 20 (20 + ir_data_len r).

Record ok_in (r : InboundResource) : Prop := {
  in_buf : length (ir_buf r) = TRANSFER_MAX;
  in_received : length (ir_received r) = MAX_PARTS;
  in_hashes : length (ir_map_hashes r) = MAX_PARTS ∧ Forall (λ h, length h = MAPHASH_LEN) (ir_map_hashes r);
  in_names : length (ir_resource_hash r) = 32 ∧ length (ir_random_hash r) = RANDOM_HASH_SIZE ∧
    length (ir_proof r) = 32;
  in_total : 64 ≤ ir_transfer_size r ≤ TRANSFER_MAX;
  in_data : token_len (RANDOM_HASH_SIZE + ir_data_size r) = ir_transfer_size r;
  in_parts : ir_num_parts r = parts_of (ir_transfer_size r);
  in_window : WindowState.bounded (ir_window r);
  in_run : ir_consecutive_completed r ≤ ir_num_parts r ∧
    (∀ i, i < ir_consecutive_completed r → ir_received r !!! i = true) ∧
    (ir_consecutive_completed r < ir_num_parts r →
     ir_received r !!! ir_consecutive_completed r = false);
  in_assembled : ir_state r = Assembled →
    ir_consecutive_completed r = ir_num_parts r ∧ 20 + ir_data_len r ≤ ir_transfer_size r ∧
    compute_resource_hash (payload_of r) (ir_random_hash r) = ir_resource_hash r ∧
    ir_proof r = compute_expected_proof (payload_of r) (ir_resource_hash r)
}.

Lemma in_count r : ok_in r → 1 ≤ ir_num_parts r ≤ MAX_PARTS.
Proof.
  intros Hr. pose proof (in_total r Hr). rewrite (in_parts r Hr).
  split; [apply parts_of_spec; lia|apply parts_of_max; lia].
Qed.

Lemma expected_end r i :
  ok_in r → i < ir_num_parts r →
  i * SDU + expected_part_len r i = Nat.min ((i + 1) * SDU) (ir_transfer_size r) ∧ 0 < expected_part_len r i.
Proof.
  intros Hr Hi. pose proof (in_total r Hr) as Ht. pose proof (in_parts r Hr) as Hn.
  destruct (parts_of_spec (ir_transfer_size r)) as (_ & Hl & Hu); [lia|]. rewrite <- Hn in Hl, Hu.
  unfold expected_part_len. destruct (i + 1 =? ir_num_parts r) eqn:He; bool_hyps; rewrite SDU_eq in *.
  - replace (ir_num_parts r - 1) with i in Hl by lia. rewrite <- He in Hu. lia.
  - assert ((i + 1) * 464 ≤ (ir_num_parts r - 1) * 464) by (apply Nat.mul_le_mono_r; lia). lia.
Qed.

Lemma window_range r :
  ok_in r → ir_consecutive_completed r ≤ window_end r ≤ ir_num_parts r.
Proof. intros Hr. pose proof (in_run r Hr) as [Hc _]. unfold window_end. lia. Qed.

(** ** Storing a part *)

(** The slot a part goes to. *)
Definition fits (r : InboundResource) (p : list Z) (i : nat) : Prop :=
  ir_consecutive_completed r ≤ i < window_end r ∧ ir_received r !!! i = false ∧
  ir_map_hashes r !!! i = get_map_hash p (ir_random_hash r) ∧ length p = expected_part_len r i.

Lemma open_slot_Some r p i : open_slot r p = Some i → fits r p i.
Proof.
  unfold open_slot. intros H. apply find_some in H as [Hin Ht]. apply list_elem_of_In, elem_of_seq in Hin.
  apply andb_true_iff in Ht as [[Hr Hh]%andb_true_iff Hl]. apply negb_true_iff in Hr.
  apply bool_decide_eq_true in Hh. apply Nat.eqb_eq in Hl. split; [lia|done].
Qed.

Lemma open_slot_None r p i : open_slot r p = None → ¬ fits r p i.
Proof.
  unfold open_slot. intros H (Hi & Hr & Hh & Hl).
  assert (Hin : In i (seq (ir_consecutive_completed r) (window_end r - ir_consecutive_completed r)))
    by (apply list_elem_of_In, elem_of_seq; lia).
  pose proof (find_none _ _ H i Hin) as Hf. cbn in Hf.
  rewrite Hr, (bool_decide_eq_true_2 _ Hh), (proj2 (Nat.eqb_eq _ _) Hl) in Hf. done.
Qed.

Lemma stored_run r i buf :
  ok_in r → i < ir_num_parts r →
  let r' := stored r i buf in
  ir_consecutive_completed r ≤ ir_consecutive_completed r' ≤ ir_num_parts r ∧
  (∀ k, k < ir_consecutive_completed r' → ir_received r' !!! k = true) ∧
  (ir_consecutive_completed r' < ir_num_parts r → ir_received r' !!! ir_consecutive_completed r' = false).
Proof.
  intros Hr Hi. destruct (in_run r Hr) as (Hc & Hrun & _). cbn [stored ir_consecutive_completed ir_received].
  destruct (advance_spec (ir_num_parts r) (<[i := true]> (ir_received r)) (ir_num_parts r)
    (ir_consecutive_completed r)) as (H1 & H2 & H3); [done|lia|].
  split; [done|]. split; [|done]. intros k Hk.
  destruct (decide (k < ir_consecutive_completed r)) as [Hlt|]; [|apply H2; lia].
  destruct (decide (k = i)) as [->|Hne].
  - rewrite list_lookup_total_insert_eq; [done|]. rewrite (in_received r Hr). pose proof (in_count r Hr). lia.
  - rewrite list_lookup_total_insert_ne by done. by apply Hrun.
Qed.

Lemma ok_in_stored r p i :
  ok_in r → ir_state r = Transferring → fits r p i →
  copy_into (E := ResourceError.t) (ir_buf r) (i * SDU) p = Ok (splice (i * SDU) p (ir_buf r)) ∧
  ok_in (stored r i (splice (i * SDU) p (ir_buf r))).
Proof.
  intros Hr Hs (Hi & _ & _ & Hl). pose proof (window_range r Hr) as Hw. pose proof (in_total r Hr) as Ht.
  destruct (expected_end r i Hr) as [He _]; [lia|]. pose proof (in_buf r Hr) as Hb.
  split; [apply copy_into_Ok; lia|]. destruct (stored_run r i (splice (i * SDU) p (ir_buf r)) Hr) as (H1 & H2 & H3); [lia|].
  destruct Hr as [Hb' Hrc Hh Hn Ht' Hd Hp Hwb Hrun Ha].
  split; try done; cbn [stored ir_buf ir_received ir_state].
  - rewrite length_splice; lia.
  - by rewrite length_insert.
  - split; [apply H1|done].
  - congruence.
Qed.

Lemma receive_part_spec p r :
  ok_in r →
  match receive_part p r with
  | Ok (b, r') => ok_in r' ∧
      if b then ∃ i, fits r p i ∧ r' = stored r i (splice (i * SDU) p (ir_buf r)) ∧ ir_state r = Transferring
      else r' = r ∧ ∀ i, ir_state r = Transferring → ¬ fits r p i
  | Err _ => False
  | Panic => False
  end.
Proof.
  intros Hr. unfold receive_part. destruct (bool_decide _) eqn:Hs; cbn [negb].
  2:{ apply bool_decide_eq_false in Hs. split; [done|]. by split. }
  apply bool_decide_eq_true in Hs. destruct (open_slot r p) as [i|] eqn:Ho.
  - apply open_slot_Some in Ho. destruct (ok_in_stored r p i Hr Hs Ho) as [-> Hok]. cbn [obind].
    split; [done|]. by exists i.
  - split; [done|]. split; [done|]. intros i _. by apply open_slot_None.
Qed.

(** A part that matches is in the window or already received. *)
Lemma matches_part_spec r p :
  matches_part r p = true ↔
  ir_state r ≠ CorruptState ∧ ∃ i, i < ir_num_parts r ∧
    (ir_received r !!! i = true ∨ ir_consecutive_completed r ≤ i < window_end r) ∧
    ir_map_hashes r !!! i = get_map_hash p (ir_random_hash r) ∧ length p = expected_part_len r i.
Proof.
  unfold matches_part. destruct (bool_decide (ir_state r = CorruptState)) eqn:Hs.
  { apply bool_decide_eq_true in Hs. split; [done|]. by intros [? _]. }
  apply bool_decide_eq_false in Hs. rewrite existsb_exists. split.
  - intros (i & Hi & Ht). split; [done|]. exists i. apply list_elem_of_In, elem_of_range in Hi.
    rewrite !andb_true_iff, orb_true_iff, andb_true_iff, bool_decide_eq_true, Nat.leb_le, Nat.ltb_lt, Nat.eqb_eq in Ht.
    destruct Ht as [[Hw Hh] Hl]. by split.
  - intros (_ & i & Hi & Hw & Hh & Hl). exists i. split; [by apply list_elem_of_In, elem_of_range|].
    by rewrite !andb_true_iff, orb_true_iff, andb_true_iff, bool_decide_eq_true, Nat.leb_le, Nat.ltb_lt, Nat.eqb_eq.
Qed.

Lemma fits_matches r p i : ok_in r → ir_state r = Transferring → fits r p i → matches_part r p = true.
Proof.
  intros Hr Hs (Hi & _ & Hh & Hl). pose proof (window_range r Hr). apply matches_part_spec. rewrite Hs.
  split; [done|]. exists i. split; [lia|]. split; [by right|done].
Qed.

Lemma stored_matches r p i buf :
  ok_in r → ir_state r = Transferring → fits r p i → matches_part (stored r i buf) p = true.
Proof.
  intros Hr Hs (Hi & _ & Hh & Hl). pose proof (window_range r Hr). pose proof (in_count r Hr).
  apply matches_part_spec. cbn [stored ir_state ir_num_parts ir_received ir_map_hashes ir_random_hash].
  rewrite Hs. split; [done|]. exists i. split; [lia|]. split; [|done]. left.
  apply list_lookup_total_insert_eq. rewrite (in_received r Hr). lia.
Qed.

(** ** The window *)

(** The host's access to the public window. *)
Definition set_window (w : WindowState) (r : InboundResource) : InboundResource :=
  {| ir_buf := ir_buf r; ir_resource_hash := ir_resource_hash r; ir_random_hash := ir_random_hash r;
     ir_proof := ir_proof r; ir_transfer_size := ir_transfer_size r; ir_data_size := ir_data_size r;
     ir_data_len := ir_data_len r; ir_num_parts := ir_num_parts r;
     ir_consecutive_completed := ir_consecutive_completed r; ir_received := ir_received r;
     ir_map_hashes := ir_map_hashes r; ir_state := ir_state r; ir_window := w |}.

Lemma ok_in_window w r : ok_in r → WindowState.bounded w → ok_in (set_window w r).
Proof. intros [H1 H2 H3 H4 H5 H6 H7 H8 H9 H10] Hw. by split. Qed.

(** ** Assembly *)

Lemma on_range_prefix {E A} (c : st (list Z) E A) n buf res d :
  n ≤ length buf → c (take n buf) = (res, d) → length d = n →
  on_range 0 n c buf = (res, d ++ drop n buf).
Proof.
  intros Hn Hc Hd. unfold on_range. unfold slice. rewrite drop_0, Nat.sub_0_r, Hc. by rewrite splice_0, Hd.
Qed.

Lemma open_token_shorter key blob p : open_token key blob = Ok p → length p + 48 ≤ length blob.
Proof.
  unfold open_token. destruct (length blob <? 64) eqn:Hl; bool_hyps; [done|].
  destruct (negb _); [done|]. destruct (negb _); [done|]. intros Hu.
  destruct (take_unpadded _ _ Hu) as [_ Hle]. rewrite cbc_decrypt_length, length_drop, length_take in Hle. lia.
Qed.

Lemma drop_slice (l : list Z) k i j : i + k ≤ j → drop k (slice l i j) = slice l (i + k) j.
Proof. intros H. unfold slice. rewrite skipn_firstn_comm, drop_drop. replace (j - i - k) with (j - (i + k)) by lia. done. Qed.

(** What assembly does to a complete resource, by the opening of the Token in
    its buffer. *)
Lemma assemble_complete keys r :
  ok_in r → ir_state r = Transferring → ir_consecutive_completed r = ir_num_parts r →
  ∃ buf', length buf' = TRANSFER_MAX ∧
  match open_token keys (take (ir_transfer_size r) (ir_buf r)) with
  | Ok p =>
      let d := drop RANDOM_HASH_SIZE p in
      assemble keys r =
        (if length p <? RANDOM_HASH_SIZE
        then (Err ResourceError.Corrupt, with_outcome r buf' (ir_proof r) (ir_data_len r) CorruptState)
        else if negb (compute_resource_hash d (ir_random_hash r) =k ir_resource_hash r)
        then (Err ResourceError.HashMismatch, with_outcome r buf' (ir_proof r) (ir_data_len r) CorruptState)
        else (Ok (length d),
              with_outcome r buf' (compute_expected_proof d (ir_resource_hash r)) (length d) Assembled)) ∧
      16 + length p ≤ ir_transfer_size r ∧ slice buf' 16 (16 + length p) = p
  | _ => assemble keys r = (Err (ResourceError.Crypto AuthenticationFailed),
                            with_outcome r buf' (ir_proof r) (ir_data_len r) CorruptState)
  end.
Proof.
  intros Hr Hs Hc. pose proof (in_total r Hr) as Ht. pose proof (in_buf r Hr) as Hb.
  set (blob := take (ir_transfer_size r) (ir_buf r)).
  assert (Hbl : length blob = ir_transfer_size r) by (unfold blob; rewrite length_take; lia).
  destruct (token_decrypt_in_place_spec keys blob) as (d & Hd & Hlen & Hp & _).
  rewrite Hbl in Hlen. exists (d ++ drop (ir_transfer_size r) (ir_buf r)).
  split; [rewrite length_app, length_drop; lia|].
  unfold assemble. rewrite (bool_decide_eq_true_2 _ Hs). unfold is_complete. rewrite (proj2 (Nat.eqb_eq _ _) Hc).
  cbn [negb]. assert (Hle : ir_transfer_size r ≤ length (ir_buf r)) by lia.
  rewrite (on_range_prefix _ _ _ _ _ Hle Hd Hlen).
  destruct (open_token keys blob) as [p|e|] eqn:Ho; [|done|done]. cbv zeta.
  specialize (Hp p eq_refl). pose proof (open_token_shorter keys blob p Ho) as Hsh. rewrite Hbl in Hsh.
  assert (Hsl : slice (d ++ drop (ir_transfer_size r) (ir_buf r)) 16 (16 + length p) = p)
    by (rewrite slice_app_l by lia; done).
  split; [|split; [lia|done]].
  destruct (length p <? RANDOM_HASH_SIZE) eqn:Hl; bool_hyps; [done|].
  replace (16 + RANDOM_HASH_SIZE + (length p - RANDOM_HASH_SIZE)) with (16 + length p) by lia.
  rewrite slice_get_Ok by (unfold RANDOM_HASH_SIZE in *; rewrite ?length_app; lia).
  assert (Hdata : slice (d ++ drop (ir_transfer_size r) (ir_buf r)) (16 + RANDOM_HASH_SIZE) (16 + length p)
    = drop RANDOM_HASH_SIZE p).
  { rewrite <- Hsl at 2. symmetry. apply drop_slice. lia. }
  rewrite Hdata, length_drop. done.
Qed.

Lemma ok_in_failed r buf : ok_in r → length buf = TRANSFER_MAX →
  ok_in (with_outcome r buf (ir_proof r) (ir_data_len r) CorruptState).
Proof. intros [H1 H2 H3 H4 H5 H6 H7 H8 H9 H10] Hb. by split. Qed.

Lemma assemble_spec keys r :
  ok_in r →
  match assemble keys r with
  | (Ok n, r') => ok_in r' ∧ ir_state r = Transferring ∧ ir_state r' = Assembled ∧ ir_data_len r' = n ∧
      ∃ p, open_token keys (take (ir_transfer_size r) (ir_buf r)) = Ok p ∧
           RANDOM_HASH_SIZE ≤ length p ∧ payload_of r' = drop RANDOM_HASH_SIZE p
  | (Err e, r') => ok_in r' ∧
      match e with
      | ResourceError.InvalidState => ir_state r ≠ Transferring ∧ r' = r
      | ResourceError.Incomplete => ir_consecutive_completed r ≠ ir_num_parts r ∧ r' = r
      | _ => ir_state r' = CorruptState
      end
  | (Panic, _) => False
  end.
Proof.
  intros Hr. destruct (decide (ir_state r = Transferring)) as [Hs|Hs].
  2:{ unfold assemble. rewrite bool_decide_eq_false_2 by done. by split. }
  destruct (decide (ir_consecutive_completed r = ir_num_parts r)) as [Hc|Hc].
  2:{ unfold assemble. rewrite bool_decide_eq_true_2 by done. unfold is_complete.
      rewrite (proj2 (Nat.eqb_neq _ _) Hc). by split. }
  destruct (assemble_complete keys r Hr Hs Hc) as (buf & Hb & H).
  pose proof (ok_in_failed r buf Hr Hb) as Hf.
  destruct (open_token _ _) as [p|e|]; cycle 1; [by rewrite H|by rewrite H|].
  cbv zeta in H. destruct H as (-> & Hl & Hp). destruct (length p <? RANDOM_HASH_SIZE) eqn:Hn; bool_hyps; [done|].
  destruct (bool_decide _) eqn:Hh; cbn [negb]; [|done]. apply bool_decide_eq_true in Hh.
  assert (Hpay : payload_of (with_outcome r buf (compute_expected_proof (drop RANDOM_HASH_SIZE p) (ir_resource_hash r))
    (length (drop RANDOM_HASH_SIZE p)) Assembled) = drop RANDOM_HASH_SIZE p).
  { unfold payload_of. cbn [with_outcome ir_buf ir_data_len]. rewrite length_drop. rewrite <- Hp at 2.
    rewrite drop_slice by (unfold RANDOM_HASH_SIZE in *; lia). f_equal. unfold RANDOM_HASH_SIZE in *. lia. }
  split; [|split; [done|]; split; [done|]; split; [done|]; by exists p].
  destruct Hr as [H1 H2 H3 H4 H5 H6 H7 H8 H9 H10]. split; try done; cbn [with_outcome ir_buf ir_proof ir_state].
  - destruct H4 as (? & ? & _). split; [done|]. split; [done|]. apply sha256_length.
  - intros _. split; [done|]. rewrite Hpay. split; [|done].
    cbn [with_outcome ir_data_len ir_transfer_size]. rewrite length_drop. unfold RANDOM_HASH_SIZE in *. lia.
Qed.

(** ** Admission *)

(** The advertisements a receiver takes. *)
Record admissible (adv : ResourceAdv) (expected : option (list Z)) : Prop := {
  adm_plain : rf_compressed (ra_flags adv) = false ∧ rf_has_metadata (ra_flags adv) = false ∧
    rf_split (ra_flags adv) = false ∧ rf_is_request (ra_flags adv) = false ∧
    rf_encrypted (ra_flags adv) = true;
  adm_segment : ra_total_segments adv = 1%Z ∧ ra_segment_index adv = 1%Z;
  adm_purpose : match expected with
    | None => rf_is_response (ra_flags adv) = false ∧ ra_request_id_len adv = 0
    | Some id => rf_is_response (ra_flags adv) = true ∧ ra_request_id_len adv = 16 ∧
                 take 16 (ra_request_id adv) = id
    end;
  adm_sizes : 64 ≤ Z.to_nat (ra_transfer_size adv) ≤ TRANSFER_MAX ∧
    Z.to_nat (ra_data_size adv) ≤ DATA_MAX ∧
    token_len (RANDOM_HASH_SIZE + Z.to_nat (ra_data_size adv)) = Z.to_nat (ra_transfer_size adv);
  adm_parts : ra_num_parts adv = Z.of_nat (parts_of (Z.to_nat (ra_transfer_size adv))) ∧
    ra_hashmap_len adv = parts_of (Z.to_nat (ra_transfer_size adv)) * MAPHASH_LEN
}.

(** The map hashes of an advertisement, in the receiver's array. *)
Definition adv_hashes (adv : ResourceAdv) (n : nat) : list (list Z) :=
  ((λ i, slice (ra_hashmap adv) (i * MAPHASH_LEN) ((i + 1) * MAPHASH_LEN)) <$> seq 0 n)
    ++ replicate (MAX_PARTS - n) (zeros MAPHASH_LEN).

Lemma length_hashmap adv : ResourceAdv.good adv → length (ra_hashmap adv) = MAX_PARTS * MAPHASH_LEN.
Proof.
  intros Hg. destruct (ResourceAdv.good_hashmap adv Hg) as (Hl & _ & v & Hv & ->).
  rewrite length_app, Hv. unfold zeros. rewrite length_replicate. lia.
Qed.

Lemma validate_adv_spec adv expected :
  ResourceAdv.good adv →
  match validate_adv adv expected with
  | Ok (hashes, n) => admissible adv expected ∧ n = parts_of (Z.to_nat (ra_transfer_size adv)) ∧
                      hashes = adv_hashes adv n
  | Err _ => ¬ admissible adv expected
  | Panic => False
  end.
Proof.
  intros Hg. pose proof (ResourceAdv.good_transfer_size adv Hg) as Ht.
  pose proof (ResourceAdv.good_data_size adv Hg) as Hd. pose proof (length_hashmap adv Hg) as Hm.
  assert (Hpos : (0 ≤ ra_transfer_size adv)%Z ∧ (0 ≤ ra_data_size adv)%Z) by (unfold_u64; lia).
  unfold validate_adv.
  destruct (rf_compressed _) eqn:Hc; [by intros [(? & _) _ _ _ _]; congruence|].
  destruct (rf_has_metadata _) eqn:Hmd; [by intros [(_ & ? & _) _ _ _ _]; congruence|].
  destruct (rf_split _ || _ || _) eqn:Hs.
  { intros [(_ & _ & H1 & _) [H2 H3] _ _ _]. rewrite H1, H2, H3 in Hs. done. }
  bool_hyps.
  destruct (negb (match expected with None => _ | Some _ => _ end)) eqn:Hp.
  { intros [(_ & _ & _ & A1 & _) _ A2 _ _]. rewrite A1 in Hp. destruct expected as [id|].
    - destruct A2 as (A2 & A3 & A4). rewrite A2, A3, A4 in Hp. by rewrite bool_decide_eq_true_2 in Hp.
    - destruct A2 as [A2 A3]. by rewrite A2, A3 in Hp. }
  destruct (negb (rf_encrypted _)) eqn:He; [by intros [(_ & _ & _ & _ & A) _ _ _ _]; rewrite A in He|].
  destruct (_ || _)%bool eqn:Hl.
  { intros [_ _ _ (A1 & A2 & _) _]. bool_hyps. destruct Hl; bool_hyps; lia. }
  destruct (_ <? TOKEN_OVERHEAD + 16) eqn:H64.
  { intros [_ _ _ (A1 & _) _]. bool_hyps. change (TOKEN_OVERHEAD + 16) with 64 in H64. lia. }
  destruct (negb _) eqn:Htl in |- *; [intros [_ _ _ (_ & _ & A) _]; bool_hyps; done|].
  destruct (negb _) eqn:Hnp in |- *; [intros [_ _ _ _ (A & _)]; bool_hyps; done|].
  destruct (negb _) eqn:Hhl in |- *; [intros [_ _ _ _ (_ & A)]; bool_hyps; done|].
  bool_hyps. change (TOKEN_OVERHEAD + 16) with 64 in H64.
  assert (Hmax : parts_of (Z.to_nat (ra_transfer_size adv)) ≤ MAX_PARTS) by (apply parts_of_max; lia).
  rewrite Nat.min_l by done.
  rewrite (collect_Ok _ (λ i, slice (ra_hashmap adv) (i * MAPHASH_LEN) ((i + 1) * MAPHASH_LEN))).
  2:{ intros i Hi%elem_of_range. apply slice_get_Ok; [unfold MAPHASH_LEN; lia|]. rewrite Hm. apply Nat.mul_le_mono_r. lia. }
  cbn [obind]. split; [|done]. split; [|done| |split; [lia|]; split; [lia|done]|done].
  - destruct expected; bool_hyps; by repeat split.
  - destruct expected; bool_hyps; by repeat split.
Qed.

Lemma length_adv_hashes adv n :
  ResourceAdv.good adv → n ≤ MAX_PARTS →
  length (adv_hashes adv n) = MAX_PARTS ∧ Forall (λ h, length h = MAPHASH_LEN) (adv_hashes adv n).
Proof.
  intros Hg Hn. pose proof (length_hashmap adv Hg) as Hm. unfold adv_hashes. split.
  - rewrite length_app, length_fmap, length_seq, length_replicate. lia.
  - apply Forall_app. split; [|by apply Forall_replicate]. apply Forall_fmap, Forall_forall.
    intros i Hi%elem_of_range. cbn. rewrite length_slice; [unfold MAPHASH_LEN; lia..|].
    rewrite Hm. apply Nat.mul_le_mono_r. lia.
Qed.

Lemma ok_in_accepted adv expected :
  ResourceAdv.good adv → admissible adv expected →
  let n := parts_of (Z.to_nat (ra_transfer_size adv)) in ok_in (accepted adv (adv_hashes adv n) n).
Proof.
  intros Hg [_ _ _ (Ht & Hd & Htl) _]. cbv zeta. set (n := parts_of _).
  assert (Hn : 1 ≤ n ≤ MAX_PARTS) by (unfold n; split; [apply parts_of_spec; lia|apply parts_of_max; lia]).
  split; cbn [accepted ir_buf ir_received ir_map_hashes ir_resource_hash ir_random_hash ir_proof ir_transfer_size
    ir_data_size ir_data_len ir_num_parts ir_consecutive_completed ir_state ir_window]; try done.
  - apply length_adv_hashes; [done|lia].
  - split; [apply Hg|]. by split; [apply Hg|].
  - apply WindowState.bounded_new.
  - split; [lia|]. split; [lia|]. intros _. apply list_lookup_total_correct, lookup_replicate_2.
    unfold MAX_PARTS. lia.
Qed.

Lemma accept_into_spec adv expected r :
  ResourceAdv.good adv → ok_in r →
  match accept_into adv expected r with
  | (Ok _, r') => admissible adv expected ∧ ok_in r' ∧ ir_state r' = Transferring ∧
      ir_resource_hash r' = ra_resource_hash adv ∧ ir_random_hash r' = ra_random_hash adv
  | (Err _, r') => ¬ admissible adv expected ∧ r' = r
  | (Panic, _) => False
  end.
Proof.
  intros Hg Hr. pose proof (validate_adv_spec adv expected Hg) as H. unfold accept_into, commit_state.
  destruct (validate_adv adv expected) as [[hashes n]|e|]; cbn [obind]; [|done|done].
  destruct H as (Ha & -> & ->). split; [done|]. split; [|done]. by eapply ok_in_accepted.
Qed.

(** ** Requests and proofs *)

(** The hashes a request names. *)
Definition wanted_hashes (r : InboundResource) : list (list Z) := (λ i, ir_map_hashes r !!! i) <$> missing r.

Definition part_request_bytes (r : InboundResource) : list Z :=
  HASHMAP_IS_NOT_EXHAUSTED :: ir_resource_hash r ++ concat (wanted_hashes r).

Lemma hash_at r i : ok_in r → i < MAX_PARTS → length (ir_map_hashes r !!! i) = MAPHASH_LEN.
Proof.
  intros Hr Hi. destruct (in_hashes r Hr) as [Hl Hf].
  apply (Forall_lookup_1 _ _ i _ Hf). apply list_lookup_lookup_total_lt. lia.
Qed.

Lemma wanted_good r : ok_in r → Forall (λ h, length h = MAPHASH_LEN) (wanted_hashes r).
Proof.
  intros Hr. apply Forall_fmap, Forall_forall. intros i [Hi _]%elem_of_missing. apply hash_at; [done|].
  pose proof (window_range r Hr). pose proof (in_count r Hr). lia.
Qed.

Lemma length_request r : ok_in r → length (part_request_bytes r) = 33 + length (missing r) * MAPHASH_LEN.
Proof.
  intros Hr. destruct (in_names r Hr) as (Hh & _). unfold part_request_bytes. cbn [length].
  rewrite length_app, Hh, <- records_hashes, (length_records (FW := hash_fixed)) by by apply wanted_good.
  cbn [record_width hash_fixed]. unfold wanted_hashes. rewrite length_fmap. lia.
Qed.

Lemma write_wanted_spec r ks : ∀ pos out,
  Forall (λ i, length (ir_map_hashes r !!! i) = MAPHASH_LEN) ks →
  pos + length ks * MAPHASH_LEN ≤ length out →
  for_each (write_wanted r) ks (pos, out) =
    Ok (pos + length ks * MAPHASH_LEN, splice pos (concat ((λ i, ir_map_hashes r !!! i) <$> ks)) out).
Proof.
  induction ks as [|i ks IH]; intros pos out Hf Hl.
  - cbn. rewrite Nat.add_0_r. unfold splice. cbn. by rewrite Nat.add_0_r, take_drop.
  - apply Forall_cons in Hf as [Hi Hf]. cbn [length] in *. cbn [for_each write_wanted].
    rewrite copy_into_Ok by (unfold MAPHASH_LEN in *; lia). cbn [obind].
    rewrite IH; [|done|rewrite length_splice; unfold MAPHASH_LEN in *; lia].
    cbn [fmap list_fmap concat].
    replace (pos + MAPHASH_LEN + length ks * MAPHASH_LEN) with (pos + S (length ks) * MAPHASH_LEN)
      by (unfold MAPHASH_LEN; lia).
    replace (pos + MAPHASH_LEN) with (pos + length (ir_map_hashes r !!! i)) by lia. rewrite splice_splice; [done|].
     assert (Hc : length (concat ((λ i, ir_map_hashes r !!! i) <$> ks)) = length ks * MAPHASH_LEN).
    { rewrite <- records_hashes, (length_records (FW := hash_fixed)) by by apply Forall_fmap.
      by rewrite length_fmap. }
    unfold MAPHASH_LEN in *. lia.
Qed.

Lemma build_part_request_spec r out :
  ok_in r →
  build_part_request r out =
    if bool_decide (ir_state r = Transferring) && negb (is_complete r) then
      if length out <? length (part_request_bytes r) then (Err ResourceError.OutputTooSmall, out)
      else (Ok (length (part_request_bytes r)), splice 0 (part_request_bytes r) out)
    else (Err ResourceError.InvalidState, out).
Proof.
  intros Hr. unfold build_part_request. destruct (bool_decide _); cbn [negb andb orb]; [|done].
  destruct (is_complete r); cbn [negb]; [done|]. rewrite (length_request r Hr). change (1 + 32) with 33.
  destruct (_ <? _) eqn:Hl; bool_hyps; [done|]. destruct (in_names r Hr) as (Hh & _).
  rewrite store_Ok by lia. cbn [obind]. rewrite copy_into_Ok by (rewrite length_insert; lia). cbn [obind].
  assert (Hz : splice 1 (ir_resource_hash r) (<[0 := HASHMAP_IS_NOT_EXHAUSTED]> out)
    = splice 0 (HASHMAP_IS_NOT_EXHAUSTED :: ir_resource_hash r) out).
  { destruct out as [|z out]; [cbn in Hl; lia|]. cbn [insert list_insert]. unfold splice. done. }
  rewrite Hz. assert (Hlen : length (HASHMAP_IS_NOT_EXHAUSTED :: ir_resource_hash r) = 33) by (cbn; lia).
  rewrite write_wanted_spec; [| |rewrite length_splice; lia].
  2:{ pose proof (wanted_good r Hr) as Hg. by apply Forall_fmap in Hg. }
  f_equal. fold (wanted_hashes r). unfold part_request_bytes. rewrite app_comm_cons.
  rewrite <- (splice_splice 0), Hlen; [done|].
  pose proof (length_request r Hr) as Hq. unfold part_request_bytes in Hq. rewrite app_comm_cons, length_app in Hq. lia.
Qed.

Lemma build_proof_spec r out :
  ok_in r →
  build_proof r out =
    if bool_decide (ir_state r = Assembled) then
      if length out <? PROOF_LEN then (Err ResourceError.OutputTooSmall, out)
      else (Ok PROOF_LEN, splice 0 (ir_resource_hash r ++ ir_proof r) out)
    else (Err ResourceError.InvalidState, out).
Proof.
  intros Hr. unfold build_proof. destruct (bool_decide _); cbn [negb]; [|done].
  destruct (_ <? _) eqn:Hl; bool_hyps; [done|]. destruct (in_names r Hr) as (Hh & _ & Hp). unfold PROOF_LEN in *.
  rewrite copy_into_Ok by lia. cbn [obind]. rewrite copy_into_Ok by (rewrite length_splice; lia).
  f_equal. rewrite <- Hh at 1. apply (splice_splice 0). lia.
Qed.

Lemma data_spec r :
  ok_in r → data r = Ok (if bool_decide (ir_state r = Assembled) then Some (payload_of r) else None).
Proof.
  intros Hr. unfold data. destruct (bool_decide _) eqn:Hs; cbn [negb]; [|done]. bool_hyps.
  destruct (in_assembled r Hr Hs) as (_ & Hl & _). pose proof (in_total r Hr). pose proof (in_buf r Hr).
  rewrite slice_get_Ok by (unfold RANDOM_HASH_SIZE; lia). done.
Qed.

(** ** Runs of a receiver *)

(** What the host does with a receiver, whatever arrives: admit an advertisement
    read from the wire, hand over a part, adjust the window, try to assemble. *)
Inductive step : InboundResource → InboundResource → Prop :=
| step_accept r wire adv expected :
    bytes wire → ResourceAdv.parse wire = Ok adv → step r (snd (accept_into adv expected r))
| step_part r p b r' : receive_part p r = Ok (b, r') → step r r'
| step_window r w : WindowState.step (ir_window r) w → step r (set_window w r)
| step_assemble r keys : step r (snd (assemble keys r)).

Lemma parsed_good wire adv : bytes wire → ResourceAdv.parse wire = Ok adv → ResourceAdv.good adv.
Proof. intros Hb Hp. pose proof (ResourceAdv.parse_sound wire Hb) as H. by rewrite Hp in H. Qed.

Lemma ok_in_step r r' : ok_in r → step r r' → ok_in r'.
Proof.
  intros Hr Hs. destruct Hs as [r wire adv expected Hb Hp|r p b r' Hp|r w Hw|r keys].
  - pose proof (accept_into_spec adv expected r (parsed_good wire adv Hb Hp) Hr) as H.
    destruct (accept_into adv expected r) as [[u|e|] r']; [apply H|by destruct H as [_ ->]|done].
  - pose proof (receive_part_spec p r Hr) as H. rewrite Hp in H. apply H.
  - apply ok_in_window; [done|]. eapply WindowState.bounded_step; [apply Hr|done].
  - pose proof (assemble_spec keys r Hr) as H. destruct (assemble keys r) as [[n|e|] r']; by apply H || done.
Qed.

Lemma ok_in_from adv r : ResourceAdv.good adv → from_advertisement adv = Ok r → ok_in r.
Proof.
  intros Hg H. unfold from_advertisement in H. pose proof (validate_adv_spec adv None Hg) as Hv.
  destruct (validate_adv adv None) as [[hashes n]|e|]; cbn [obind] in H; [|done|done].
  injection H as <-. destruct Hv as (Ha & -> & ->). by eapply ok_in_accepted.
Qed.


End receiver.
