(* ===== verification/ResourceTransfer.v ===== *)
(** A resource transfer between the two ends of a link (src/src/resource.rs):
    the receiver of a sender's advertisement, the requests it writes, the parts
    the sender answers with, and the assembly and proof that end the transfer. *)

From S2P Require Import Prelude Constants Primitives Records Crypto Links Msgpack ResourcePolicy Resource ResourceSender ResourceReceiver.
Import OutboundResource InboundResource.

(** ** Slices of a buffer under a write elsewhere *)

Lemma slice_splice_ne (l d : list Z) off i j :
  off + length d ≤ length l → i ≤ j → j ≤ length l → j ≤ off ∨ off + length d ≤ i →
  slice (splice off d l) i j = slice l i j.
Proof.
  intros Hl Hij Hj [H|H]; unfold slice.
  - rewrite <- !skipn_firstn_comm. by rewrite take_splice_le by lia.
  - by rewrite drop_splice_ge by lia.
Qed.

Lemma filter_ext_in {A} (P Q : A → Prop) `{!∀ x, Decision (P x), !∀ x, Decision (Q x)} (l : list A) :
  (∀ x, x ∈ l → (P x ↔ Q x)) → base.filter P l = base.filter Q l.
Proof.
  intros Heq. induction l as [|x l IH]; [done|]. rewrite !filter_cons, IH by (intros; apply Heq; by right).
  pose proof (Heq x ltac:(left)) as Hx. destruct (decide (P x)), (decide (Q x)); tauto || done.
Qed.

Lemma filter_nil {A} (P : A → Prop) `{!∀ x, Decision (P x)} (l : list A) :
  (∀ x, x ∈ l → ¬ P x) → base.filter P l = [].
Proof.
  intros Hn. induction l as [|x l IH]; [done|]. rewrite filter_cons_False by (apply Hn; left).
  apply IH. intros y Hy. apply Hn. by right.
Qed.

(** A run of numbers selected from a longer one. *)
Lemma filter_seq_sub (P : nat → Prop) `{!∀ x, Decision (P x)} a b n :
  a ≤ b → b ≤ n → (∀ x, x < n → P x → a ≤ x < b) →
  base.filter P (seq 0 n) = base.filter P (seq a (b - a)).
Proof.
  intros Hab Hbn Hin. replace n with (a + ((b - a) + (n - b))) by lia. rewrite !seq_app, !filter_app.
  rewrite (filter_nil P (seq 0 a)), (filter_nil P (seq (0 + a + (b - a)) (n - b))), app_nil_r; [done|..];
    intros x Hx%elem_of_seq Hp; apply Hin in Hp; lia.
Qed.

(** ** The exchange *)

Section exchange.
Context `{SHA : Sha256} `{HMAC : Hmac} `{AES : AesCbc}.

(** The host's calls of [grow] and [shrink] between rounds. *)
Inductive adjustment := Grow (rate : Z) | Shrink.

Definition adjust (i : InboundResource) (a : adjustment) : InboundResource :=
  set_window (match a with
              | Grow rate => WindowState.grow rate (ir_window i)
              | Shrink => WindowState.shrink (ir_window i)
              end) i.

(** The sender's parts at the given indices, as far as the network keeps them. *)
Definition send_parts (keep : nat → bool) (s : OutboundResource) (ks : list nat) (i : InboundResource)
  : outcome ResourceError.t InboundResource :=
  for_each (λ k i,
    if keep k then
      let* p := part s k in
      match p with
      | Some p => let* (_, i) := receive_part p i in Ok i
      | None => Ok i
      end
    else Ok i) ks i.

(** A request, its reading at the sender, and the answer. *)
Definition round (keep : nat → bool) (s : OutboundResource) (i : InboundResource)
  : outcome ResourceError.t InboundResource :=
  let (result, out) := build_part_request i (zeros REQUEST_MAX) in
  let* n := result in
  let* req := PartRequestView.parse (take n out) in
  let (idx, count) := requested_parts s req in
  send_parts keep s (take count idx) i.

(** Rounds without loss until the receiver has everything. *)
Fixpoint rounds (s : OutboundResource) (adjs : list (list adjustment)) (i : InboundResource)
  : outcome ResourceError.t InboundResource :=
  match adjs with
  | [] => Ok i
  | adj :: rest =>
      if is_complete i then Ok i
      else let* i := round (λ _, true) s (fold_left adjust adj i) in rounds s rest i
  end.

(** ** A receiver that follows a sender *)

Context (payload : list Z) (keys : LinkKeys) (random_hash iv : list Z) (s : OutboundResource).
Hypothesis Hb : built payload keys random_hash iv s.

Abbreviation tok := (blob_of keys iv random_hash payload).

Record follows (i : InboundResource) : Prop := {
  fol_ok : ok_in i;
  fol_hash : ir_resource_hash i = or_resource_hash s;
  fol_tag : ir_random_hash i = random_hash;
  fol_total : ir_transfer_size i = length tok;
  fol_hashes : ir_map_hashes i = or_map_hashes s;
  fol_bytes : ir_state i = Transferring → ∀ k, k < or_num_parts s → ir_received i !!! k = true →
    slice (ir_buf i) (k * SDU) (Nat.min ((k + 1) * SDU) (length tok)) = part_of tok k;
  fol_done : ir_state i = Transferring ∨ (ir_state i = Assembled ∧ payload_of i = payload)
}.

Lemma fol_parts i : follows i → ir_num_parts i = or_num_parts s.
Proof using Hb.
  intros Hf. rewrite (in_parts i (fol_ok i Hf)), (fol_total i Hf).
  symmetry. by apply (num_parts_eq payload keys random_hash iv s Hb).
Qed.

Lemma expected_genuine i k : follows i → k < or_num_parts s → expected_part_len i k = length (part_of tok k).
Proof using Hb.
  intros Hf Hk. destruct (num_parts_eq payload keys random_hash iv s Hb) as [Hn _].
  pose proof (total_fits payload keys random_hash iv s Hb) as [H64 _].
  rewrite length_part by lia. unfold expected_part_len. by rewrite (fol_parts i Hf), (fol_total i Hf), <- Hn.
Qed.

(** A genuine part fits only its own slot. *)
Lemma fits_genuine i k j :
  follows i → j < or_num_parts s → fits i (part_of tok j) k → k = j.
Proof using Hb.
  intros Hf Hj (Hk & _ & Hh & _). pose proof (window_range i (fol_ok i Hf)) as Hw.
  rewrite (fol_parts i Hf) in Hw. rewrite (fol_hashes i Hf), (fol_tag i Hf) in Hh.
  apply (map_hash_inj payload keys random_hash iv s Hb); [lia|done|].
  by rewrite Hh, (map_hash_at payload keys random_hash iv s Hb).
Qed.

(** Bytes with another map hash fit no slot. *)
Definition foreign (p : list Z) : Prop := get_map_hash p random_hash ∉ hashes_of tok random_hash.

Lemma fits_foreign i p k : follows i → foreign p → ¬ fits i p k.
Proof using Hb.
  intros Hf Hp (Hk & _ & Hh & _). pose proof (window_range i (fol_ok i Hf)) as Hw.
  rewrite (fol_parts i Hf) in Hw. rewrite (fol_hashes i Hf), (fol_tag i Hf) in Hh. apply Hp. rewrite <- Hh.
  rewrite (map_hash_at payload keys random_hash iv s Hb) by lia.
  destruct (num_parts_eq payload keys random_hash iv s Hb) as [Hn _].
  eapply list_elem_of_lookup_2. apply lookup_hashes. lia.
Qed.

Lemma follows_stored i k :
  follows i → ir_state i = Transferring → k < or_num_parts s → fits i (part_of tok k) k →
  follows (stored i k (splice (k * SDU) (part_of tok k) (ir_buf i))).
Proof using Hb.
  intros Hf Hs Hk Hfit. pose proof (fol_ok i Hf) as Hok. destruct (ok_in_stored i _ k Hok Hs Hfit) as [_ Hok'].
  destruct (num_parts_eq payload keys random_hash iv s Hb) as [Hn Hm].
  pose proof (total_fits payload keys random_hash iv s Hb) as [H64 Hmax]. pose proof (in_buf i Hok) as Hbuf.
  assert (Hlen : length (part_of tok k) = Nat.min ((k + 1) * SDU) (length tok) - k * SDU).
  { unfold part_of. destruct (part_bounds tok k) as [? ?]; [lia..|]. apply length_slice; lia. }
  destruct (part_bounds tok k) as [Hk1 Hk2]; [lia..|].
  destruct Hf as [_ H2 H3 H4 H5 H6 H7]. split; try done; [|by left].
  cbn [stored ir_state ir_received ir_buf]. intros _ j Hj Hr.
  destruct (part_bounds tok j) as [Hj1 Hj2]; [lia..|].
  destruct (decide (j = k)) as [->|Hne].
  - replace (Nat.min ((k + 1) * SDU) (length tok)) with (k * SDU + length (part_of tok k)) by lia.
    apply slice_splice. lia.
  - rewrite list_lookup_total_insert_ne in Hr by done. rewrite <- (H6 Hs j Hj Hr).
    apply slice_splice_ne; [lia..|]. assert (j < k ∨ k < j) as [Hlt|Hlt] by lia.
    + left. assert ((j + 1) * SDU ≤ k * SDU) by (apply Nat.mul_le_mono_r; lia). lia.
    + right. assert ((k + 1) * SDU ≤ j * SDU) by (apply Nat.mul_le_mono_r; lia). lia.
Qed.

(** ** What a run does to it *)

(** Parts of the sender in any order and number, bytes that are not its parts,
    window changes, assembly at any time. *)
Inductive fair_step : InboundResource → InboundResource → Prop :=
| fair_genuine i k b i' : k < or_num_parts s → receive_part (part_of tok k) i = Ok (b, i') → fair_step i i'
| fair_foreign i p b i' : foreign p → receive_part p i = Ok (b, i') → fair_step i i'
| fair_window i a : fair_step i (adjust i a)
| fair_assemble i : fair_step i (snd (assemble keys i)).

Lemma follows_adjust i a : follows i → follows (adjust i a).
Proof.
  intros Hf. pose proof (fol_ok i Hf) as Hok. destruct Hf as [_ H2 H3 H4 H5 H6 H7].
  split; try done. apply ok_in_window; [done|]. eapply WindowState.bounded_step; [apply Hok|].
  destruct a; constructor.
Qed.

(** The bytes of a complete transfer are the Token. *)
Lemma complete_bytes i :
  follows i → ir_state i = Transferring → ir_consecutive_completed i = ir_num_parts i →
  take (ir_transfer_size i) (ir_buf i) = tok.
Proof using Hb.
  intros Hf Hs Hc. pose proof (fol_ok i Hf) as Hok. destruct (in_run i Hok) as (_ & Hrun & _).
  rewrite (fol_parts i Hf) in Hc. destruct (num_parts_eq payload keys random_hash iv s Hb) as [Hn _].
  pose proof (total_fits payload keys random_hash iv s Hb) as [H64 _]. rewrite (fol_total i Hf).
  assert (H : ∀ k, k ≤ or_num_parts s →
    take (Nat.min (k * SDU) (length tok)) (ir_buf i) = take (Nat.min (k * SDU) (length tok)) tok).
  { induction k as [|k IH]; intros Hk; [done|]. destruct (part_bounds tok k) as [Hk1 Hk2]; [lia..|].
    pose proof (fol_bytes i Hf Hs k ltac:(lia) (Hrun k ltac:(lia))) as Hp. unfold part_of in Hp.
    specialize (IH ltac:(lia)). rewrite (Nat.min_l (k * SDU)) in IH by lia.
    replace (S k) with (k + 1) by lia.
    rewrite <- (take_slice_app (ir_buf i) (k * SDU)), <- (take_slice_app tok (k * SDU)) by lia.
    by rewrite IH, Hp. }
  specialize (H (or_num_parts s) ltac:(lia)).
  destruct (parts_of_spec (length tok)) as (_ & _ & Hl); [lia|]. rewrite <- Hn in Hl.
  rewrite Nat.min_r in H by lia. rewrite H. by apply take_ge.
Qed.

(** A complete transfer assembles to the payload. *)
Lemma assemble_genuine i :
  follows i → ir_state i = Transferring → ir_consecutive_completed i = ir_num_parts i →
  ∃ i', assemble keys i = (Ok (length payload), i') ∧ follows i' ∧
        ir_state i' = Assembled ∧ payload_of i' = payload.
Proof using Hb.
  intros Hf Hs Hc. pose proof (fol_ok i Hf) as Hok. pose proof (complete_bytes i Hf Hs Hc) as Htok.
  pose proof (assemble_spec keys i Hok) as Hsp. destruct (assemble_complete keys i Hok Hs Hc) as (buf & _ & H).
  rewrite Htok in H, Hsp. unfold blob_of in H at 1, Hsp at 1.
  rewrite open_token_token in H, Hsp by apply Hb. destruct H as (H & _).
  rewrite (drop_app_exact random_hash) in H by apply Hb.
  rewrite length_app, (built_random _ _ _ _ _ Hb), (proj2 (Nat.ltb_ge _ _)) in H by lia.
  rewrite (fol_tag i Hf), (fol_hash i Hf), (built_hash _ _ _ _ _ Hb), bool_decide_eq_true_2 in H by done.
  cbn [negb] in H. rewrite H in Hsp. destruct Hsp as (Hok' & _ & _ & _ & p & Hp & _ & Hpay).
  injection Hp as <-. rewrite (drop_app_exact random_hash) in Hpay by apply Hb.
  eexists. split; [exact H|]. split; [|by split]. destruct Hf as [_ H2 H3 H4 H5 H6 H7].
  split; try done. by right.
Qed.

Lemma follows_receive i p b i' :
  follows i → (foreign p ∨ ∃ k, k < or_num_parts s ∧ p = part_of tok k) →
  receive_part p i = Ok (b, i') → follows i'.
Proof using Hb.
  intros Hf Hp Hr. pose proof (receive_part_spec p i (fol_ok i Hf)) as H. rewrite Hr in H. destruct H as [_ H].
  destruct b; [|by destruct H as [-> _]]. destruct H as (j & Hj & -> & Hs).
  destruct Hp as [Hp|(k & Hk & ->)]; [by destruct (fits_foreign i p j Hf Hp)|].
  pose proof (fits_genuine i j k Hf Hk Hj) as ->. by apply follows_stored.
Qed.

Lemma follows_step i i' : follows i → fair_step i i' → follows i'.
Proof using Hb.
  intros Hf Hs. destruct Hs as [i k b i' Hk Hr|i p b i' Hp Hr|i a|i].
  - eapply follows_receive; [done|right; by exists k|done].
  - eapply follows_receive; [done|by left|done].
  - by apply follows_adjust.
  - destruct (decide (ir_state i = Transferring)) as [Hs|Hs].
    + destruct (decide (ir_consecutive_completed i = ir_num_parts i)) as [Hc|Hc].
      * by destruct (assemble_genuine i Hf Hs Hc) as (i' & -> & Hf' & _).
      * unfold assemble, is_complete. by rewrite bool_decide_eq_true_2, (proj2 (Nat.eqb_neq _ _) Hc).
    + unfold assemble. by rewrite bool_decide_eq_false_2.
Qed.

(** ** Admission of the sender's advertisement *)

Lemma admissible_advertisement : admissible (advertisement s) None.
Proof using Hb.
  pose proof (total_fits payload keys random_hash iv s Hb) as Ht.
  destruct (num_parts_eq payload keys random_hash iv s Hb) as [Hn _].
  split; cbn [advertisement ra_flags ra_total_segments ra_segment_index ra_request_id_len ra_transfer_size
    ra_data_size ra_num_parts ra_hashmap_len]; try done; rewrite ?Nat2Z.id, (built_total _ _ _ _ _ Hb).
  - split; [done|]. rewrite (built_data_size _ _ _ _ _ Hb). split; [apply Hb|]. symmetry. apply length_resource_blob; apply Hb.
  - by rewrite <- Hn.
Qed.

Lemma advertised_hashes : adv_hashes (advertisement s) (or_num_parts s) = or_map_hashes s.
Proof using Hb.
  destruct (advertised_hashmap payload keys random_hash iv s Hb) as [Hmap _].
  destruct (num_parts_eq payload keys random_hash iv s Hb) as [Hn Hm].
  unfold adv_hashes. rewrite (built_hashes _ _ _ _ _ Hb). f_equal. unfold hashes_of at 1. rewrite <- Hn.
  apply list_fmap_ext. intros x k Hk. apply lookup_seq in Hk as [-> Hk]. cbn [Nat.add].
  pose proof (slice_hash (E := ResourceError.t) [] (hashes_of tok random_hash)
    (zeros (MAX_PARTS * MAPHASH_LEN - or_num_parts s * MAPHASH_LEN)) x _
    (hashes_good _ _) (lookup_hashes tok random_hash x ltac:(lia))) as H.
  cbn [length app Nat.add] in H. rewrite <- Hmap in H. apply slice_get_inv in H as (_ & _ & H).
  rewrite Nat.mul_add_distr_r, Nat.mul_1_l. by rewrite <- H.
Qed.

Lemma follows_admitted : ∃ i, from_advertisement (advertisement s) = Ok i ∧ follows i ∧
  ir_state i = Transferring ∧ ir_consecutive_completed i = 0.
Proof using Hb.
  pose proof (advertisement_good payload keys random_hash iv s Hb) as Hg.
  pose proof (validate_adv_spec _ None Hg) as Hv. pose proof admissible_advertisement as Ha.
  destruct (num_parts_eq payload keys random_hash iv s Hb) as [Hn Hm].
  unfold from_advertisement. destruct (validate_adv _ None) as [[hs n]|e|]; [|by destruct Hv|done].
  destruct Hv as (_ & -> & ->). cbn [obind]. pose proof (ok_in_accepted _ None Hg Ha) as Hok.
  cbn [advertisement ra_transfer_size] in Hok |- *. rewrite Nat2Z.id in Hok |- *. eexists. split; [done|]. split; [|done].
  split; cbn [accepted advertisement ir_resource_hash ir_random_hash ir_transfer_size ir_map_hashes ir_state
    ir_received ra_resource_hash ra_random_hash ra_transfer_size]; rewrite ?Nat2Z.id.
  - exact Hok.
  - done.
  - apply Hb.
  - apply Hb.
  - rewrite (built_total _ _ _ _ _ Hb), <- Hn. apply advertised_hashes.
  - intros _ k Hk. rewrite lookup_total_replicate_2 by lia. done.
  - by left.
Qed.

(** ** Requests *)

Lemma parse_part_request i :
  ok_in i →
  ∃ v, PartRequestView.parse (part_request_bytes i) = Ok v ∧ pv_wants_more_hashmap v = false ∧
       pv_resource_hash v = ir_resource_hash i ∧ PartRequestView.requested_hashes v = wanted_hashes i.
Proof.
  intros Hok. destruct (in_names i Hok) as (Hh & _). pose proof (length_request i Hok) as Hl.
  unfold PartRequestView.parse. unfold part_request_bytes at 1. cbn [lookup list_lookup ok_or obind].
  change (HASHMAP_IS_NOT_EXHAUSTED =? HASHMAP_IS_EXHAUSTED)%Z with false. cbv iota zeta. change (1 + 32) with 33.
  rewrite (proj2 (Nat.ltb_ge _ _)) by lia. cbn [obind]. rewrite slice_get_Ok by lia. cbn [obind].
  eexists. split; [done|]. split; [done|]. cbn [pv_resource_hash]. split.
  { apply (slice_app_exact [HASHMAP_IS_NOT_EXHAUSTED] (ir_resource_hash i)); [done|cbn; lia]. }
  assert (Hq : drop 33 (part_request_bytes i) = concat (wanted_hashes i)).
  { unfold part_request_bytes. rewrite app_comm_cons. apply drop_app_exact. cbn. lia. }
  pose proof (wanted_good i Hok) as Hg.
  assert (Hlc : length (concat (wanted_hashes i)) = length (wanted_hashes i) * MAPHASH_LEN)
    by (rewrite <- records_hashes; by apply (length_records (FW := hash_fixed))).
  unfold PartRequestView.requested_hashes, PartRequestView.requested_count. cbn [pv_requested].
  rewrite Hq, Hlc, Nat.div_mul by done. apply list_eq. intros k.
  rewrite list_lookup_fmap. destruct (decide (k < length (wanted_hashes i))) as [Hk|Hk].
  - rewrite lookup_seq_lt by done. cbn [fmap option_fmap option_map Nat.add].
    destruct (lookup_lt_is_Some_2 _ _ Hk) as [h Hh'].
    pose proof (slice_hash (E := ResourceError.t) [] (wanted_hashes i) [] k h Hg Hh') as H.
    cbn [length app Nat.add] in H. rewrite app_nil_r in H. apply slice_get_inv in H as (_ & _ & H). by rewrite Hh', <- H.
  - rewrite lookup_ge_None_2 by (rewrite length_seq; lia). by rewrite lookup_ge_None_2 by lia.
Qed.

Lemma wanted_missing i k :
  follows i → k < or_num_parts s → wanted s (wanted_hashes i) k = true ↔ k ∈ missing i.
Proof using Hb.
  intros Hf Hk. unfold wanted. rewrite existsb_exists. split.
  - intros (h & Hh & He). apply bool_decide_eq_true in He as ->.
    apply list_elem_of_In, list_elem_of_fmap in Hh as (j & Hj & Hin). rewrite (fol_hashes i Hf) in Hj.
    pose proof (window_range i (fol_ok i Hf)) as Hw. rewrite (fol_parts i Hf) in Hw.
    pose proof Hin as [Hr _]%elem_of_missing.
    rewrite (map_hash_inj payload keys random_hash iv s Hb k j); [done|done|lia|done].
  - intros Hin. exists (or_map_hashes s !!! k). split; [|by apply bool_decide_eq_true].
    apply list_elem_of_In, list_elem_of_fmap. exists k. by rewrite (fol_hashes i Hf).
Qed.

(** A request names the missing parts of the window, and the sender answers
    with exactly those. *)
Lemma request_answered i :
  follows i →
  ∃ v, PartRequestView.parse (part_request_bytes i) = Ok v ∧
    let (idx, n) := requested_parts s v in take n idx = missing i.
Proof using Hb.
  intros Hf. destruct (parse_part_request i (fol_ok i Hf)) as (v & Hv & _ & Hh & Hw). exists v. split; [done|].
  pose proof (requested_parts_spec payload keys random_hash iv s Hb v) as H.
  rewrite Hh in H. specialize (H (fol_hash i Hf)). destruct (requested_parts s v) as [idx n]. destruct H as [_ ->].
  rewrite Hw. pose proof (window_range i (fol_ok i Hf)) as Hwr. rewrite (fol_parts i Hf) in Hwr.
  rewrite (filter_seq_sub _ (ir_consecutive_completed i) (window_end i)) by
    (lia || (intros x Hx Hwx%(wanted_missing i x Hf Hx)%elem_of_missing; lia)).
  rewrite missing_spec. apply filter_ext_in. intros x Hx%elem_of_seq.
  rewrite wanted_missing by (done || lia). rewrite elem_of_missing. split; [tauto|]. intros Hr. split; [lia|done].
Qed.

(** ** Delivery *)

Lemma deliver_one i k :
  follows i → ir_state i = Transferring → k < window_end i → ir_received i !!! k = false →
  ∃ i', receive_part (part_of tok k) i = Ok (true, i') ∧ follows i' ∧ ir_state i' = Transferring ∧
    ir_window i' = ir_window i ∧ ir_consecutive_completed i ≤ ir_consecutive_completed i' ∧
    ir_received i' = <[k := true]> (ir_received i).
Proof using Hb.
  intros Hf Hs Hk Hr. pose proof (fol_ok i Hf) as Hok. pose proof (window_range i Hok) as Hw.
  rewrite (fol_parts i Hf) in Hw. destruct (in_run i Hok) as (_ & Hrun & _).
  assert (Hc : ir_consecutive_completed i ≤ k).
  { destruct (decide (k < ir_consecutive_completed i)) as [Hlt|]; [|lia]. rewrite Hrun in Hr by done. done. }
  assert (Hfit : fits i (part_of tok k) k).
  { split; [done|]. split; [done|]. split; [|symmetry; apply expected_genuine; [done|lia]].
    rewrite (fol_hashes i Hf), (fol_tag i Hf). apply (map_hash_at payload keys random_hash iv s Hb). lia. }
  pose proof (receive_part_spec (part_of tok k) i Hok) as H.
  destruct (receive_part _ i) as [[b i']|e|]; [|done|done]. destruct H as [_ H].
  destruct b; [|by destruct H as [_ H]; destruct (H k)]. destruct H as (j & Hj & -> & _).
  pose proof (fits_genuine i j k Hf ltac:(lia) Hj) as ->. eexists. split; [done|].
  split; [apply follows_stored; [done..|lia|done]|]. split; [done|]. split; [done|]. split; [|done].
  apply stored_run; [done|]. rewrite (fol_parts i Hf). lia.
Qed.

Lemma send_parts_spec keep ks : ∀ i,
  follows i → ir_state i = Transferring → NoDup ks →
  (∀ k, k ∈ ks → k < window_end i ∧ ir_received i !!! k = false) →
  ∃ i', send_parts keep s ks i = Ok i' ∧ follows i' ∧ ir_state i' = Transferring ∧
    ir_window i' = ir_window i ∧ ir_consecutive_completed i ≤ ir_consecutive_completed i' ∧
    ∀ j, ir_received i' !!! j = (ir_received i !!! j) || (keep j && bool_decide (j ∈ ks)).
Proof using Hb.
  induction ks as [|k ks IH]; intros i Hf Hs Hnd Hks.
  { exists i. split; [done|]. split; [done|]. split; [done|]. split; [done|]. split; [done|].
    intros j. rewrite (bool_decide_eq_false_2 (j ∈ [])) by apply not_elem_of_nil. by rewrite andb_false_r, orb_false_r. }
  apply NoDup_cons in Hnd as [Hk Hnd]. destruct (Hks k ltac:(left)) as [Hkw Hkr].
  unfold send_parts. cbn [for_each]. destruct (keep k) eqn:Hkeep.
  - pose proof (window_range i (fol_ok i Hf)) as Hw. rewrite (fol_parts i Hf) in Hw.
    rewrite (part_spec payload keys random_hash iv s Hb) by lia. cbn [obind].
    destruct (deliver_one i k Hf Hs Hkw Hkr) as (i1 & -> & Hf1 & Hs1 & Hw1 & Hc1 & Hr1). cbn [obind].
    destruct (IH i1 Hf1 Hs1 Hnd) as (i2 & H2 & Hf2 & Hs2 & Hw2 & Hc2 & Hr2).
    { intros j Hj. destruct (Hks j ltac:(by right)) as [Hjw Hjr]. split.
      - unfold window_end in *. rewrite Hw1, (fol_parts i1 Hf1), <- (fol_parts i Hf). lia.
      - rewrite Hr1, list_lookup_total_insert_ne; [done|]. by intros ->. }
    exists i2. split; [exact H2|]. split; [done|]. split; [done|]. split; [congruence|]. split; [lia|].
    intros j. rewrite Hr2, Hr1. destruct (decide (j = k)) as [->|Hne].
    + rewrite list_lookup_total_insert_eq.
      * rewrite Hkeep, (bool_decide_eq_true_2 (k ∈ k :: ks)) by left. cbn. by rewrite orb_true_r.
      * rewrite (in_received i (fol_ok i Hf)). pose proof (in_count i (fol_ok i Hf)).
        rewrite (fol_parts i Hf) in *. lia.
    + rewrite list_lookup_total_insert_ne by done. do 2 f_equal. apply bool_decide_ext.
      rewrite elem_of_cons. naive_solver.
  - cbn [obind]. destruct (IH i Hf Hs Hnd) as (i2 & H2 & Hf2 & Hs2 & Hw2 & Hc2 & Hr2).
    { intros j Hj. apply Hks. by right. }
    exists i2. split; [exact H2|]. split; [done|]. split; [done|]. split; [done|]. split; [done|].
    intros j. rewrite Hr2. destruct (decide (j = k)) as [->|Hne]; [by rewrite Hkeep|].
    do 2 f_equal. apply bool_decide_ext. rewrite elem_of_cons. naive_solver.
Qed.

Lemma missing_bound i : ok_in i → length (missing i) ≤ MAX_PARTS.
Proof.
  intros Hok. pose proof (window_range i Hok). pose proof (in_count i Hok). rewrite missing_spec.
  etransitivity; [apply length_filter|]. rewrite length_seq. lia.
Qed.

Lemma request_fits i : ok_in i → length (part_request_bytes i) ≤ REQUEST_MAX.
Proof.
  intros Hok. rewrite length_request by done. pose proof (missing_bound i Hok). unfold REQUEST_MAX, MAPHASH_LEN. lia.
Qed.

(** A round delivers exactly the kept parts among the missing ones. *)
Lemma round_delivers keep i :
  follows i → ir_state i = Transferring → is_complete i = false →
  ∃ i', round keep s i = Ok i' ∧ follows i' ∧ ir_state i' = Transferring ∧
    ir_window i' = ir_window i ∧ ir_consecutive_completed i ≤ ir_consecutive_completed i' ∧
    ∀ j, ir_received i' !!! j = (ir_received i !!! j) || (keep j && bool_decide (j ∈ missing i)).
Proof using Hb.
  intros Hf Hs Hc. pose proof (fol_ok i Hf) as Hok. unfold round.
  rewrite build_part_request_spec, (bool_decide_eq_true_2 _ Hs), Hc by done. cbn [andb negb].
  pose proof (request_fits i Hok) as Hfit.
  rewrite (proj2 (Nat.ltb_ge _ _)) by (unfold zeros; by rewrite length_replicate). cbn [obind].
  rewrite splice_0, take_app_length. destruct (request_answered i Hf) as (v & -> & Hv). cbn [obind].
  destruct (requested_parts s v) as [idx n]. rewrite Hv. apply send_parts_spec; [done|done|apply NoDup_missing|].
  intros k [Hk Hr]%elem_of_missing. split; [lia|done].
Qed.

(** Without loss it moves the window by at least two parts. *)
Lemma round_advances i i' :
  follows i → follows i' →
  (∀ j, ir_received i' !!! j = (ir_received i !!! j) || (true && bool_decide (j ∈ missing i))) →
  Nat.min (ir_consecutive_completed i + 2) (or_num_parts s) ≤ ir_consecutive_completed i'.
Proof using Hb.
  intros Hf Hf' Hr. pose proof (fol_ok i Hf) as Hok. destruct (in_run i Hok) as (_ & Hrun & _).
  destruct (in_run i' (fol_ok i' Hf')) as (_ & _ & Hnext). rewrite (fol_parts i' Hf') in Hnext.
  destruct (decide (ir_consecutive_completed i' < window_end i)) as [Hlt|Hge].
  - pose proof (window_range i Hok) as Hw. rewrite (fol_parts i Hf) in Hw. specialize (Hnext ltac:(lia)).
    rewrite Hr in Hnext. apply orb_false_iff in Hnext as [H1 H2]. cbn [andb] in H2. bool_hyps. destruct H2.
    apply elem_of_missing. split; [|done]. split; [|done].
    destruct (decide (ir_consecutive_completed i' < ir_consecutive_completed i)) as [Hl|]; [|lia].
    by rewrite Hrun in H1.
  - unfold window_end in Hge. rewrite (fol_parts i Hf) in Hge. pose proof (in_window i Hok) as [Hwb _].
    unfold WINDOW_MIN in Hwb. lia.
Qed.

Lemma follows_adjusts adj : ∀ i,
  follows i →
  let i' := fold_left adjust adj i in
  follows i' ∧ ir_state i' = ir_state i ∧ ir_consecutive_completed i' = ir_consecutive_completed i ∧
  is_complete i' = is_complete i.
Proof.
  induction adj as [|a adj IH]; intros i Hf; [done|]. cbn [fold_left].
  destruct (IH (adjust i a) (follows_adjust i a Hf)) as (H1 & H2 & H3 & H4). by rewrite H2, H3, H4.
Qed.

Lemma rounds_complete adjs : ∀ i,
  follows i → ir_state i = Transferring → or_num_parts s ≤ ir_consecutive_completed i + 2 * length adjs →
  ∃ i', rounds s adjs i = Ok i' ∧ follows i' ∧ ir_state i' = Transferring ∧ is_complete i' = true.
Proof using Hb.
  induction adjs as [|adj adjs IH]; intros i Hf Hs Hn; cbn [rounds length] in *.
  - exists i. split; [done|]. split; [done|]. split; [done|]. apply Nat.eqb_eq.
    destruct (in_run i (fol_ok i Hf)) as (Hc & _). rewrite (fol_parts i Hf) in *. lia.
  - destruct (is_complete i) eqn:Hc; [by exists i|].
    destruct (follows_adjusts adj i Hf) as (Hf1 & Hs1 & Hc1 & Hd1).
    destruct (round_delivers (λ _, true) (fold_left adjust adj i)) as (i2 & -> & Hf2 & Hs2 & _ & _ & Hr2); [done|congruence..|].
    cbn [obind]. pose proof (round_advances _ i2 Hf1 Hf2 Hr2) as Ha. apply IH; [done|done|]. lia.
Qed.

(** The proof of an assembled transfer is the one the sender expects. *)
Lemma proof_genuine i out :
  follows i → ir_state i = Assembled → payload_of i = payload → PROOF_LEN ≤ length out →
  ∃ out', build_proof i out = (Ok PROOF_LEN, out') ∧ validate_proof s (take PROOF_LEN out') = true.
Proof using Hb.
  intros Hf Hs Hp Hl. pose proof (fol_ok i Hf) as Hok. destruct (in_assembled i Hok Hs) as (_ & _ & _ & Hpf).
  destruct (in_names i Hok) as (H1 & _ & H2).
  rewrite build_proof_spec, (bool_decide_eq_true_2 _ Hs), (proj2 (Nat.ltb_ge _ _)) by done. eexists. split; [done|].
  assert (H64 : PROOF_LEN = length (ir_resource_hash i ++ ir_proof i)) by (rewrite length_app, H1, H2; done).
  rewrite splice_0. rewrite H64 at 1. rewrite take_app_length. unfold validate_proof.
  rewrite (proj2 (Nat.eqb_eq _ _)) by done. rewrite (take_app_le _ _ 32), (take_ge _ 32) by lia.
  rewrite (drop_app_exact (ir_resource_hash i)) by done.
  rewrite Hpf, Hp, (fol_hash i Hf), <- (built_proof _ _ _ _ _ Hb). by rewrite !bool_decide_eq_true_2.
Qed.

(** The advertisement crosses the wire unchanged. *)
Lemma advertisement_crosses :
  ∃ n wire, ResourceAdv.pack (advertisement s) (zeros ADV_PACKED_MAX) = (Ok n, wire) ∧
            ResourceAdv.parse (take n wire) = Ok (advertisement s) ∧ n ≤ ADV_PACKED_MAX.
Proof using Hb.
  pose proof (advertisement_good payload keys random_hash iv s Hb) as Hg.
  assert (Hu : (Z.of_nat (length (zeros ADV_PACKED_MAX)) ≤ u64_max)%Z) by (vm_compute; discriminate).
  pose proof (ResourceAdv.pack_writes _ _ Hg Hu) as Hp. cbv zeta in Hp.
  pose proof (ResourceAdv.length_adv_bytes _ Hg) as Hmax.
  rewrite (proj2 (Nat.leb_le _ _)) in Hp by (unfold zeros; by rewrite length_replicate).
  eexists _, _. split; [exact Hp|]. split; [|done].
  rewrite splice_0, take_app_length, <- (app_nil_r (ResourceAdv.adv_bytes _ _)).
  apply ResourceAdv.parse_bytes; [done..|]. rewrite app_nil_r. unfold u64_max. unfold ADV_PACKED_MAX in Hmax. lia.
Qed.

End exchange.

Section transfer.
Context `{SHA : Sha256} `{HMAC : Hmac} `{AES : AesCbc}.

Lemma build_cases payload keys random_hash iv :
  length random_hash = RANDOM_HASH_SIZE → length iv = 16 →
  match build payload keys random_hash iv with
  | Ok s => built payload keys random_hash iv s
  | Err e =>
      (e = ResourceError.TooLarge ∧ DATA_MAX < length payload) ∨
      (e = ResourceError.MapHashCollision ∧ ¬ NoDup (hashes_of (blob_of keys iv random_hash payload) random_hash))
  | Panic => False
  end.
Proof.
  intros Hr Hiv. unfold build. pose proof (build_into_spec payload keys random_hash iv zeroed Hr Hiv) as Hs.
  destruct (build_into _ _ _ _ _) as [[u|e|] r]; cbn [obind]; [done| |done]. naive_solver.
Qed.

Lemma build_built payload keys random_hash iv s :
  length random_hash = RANDOM_HASH_SIZE → length iv = 16 →
  build payload keys random_hash iv = Ok s → built payload keys random_hash iv s.
Proof. intros Hr Hiv H. pose proof (build_cases payload keys random_hash iv Hr Hiv) as Hs. by rewrite H in Hs. Qed.

(** C13: A transfer delivers the payload. A resource is built unless the payload
    exceeds the capacity or two of its parts share a map hash; its parts and
    their hashes then fit the arrays, and its advertisement, packed and parsed,
    is admitted. From then on the receiver may get the
    sender's parts in any order, repeated or not at all, interleaved with bytes
    that are none of them, with window changes and with assembly attempts. Once
    it reports completeness, assembly leaves exactly the payload, and the proof
    it writes is one the sender accepts. *)
Theorem transfer_delivers payload keys random_hash iv :
  length random_hash = RANDOM_HASH_SIZE → length iv = 16 →
  match build payload keys random_hash iv with
  | Panic => False
  | Err e =>
      (e = ResourceError.TooLarge ∧ DATA_MAX < length payload) ∨
      (e = ResourceError.MapHashCollision ∧ ¬ NoDup (hashes_of (blob_of keys iv random_hash payload) random_hash))
  | Ok s => or_num_parts s ≤ MAX_PARTS ∧ length (or_map_hashes s) = MAX_PARTS ∧ ∃ n wire adv i0,
    ResourceAdv.pack (advertisement s) (zeros ADV_PACKED_MAX) = (Ok n, wire) ∧
    ResourceAdv.parse (take n wire) = Ok adv ∧ from_advertisement adv = Ok i0 ∧
    ∀ i, rtc (fair_step payload keys random_hash iv s) i0 i → is_complete i = true →
      let i' := snd (assemble keys i) in
      data i' = Ok (Some payload) ∧
      ∀ out, PROOF_LEN ≤ length out →
        ∃ out', build_proof i' out = (Ok PROOF_LEN, out') ∧ validate_proof s (take PROOF_LEN out') = true
  end.
Proof.
  intros Hr Hiv. pose proof (build_cases payload keys random_hash iv Hr Hiv) as Hb.
  destruct (build payload keys random_hash iv) as [s|e|]; [|done|done].
  split; [by apply (num_parts_eq _ _ _ _ _ Hb)|]. split; [by apply (length_map_hashes _ _ _ _ _ Hb)|].
  destruct (advertisement_crosses _ _ _ _ _ Hb) as (n & wire & Hp & Hw & _).
  destruct (follows_admitted _ _ _ _ _ Hb) as (i0 & H0 & Hf0 & _).
  exists n, wire, (advertisement s), i0. split; [done|]. split; [done|]. split; [done|].
  intros i Hrun Hc. cbv zeta.
  assert (Hf : follows payload keys random_hash iv s i).
  { eapply (rtc_preserves _ (follows payload keys random_hash iv s)); [by apply follows_step|exact Hf0|exact Hrun]. }
  assert (Hend : follows payload keys random_hash iv s (snd (assemble keys i)) ∧
    ir_state (snd (assemble keys i)) = Assembled ∧ payload_of (snd (assemble keys i)) = payload).
  { destruct (fol_done _ _ _ _ _ _ Hf) as [Hs|[Hs Hpay]].
    - apply Nat.eqb_eq in Hc. by destruct (assemble_genuine _ _ _ _ _ Hb i Hf Hs Hc) as (i' & -> & H).
    - unfold assemble. rewrite bool_decide_eq_false_2 by congruence. by split. }
  destruct Hend as (Hf' & Hs' & Hpay). split.
  - rewrite data_spec, (bool_decide_eq_true_2 _ Hs'), Hpay by apply Hf'. done.
  - intros out Hl. by eapply proof_genuine.
Qed.

(** C34: A round of a transfer does what it should under any loss. In every state
    a fair run reaches with parts missing, the request that is written parses at
    the sender and is answered with the parts of the window the receiver lacks,
    no more and no fewer, in order; of these, exactly the ones the network keeps
    are received afterwards, next to the ones there were. *)
Theorem round_exact payload keys random_hash iv s i0 i keep :
  length random_hash = RANDOM_HASH_SIZE → length iv = 16 →
  build payload keys random_hash iv = Ok s → from_advertisement (advertisement s) = Ok i0 →
  rtc (fair_step payload keys random_hash iv s) i0 i → is_complete i = false →
  (∃ n out v, build_part_request i (zeros REQUEST_MAX) = (Ok n, out) ∧
     PartRequestView.parse (take n out) = Ok v ∧
     take (snd (requested_parts s v)) (fst (requested_parts s v)) = missing i) ∧
  (∀ k, k ∈ missing i ↔ k < or_num_parts s ∧ ir_consecutive_completed i ≤ k ∧
     k < ir_consecutive_completed i + ws_window (ir_window i) ∧ ir_received i !!! k = false) ∧
  missing i ≠ [] ∧
  ∃ i', round keep s i = Ok i' ∧
    ∀ j, ir_received i' !!! j = (ir_received i !!! j) || (keep j && bool_decide (j ∈ missing i)).
Proof.
  intros Hr Hiv Hbuild H0 Hrun Hc. pose proof (build_built _ _ _ _ _ Hr Hiv Hbuild) as Hb.
  destruct (follows_admitted _ _ _ _ _ Hb) as (i0' & H0' & Hf0 & _). rewrite H0 in H0'. injection H0' as <-.
  assert (Hf : follows payload keys random_hash iv s i).
  { eapply (rtc_preserves _ (follows payload keys random_hash iv s)); [by apply follows_step|exact Hf0|exact Hrun]. }
  pose proof (fol_ok _ _ _ _ _ _ Hf) as Hok. destruct (in_run i Hok) as (Hcc & Hall & Hnext).
  apply Nat.eqb_neq in Hc as Hc'. pose proof (fol_parts _ _ _ _ _ Hb i Hf) as Hn.
  assert (Hs : ir_state i = Transferring).
  { destruct (fol_done _ _ _ _ _ _ Hf) as [Hs|[Hs _]]; [done|]. by destruct (in_assembled i Hok Hs). }
  assert (Hmiss : ∀ k, k ∈ missing i ↔ k < or_num_parts s ∧ ir_consecutive_completed i ≤ k ∧
     k < ir_consecutive_completed i + ws_window (ir_window i) ∧ ir_received i !!! k = false).
  { intros k. rewrite elem_of_missing. unfold window_end. rewrite Hn. split; intros H; split_and?; lia || tauto. }
  split; [|split; [done|split]].
  - destruct (request_answered _ _ _ _ _ Hb i Hf) as (v & Hv & Ha). pose proof (request_fits i Hok) as Hfit.
    eexists _, _, v. rewrite build_part_request_spec, (bool_decide_eq_true_2 _ Hs), Hc by done. cbn [andb negb].
    rewrite (proj2 (Nat.ltb_ge _ _)) by (unfold zeros; by rewrite length_replicate). split; [done|].
    rewrite splice_0, take_app_length. split; [done|]. by destruct (requested_parts s v).
  - intros He. pose proof (in_window i Hok) as [Hw _]. unfold WINDOW_MIN in Hw.
    assert (Hin : ir_consecutive_completed i ∈ missing i)
      by (apply Hmiss; split; [lia|]; split; [lia|]; split; [lia|apply Hnext; lia]).
    rewrite He in Hin. by apply not_elem_of_nil in Hin.
  - destruct (round_delivers _ _ _ _ _ Hb keep i Hf Hs Hc) as (i' & H' & _ & _ & _ & _ & Hr'). by exists i'.
Qed.

(** A transfer over a link that loses nothing ends. However the host grows
    and shrinks the window between rounds, each round of request and answer
    moves it by two parts or to the end; so half as many rounds as there are
    parts, four at most, leave the receiver complete, its assembly returns the
    payload's length, its data is the payload and the sender accepts its proof. *)
Lemma transfer_completes payload keys random_hash iv s adjs :
  length random_hash = RANDOM_HASH_SIZE → length iv = 16 →
  build payload keys random_hash iv = Ok s → or_num_parts s ≤ 2 * length adjs →
  or_num_parts s ≤ 2 * 4 ∧
  ∃ i0 i i', from_advertisement (advertisement s) = Ok i0 ∧ rounds s adjs i0 = Ok i ∧ is_complete i = true ∧
    assemble keys i = (Ok (length payload), i') ∧ data i' = Ok (Some payload) ∧
    ∃ out, build_proof i' (zeros PROOF_LEN) = (Ok PROOF_LEN, out) ∧ validate_proof s out = true.
Proof.
  intros Hr Hiv Hbuild Hn. pose proof (build_built _ _ _ _ _ Hr Hiv Hbuild) as Hb.
  split; [by apply (num_parts_eq _ _ _ _ _ Hb)|].
  destruct (follows_admitted _ _ _ _ _ Hb) as (i0 & H0 & Hf0 & Hs0 & Hc0).
  destruct (rounds_complete _ _ _ _ _ Hb adjs i0 Hf0 Hs0) as (i & Hi & Hf & Hs & Hc); [lia|].
  pose proof Hc as Hcc. apply Nat.eqb_eq in Hcc.
  destruct (assemble_genuine _ _ _ _ _ Hb i Hf Hs Hcc) as (i' & Ha & Hf' & Hs' & Hp).
  exists i0, i, i'. split; [done|]. split; [done|]. split; [done|]. split; [done|]. split.
  { rewrite data_spec, (bool_decide_eq_true_2 _ Hs'), Hp by apply Hf'. done. }
  destruct (proof_genuine _ _ _ _ _ Hb i' (zeros PROOF_LEN) Hf' Hs' Hp) as (out & Ho & Hv);
    [unfold zeros; by rewrite length_replicate|].
  exists out. split; [done|]. rewrite take_ge in Hv; [done|].
  rewrite build_proof_spec, (bool_decide_eq_true_2 _ Hs') in Ho by apply Hf'.
  rewrite (proj2 (Nat.ltb_ge _ _)) in Ho by (unfold zeros; by rewrite length_replicate). injection Ho as <-.
  destruct (in_names i' (fol_ok _ _ _ _ _ _ Hf')) as (H1 & _ & H2). rewrite length_splice; unfold zeros; rewrite length_replicate; [done|].
  rewrite length_app, H1, H2. done.
Qed.

End transfer.
