(* ===== verification/ResourceExample.v ===== *)
(** Two transfers, evaluated: three bytes in one part and 460 bytes in two. The
    theorems on resource transfers (src/src/resource.rs) apply to them. *)

From S2P Require Import Prelude Constants Primitives Records Crypto Links Msgpack ResourcePolicy Resource ResourceSender ResourceReceiver ResourceTransfer.
Import OutboundResource InboundResource.

#[local] Existing Instances Toy.sha256 Toy.hmac Toy.aes.

Definition or_default {E A} (d : A) (o : outcome E A) : A := match o with Ok a => a | _ => d end.
Definition succeeds {E A} (o : outcome E A) : bool := match o with Ok _ => true | _ => false end.
Definition written {E} (o : outcome E nat * list Z) : list Z :=
  match o with (Ok n, w) => take n w | _ => [] end.
Definition got (p : list Z) (i : InboundResource) : InboundResource := snd (or_default (false, i) (receive_part p i)).

Lemma or_default_Ok {E A} (d : A) (o : outcome E A) : succeeds o = true → o = Ok (or_default d o).
Proof. by destruct o. Qed.

Lemma got_Ok p i : ok_in i → ∃ b, receive_part p i = Ok (b, got p i).
Proof.
  intros Hi. unfold got. pose proof (receive_part_spec p i Hi) as H.
  destruct (receive_part p i) as [[b i']|e|]; [by exists b|done|done].
Qed.

Lemma got_step p i : ok_in i → step i (got p i) ∧ ok_in (got p i).
Proof.
  intros Hi. destruct (got_Ok p i Hi) as [b H]. assert (Hs : step i (got p i)) by (by eapply step_part).
  split; [done|]. by eapply ok_in_step.
Qed.

Definition keys : LinkKeys := seqZ 1 64.
Definition tag : list Z := [1; 2; 3; 4]%Z.
Definition iv : list Z := seqZ 100 16.

Section example.
Context (payload : list Z).
Hypothesis Hp : succeeds (build payload keys tag iv) = true.

Definition sender : OutboundResource := or_default zeroed (build payload keys tag iv).
Definition wire : list Z := written (ResourceAdv.pack (advertisement sender) (zeros ADV_PACKED_MAX)).
Definition admitted : InboundResource :=
  or_default (accepted (advertisement sender) [] 0) (from_advertisement (advertisement sender)).
Definition piece (k : nat) : list Z := part_of (blob_of keys iv tag payload) k.

Lemma sender_builds : build payload keys tag iv = Ok sender.
Proof using Hp. by apply or_default_Ok. Qed.

Lemma sender_built : built payload keys tag iv sender.
Proof using Hp. by apply build_built, sender_builds. Qed.

Lemma sender_admitted : from_advertisement (advertisement sender) = Ok admitted.
Proof using Hp.
  apply or_default_Ok. by destruct (follows_admitted _ _ _ _ _ sender_built) as (i & -> & _).
Qed.

Lemma admitted_follows : follows payload keys tag iv sender admitted.
Proof using Hp.
  destruct (follows_admitted _ _ _ _ _ sender_built) as (i & Hi & Hf & _). rewrite sender_admitted in Hi.
  apply Ok_inj in Hi. by rewrite Hi.
Qed.

(** What is written to the wire is the sender's advertisement. *)
Lemma wire_parses : ResourceAdv.parse wire = Ok (advertisement sender).
Proof using Hp.
  destruct (advertisement_crosses _ _ _ _ _ sender_built) as (n & w & Hpack & Hparse & _).
  unfold wire. by rewrite Hpack.
Qed.

Lemma crossed n w adv i0 :
  ResourceAdv.pack (advertisement sender) (zeros ADV_PACKED_MAX) = (Ok n, w) →
  ResourceAdv.parse (take n w) = Ok adv → from_advertisement adv = Ok i0 → i0 = admitted.
Proof using Hp.
  intros Hpack Hparse Hfrom. pose proof wire_parses as Hw. unfold wire in Hw. rewrite Hpack in Hw.
  cbn [written] in Hw. rewrite Hparse in Hw. apply Ok_inj in Hw as ->.
  rewrite sender_admitted in Hfrom. symmetry. by apply Ok_inj in Hfrom.
Qed.

Lemma got_fair k i :
  k < or_num_parts sender → follows payload keys tag iv sender i →
  fair_step payload keys tag iv sender i (got (piece k) i) ∧ follows payload keys tag iv sender (got (piece k) i).
Proof using Hp.
  intros Hk Hf. destruct (got_Ok (piece k) i (fol_ok _ _ _ _ _ _ Hf)) as [b H].
  assert (Hs : fair_step payload keys tag iv sender i (got (piece k) i)) by (by eapply fair_genuine).
  split; [done|]. exact (follows_step _ _ _ _ _ sender_built _ _ Hf Hs).
Qed.

Lemma got_foreign p i :
  foreign payload keys tag iv p → follows payload keys tag iv sender i →
  fair_step payload keys tag iv sender i (got p i) ∧ follows payload keys tag iv sender (got p i).
Proof using Hp.
  intros Hk Hf. destruct (got_Ok p i (fol_ok _ _ _ _ _ _ Hf)) as [b H].
  assert (Hs : fair_step payload keys tag iv sender i (got p i)) by (by eapply fair_foreign).
  split; [done|]. exact (follows_step _ _ _ _ _ sender_built _ _ Hf Hs).
Qed.

End example.

(** ** Three bytes *)

Definition three : list Z := [7; 8; 9]%Z.

(** Assembly too early, bytes that belong to nothing, the part, assembly. *)
Definition three_done : InboundResource :=
  snd (assemble keys (got (piece three 0) (got [1; 1]%Z (snd (assemble keys (admitted three)))))).


(** ** Two parts *)

Definition long : list Z := (λ z, (z * z) mod 256)%Z <$> seqZ 0 460.

Lemma long_builds : succeeds (build long keys tag iv) = true.
Proof. vm_compute. reflexivity. Qed.

Lemma long_parts : or_num_parts (sender long) = 2.
Proof.
  rewrite (built_num_parts _ _ _ _ _ (sender_built long long_builds)), (built_total _ _ _ _ _ (sender_built long long_builds)).
  rewrite length_resource_blob by reflexivity. vm_compute. reflexivity.
Qed.

Lemma foreign_bytes : foreign long keys tag iv [9; 9]%Z.
Proof.
  intros H. assert (E : bool_decide (get_map_hash [9; 9]%Z tag ∈ hashes_of (blob_of keys iv tag long) tag) = false)
    by (vm_compute; reflexivity).
  by apply bool_decide_eq_false in E.
Qed.

(** The second part, then bytes that belong to nothing, the second part again
    and the first. *)
Definition after_one : InboundResource := got (piece long 1) (admitted long).
Definition after_all : InboundResource := got (piece long 0) (got (piece long 1) (got [9; 9]%Z after_one)).

Lemma after_one_run :
  rtc (fair_step long keys tag iv (sender long)) (admitted long) after_one ∧
  follows long keys tag iv (sender long) after_one.
Proof.
  pose proof long_parts as Hn.
  destruct (got_fair long long_builds 1 _ ltac:(lia) (admitted_follows long long_builds)) as [S1 F1].
  split; [by apply rtc_once|done].
Qed.

Lemma after_all_run : rtc (fair_step long keys tag iv (sender long)) (admitted long) after_all.
Proof.
  pose proof long_parts as Hn. destruct after_one_run as [R1 F1].
  destruct (got_foreign long long_builds _ _ foreign_bytes F1) as [S2 F2].
  destruct (got_fair long long_builds 1 _ ltac:(lia) F2) as [S3 F3].
  destruct (got_fair long long_builds 0 _ ltac:(lia) F3) as [S4 F4].
  eapply transitivity; [exact R1|]. eapply rtc_l; [exact S2|]. eapply rtc_l; [exact S3|]. by apply rtc_once.
Qed.

Lemma after_all_complete : is_complete after_all = true.
Proof. vm_compute. reflexivity. Qed.

Lemma transfer_delivers_witness :
  data (snd (assemble keys after_all)) = Ok (Some long) ∧
  ∃ out, build_proof (snd (assemble keys after_all)) (zeros PROOF_LEN) = (Ok PROOF_LEN, out) ∧
         validate_proof (sender long) (take PROOF_LEN out) = true.
Proof.
  pose proof (transfer_delivers long keys tag iv eq_refl eq_refl) as H. rewrite (sender_builds long long_builds) in H.
  destruct H as (_ & _ & n & w & adv & i0 & Hpack & Hparse & Hfrom & Hall).
  rewrite (crossed long long_builds n w adv i0 Hpack Hparse Hfrom) in Hall.
  destruct (Hall after_all after_all_run after_all_complete) as [Hd Hpf]. split; [exact Hd|].
  apply Hpf. unfold zeros. rewrite length_replicate. reflexivity.
Defined.

Lemma round_exact_witness :
  ∃ i', round (λ k, k =? 0) (sender long) after_one = Ok i' ∧
    ir_received i' !!! 0 = true ∧ ir_received i' !!! 1 = true.
Proof.
  assert (Hc : is_complete after_one = false) by (vm_compute; reflexivity).
  destruct (round_exact long keys tag iv (sender long) (admitted long) after_one (λ k, k =? 0) eq_refl eq_refl
    (sender_builds long long_builds) (sender_admitted long long_builds) (proj1 after_one_run) Hc)
    as (_ & _ & _ & i' & H & Hr).
  exists i'. split; [exact H|]. split.
  - etransitivity; [apply (Hr 0)|vm_compute; reflexivity].
  - etransitivity; [apply (Hr 1)|vm_compute; reflexivity].
Defined.

Lemma transfer_completes_witness :
  ∃ i0 i i', from_advertisement (advertisement (sender long)) = Ok i0 ∧
    rounds (sender long) [[Grow 0; Shrink]] i0 = Ok i ∧
    assemble keys i = (Ok 460, i') ∧ data i' = Ok (Some long).
Proof.
  destruct (transfer_completes long keys tag iv (sender long) [[Grow 0; Shrink]] eq_refl eq_refl
    (sender_builds long long_builds)) as (_ & i0 & i & i' & H0 & Hi & _ & Ha & Hd & _).
  - rewrite long_parts. apply Nat.leb_le. reflexivity.
  - exists i0, i, i'. split; [exact H0|]. split; [exact Hi|]. split; [exact Ha|exact Hd].
Defined.
