(* ===== verification/Auto.v ===== *)
(** The addresses of automatic interfaces (src/src/auto.rs): the canonical text
    of an IPv6 address, the multicast group of a network and the beacon token.

    The text is the standard library's: a dotted quad for an address that maps
    an IPv4 one, otherwise hexadecimal groups with the first longest run of at
    least two zero groups replaced by [::]. It reaches the writer in pieces. *)

From S2P Require Import Prelude Primitives Records Crypto.

Definition IPV6_TEXT_MAX : nat := 39.

Module AutoError.
Inductive t := OutputTooSmall.
End AutoError.

(** ** The text of an address *)

Definition COLON : list Z := [58%Z].
Definition DOUBLE_COLON : list Z := [58; 58]%Z.
Definition DOT : list Z := [46%Z].
Definition MAPPED_PREFIX : list Z := [58; 58; 102; 102; 102; 102; 58]%Z.

Definition hex_digit (d : Z) : Z := (if d <? 10 then 48 + d else 87 + d)%Z.

(** [{:x}] of a [u16]. *)
Definition hex (v : Z) : list Z :=
  let d3 := hex_digit (v / 4096 mod 16)%Z in let d2 := hex_digit (v / 256 mod 16)%Z in
  let d1 := hex_digit (v / 16 mod 16)%Z in let d0 := hex_digit (v mod 16)%Z in
  if (v <? 16)%Z then [d0] else if (v <? 256)%Z then [d1; d0] else if (v <? 4096)%Z then [d2; d1; d0] else [d3; d2; d1; d0].

(** [{}] of a [u8]. *)
Definition dec (v : Z) : list Z :=
  let d2 := (48 + v / 100)%Z in let d1 := (48 + v / 10 mod 10)%Z in let d0 := (48 + v mod 10)%Z in
  if (v <? 10)%Z then [d0] else if (v <? 100)%Z then [d1; d0] else [d2; d1; d0].

(** [Ipv6Addr::segments] *)
Fixpoint segments (octets : list Z) : list Z :=
  match octets with
  | hi :: lo :: rest => (256 * hi + lo)%Z :: segments rest
  | _ => []
  end.

Definition to_ipv4_mapped (octets : list Z) : option (list Z) :=
  if take 12 octets =k zeros 10 ++ [255; 255]%Z then Some (drop 12 octets) else None.

Record Span := { sp_start : nat; sp_len : nat }.
Definition NO_SPAN : Span := {| sp_start := 0; sp_len := 0 |}.

(** The loop over the segments with the longest and the current run of zeros. *)
Fixpoint zero_span (i : nat) (longest current : Span) (segs : list Z) : Span :=
  match segs with
  | [] => longest
  | s :: rest =>
      if (s =? 0)%Z then
        let current := {| sp_start := if sp_len current =? 0 then i else sp_start current;
                          sp_len := sp_len current + 1 |} in
        zero_span (i + 1) (if sp_len longest <? sp_len current then current else longest) current rest
      else zero_span (i + 1) longest NO_SPAN rest
  end.

(** The pieces of groups separated by colons. *)
Definition fmt_subslice (chunk : list Z) : list (list Z) :=
  match chunk with
  | [] => []
  | first :: tail => hex first :: concat ((λ s, [COLON; hex s]) <$> tail)
  end.

Definition dotted (quad : list Z) : list (list Z) :=
  match quad with
  | [a; b; c; d] => [dec a; DOT; dec b; DOT; dec c; DOT; dec d]
  | _ => []
  end.

(** The pieces [Ipv6Addr]'s [Display] hands to a writer. *)
Definition display (octets : list Z) : list (list Z) :=
  match to_ipv4_mapped octets with
  | Some quad => MAPPED_PREFIX :: dotted quad
  | None =>
      let segs := segments octets in
      let zeroes := zero_span 0 NO_SPAN NO_SPAN segs in
      if 1 <? sp_len zeroes
      then fmt_subslice (take (sp_start zeroes) segs) ++ [DOUBLE_COLON]
             ++ fmt_subslice (drop (sp_start zeroes + sp_len zeroes) segs)
      else fmt_subslice segs
  end.

(** ** Writers *)

Record SliceWriter := { sw_out : list Z; sw_len : nat }.

(** [write_str]; [Err tt] is [fmt::Error]. *)
Definition write_str (value : list Z) : st SliceWriter unit unit := λ w,
  match usize_add (sw_len w) (length value) with
  | None => (Err tt, w)
  | Some end_ =>
      if length (sw_out w) <? end_ then (Err tt, w)
      else (Ok tt, {| sw_out := splice (sw_len w) value (sw_out w); sw_len := end_ |})
  end.

Fixpoint write_pieces (pieces : list (list Z)) : st SliceWriter unit unit :=
  match pieces with
  | [] => st_ret tt
  | p :: rest => write_str p ;;; write_pieces rest
  end.

Definition format_ipv6 (address : list Z) : st (list Z) AutoError.t nat := λ out,
  match write_pieces (display address) {| sw_out := out; sw_len := 0 |} with
  | (Ok _, w) => (Ok (sw_len w), sw_out w)
  | (Err _, w) => (Err AutoError.OutputTooSmall, sw_out w)
  | (Panic, w) => (Panic, sw_out w)
  end.

Section auto.
Context `{SHA : Sha256}.

Definition multicast_group_for (group_id : list Z) : list Z :=
  splice 4 (slice (sha256_digest group_id) 2 14) (<[1 := 18%Z]> (<[0 := 255%Z]> (zeros 16))).

(** The hasher absorbs the pieces one after another. *)
Definition beacon_token (group_id address : list Z) : list Z :=
  sha256_digest (fold_left app (display address) group_id).

End auto.

(** ** Reading a text back *)

(** A reader of IPv6 texts, as a reference: fields between colons, an empty field
    for the missing zero groups, a dotted quad for two groups. *)
Fixpoint split (sep : Z) (acc text : list Z) : list (list Z) :=
  match text with
  | [] => [acc]
  | c :: rest => if (c =? sep)%Z then acc :: split sep [] rest else split sep (acc ++ [c]) rest
  end.

Definition digit_value (c : Z) : Z := (if c <? 58 then c - 48 else c - 87)%Z.
Definition read_hex (f : list Z) : Z := fold_left (λ a c, 16 * a + digit_value c)%Z f 0%Z.
Definition read_dec (f : list Z) : Z := fold_left (λ a c, 10 * a + digit_value c)%Z f 0%Z.

Definition read_field (f : list Z) : list Z :=
  if existsb (λ c, c =? 46)%Z f then segments (read_dec <$> split 46 [] f) else [read_hex f].

Definition read_groups (fs : list (list Z)) : list Z := concat (read_field <$> fs).

Definition present (f : list Z) : bool := negb (length f =? 0).

(** The fields before the first empty one, and those after it if there is one. *)
Fixpoint cut (fs : list (list Z)) : list (list Z) * option (list (list Z)) :=
  match fs with
  | [] => ([], None)
  | f :: rest => if present f then let (l, r) := cut rest in (f :: l, r)
                 else ([], Some (List.filter present rest))
  end.

Definition read_segments (text : list Z) : list Z :=
  match cut (split 58 [] text) with
  | (l, None) => read_groups l
  | (l, Some r) =>
      let a := read_groups l in let b := read_groups r in a ++ zeros (8 - length a - length b) ++ b
  end.

Definition read_ipv6 (text : list Z) : list Z := concat (be_bytes 2 <$> read_segments text).

(** Fields with a separator between them. *)
Fixpoint join (sep : Z) (fs : list (list Z)) : list Z :=
  match fs with
  | [] => []
  | [f] => f
  | f :: rest => f ++ sep :: join sep rest
  end.

Definition clean (sep : Z) (f : list Z) : Prop := ∀ c, c ∈ f → c ≠ sep.

Lemma split_clean sep f : ∀ acc rest, clean sep f → split sep acc (f ++ rest) = split sep (acc ++ f) rest.
Proof.
  induction f as [|c f IH]; intros acc rest Hf; [by rewrite app_nil_r|]. cbn [app split].
  rewrite (proj2 (Z.eqb_neq _ _)) by (apply Hf; left). rewrite IH by (intros d Hd; apply Hf; by right).
  by rewrite <- app_assoc.
Qed.

Lemma split_field sep f rest : clean sep f → split sep [] (f ++ sep :: rest) = f :: split sep [] rest.
Proof. intros Hf. rewrite split_clean by done. cbn. by rewrite Z.eqb_refl. Qed.

Lemma split_last sep f : clean sep f → split sep [] f = [f].
Proof. intros Hf. rewrite <- (app_nil_r f) at 1. by rewrite split_clean. Qed.

Lemma split_join sep fs : Forall (clean sep) fs → fs ≠ [] → split sep [] (join sep fs) = fs.
Proof.
  induction fs as [|f fs IH]; intros Hc Hn; [done|]. apply Forall_cons in Hc as [Hf Hc].
  destruct fs as [|g fs]; [by apply split_last|]. cbn [join]. rewrite split_field by done. f_equal. by apply IH.
Qed.

Lemma split_join_before sep fs rest :
  Forall (clean sep) fs → fs ≠ [] → split sep [] (join sep fs ++ sep :: rest) = fs ++ split sep [] rest.
Proof.
  induction fs as [|f fs IH]; intros Hc Hn; [done|]. apply Forall_cons in Hc as [Hf Hc].
  destruct fs as [|g fs]; [by apply split_field|]. cbn [join]. rewrite <- app_assoc, <- app_comm_cons, split_field by done.
  cbn [app]. f_equal. by apply IH.
Qed.

Definition field_ok (f : list Z) : Prop := clean 58 f ∧ f ≠ [].

Lemma present_ok f : field_ok f → present f = true.
Proof. intros [_ H]. by destruct f. Qed.

Lemma filter_present fs : Forall field_ok fs → List.filter present fs = fs.
Proof. induction 1 as [|f fs Hf _ IH]; [done|]. cbn [List.filter]. by rewrite present_ok, IH. Qed.

Lemma fields_clean fs : Forall field_ok fs → Forall (clean 58) fs.
Proof. intros H. eapply Forall_impl; [exact H|]. by intros f []. Qed.

Lemma present_fields fs : Forall field_ok fs → List.filter present (split 58 [] (join 58 fs)) = fs.
Proof.
  intros Hf. destruct fs as [|f fs]; [done|]. rewrite split_join by (done || by apply fields_clean).
  by apply filter_present.
Qed.

Lemma cut_all fs : Forall field_ok fs → cut fs = (fs, None).
Proof. induction 1 as [|f fs Hf _ IH]; [done|]. cbn [cut]. by rewrite present_ok, IH. Qed.

Lemma cut_at fs rest : Forall field_ok fs → cut (fs ++ [] :: rest) = (fs, Some (List.filter present rest)).
Proof. induction 1 as [|f fs Hf _ IH]; [done|]. cbn [cut app]. by rewrite present_ok, IH. Qed.

(** The text of two lists of fields around a double colon. *)
Lemma cut_double l r :
  Forall field_ok l → Forall field_ok r →
  cut (split 58 [] (join 58 l ++ DOUBLE_COLON ++ join 58 r)) = (l, Some r).
Proof.
  intros Hl Hr. pose proof (present_fields r Hr) as Hp. cbn [DOUBLE_COLON app]. destruct l as [|f l].
  - cbn [join app split Z.eqb Pos.eqb cut present length Nat.eqb negb List.filter]. by rewrite Hp.
  - rewrite split_join_before by (done || by apply fields_clean). cbn [split Z.eqb Pos.eqb].
    rewrite cut_at by done. by rewrite Hp.
Qed.

(** ** Numbers *)

Lemma digit_value_hex d : (0 ≤ d < 16)%Z → digit_value (hex_digit d) = d ∧ (48 ≤ hex_digit d)%Z ∧ hex_digit d ≠ 58%Z.
Proof.
  intros H. unfold digit_value, hex_digit. destruct (d <? 10)%Z eqn:Hd; bool_hyps.
  - rewrite (proj2 (Z.ltb_lt _ _)) by lia. lia.
  - rewrite (proj2 (Z.ltb_ge _ _)) by lia. lia.
Qed.

Lemma hex_spec v :
  (0 ≤ v < 65536)%Z →
  read_hex (hex v) = v ∧ Forall (λ c, 48 ≤ c ∧ c ≠ 58)%Z (hex v) ∧ 1 ≤ length (hex v) ≤ 4.
Proof.
  intros Hv. assert (D : ∀ x : Z, (0 ≤ x mod 16 < 16)%Z) by (intros; apply Z.mod_pos_bound; lia).
  destruct (digit_value_hex (v mod 16) (D _)) as [E0 F0].
  destruct (digit_value_hex (v / 16 mod 16) (D _)) as [E1 F1].
  destruct (digit_value_hex (v / 256 mod 16) (D _)) as [E2 F2].
  destruct (digit_value_hex (v / 4096 mod 16) (D _)) as [E3 F3].
  unfold hex, read_hex.
  destruct (v <? 16)%Z eqn:H0; bool_hyps; [|destruct (v <? 256)%Z eqn:H1; bool_hyps; [|destruct (v <? 4096)%Z eqn:H2; bool_hyps]];
    cbn [fold_left length]; rewrite ?E0, ?E1, ?E2, ?E3;
    (split; [Z.to_euclidean_division_equations; lia|split; [repeat (apply Forall_cons_2; [assumption|]); apply Forall_nil_2|lia]]).
Qed.

Lemma dec_spec v :
  is_byte v → read_dec (dec v) = v ∧ Forall (λ c, 48 ≤ c ≤ 57)%Z (dec v) ∧ 1 ≤ length (dec v) ≤ 3.
Proof.
  intros Hv.
  assert (H : ((read_dec (dec v) =? v)%Z && forallb (λ c, (48 <=? c) && (c <=? 57))%Z (dec v)
    && (1 <=? length (dec v)) && (length (dec v) <=? 3)) = true).
  { revert v Hv. apply (byte_cases_bool (λ v, (read_dec (dec v) =? v)%Z
      && forallb (λ c, (48 <=? c) && (c <=? 57))%Z (dec v) && (1 <=? length (dec v)) && (length (dec v) <=? 3))).
    vm_compute. reflexivity. }
  bool_hyps. split; [done|]. split; [|lia]. apply Forall_forall. intros c Hc.
  rewrite forallb_forall in *. match goal with H : ∀ x, In x _ → _ |- _ => specialize (H c (proj1 (list_elem_of_In _ _) Hc)) end.
  bool_hyps. lia.
Qed.

(** ** The longest run of zero groups *)

Lemma zero_span_ext segs segs' : ∀ i longest current,
  Forall2 (λ a b, (a =? 0)%Z = (b =? 0)%Z) segs segs' →
  zero_span i longest current segs = zero_span i longest current segs'.
Proof.
  intros i longest current H. revert i longest current. induction H as [|a b l l' Hab _ IH]; intros; [done|].
  cbn [zero_span]. rewrite Hab. by destruct (b =? 0)%Z; apply IH.
Qed.

(** All lists of [n] zeros and ones. *)
Fixpoint patterns (n : nat) : list (list Z) :=
  match n with O => [[]] | S n => flat_map (λ p, [0%Z :: p; 1%Z :: p]) (patterns n) end.

Definition pattern_of (segs : list Z) : list Z := (λ s, if (s =? 0)%Z then 0%Z else 1%Z) <$> segs.

Lemma pattern_of_in segs : In (pattern_of segs) (patterns (length segs)).
Proof.
  induction segs as [|s segs IH]; [by left|]. cbn [length patterns pattern_of fmap list_fmap].
  apply in_flat_map. exists (pattern_of segs). split; [done|].
  destruct (s =? 0)%Z; [by left|by right; left].
Qed.

Definition zero_run (i n : nat) (segs : list Z) : bool := forallb (λ s, s =? 0)%Z (take n (drop i segs)).

(** The run is one of zeros, no other is longer, and none as long starts before. *)
Record first_longest (segs : list Z) (z : Span) : Prop := {
  fl_within : sp_start z + sp_len z ≤ 8;
  fl_zero : zero_run (sp_start z) (sp_len z) segs = true;
  fl_best : ∀ i n, i + n ≤ 8 → 0 < n → zero_run i n segs = true →
    n < sp_len z ∨ (n = sp_len z ∧ sp_start z ≤ i)
}.

Definition span_check (segs : list Z) : bool :=
  let z := zero_span 0 NO_SPAN NO_SPAN segs in
  (sp_start z + sp_len z <=? 8) && zero_run (sp_start z) (sp_len z) segs &&
  forallb (λ i, forallb (λ n, negb (zero_run i n segs) || (n <? sp_len z)
                              || ((n =? sp_len z) && (sp_start z <=? i)))
    (seq 1 (8 - i))) (seq 0 8).

Lemma span_check_spec segs : span_check segs = true → first_longest segs (zero_span 0 NO_SPAN NO_SPAN segs).
Proof.
  unfold span_check. cbv zeta. generalize (zero_span 0 NO_SPAN NO_SPAN segs). intros z H.
  apply andb_true_iff in H as [[H1 H2]%andb_true_iff H3]. bool_hyps. split; [done|done|].
  intros i n Hi Hn Hz. rewrite forallb_forall in H3.
  specialize (H3 i ltac:(apply list_elem_of_In, elem_of_seq; lia)). rewrite forallb_forall in H3.
  specialize (H3 n ltac:(apply list_elem_of_In, elem_of_seq; lia)). rewrite Hz in H3. cbn [negb orb] in H3.
  bool_hyps. destruct H3; bool_hyps; [by left|]. by right.
Qed.

Lemma zero_run_pattern i n segs : zero_run i n (pattern_of segs) = zero_run i n segs.
Proof.
  unfold zero_run, pattern_of. rewrite <- fmap_drop, <- fmap_take. generalize (take n (drop i segs)). intros l.
  induction l as [|s l IH]; [done|]. cbn. rewrite IH. by destruct (s =? 0)%Z.
Qed.

Lemma zero_span_first_longest segs : length segs = 8 → first_longest segs (zero_span 0 NO_SPAN NO_SPAN segs).
Proof.
  intros Hl. assert (H : span_check (pattern_of segs) = true).
  { assert (Ha : forallb span_check (patterns 8) = true) by (vm_compute; reflexivity).
    rewrite forallb_forall in Ha. apply Ha. rewrite <- Hl. apply pattern_of_in. }
  apply span_check_spec in H as [H1 H2 H3]. rewrite zero_run_pattern in H2.
  rewrite (zero_span_ext segs (pattern_of segs)).
  - split; [done|done|]. intros i n Hi Hn Hz. apply H3; [done|done|]. by rewrite zero_run_pattern.
  - unfold pattern_of. clear. induction segs as [|s l IH]; constructor; [by destruct (s =? 0)%Z|done].
Qed.

Lemma zero_run_slice segs i n :
  i + n ≤ length segs → zero_run i n segs = true → segs = take i segs ++ zeros n ++ drop (i + n) segs.
Proof.
  intros Hl H. rewrite <- (take_drop i segs) at 1. f_equal. rewrite <- (take_drop n (drop i segs)) at 1.
  rewrite drop_drop. f_equal. unfold zero_run in H. rewrite forallb_forall in H.
  replace n with (length (take n (drop i segs))) at 2 by (rewrite length_take, length_drop; lia).
  symmetry. apply replicate_as_Forall. split; [done|]. apply Forall_forall. intros x Hx%list_elem_of_In.
  specialize (H x Hx). by bool_hyps.
Qed.

(** ** The text determines the address *)

Definition text (address : list Z) : list Z := concat (display address).

Lemma pair_bytes a b : is_byte a → is_byte b → be_bytes 2 (256 * a + b) = [a; b] ∧ (0 ≤ 256 * a + b < 65536)%Z.
Proof.
  intros Ha Hb. unfold is_byte in *. split; [|lia].
  replace (256 * a + b)%Z with (of_be [a; b]) by (rewrite !of_be_cons; cbn; lia).
  apply (be_bytes_of_be [a; b]). apply Forall_cons_2; [done|]. apply Forall_cons_2; [done|]. apply Forall_nil_2.
Qed.

Lemma segments_spec n : ∀ octets,
  length octets = 2 * n → bytes octets →
  length (segments octets) = n ∧ Forall (λ s, 0 ≤ s < 65536)%Z (segments octets) ∧
  concat (be_bytes 2 <$> segments octets) = octets.
Proof.
  induction n as [|n IH]; intros octets Hl Hb; [by destruct octets|].
  destruct octets as [|a [|b octets]]; cbn [length] in Hl; [lia|lia|].
  apply Forall_cons in Hb as [Ha Hb]. apply Forall_cons in Hb as [Hb Hr].
  destruct (IH octets) as (H1 & H2 & H3); [lia|done|]. destruct (pair_bytes a b Ha Hb) as [Hp Hv].
  cbn [segments length fmap list_fmap concat]. rewrite H1, Hp, H3. split; [done|]. split; [|done].
  apply Forall_cons_2; done.
Qed.

Lemma concat_subslice chunk : concat (fmt_subslice chunk) = join 58 (hex <$> chunk).
Proof.
  destruct chunk as [|s chunk]; [done|]. cbn [fmt_subslice]. revert s. induction chunk as [|t chunk IH]; intros s.
  - cbn. by rewrite app_nil_r.
  - specialize (IH t). cbn [fmap list_fmap concat join app] in *. f_equal. unfold COLON at 1. cbn [app]. f_equal. exact IH.
Qed.

Lemma hex_field v : (0 ≤ v < 65536)%Z → field_ok (hex v) ∧ read_field (hex v) = [v].
Proof.
  intros Hv. destruct (hex_spec v Hv) as (Hr & Hc & Hl). rewrite Forall_forall in Hc. split; [split|].
  - intros c Hin. apply (Hc c Hin).
  - intros H. rewrite H in Hl. cbn in Hl. lia.
  - unfold read_field. rewrite Hr. destruct (existsb _ _) eqn:He; [|done].
    apply existsb_exists in He as (c & Hin & Hd). apply list_elem_of_In in Hin. apply Hc in Hin. bool_hyps. lia.
Qed.

Lemma hex_fields segs :
  Forall (λ s, 0 ≤ s < 65536)%Z segs → Forall field_ok (hex <$> segs) ∧ read_groups (hex <$> segs) = segs.
Proof.
  induction 1 as [|s segs Hs _ [IH1 IH2]]; [done|]. destruct (hex_field s Hs) as [H1 H2].
  split; [by constructor|]. unfold read_groups in *. cbn [fmap list_fmap concat]. by rewrite H2, IH2.
Qed.

(** The two lists of groups around a double colon. *)
Lemma read_double l r :
  Forall field_ok l → Forall field_ok r →
  read_segments (join 58 l ++ DOUBLE_COLON ++ join 58 r)
    = read_groups l ++ zeros (8 - length (read_groups l) - length (read_groups r)) ++ read_groups r.
Proof. intros Hl Hr. unfold read_segments. by rewrite cut_double. Qed.

Lemma dotted_field a b c d :
  is_byte a → is_byte b → is_byte c → is_byte d →
  let f := concat (dotted [a; b; c; d]) in
  field_ok f ∧ read_field f = [256 * a + b; 256 * c + d]%Z ∧ length f ≤ 15.
Proof.
  intros Ha Hb Hc Hd. cbv zeta.
  destruct (dec_spec a Ha) as (Ra & Fa & La). destruct (dec_spec b Hb) as (Rb & Fb & Lb).
  destruct (dec_spec c Hc) as (Rc & Fc & Lc). destruct (dec_spec d Hd) as (Rd & Fd & Ld).
  assert (Hj : concat (dotted [a; b; c; d]) = join 46 [dec a; dec b; dec c; dec d]).
  { cbn [dotted concat join DOT app]. by rewrite app_nil_r. }
  assert (Hdig : ∀ v sep, Forall (λ c, 48 ≤ c ≤ 57)%Z (dec v) → (sep = 46 ∨ sep = 58)%Z → clean sep (dec v)).
  { intros v sep Hv Hs x Hx. rewrite Forall_forall in Hv. apply Hv in Hx. lia. }
  rewrite Hj. split; [split|split].
  - intros x Hx. cbn [join] in Hx. do 3 rewrite elem_of_app, elem_of_cons in Hx.
    destruct Hx as [Hx|[->|[Hx|[->|[Hx|[->|Hx]]]]]]; try lia; eapply Hdig; try exact Hx; try done; by right.
  - intros H. cbn [join] in H. by destruct (dec a).
  - unfold read_field. assert (He : existsb (λ c, c =? 46)%Z (join 46 [dec a; dec b; dec c; dec d]) = true).
    { apply existsb_exists. exists 46%Z. split; [|done]. apply list_elem_of_In. cbn [join].
      rewrite elem_of_app, elem_of_cons. tauto. }
    rewrite He, split_join; [|repeat (apply Forall_cons_2; [by apply Hdig; [|left]|]); apply Forall_nil_2|done].
    cbn [fmap list_fmap segments]. by rewrite Ra, Rb, Rc, Rd.
  - cbn [join]. rewrite !length_app. cbn [length]. rewrite !length_app. cbn [length]. rewrite !length_app. cbn [length]. lia.
Qed.

Lemma read_text address : length address = 16 → bytes address → read_ipv6 (text address) = address.
Proof.
  intros Hl Hb. destruct (segments_spec 8 address Hl Hb) as (Hn & Hs & Hback).
  unfold read_ipv6, text, display, to_ipv4_mapped. destruct (bool_decide _) eqn:Hm; bool_hyps.
  - assert (Ha : address = (zeros 10 ++ [255; 255]%Z) ++ drop 12 address) by (rewrite <- Hm; by rewrite take_drop).
    assert (Hq : length (drop 12 address) = 4) by (rewrite length_drop; lia).
    destruct (drop 12 address) as [|a [|b [|c [|d [|]]]]]; try discriminate Hq.
    rewrite Ha in Hb. apply bytes_app in Hb as [_ Hb]. repeat (apply Forall_cons in Hb as [? Hb]).
    destruct (dotted_field a b c d) as (Hf & Hr & _); [done..|].
    change (concat (MAPPED_PREFIX :: dotted [a; b; c; d]))
      with (join 58 [] ++ DOUBLE_COLON ++ join 58 [[102; 102; 102; 102]%Z; concat (dotted [a; b; c; d])]).
    rewrite read_double; [|constructor|].
    2:{ constructor; [|by constructor]. split; [|done]. intros x Hx. repeat (apply elem_of_cons in Hx as [->|Hx]; [done|]).
        by apply not_elem_of_nil in Hx. }
    unfold read_groups. cbn [fmap list_fmap concat]. rewrite Hr.
    change (read_field [102; 102; 102; 102]%Z) with [65535%Z]. cbn [app length Nat.sub zeros replicate fmap list_fmap concat].
    rewrite (proj1 (pair_bytes a b ltac:(done) ltac:(done))), (proj1 (pair_bytes c d ltac:(done) ltac:(done))). by rewrite Ha.
  - destruct (zero_span_first_longest (segments address) Hn) as [Hw Hz _]. revert Hw Hz.
    generalize (zero_span 0 NO_SPAN NO_SPAN (segments address)). intros z Hw Hz.
    destruct (1 <? sp_len z).
    + rewrite !concat_app. cbn [concat]. rewrite !concat_subslice, app_nil_r.
      pose proof (zero_run_slice (segments address) (sp_start z) (sp_len z) ltac:(lia) Hz) as He.
      destruct (hex_fields (take (sp_start z) (segments address))) as [L1 L2]; [by apply Forall_take|].
      destruct (hex_fields (drop (sp_start z + sp_len z) (segments address))) as [R1 R2]; [by apply Forall_drop|].
      rewrite read_double, L2, R2 by done. rewrite length_take, length_drop, Hn, Nat.min_l by lia.
      replace (8 - sp_start z - (8 - (sp_start z + sp_len z))) with (sp_len z) by lia. by rewrite <- He.
    + rewrite concat_subslice. destruct (hex_fields (segments address) Hs) as [L1 L2].
      unfold read_segments. rewrite split_join; [|by apply fields_clean|by destruct (segments address)].
      by rewrite cut_all, L2.
Qed.

(** ** Writing the text *)

Lemma write_pieces_spec ps : ∀ w,
  (Z.of_nat (sw_len w + length (concat ps)) ≤ u64_max)%Z → sw_len w ≤ length (sw_out w) →
  if length (sw_out w) <? sw_len w + length (concat ps)
  then ∃ k len, k ≤ length (concat ps) ∧ sw_len w + k ≤ length (sw_out w) ∧ write_pieces ps w
    = (Err tt, {| sw_out := splice (sw_len w) (take k (concat ps)) (sw_out w); sw_len := len |})
  else write_pieces ps w
    = (Ok tt, {| sw_out := splice (sw_len w) (concat ps) (sw_out w); sw_len := sw_len w + length (concat ps) |}).
Proof.
  induction ps as [|p ps IH]; intros [out len] Hu Hl; cbn [sw_len sw_out concat] in *.
  - cbn [length]. rewrite Nat.add_0_r, (proj2 (Nat.ltb_ge _ _)) by done. cbn. unfold st_ret, splice. cbn.
    by rewrite Nat.add_0_r, take_drop.
  - rewrite length_app in *. cbn [write_pieces]. unfold st_bind, write_str. cbn [sw_len sw_out]. unfold usize_add.
    rewrite (proj2 (Z.leb_le _ _)) by lia. destruct (length out <? len + length p) eqn:Hp; bool_hyps.
    + rewrite (proj2 (Nat.ltb_lt _ _)) by lia. exists 0, len. split; [lia|]. split; [lia|]. rewrite take_0. unfold splice. cbn.
      by rewrite Nat.add_0_r, take_drop.
    + specialize (IH {| sw_out := splice len p out; sw_len := len + length p |}). cbn [sw_len sw_out] in IH.
      rewrite length_splice in IH by lia. rewrite Nat.add_assoc. specialize (IH ltac:(lia) ltac:(lia)).
      destruct (length out <? len + length p + length (concat ps)) eqn:Hq; bool_hyps.
      * destruct IH as (k & n & Hk & Hk' & ->). exists (length p + k), n. split; [lia|]. split; [lia|].
        rewrite splice_splice by (rewrite length_take; lia). by rewrite firstn_app_2.
      * rewrite IH, splice_splice by lia. done.
Qed.

Lemma length_join sep fs m :
  Forall (λ f, length f ≤ m) fs → length (join sep fs) ≤ length fs * (m + 1) - 1.
Proof.
  induction 1 as [|f fs Hf H IH]; [done|]. destruct fs as [|g fs]; cbn [join length] in *; [lia|].
  rewrite length_app. cbn [length]. lia.
Qed.

Lemma hex_lengths segs : Forall (λ s, 0 ≤ s < 65536)%Z segs → Forall (λ f, length f ≤ 4) (hex <$> segs).
Proof. intros H. apply Forall_fmap. eapply Forall_impl; [exact H|]. intros s Hs. cbn. apply (hex_spec s Hs). Qed.

Lemma length_text address : length address = 16 → bytes address → length (text address) ≤ IPV6_TEXT_MAX.
Proof.
  intros Hl Hb. destruct (segments_spec 8 address Hl Hb) as (Hn & Hs & _). unfold IPV6_TEXT_MAX.
  unfold text, display, to_ipv4_mapped. destruct (bool_decide _) eqn:Hm; bool_hyps.
  - assert (Hq : length (drop 12 address) = 4) by (rewrite length_drop; lia).
    pose proof (bytes_drop 12 address Hb) as Hd.
    destruct (drop 12 address) as [|a [|b [|c [|d [|]]]]]; try discriminate Hq.
    repeat (apply Forall_cons in Hd as [? Hd]). destruct (dotted_field a b c d) as (_ & _ & H15); [done..|].
    cbn [concat]. rewrite length_app. cbn [MAPPED_PREFIX length]. lia.
  - destruct (zero_span_first_longest (segments address) Hn) as [Hw _ _]. revert Hw.
    generalize (zero_span 0 NO_SPAN NO_SPAN (segments address)). intros z Hw. destruct (1 <? sp_len z) eqn:H1; bool_hyps.
    + rewrite !concat_app. cbn [concat]. rewrite !concat_subslice, app_nil_r, !length_app.
      pose proof (length_join 58 _ 4 (hex_lengths _ (Forall_take _ (sp_start z) _ Hs))) as HL.
      pose proof (length_join 58 _ 4 (hex_lengths _ (Forall_drop _ (sp_start z + sp_len z) _ Hs))) as HR.
      rewrite length_fmap, length_take in HL. rewrite length_fmap, length_drop in HR. cbn [DOUBLE_COLON length]. lia.
    + rewrite concat_subslice. pose proof (length_join 58 _ 4 (hex_lengths _ Hs)) as H.
      rewrite length_fmap in H. lia.
Qed.

Lemma fold_app (ps : list (list Z)) : ∀ acc, fold_left app ps acc = acc ++ concat ps.
Proof.
  induction ps as [|p ps IH]; intros acc; cbn; [by rewrite app_nil_r|]. by rewrite IH, app_assoc.
Qed.

(** C40: The text of an address is exact and says which address it is. Formatting
    writes the whole text and its length, or reports a buffer that is too small
    after writing some prefix; 39 bytes are always enough. The groups left out
    are the first longest run of zeros, and a reader of IPv6 texts gets the
    address back, so no two addresses share a text. A beacon token is the digest
    of the group identifier followed by the text, and a multicast group is the
    fixed prefix followed by twelve bytes of the digest of the identifier. *)
Theorem ipv6_text_exact `{SHA : Sha256} (address group_id out : list Z) :
  length address = 16 → bytes address →
  (if length out <? length (text address)
   then ∃ k, format_ipv6 address out = (Err AutoError.OutputTooSmall, splice 0 (take k (text address)) out)
   else format_ipv6 address out = (Ok (length (text address)), splice 0 (text address) out)) ∧
  length (text address) ≤ IPV6_TEXT_MAX ∧
  first_longest (segments address) (zero_span 0 NO_SPAN NO_SPAN (segments address)) ∧
  read_ipv6 (text address) = address ∧
  beacon_token group_id address = sha256_digest (group_id ++ text address) ∧
  multicast_group_for group_id = [255; 18; 0; 0]%Z ++ slice (sha256_digest group_id) 2 14.
Proof.
  intros Hl Hb. pose proof (length_text address Hl Hb) as Ht. split.
  { pose proof (write_pieces_spec (display address) {| sw_out := out; sw_len := 0 |}) as H.
    cbn [sw_out sw_len Nat.add] in H. fold (text address) in H. unfold format_ipv6.
    specialize (H ltac:(unfold u64_max; unfold IPV6_TEXT_MAX in Ht; lia) ltac:(lia)).
    destruct (_ <? _); [destruct H as (k & n & _ & _ & ->); by exists k|by rewrite H]. }
  split; [done|]. split; [apply zero_span_first_longest; by apply (segments_spec 8)|].
  split; [by apply read_text|]. split; [unfold beacon_token; by rewrite fold_app|].
  unfold multicast_group_for. set (d := slice _ 2 14).
  assert (Hd : length d = 12) by (unfold d; rewrite length_slice; rewrite ?sha256_length; lia).
  unfold splice. rewrite Hd. cbn. by rewrite app_nil_r.
Qed.

(** The text of fe80::1. *)
Lemma ipv6_text_exact_witness :
  let _ := Toy.sha256 in
  let a := [254; 128; 0; 0; 0; 0; 0; 0; 0; 0; 0; 0; 0; 0; 0; 1]%Z in
  fst (format_ipv6 a (zeros 10)) = Ok 7 ∧ text a = [102; 101; 56; 48; 58; 58; 49]%Z ∧ read_ipv6 (text a) = a.
Proof.
  intros s a.
  destruct (ipv6_text_exact (SHA := s) a [] (zeros 10)) as (H & _ & _ & Hr & _).
  - reflexivity.
  - apply bytes_check. vm_compute. reflexivity.
  - assert (E : (length (zeros 10) <? length (text a)) = false) by (vm_compute; reflexivity).
    rewrite E in H. rewrite H. split; [vm_compute; reflexivity|]. split; [vm_compute; reflexivity|exact Hr].
Defined.
