(* ===== verification/LinkSession.v ===== *)
(** The responder side of a link (src/src/link_session.rs): the session state
    machine, its timers and what an inbound packet means in each state.

    The peer's round-trip time arrives as an IEEE float; it is decoded with the
    specification floats of the standard library. *)

From Stdlib Require Import SpecFloat.
From S2P Require Import Prelude Constants Primitives Buffer Wire Identity Crypto Links.

Definition ESTABLISHMENT_PER_HOP_MS : Z := 6000.
Definition KEEPALIVE_DEFAULT_MS : Z := 360000.
Definition KEEPALIVE_MIN_MS : Z := 5000.
Definition STALE_TIME_DEFAULT_MS : Z := 720000.
Definition STALE_FACTOR : Z := 2.
Definition STALE_GRACE_MS : Z := 5000.
Definition KEEPALIVE_TIMEOUT_FACTOR : Z := 4.
Definition KEEPALIVE_REQUEST : Z := 255.
Definition KEEPALIVE_RESPONSE : Z := 254.

Inductive SessionState := Handshake | Active | Stale | Closed.

Inductive SessionError :=
| SessionLink (e : LinkError)
| SessionCrypto (e : CryptoError)
| StateError.

Inductive Received :=
| Activated
| Identified (public_key : list Z)
| ReceivedData (len : nat)
| KeepaliveReceived (respond : bool)
| ReceivedClosed
| Ignored.

Inductive TickAction := TickNone | Expired | TickStale | Teardown.

#[export] Instance SessionState_eq_dec : EqDecision SessionState.
Proof. solve_decision. Defined.

Definition link_header (link_id : list Z) (pt : PacketType) (ctx : PacketContext) : PacketHeader :=
  {| flags := {| header_type := Header1; context_flag := false; transport_type := Broadcast;
                 destination_type := Link; packet_type := pt |};
     hops := 0; transport_id := None; Wire.destination_hash := link_id; context := ctx |}.

(** * The peer's round-trip time *)

(** [f64::from_be_bytes], and [f32::from_be_bytes] widened by [f64::from]. *)
Definition float_of_bits (exp_bits frac_bits : Z) (z : Z) : spec_float :=
  let s := Z.testbit z (exp_bits + frac_bits) in
  let e := ((z / 2 ^ frac_bits) mod 2 ^ exp_bits)%Z in
  let m := (z mod 2 ^ frac_bits)%Z in
  let bias := (2 ^ (exp_bits - 1) - 1 + frac_bits)%Z in
  if (e =? 2 ^ exp_bits - 1)%Z then (if (m =? 0)%Z then S754_infinity s else S754_nan)
  else
    let '(m, e) := (if (e =? 0)%Z then (m, 1 - bias)%Z else (m + 2 ^ frac_bits, e - bias)%Z) in
    binary_normalize 53 1024 (if s then - m else m) e s.

Definition f64_of_be (l : list Z) : spec_float := float_of_bits 11 52 (of_be l).
Definition f32_of_be (l : list Z) : spec_float := float_of_bits 8 23 (of_be l).
Definition f64_of_Z (z : Z) : spec_float := binary_normalize 53 1024 z 0 false.

(** [as u64]: truncation, saturating at the ends of the range. *)
Definition f64_as_u64 (f : spec_float) : Z :=
  match f with
  | S754_finite false m e => Z.min (Z.shiftl (Zpos m) e) u64_max
  | S754_infinity false => u64_max
  | _ => 0%Z
  end.

Definition is_nan (f : spec_float) : bool := match f with S754_nan => true | _ => false end.

Definition peer_rtt_ms (plaintext : list Z) : option Z :=
  let seconds :=
    match plaintext with
    | 203%Z :: rest => if length rest =? 8 then Some (f64_of_be rest) else None
    | 202%Z :: rest => if length rest =? 4 then Some (f32_of_be rest) else None
    | _ => None
    end in
  match seconds with
  | None => None
  | Some seconds =>
      if is_nan seconds || SFltb seconds (f64_of_Z 0) then None
      else
        let millis := SFmul 53 1024 seconds (f64_of_Z 1000) in
        Some (if SFleb (f64_of_Z STALE_TIME_DEFAULT_MS) millis then STALE_TIME_DEFAULT_MS
              else f64_as_u64 millis)
  end.

(** * The session *)

Record ResponderSession := {
  rs_link_id : list Z;
  rs_keys : LinkKeys;
  rs_state : SessionState;
  rs_request_ms : Z;
  rs_establishment_timeout_ms : Z;
  rs_rtt_ms : option Z;
  rs_keepalive_ms : Z;
  rs_stale_ms : Z;
  rs_last_inbound_ms : Z;
  rs_last_outbound_ms : option Z;
  rs_activated_ms : option Z;
  rs_stale_since_ms : option Z;
  rs_remote_identity_hash : option (list Z)
}.

(** Assignments to fields of [self]. *)
Definition with_state (st : SessionState) (stale_since : option Z) (s : ResponderSession)
  : ResponderSession :=
  {| rs_link_id := rs_link_id s; rs_keys := rs_keys s; rs_state := st;
     rs_request_ms := rs_request_ms s; rs_establishment_timeout_ms := rs_establishment_timeout_ms s;
     rs_rtt_ms := rs_rtt_ms s; rs_keepalive_ms := rs_keepalive_ms s; rs_stale_ms := rs_stale_ms s;
     rs_last_inbound_ms := rs_last_inbound_ms s; rs_last_outbound_ms := rs_last_outbound_ms s;
     rs_activated_ms := rs_activated_ms s; rs_stale_since_ms := stale_since;
     rs_remote_identity_hash := rs_remote_identity_hash s |}.

Definition with_last_inbound (now_ms : Z) (s : ResponderSession) : ResponderSession :=
  {| rs_link_id := rs_link_id s; rs_keys := rs_keys s; rs_state := rs_state s;
     rs_request_ms := rs_request_ms s; rs_establishment_timeout_ms := rs_establishment_timeout_ms s;
     rs_rtt_ms := rs_rtt_ms s; rs_keepalive_ms := rs_keepalive_ms s; rs_stale_ms := rs_stale_ms s;
     rs_last_inbound_ms := now_ms; rs_last_outbound_ms := rs_last_outbound_ms s;
     rs_activated_ms := rs_activated_ms s; rs_stale_since_ms := rs_stale_since_ms s;
     rs_remote_identity_hash := rs_remote_identity_hash s |}.

Definition with_last_outbound (now_ms : Z) (s : ResponderSession) : ResponderSession :=
  {| rs_link_id := rs_link_id s; rs_keys := rs_keys s; rs_state := rs_state s;
     rs_request_ms := rs_request_ms s; rs_establishment_timeout_ms := rs_establishment_timeout_ms s;
     rs_rtt_ms := rs_rtt_ms s; rs_keepalive_ms := rs_keepalive_ms s; rs_stale_ms := rs_stale_ms s;
     rs_last_inbound_ms := rs_last_inbound_ms s; rs_last_outbound_ms := Some now_ms;
     rs_activated_ms := rs_activated_ms s; rs_stale_since_ms := rs_stale_since_ms s;
     rs_remote_identity_hash := rs_remote_identity_hash s |}.

Definition with_remote_identity (h : list Z) (s : ResponderSession) : ResponderSession :=
  {| rs_link_id := rs_link_id s; rs_keys := rs_keys s; rs_state := rs_state s;
     rs_request_ms := rs_request_ms s; rs_establishment_timeout_ms := rs_establishment_timeout_ms s;
     rs_rtt_ms := rs_rtt_ms s; rs_keepalive_ms := rs_keepalive_ms s; rs_stale_ms := rs_stale_ms s;
     rs_last_inbound_ms := rs_last_inbound_ms s; rs_last_outbound_ms := rs_last_outbound_ms s;
     rs_activated_ms := rs_activated_ms s; rs_stale_since_ms := rs_stale_since_ms s;
     rs_remote_identity_hash := Some h |}.

(** The assignments of the RTT arm. *)
Definition activate (rtt now_ms : Z) (s : ResponderSession) : ResponderSession :=
  let keepalive := Z.max KEEPALIVE_MIN_MS (Z.min (sat_mul64 rtt 1440 / 7)%Z KEEPALIVE_DEFAULT_MS) in
  {| rs_link_id := rs_link_id s; rs_keys := rs_keys s; rs_state := Active;
     rs_request_ms := rs_request_ms s; rs_establishment_timeout_ms := rs_establishment_timeout_ms s;
     rs_rtt_ms := Some rtt; rs_keepalive_ms := keepalive;
     rs_stale_ms := sat_mul64 keepalive STALE_FACTOR;
     rs_last_inbound_ms := now_ms; rs_last_outbound_ms := rs_last_outbound_ms s;
     rs_activated_ms := Some now_ms; rs_stale_since_ms := rs_stale_since_ms s;
     rs_remote_identity_hash := rs_remote_identity_hash s |}.

Section session.
Context `{SHA : Sha256} `{HMAC : Hmac} `{AES : AesCbc} `{HKDF : HkdfSha256} `{X : X25519} `{ED : Ed25519}.

Definition initial (link_id : list Z) (keys : LinkKeys) (hops now_ms : Z) : ResponderSession :=
  {| rs_link_id := link_id; rs_keys := keys; rs_state := Handshake; rs_request_ms := now_ms;
     rs_establishment_timeout_ms :=
       sat_add64 (sat_mul64 ESTABLISHMENT_PER_HOP_MS (Z.max hops 1)) KEEPALIVE_DEFAULT_MS;
     rs_rtt_ms := None; rs_keepalive_ms := KEEPALIVE_DEFAULT_MS; rs_stale_ms := STALE_TIME_DEFAULT_MS;
     rs_last_inbound_ms := now_ms; rs_last_outbound_ms := None; rs_activated_ms := None;
     rs_stale_since_ms := None; rs_remote_identity_hash := None |}.

(** The proof buffer is the state. *)
Definition accept (identity : LocalIdentity) (destination_hash request : list Z) (hops : Z)
    (ephemeral_x25519 : list Z) (now_ms : Z)
  : st (list Z) SessionError (ResponderSession * nat) := λ proof,
  match parse_request request with
  | Err e => (Err (SessionLink e), proof)
  | Panic => (Panic, proof)
  | Ok view =>
      if negb (sd_mode (lr_signalling view) =? MODE_AES256_CBC)%Z
      then (Err (SessionLink UnsupportedMode), proof)
      else
        match SignallingData.try_new MODE_AES256_CBC (Z.of_nat MTU) with
        | Err e => (Err (SessionLink e), proof)
        | Panic => (Panic, proof)
        | Ok signalling =>
            let link_id := compute_link_id destination_hash request in
            match build_link_proof identity ephemeral_x25519 link_id signalling proof with
            | (Err e, proof) => (Err (SessionLink e), proof)
            | (Panic, proof) => (Panic, proof)
            | (Ok proof_len, proof) =>
                let keys := derive_link_keys ephemeral_x25519 (lr_peer_x25519_pub view) link_id in
                (Ok (initial link_id keys hops now_ms, proof_len), proof)
            end
        end
  end.

Definition record_inbound (now_ms : Z) (s : ResponderSession) : ResponderSession :=
  let s := with_last_inbound now_ms s in
  if bool_decide (rs_state s = Stale) then with_state Active None s else s.

(** [link_decrypt(...)?] into the caller's buffer, keeping the session. *)
Definition decrypt_or (payload : list Z) (sb : ResponderSession * list Z)
    (k : nat → list Z → outcome SessionError Received * (ResponderSession * list Z))
  : outcome SessionError Received * (ResponderSession * list Z) :=
  let (s, plaintext) := sb in
  match link_decrypt (rs_keys s) payload plaintext with
  | (Ok len, plaintext) => k len plaintext
  | (Err e, plaintext) => (Err (SessionCrypto e), (s, plaintext))
  | (Panic, plaintext) => (Panic, (s, plaintext))
  end.

(** The session and the caller's plaintext buffer are the state. *)
Definition receive (ctx : PacketContext) (payload : list Z) (now_ms : Z)
  : st (ResponderSession * list Z) SessionError Received := λ '(s, plaintext),
  if bool_decide (rs_state s = Closed) then (Err StateError, (s, plaintext))
  else
    match ctx with
    | Keepalive =>
        if bool_decide (rs_state s = Handshake) || negb (payload =k [KEEPALIVE_REQUEST])
        then (Ok Ignored, (s, plaintext))
        else
          let s := record_inbound now_ms s in
          let respond :=
            match rs_last_outbound_ms s with
            | None => true
            | Some sent => (rs_keepalive_ms s <=? sat_sub now_ms sent)%Z
            end in
          (Ok (KeepaliveReceived respond), (s, plaintext))
    | Lrrtt =>
        if negb (bool_decide (rs_state s = Handshake)) then (Err StateError, (s, plaintext))
        else
          decrypt_or payload (s, plaintext) (λ len plaintext,
            let local_rtt := sat_sub now_ms (rs_request_ms s) in
            let rtt := match peer_rtt_ms (take len plaintext) with
                       | Some peer => Z.max peer local_rtt
                       | None => local_rtt
                       end in
            (Ok Activated, (activate rtt now_ms s, plaintext)))
    | LinkIdentify =>
        decrypt_or payload (s, plaintext) (λ len plaintext,
          match verify_identification (rs_link_id s) (take len plaintext) with
          | None => (Err (SessionCrypto AuthenticationFailed), (s, plaintext))
          | Some public_key =>
              let s := record_inbound now_ms s in
              match rs_remote_identity_hash s with
              | Some _ => (Ok Ignored, (s, plaintext))
              | None =>
                  (Ok (Identified public_key),
                   (with_remote_identity (identity_hash public_key) s, plaintext))
              end
          end)
    | LinkClose =>
        decrypt_or payload (s, plaintext) (λ len plaintext,
          if (len <? DESTINATION_LENGTH)
             || negb (take DESTINATION_LENGTH plaintext =k rs_link_id s)
          then (Ok Ignored, (s, plaintext))
          else (Ok ReceivedClosed, (with_state Closed (rs_stale_since_ms s) s, plaintext)))
    | CtxNone =>
        if bool_decide (rs_state s = Handshake) then (Err StateError, (s, plaintext))
        else
          decrypt_or payload (s, plaintext) (λ len plaintext,
            (Ok (ReceivedData len), (record_inbound now_ms s, plaintext)))
    | _ => (Ok Ignored, (s, plaintext))
    end.

(** The session and the output slice are the state. *)
Definition seal (plaintext iv : list Z) (now_ms : Z)
  : st (ResponderSession * list Z) SessionError nat := λ '(s, out),
  if negb (bool_decide (rs_state s = Active) || bool_decide (rs_state s = Stale))
  then (Err StateError, (s, out))
  else
    match link_encrypt (rs_keys s) plaintext iv out with
    | (Ok len, out) => (Ok len, (with_last_outbound now_ms s, out))
    | (Err e, out) => (Err (SessionCrypto e), (s, out))
    | (Panic, out) => (Panic, (s, out))
    end.

Definition keepalive_response (now_ms : Z) (s : ResponderSession) : list Z * ResponderSession :=
  ([KEEPALIVE_RESPONSE], with_last_outbound now_ms s).

Definition teardown (iv : list Z) (s : ResponderSession) (out : list Z)
  : option nat * (ResponderSession * list Z) :=
  if bool_decide (rs_state s = Closed) then (None, (s, out))
  else
    let (r, out) := link_encrypt (rs_keys s) (rs_link_id s) iv out in
    (match r with Ok len => Some len | _ => None end,
     (with_state Closed (rs_stale_since_ms s) s, out)).

Definition tick (now_ms : Z) (s : ResponderSession) : TickAction * ResponderSession :=
  match rs_state s with
  | Handshake =>
      if (rs_establishment_timeout_ms s <? sat_sub now_ms (rs_request_ms s))%Z
      then (Expired, with_state Closed (rs_stale_since_ms s) s)
      else (TickNone, s)
  | Active =>
      let latest := match rs_activated_ms s with
                    | Some activated => Z.max activated (rs_last_inbound_ms s)
                    | None => rs_last_inbound_ms s
                    end in
      if (rs_stale_ms s <=? sat_sub now_ms latest)%Z
      then (TickStale, with_state Stale (Some now_ms) s)
      else (TickNone, s)
  | Stale =>
      let grace := sat_add64 (sat_mul64 (default 1000%Z (rs_rtt_ms s)) KEEPALIVE_TIMEOUT_FACTOR)
                     STALE_GRACE_MS in
      if match rs_stale_since_ms s with
         | Some since => (grace <=? sat_sub now_ms since)%Z
         | None => false
         end
      then (Teardown, s)
      else (TickNone, s)
  | Closed => (TickNone, s)
  end.

End session.

Example rtt_quarter_second : peer_rtt_ms [203; 63; 208; 0; 0; 0; 0; 0; 0]%Z = Some 250%Z.
Proof. vm_compute. reflexivity. Qed.
Example rtt_single_precision : peer_rtt_ms [202; 63; 0; 0; 0]%Z = Some 500%Z.
Proof. vm_compute. reflexivity. Qed.
Example rtt_negative : peer_rtt_ms [203; 191; 208; 0; 0; 0; 0; 0; 0]%Z = None.
Proof. vm_compute. reflexivity. Qed.
Example rtt_infinite : peer_rtt_ms [203; 127; 240; 0; 0; 0; 0; 0; 0]%Z = Some STALE_TIME_DEFAULT_MS.
Proof. vm_compute. reflexivity. Qed.
Example rtt_nan : peer_rtt_ms [203; 127; 248; 0; 0; 0; 0; 0; 0]%Z = None.
Proof. vm_compute. reflexivity. Qed.

(** * Receiving *)

Section receiving.
Context `{SHA : Sha256} `{HMAC : Hmac} `{AES : AesCbc} `{HKDF : HkdfSha256} `{X : X25519} `{ED : Ed25519}.

Lemma link_decrypt_cases keys payload buf :
  (∃ pt, open_token keys payload = Ok pt ∧ length pt ≤ length buf ∧
     length payload ≤ LINK_PADDED_MAX + 48 ∧
     link_decrypt keys payload buf = (Ok (length pt), pt ++ drop (length pt) buf)) ∨
  (∃ e, link_decrypt keys payload buf = (Err e, buf)).
Proof.
  unfold link_decrypt. rewrite token_decrypt_spec.
  destruct (open_token keys payload) as [pt|e|]; [|eauto..].
  destruct (LINK_PADDED_MAX <? _) eqn:H1; [eauto|]. destruct (length buf <? length pt) eqn:H2; [eauto|].
  bool_hyps. left. exists pt. split; [done|]. split; [done|]. split; [lia|done].
Qed.

Definition session_open (s : ResponderSession) (payload pt : list Z) : Prop :=
  open_token (rs_keys s) payload = Ok pt.

(** What each event means. *)
Definition event_means (s : ResponderSession) (ctx : PacketContext) (payload : list Z) (now : Z)
    (r : Received) (s' : ResponderSession) (buf' : list Z) : Prop :=
  match r with
  | Activated => ctx = Lrrtt ∧ rs_state s = Handshake ∧
      ∃ pt rtt, session_open s payload pt ∧ (sat_sub now (rs_request_ms s) ≤ rtt)%Z ∧ s' = activate rtt now s
  | ReceivedData n => ctx = CtxNone ∧ (rs_state s = Active ∨ rs_state s = Stale) ∧
      (∃ pt, session_open s payload pt ∧ n = length pt ∧ take n buf' = pt) ∧ s' = record_inbound now s
  | Identified pk => ctx = LinkIdentify ∧ rs_remote_identity_hash s = None ∧
      (∃ pt sg, session_open s payload pt ∧ pt = pk ++ sg ∧ length pk = 64 ∧
         ed_verify (drop 32 pk) (rs_link_id s ++ pk) sg = true) ∧
      s' = with_remote_identity (identity_hash pk) (record_inbound now s)
  | ReceivedClosed => ctx = LinkClose ∧
      (∃ pt, session_open s payload pt ∧ DESTINATION_LENGTH ≤ length pt ∧
         take DESTINATION_LENGTH pt = rs_link_id s) ∧
      s' = with_state Closed (rs_stale_since_ms s) s
  | KeepaliveReceived respond => ctx = Keepalive ∧ payload = [KEEPALIVE_REQUEST] ∧
      (rs_state s = Active ∨ rs_state s = Stale) ∧ s' = record_inbound now s ∧
      (respond = true ↔ ∀ sent, rs_last_outbound_ms s = Some sent → (rs_keepalive_ms s ≤ sat_sub now sent)%Z)
  | Ignored => s' = s ∨
      (ctx = LinkIdentify ∧ is_Some (rs_remote_identity_hash s) ∧ s' = record_inbound now s)
  end.

Lemma record_inbound_fields now s :
  rs_last_outbound_ms (record_inbound now s) = rs_last_outbound_ms s ∧
  rs_keepalive_ms (record_inbound now s) = rs_keepalive_ms s ∧
  rs_remote_identity_hash (record_inbound now s) = rs_remote_identity_hash s ∧
  rs_keys (record_inbound now s) = rs_keys s ∧ rs_link_id (record_inbound now s) = rs_link_id s.
Proof. unfold record_inbound. destruct (bool_decide _); done. Qed.

(** The event of a call, or an error that leaves the session as it was. *)
Definition receive_ok (s : ResponderSession) (ctx : PacketContext) (payload : list Z) (now : Z)
    (o : outcome SessionError Received * (ResponderSession * list Z)) : Prop :=
  match o with
  | (Ok r, (s', buf')) => rs_state s ≠ Closed ∧ event_means s ctx payload now r s' buf'
  | (Err _, (s', _)) => s' = s
  | (Panic, _) => False
  end.

(** The decrypting arms. *)
Lemma decrypt_or_ok s ctx payload now buf k :
  (∀ pt buf', session_open s payload pt → take (length pt) buf' = pt → length pt ≤ length buf' →
     receive_ok s ctx payload now (k (length pt) buf')) →
  receive_ok s ctx payload now (decrypt_or payload (s, buf) k).
Proof.
  intros Hk. unfold decrypt_or.
  destruct (link_decrypt_cases (rs_keys s) payload buf) as [(pt & Ho & Hl & _ & ->)|(e & ->)]; [|done].
  apply Hk; [done|apply take_app_length|rewrite length_app; lia].
Qed.

Lemma receive_meaning s buf ctx payload now :
  length (rs_link_id s) = DESTINATION_LENGTH →
  receive_ok s ctx payload now (receive ctx payload now (s, buf)).
Proof.
  intros Hlid. unfold receive. destruct (bool_decide (rs_state s = Closed)) eqn:Hc; [done|]. bool_hyps.
  assert (Hig : ∀ b, receive_ok s ctx payload now (Ok Ignored, (s, b))) by (intros b; split; [done|by left]).
  destruct ctx; try apply Hig.
  - (* data *)
    destruct (bool_decide _) eqn:Hh; [done|]. bool_hyps. apply decrypt_or_ok.
    intros pt buf' Ho Ht Hl. split; [done|]. split; [done|].
    split; [destruct (rs_state s); try done; auto|]. split; [by exists pt|done].
  - (* keepalive *)
    destruct (_ || _) eqn:Hh; [apply Hig|]. bool_hyps. split; [done|]. split; [done|]. split; [done|].
    split; [destruct (rs_state s); try done; auto|]. split; [done|].
    destruct (record_inbound_fields now s) as (-> & -> & _).
    destruct (rs_last_outbound_ms s) as [sent|]; [|naive_solver].
    rewrite Z.leb_le. naive_solver.
  - (* identification *)
    apply decrypt_or_ok. intros pt buf' Ho Ht Hl. rewrite Ht.
    destruct (verify_identification (rs_link_id s) pt) as [pk|] eqn:Hv; [|done].
    apply verify_identification_spec in Hv as (sg & Hpt & Hpk & _ & _ & Hver); [|done].
    pose proof (record_inbound_fields now s) as (_ & _ & Hr & _). rewrite Hr.
    destruct (rs_remote_identity_hash s) as [h|] eqn:Hrem; (split; [done|]).
    + right. by rewrite Hrem.
    + split; [done|]. split; [done|]. split; [|done]. by exists pt, sg.
  - (* close *)
    apply decrypt_or_ok. intros pt buf' Ho Ht Hl.
    destruct (_ || _) eqn:Hb; [apply Hig|]. bool_hyps. split; [done|]. split; [done|]. split; [|done].
    exists pt. split; [done|]. split; [done|]. rewrite <- Ht, take_take. by rewrite Nat.min_l by lia.
  - (* round-trip time *)
    destruct (bool_decide (rs_state s = Handshake)) eqn:Hh; cbn [negb]; [|done]. bool_hyps.
    apply decrypt_or_ok. intros pt buf' Ho Ht Hl. split; [done|]. split; [done|]. split; [done|].
    eexists pt, _. split; [done|]. split; [|done]. destruct (peer_rtt_ms _); lia.
Qed.

End receiving.

(** * The life of a session *)

Section lifecycle.
Context `{SHA : Sha256} `{HMAC : Hmac} `{AES : AesCbc} `{HKDF : HkdfSha256} `{X : X25519} `{ED : Ed25519}.

(** Any call of the host on a session. *)
Inductive session_step (s : ResponderSession) : ResponderSession → Prop :=
| step_receive ctx payload now buf : session_step s (fst (snd (receive ctx payload now (s, buf))))
| step_seal pt iv now out : session_step s (fst (snd (seal pt iv now (s, out))))
| step_keepalive now : session_step s (snd (keepalive_response now s))
| step_teardown iv out : session_step s (fst (snd (teardown iv s out)))
| step_tick now : session_step s (snd (tick now s)).

Definition live (s : ResponderSession) : Prop := rs_state s = Active ∨ rs_state s = Stale.

Record session_ok (s : ResponderSession) : Prop := {
  so_link_id : length (rs_link_id s) = DESTINATION_LENGTH;
  so_keepalive : (KEEPALIVE_MIN_MS ≤ rs_keepalive_ms s ≤ KEEPALIVE_DEFAULT_MS)%Z;
  so_handshake : rs_state s = Handshake → rs_rtt_ms s = None ∧ rs_activated_ms s = None;
  so_live : live s → is_Some (rs_rtt_ms s) ∧ is_Some (rs_activated_ms s) ∧
    (rs_stale_ms s = 2 * rs_keepalive_ms s)%Z;
  so_stale : rs_state s = Stale → is_Some (rs_stale_since_ms s);
  so_fresh : rs_state s = Handshake ∨ rs_state s = Active → rs_stale_since_ms s = None
}.

(** What no call takes back. *)
Record evolves (s s' : ResponderSession) : Prop := {
  ev_link_id : rs_link_id s' = rs_link_id s;
  ev_keys : rs_keys s' = rs_keys s;
  ev_request : rs_request_ms s' = rs_request_ms s;
  ev_timeout : rs_establishment_timeout_ms s' = rs_establishment_timeout_ms s;
  ev_remote : ∀ h, rs_remote_identity_hash s = Some h → rs_remote_identity_hash s' = Some h;
  ev_rtt : ∀ r, rs_rtt_ms s = Some r → rs_rtt_ms s' = Some r;
  ev_closed : rs_state s = Closed → rs_state s' = Closed;
  ev_handshake : rs_state s ≠ Handshake → rs_state s' ≠ Handshake
}.

#[export] Instance evolves_preorder : PreOrder evolves.
Proof.
  split; [by split|]. intros a b c [] []. split; try congruence; eauto.
Qed.

Lemma clamp_keepalive z :
  (KEEPALIVE_MIN_MS ≤ Z.max KEEPALIVE_MIN_MS (Z.min z KEEPALIVE_DEFAULT_MS) ≤ KEEPALIVE_DEFAULT_MS)%Z.
Proof. unfold KEEPALIVE_MIN_MS, KEEPALIVE_DEFAULT_MS. lia. Qed.

Lemma activate_ok rtt now s : session_ok s → rs_state s = Handshake → session_ok (activate rtt now s).
Proof.
  intros Hs Hh. pose proof (clamp_keepalive (sat_mul64 rtt 1440 / 7)) as Hk.
  unfold activate. set (ka := Z.max _ _) in *. clearbody ka.
  split; cbn [rs_link_id rs_keepalive_ms rs_state rs_rtt_ms rs_activated_ms rs_stale_ms rs_stale_since_ms];
    try done; [apply Hs| |].
  - intros _. split; [done|]. split; [done|]. unfold sat_mul64, STALE_FACTOR, u64_max.
    unfold KEEPALIVE_DEFAULT_MS in *. lia.
  - intros _. apply Hs. by left.
Qed.

Lemma inbound_ok now s : session_ok s → session_ok (record_inbound now s).
Proof.
  intros [H1 H2 H3 H4 H5 H6]. unfold record_inbound. cbn [rs_state with_last_inbound].
  destruct (bool_decide (rs_state s = Stale)) eqn:Hb; bool_hyps.
  - split; cbn; try done. intros _. apply H4. by right.
  - split; cbn; done.
Qed.

Lemma close_ok s : session_ok s → session_ok (with_state Closed (rs_stale_since_ms s) s).
Proof. intros [H1 H2 H3 H4 H5 H6]. split; cbn; try done; intros [?|?]; done. Qed.

Lemma outbound_ok now s : session_ok s → session_ok (with_last_outbound now s).
Proof. intros [H1 H2 H3 H4 H5 H6]. split; cbn; done. Qed.

Lemma receive_step_cases s ctx payload now buf :
  session_ok s →
  let s' := fst (snd (receive ctx payload now (s, buf))) in
  s' = s ∨ (rs_state s ≠ Closed ∧ s' = record_inbound now s) ∨
  (rs_state s = Handshake ∧ ∃ rtt, s' = activate rtt now s) ∨
  (rs_state s ≠ Closed ∧ s' = with_state Closed (rs_stale_since_ms s) s) ∨
  (rs_state s ≠ Closed ∧ rs_remote_identity_hash s = None ∧ ∃ h, s' = with_remote_identity h (record_inbound now s)).
Proof.
  intros Hs. pose proof (receive_meaning s buf ctx payload now (so_link_id s Hs)) as H. cbv zeta.
  destruct (receive ctx payload now (s, buf)) as [[r|e|] [s' buf']]; cbn [fst snd receive_ok] in *;
    [|by left|done].
  destruct H as [Hc He]. destruct r; cbn [event_means] in He; naive_solver.
Qed.

Lemma session_step_ok s s' : session_ok s → session_step s s' → session_ok s' ∧ evolves s s'.
Proof.
  intros Hs Hst. destruct Hst as [ctx payload now buf|pt iv now out|now|iv out|now].
  - destruct (receive_step_cases s ctx payload now buf Hs)
      as [->|[(Hc & ->)|[(Hh & rtt & ->)|[(Hc & ->)|(Hc & Hr & h & ->)]]]].
    + done.
    + split; [by apply inbound_ok|]. unfold record_inbound. cbn [rs_state with_last_inbound].
      destruct (bool_decide (rs_state s = Stale)); by split; cbn.
    + split; [by apply activate_ok|]. destruct (so_handshake s Hs Hh) as [Hn _].
      split; cbn; try done; [by rewrite Hn|by rewrite Hh].
    + split; [by apply close_ok|]. by split.
    + pose proof (inbound_ok now s Hs) as [H1 H2 H3 H4 H5 H6].
      split; [split; cbn; done|]. unfold record_inbound. cbn [rs_state with_last_inbound].
      destruct (bool_decide (rs_state s = Stale)); split; cbn; try done; by rewrite Hr.
  - unfold seal. destruct (negb _); [done|].
    destruct (link_encrypt _ _ _ _) as [[n|e|] out']; cbn [fst snd]; [|done..].
    split; [by apply outbound_ok|by split].
  - split; [by apply outbound_ok|by split].
  - unfold teardown. destruct (bool_decide _); [done|].
    destruct (link_encrypt _ _ _ _) as [r out']. split; [by apply close_ok|by split].
  - unfold tick. destruct (rs_state s) eqn:Hst.
    + destruct (_ <? _)%Z; [|done]. split; [by apply close_ok|]. by split; cbn.
    + destruct (_ <=? _)%Z; [|done]. split; [|by split; cbn; rewrite ?Hst].
      destruct Hs as [H1 H2 H3 H4 H5 H6]. split; cbn; try done.
      * intros _. apply H4. by left.
      * intros [?|?]; done.
    + by destruct (match rs_stale_since_ms s with Some _ => _ | None => _ end).
    + done.
Qed.

Lemma session_steps s s' : session_ok s → rtc session_step s s' → session_ok s' ∧ evolves s s'.
Proof.
  intros Hs Hst. induction Hst as [s|s s1 s' H1 _ IH]; [done|].
  destruct (session_step_ok s s1 Hs H1) as [Hs1 He1]. destruct (IH Hs1) as [Hs' He].
  split; [done|]. by etransitivity.
Qed.

Lemma initial_ok lid keys hops now :
  length lid = DESTINATION_LENGTH → session_ok (initial lid keys hops now).
Proof.
  intros Hl. split; try done.
  intros [?|?]; done.
Qed.

Lemma accept_spec k d req hops eph now proof :
  length d = DESTINATION_LENGTH →
  match accept (from_private_key k) d req hops eph now proof with
  | (Ok (s, n), proof') => n = 99 ∧ ∃ view, parse_request req = Ok view ∧
      let lid := compute_link_id d req in
      length lid = DESTINATION_LENGTH ∧
      s = initial lid (derive_link_keys eph (lr_peer_x25519_pub view) lid) hops now ∧
      proof' = proof_bytes (proof_signature k eph lid) (x_public eph) ++ drop 99 proof ∧ 99 ≤ length proof
  | (Err _, proof') => proof' = proof
  | (Panic, _) => parse_request req = Panic
  end.
Proof.
  intros Hd. unfold accept. destruct (parse_request req) as [view|e|]; [|done..].
  destruct (negb _); [done|].
  change (SignallingData.try_new MODE_AES256_CBC (Z.of_nat MTU)) with (@Ok LinkError _ endpoint_signalling).
  cbv beta iota zeta. set (lid := compute_link_id d req).
  assert (Hl : length lid = DESTINATION_LENGTH)
    by (unfold lid; rewrite link_id_eq by done; apply length_truncated_hash).
  rewrite build_link_proof_spec, endpoint_fixed by done.
  destruct (length proof <? LINK_PROOF_LEN) eqn:Hp; [done|]. bool_hyps.
  split; [done|]. exists view. by repeat (split; [done|]).
Qed.

End lifecycle.

(** * Properties *)

Section properties.
Context `{SHA : Sha256} `{HMAC : Hmac} `{AES : AesCbc} `{HKDF : HkdfSha256} `{X : X25519} `{ED : Ed25519}.

(** C9: what an inbound link packet can do. In any session reachable from an
    accepted request, receiving any bytes never panics; an error leaves the
    session exactly as it was; and every event carries its evidence: activation
    happens only in the handshake, data only in an active or stale session,
    closing only for the link's own id, each only for bytes that authenticate
    under the session key; a peer is identified only by a signature of the link
    id under the key it shows, and only once. *)
Theorem session_receive_authenticated k d req hops eph t proof s0 n proof' s ctx payload now buf :
  length d = DESTINATION_LENGTH →
  accept (from_private_key k) d req hops eph t proof = (Ok (s0, n), proof') →
  rtc session_step s0 s →
  receive_ok s ctx payload now (receive ctx payload now (s, buf)).
Proof.
  intros Hd Ha Hst. pose proof (accept_spec k d req hops eph t proof Hd) as Hs. rewrite Ha in Hs.
  destruct Hs as (_ & view & _ & Hl & -> & _). apply receive_meaning.
  destruct (session_steps _ _ (initial_ok _ _ hops t Hl) Hst) as [Hok _]. apply Hok.
Qed.

(** C25: the life of a session. Along any sequence of calls from an accepted
    request: the keepalive interval stays between 5 and 360 seconds and an
    active or stale session goes stale after twice that; a stale session knows
    since when; the link id, the keys, the request time, the measured round trip
    and the first identified peer never change; the handshake is never
    re-entered; and a closed session stays closed, accepting nothing, sealing
    nothing, tearing down and ticking to nothing. *)
Theorem session_lifecycle k d req hops eph t proof s0 n proof' s s' :
  length d = DESTINATION_LENGTH →
  accept (from_private_key k) d req hops eph t proof = (Ok (s0, n), proof') →
  rtc session_step s0 s → rtc session_step s s' →
  session_ok s' ∧ evolves s s' ∧
  (rs_state s = Closed →
   rs_state s' = Closed ∧
   (∀ ctx payload now buf, receive ctx payload now (s', buf) = (Err StateError, (s', buf))) ∧
   (∀ pt iv now out, seal pt iv now (s', out) = (Err StateError, (s', out))) ∧
   (∀ iv out, teardown iv s' out = (None, (s', out))) ∧ (∀ now, tick now s' = (TickNone, s'))).
Proof.
  intros Hd Ha Hst Hst'. pose proof (accept_spec k d req hops eph t proof Hd) as Hs. rewrite Ha in Hs.
  destruct Hs as (_ & view & _ & Hl & -> & _).
  destruct (session_steps _ _ (initial_ok _ _ hops t Hl) Hst) as [Hok _].
  destruct (session_steps _ _ Hok Hst') as [Hok' Hev]. split; [done|]. split; [done|].
  intros Hc. pose proof (ev_closed _ _ Hev Hc) as Hc'. split; [done|].
  unfold receive, seal, teardown, tick. rewrite Hc'. done.
Qed.

(** A silent peer is noticed in time. An accepted session whose handshake
    has not completed expires at exactly the first tick later than six seconds
    per hop plus six minutes; an active session goes stale at the first tick at
    least twice the keepalive interval, at most twelve minutes, after the last
    word; a stale one asks for teardown at the first tick at least four round
    trips plus five seconds later, and a keepalive request makes it active
    again; nothing else changes a session in a tick. *)
Lemma session_silence_detected k d req hops eph t proof s0 n proof' s now :
  length d = DESTINATION_LENGTH →
  accept (from_private_key k) d req hops eph t proof = (Ok (s0, n), proof') →
  rtc session_step s0 s →
  let expired := (sat_add64 (sat_mul64 6000 (Z.max hops 1)) 360000 < sat_sub now t)%Z in
  let latest := Z.max (default 0%Z (rs_activated_ms s)) (rs_last_inbound_ms s) in
  let grace := sat_add64 (sat_mul64 (default 1000%Z (rs_rtt_ms s)) 4) 5000 in
  match tick now s with
  | (Expired, s') => rs_state s = Handshake ∧ expired ∧ s' = with_state Closed (rs_stale_since_ms s) s
  | (TickStale, s') => rs_state s = Active ∧ (rs_stale_ms s ≤ sat_sub now latest)%Z ∧
      (rs_stale_ms s = 2 * rs_keepalive_ms s)%Z ∧ (rs_stale_ms s ≤ 720000)%Z ∧ s' = with_state Stale (Some now) s
  | (Teardown, s') => s' = s ∧ rs_state s = Stale ∧
      ∃ since, rs_stale_since_ms s = Some since ∧ (grace ≤ sat_sub now since)%Z
  | (TickNone, s') => s' = s ∧ (rs_state s = Handshake → ¬ expired) ∧
      (rs_state s = Active → (sat_sub now latest < rs_stale_ms s)%Z) ∧
      (rs_state s = Stale → ∃ since, rs_stale_since_ms s = Some since ∧ (sat_sub now since < grace)%Z)
  end ∧
  (rs_state s = Stale → ∀ buf,
   rs_state (fst (snd (receive Keepalive [KEEPALIVE_REQUEST] now (s, buf)))) = Active).
Proof.
  intros Hd Ha Hst expired latest grace.
  pose proof (accept_spec k d req hops eph t proof Hd) as Hs. rewrite Ha in Hs.
  destruct Hs as (_ & view & _ & Hl & -> & _).
  destruct (session_steps _ _ (initial_ok _ _ hops t Hl) Hst) as [Hok Hev].
  assert (Hto : rs_establishment_timeout_ms s = sat_add64 (sat_mul64 6000 (Z.max hops 1)) 360000)
    by apply (ev_timeout _ _ Hev).
  assert (Hrq : rs_request_ms s = t) by apply (ev_request _ _ Hev).
  split.
  - unfold tick. rewrite Hto, Hrq. destruct (rs_state s) eqn:Hstate.
    + fold expired. destruct (_ <? _)%Z eqn:He; bool_hyps; [done|].
      split; [done|]. split; [intros _; unfold expired; lia|]. split; intros; done.
    + destruct (so_live s Hok (or_introl Hstate)) as ([r _] & [a Hact] & Hstale).
      pose proof (so_keepalive s Hok) as Hk. unfold latest. rewrite Hact. cbn [from_option id].
      destruct (_ <=? _)%Z eqn:He; bool_hyps.
      * split; [done|]. split; [done|]. unfold KEEPALIVE_DEFAULT_MS in Hk. split; [done|]. split; [lia|done].
      * split; [done|]. split; [done|]. by split.
    + destruct (so_stale s Hok Hstate) as [since Hsince]. rewrite Hsince.
      change KEEPALIVE_TIMEOUT_FACTOR with 4%Z. change STALE_GRACE_MS with 5000%Z. fold grace.
      destruct (grace <=? _)%Z eqn:He; bool_hyps.
      * split; [done|]. split; [done|]. by exists since.
      * split; [done|]. split; [done|]. split; [done|]. intros _. by exists since.
    + split; [done|]. by split.
  - intros Hstate buf. unfold receive. rewrite Hstate.
    cbn [rs_state]. rewrite !bool_decide_eq_false_2 by done. rewrite bool_decide_eq_true_2 by done.
    cbn [orb negb fst snd]. unfold record_inbound. cbn [rs_state with_last_inbound].
    by rewrite Hstate, bool_decide_eq_true_2.
Qed.

(** What fits the link's padded ceiling. *)
Definition link_fits (pt : list Z) : Prop := length pt + pad_len (length pt) ≤ LINK_PADDED_MAX.

Lemma link_roundtrip keys iv pt enc buf :
  length iv = 16 → link_fits pt → length pt + pad_len (length pt) + 48 ≤ length enc →
  length pt ≤ length buf →
  ∃ n enc', link_encrypt keys pt iv enc = (Ok n, enc') ∧
    link_decrypt keys (take n enc') buf = (Ok (length pt), pt ++ drop (length pt) buf).
Proof.
  intros Hiv Hfit He Hb. unfold link_encrypt, link_decrypt. unfold link_fits in Hfit.
  rewrite token_encrypt_spec by done. rewrite (proj2 (Nat.ltb_ge _ _)), (proj2 (Nat.ltb_ge _ _)) by lia.
  eexists _, _. split; [done|]. rewrite take_app_length, token_decrypt_spec, open_token_token by done.
  rewrite length_token by done. by rewrite (proj2 (Nat.ltb_ge _ _)), (proj2 (Nat.ltb_ge _ _)) by lia.
Qed.

(** Traffic over an established link. When a responder accepts the request
    of an initiator, then at any later point of the session, with the key the
    initiator derives from the proof: any authenticated payload completes a
    pending handshake; in an active or stale session, what the responder seals
    the initiator decrypts to the same plaintext and what the initiator encrypts
    is delivered as the same data; and the payload of a teardown decrypts to
    the link id. *)
Lemma session_roundtrip k xi d req hops eph t proof s0 n proof' view s iv pt now enc buf :
  length d = DESTINATION_LENGTH → length iv = 16 →
  parse_request req = Ok view → lr_peer_x25519_pub view = x_public xi →
  accept (from_private_key k) d req hops eph t proof = (Ok (s0, n), proof') →
  rtc session_step s0 s →
  link_fits pt → length pt + pad_len (length pt) + 48 ≤ length enc → length pt ≤ length buf →
  80 ≤ length enc → 16 ≤ length buf →
  let ki := derive_link_keys xi (x_public eph) (compute_link_id d req) in
  (∃ m enc', link_encrypt ki pt iv enc = (Ok m, enc') ∧
     (rs_state s = Handshake → ∃ s' buf', receive Lrrtt (take m enc') now (s, buf) = (Ok Activated, (s', buf')) ∧
        rs_state s' = Active) ∧
     (live s → receive CtxNone (take m enc') now (s, buf)
        = (Ok (ReceivedData (length pt)), (record_inbound now s, pt ++ drop (length pt) buf)))) ∧
  (live s → ∃ m enc', seal pt iv now (s, enc) = (Ok m, (with_last_outbound now s, enc')) ∧
     link_decrypt ki (take m enc') buf = (Ok (length pt), pt ++ drop (length pt) buf)) ∧
  (rs_state s ≠ Closed → ∃ m s' enc', teardown iv s enc = (Some m, (s', enc')) ∧ rs_state s' = Closed ∧
     link_decrypt ki (take m enc') buf = (Ok 16, compute_link_id d req ++ drop 16 buf)).
Proof.
  intros Hd Hiv Hp Hx Ha Hst Hfit He Hb He2 Hb2 ki.
  pose proof (accept_spec k d req hops eph t proof Hd) as Hs. rewrite Ha in Hs.
  destruct Hs as (_ & view' & Hp' & Hl & -> & _). rewrite Hp in Hp'. apply Ok_inj in Hp' as <-.
  destruct (session_steps _ _ (initial_ok _ _ hops t Hl) Hst) as [Hok Hev].
  assert (Hk : rs_keys s = ki).
  { rewrite (ev_keys _ _ Hev). cbn [initial rs_keys]. unfold ki, derive_link_keys. by rewrite Hx, x_shared_comm. }
  assert (Hlid : rs_link_id s = compute_link_id d req) by apply (ev_link_id _ _ Hev).
  destruct (link_roundtrip ki iv pt enc buf Hiv Hfit He Hb) as (m & enc' & Henc & Hdec).
  split; [|split].
  - exists m, enc'. split; [done|]. unfold receive. split.
    + intros Hh. rewrite Hh. cbn [negb]. rewrite !bool_decide_eq_false_2 by done.
      rewrite bool_decide_eq_true_2 by done. cbn [negb]. unfold decrypt_or. rewrite Hk, Hdec. eauto.
    + intros Hlive. rewrite !bool_decide_eq_false_2 by (destruct Hlive as [-> | ->]; done).
      unfold decrypt_or. by rewrite Hk, Hdec.
  - intros Hlive. exists m, enc'. unfold seal.
    assert (Hs : bool_decide (rs_state s = Active) || bool_decide (rs_state s = Stale) = true)
      by (apply orb_true_iff; rewrite !bool_decide_eq_true; exact Hlive).
    rewrite Hs. cbn [negb]. by rewrite Hk, Henc.
  - intros Hc. unfold teardown. rewrite bool_decide_eq_false_2 by done. rewrite Hk, Hlid.
    destruct (link_roundtrip ki iv (compute_link_id d req) enc buf Hiv) as (m' & enc2 & Henc2 & Hdec2).
    + unfold link_fits. rewrite Hl. vm_compute. lia.
    + rewrite Hl. exact He2.
    + by rewrite Hl.
    + rewrite Henc2. eexists m', _, enc2. split; [done|]. split; [done|]. rewrite Hdec2, Hl. done.
Qed.
End properties.

(** * Witnesses *)

Module SessionExample.
Definition key : list Z := seqZ 0 64.
Definition init_x : list Z := seqZ 1 32.
Definition eph : list Z := seqZ 3 32.
Definition req : list Z :=
  request_bytes (x_public (X25519 := Toy.x25519) init_x) (ed_public (Ed25519 := Toy.ed25519) (seqZ 2 32)).
(** The responder's answer to [req] at time 1000. *)
Definition accepted :=
  accept (SHA := Toy.sha256) (HKDF := Toy.hkdf) (X := Toy.x25519) (ED := Toy.ed25519)
    (from_private_key (SHA := Toy.sha256) (ED := Toy.ed25519) (X := Toy.x25519) key) (zeros 16) req 2 eph 1000 (zeros 99).

Lemma accepted_ok : ∃ s0 n p, accepted = (Ok (s0, n), p) ∧ rs_state s0 = Handshake.
Proof.
  assert (Hok : match accepted with (Ok (s, _), _) => bool_decide (rs_state s = Handshake) | _ => false end = true)
    by (vm_compute; reflexivity).
  destruct accepted as [[[s0 n]|e|] p]; [|done..]. apply bool_decide_eq_true in Hok.
  by exists s0, n, p.
Qed.
End SessionExample.

Lemma session_receive_authenticated_witness :
  let _ := Toy.sha256 in let _ := Toy.ed25519 in let _ := Toy.hmac in let _ := Toy.aes in
  ∃ s0 n p, SessionExample.accepted = (Ok (s0, n), p) ∧
    receive_ok s0 LinkClose [1%Z] 2000 (receive LinkClose [1%Z] 2000 (s0, zeros 16)).
Proof.
  intros s e h a. destruct SessionExample.accepted_ok as (s0 & n & p & Ha & _).
  exists s0, n, p. split; [exact Ha|].
  exact (session_receive_authenticated (SHA := s) (HMAC := h) (AES := a) (HKDF := Toy.hkdf) (X := Toy.x25519)
    (ED := e) SessionExample.key (zeros 16) SessionExample.req 2 SessionExample.eph
    1000 (zeros 99) s0 n p s0 LinkClose [1%Z] 2000 (zeros 16) eq_refl Ha (rtc_refl _ _)).
Defined.

Lemma session_lifecycle_witness :
  let _ := Toy.sha256 in let _ := Toy.ed25519 in let _ := Toy.hmac in let _ := Toy.aes in
  ∃ s0 n p, SessionExample.accepted = (Ok (s0, n), p) ∧ session_ok (snd (tick 2000 s0)) ∧
    rs_link_id (snd (tick 2000 s0)) = rs_link_id s0.
Proof.
  intros s e h a. destruct SessionExample.accepted_ok as (s0 & n & p & Ha & _).
  exists s0, n, p. split; [exact Ha|].
  destruct (session_lifecycle (SHA := s) (HMAC := h) (AES := a) (HKDF := Toy.hkdf) (X := Toy.x25519)
    (ED := e) SessionExample.key (zeros 16) SessionExample.req 2 SessionExample.eph
    1000 (zeros 99) s0 n p s0 (snd (tick 2000 s0)) eq_refl Ha (rtc_refl _ _)
    (rtc_once _ _ (step_tick s0 2000))) as (Hok & Hev & _).
  split; [exact Hok|exact (ev_link_id _ _ Hev)].
Defined.

Lemma session_silence_detected_witness :
  let _ := Toy.sha256 in let _ := Toy.ed25519 in let _ := Toy.hmac in let _ := Toy.aes in
  ∃ s0 n p, SessionExample.accepted = (Ok (s0, n), p) ∧ fst (tick 500000 s0) = Expired ∧
    rs_state (snd (tick 500000 s0)) = Closed.
Proof.
  intros s e h a. destruct SessionExample.accepted_ok as (s0 & n & p & Ha & Hh).
  exists s0, n, p. split; [exact Ha|].
  pose proof (session_silence_detected (SHA := s) (HMAC := h) (AES := a) (HKDF := Toy.hkdf)
    (X := Toy.x25519) (ED := e) SessionExample.key (zeros 16) SessionExample.req 2 SessionExample.eph
    1000 (zeros 99) s0 n p s0 500000 eq_refl Ha (rtc_refl _ _)) as [H _].
  cbv zeta in H. destruct (tick 500000 s0) as [[] s']; cbn [fst snd].
  - exfalso. destruct H as (_ & H & _). apply (H Hh). vm_compute. reflexivity.
  - split; [reflexivity|]. destruct H as (_ & _ & ->). reflexivity.
  - exfalso. destruct H as (H & _). rewrite Hh in H. discriminate H.
  - exfalso. destruct H as (_ & H & _). rewrite Hh in H. discriminate H.
Defined.

Lemma session_roundtrip_witness :
  let _ := Toy.sha256 in let _ := Toy.ed25519 in let _ := Toy.hmac in let _ := Toy.aes in
  ∃ s0 n p m s' enc', SessionExample.accepted = (Ok (s0, n), p) ∧
    teardown (zeros 16) s0 (zeros 80) = (Some m, (s', enc')) ∧ rs_state s' = Closed.
Proof.
  intros s e h a. destruct SessionExample.accepted_ok as (s0 & n & p & Ha & Hh).
  destruct (session_roundtrip (SHA := s) (HMAC := h) (AES := a) (HKDF := Toy.hkdf) (X := Toy.x25519)
    (ED := e) SessionExample.key SessionExample.init_x (zeros 16) SessionExample.req 2 SessionExample.eph
    1000 (zeros 99) s0 n p _ s0 (zeros 16) [] 0%Z (zeros 80) (zeros 16) eq_refl
    eq_refl (parse_request_of _ _ (x_public_length _) (ed_public_length _)) eq_refl Ha (rtc_refl _ _)
    ltac:(vm_compute; lia) ltac:(vm_compute; lia) ltac:(vm_compute; lia) ltac:(vm_compute; lia)
    ltac:(vm_compute; lia)) as (_ & _ & H).
  destruct H as (m & s' & enc' & Ht & Hc & _); [rewrite Hh; discriminate|].
  exists s0, n, p, m, s', enc'. split; [exact Ha|]. split; [exact Ht|exact Hc].
Defined.
