(* ===== verification/LinkTransfer.v ===== *)
(** A resource transfer over a link, from the handshake to the proof
    (src/src/link.rs, src/src/resource.rs): the two ends agree on a key, the
    advertisement and the requests cross the link encrypted, the parts, which
    are slices of a Token under the same key, and the proof cross as they are.

    The definitions here are what a host does with the library's operations:
    [handshake] runs both ends of the handshake, [over] carries a message from
    one end to the other, [link_round] and [link_rounds] the rounds of request
    and answer. *)

From S2P Require Import Prelude Constants Primitives Records Crypto Identity Links Msgpack ResourcePolicy Resource ResourceSender ResourceReceiver ResourceTransfer LinkSession.
Import OutboundResource InboundResource.

Section link_transfer.
Context `{SHA : Sha256} `{HMAC : Hmac} `{AES : AesCbc} `{HKDF : HkdfSha256} `{X : X25519} `{ED : Ed25519}.

(** ** The host's part *)

(** The initiator with ephemeral keys [xi] and [ei], the destination with the
    identity [k] and the ephemeral key [eph]: the keys of both, or nothing
    when the initiator refuses the proof. *)
Definition handshake (xi ei k dest eph : list Z) (sg : SignallingData) : outcome LinkError (option (LinkKeys * LinkKeys)) :=
  let (request, out) := build_link_request xi ei sg (zeros LINK_REQUEST_LEN) in
  let* n := request in
  let req := take n out in
  let* rv := parse_request req in
  let link_id := compute_link_id dest req in
  let (proof, out) := build_link_proof (from_private_key k) eph link_id (lr_signalling rv) (zeros LINK_PROOF_LEN) in
  let* m := proof in
  let* pv := parse_proof (take m out) in
  if validate_link_proof pv (li_public_key (from_private_key k)) link_id
  then Ok (Some (derive_link_keys xi (lp_responder_x25519_pub pv) link_id,
                 derive_link_keys eph (lr_peer_x25519_pub rv) link_id))
  else Ok None.

(** A message encrypted at one end and decrypted at the other, in buffers of the
    size of a packet. *)
Definition over (from to_ : LinkKeys) (iv message : list Z) : outcome ResourceError.t (list Z) :=
  let (sent, wire) := link_encrypt from message iv (zeros MTU) in
  match sent with
  | Ok n =>
      let (received, plain) := link_decrypt to_ (take n wire) (zeros MTU) in
      match received with
      | Ok m => Ok (take m plain)
      | Err e => Err (ResourceError.Crypto e)
      | Panic => Panic
      end
  | Err e => Err (ResourceError.Crypto e)
  | Panic => Panic
  end.

(** The receiver asks over the link, the sender answers with parts. *)
Definition link_round (iv : list Z) (ki kr : LinkKeys) (s : OutboundResource) (i : InboundResource)
  : outcome ResourceError.t InboundResource :=
  let (result, out) := build_part_request i (zeros REQUEST_MAX) in
  let* n := result in
  let* plain := over kr ki iv (take n out) in
  let* req := PartRequestView.parse plain in
  let (idx, count) := requested_parts s req in
  send_parts (λ _, true) s (take count idx) i.

(** A list of vectors and window adjustments, one for each round. *)
Fixpoint link_rounds (plan : list (list Z * list adjustment)) (ki kr : LinkKeys) (s : OutboundResource)
    (i : InboundResource) : outcome ResourceError.t InboundResource :=
  match plan with
  | [] => Ok i
  | (iv, adj) :: rest =>
      if is_complete i then Ok i
      else let* i := link_round iv ki kr s (fold_left adjust adj i) in link_rounds rest ki kr s i
  end.

(** ** The pieces *)

Lemma handshake_agrees xi ei k dest eph sg :
  length dest = DESTINATION_LENGTH → SignallingData.fixed_endpoint sg = Ok endpoint_signalling →
  ∃ keys, handshake xi ei k dest eph sg = Ok (Some (keys, keys)).
Proof.
  intros Hd Hsg. unfold handshake. rewrite build_link_request_spec, Hsg. unfold zeros.
  rewrite length_replicate. change (LINK_REQUEST_LEN <? LINK_REQUEST_LEN) with false. cbv beta iota zeta. cbn [obind].
  set (req := request_bytes (x_public xi) (ed_public ei)).
  assert (Hrl : length req = LINK_REQUEST_LEN)
    by (apply length_request_bytes; [apply x_public_length|apply ed_public_length]).
  rewrite take_app_length' by done. unfold req at 1.
  rewrite parse_request_of by (apply x_public_length || apply ed_public_length). cbn [obind lr_signalling lr_peer_x25519_pub].
  fold req. set (lid := compute_link_id dest req). assert (Hlid : length lid = DESTINATION_LENGTH)
    by (unfold lid; rewrite link_id_eq by done; apply length_truncated_hash).
  rewrite build_link_proof_spec, endpoint_fixed by done. rewrite length_replicate.
  change (LINK_PROOF_LEN <? LINK_PROOF_LEN) with false. cbv beta iota zeta. cbn [obind].
  assert (Hpl : length (proof_bytes (proof_signature k eph lid) (x_public eph)) = LINK_PROOF_LEN)
    by (apply length_proof_bytes; [apply ed_sign_length|apply x_public_length]).
  rewrite take_app_length' by done.
  rewrite parse_proof_of by (apply ed_sign_length || apply x_public_length). cbn [obind].
  rewrite validate_link_proof_spec by (done || apply length_derived_key || apply x_public_length).
  cbn [lp_signalling lp_responder_x25519_pub lp_signalling_present lp_signature]. rewrite endpoint_fixed.
  assert (Hk : drop 32 (li_public_key (from_private_key k)) = ed_public (drop 32 k))
    by (apply drop_app_exact, x_public_length).
  rewrite Hk, ed_public_ok. cbn [andb].
  assert (Hv : ed_verify (ed_public (drop 32 k)) (proof_signed lid (x_public eph) (ed_public (drop 32 k))
    (SignallingData.pack endpoint_signalling)) (proof_signature k eph lid) = true) by apply ed_verify_sign.
  rewrite Hv. eexists. do 3 f_equal. unfold derive_link_keys. by rewrite x_shared_comm.
Qed.

Lemma over_same keys iv message :
  length iv = 16 → length message ≤ 400 → over keys keys iv message = Ok message.
Proof.
  intros Hiv Hl. unfold over. pose proof (pad_len_range (length message)) as Hp.
  destruct (link_roundtrip keys iv message (zeros MTU) (zeros MTU) Hiv) as (n & wire & Henc & Hdec).
  - unfold link_fits. change LINK_PADDED_MAX with 464. lia.
  - unfold zeros. rewrite length_replicate. change MTU with 500. lia.
  - unfold zeros. rewrite length_replicate. change MTU with 500. lia.
  - rewrite Henc, Hdec. by rewrite take_app_length.
Qed.

(** With one key on both ends, a round over the link is a round. *)
Lemma link_round_same keys iv s i :
  length iv = 16 → ok_in i → link_round iv keys keys s i = round (λ _, true) s i.
Proof.
  intros Hiv Hi. unfold link_round, round. rewrite build_part_request_spec by done.
  destruct (_ && _); [|done]. destruct (_ <? _); [done|]. cbn [obind].
  rewrite splice_0, take_app_length, over_same; [done|done|].
  pose proof (request_fits i Hi) as Hr. change REQUEST_MAX with 65 in Hr. lia.
Qed.

Lemma link_rounds_same payload keys tag iv s :
  built payload keys tag iv s → ∀ plan i,
  Forall (λ r, length (fst r) = 16) plan → follows payload keys tag iv s i → ir_state i = Transferring →
  link_rounds plan keys keys s i = rounds s (snd <$> plan) i.
Proof.
  intros Hb. induction plan as [|[iv' adj] plan IH]; intros i Hp Hf Hs; [done|].
  apply Forall_cons in Hp as [Hiv Hp]. cbn [link_rounds rounds fmap list_fmap snd].
  destruct (is_complete i) eqn:Hc; [done|].
  destruct (follows_adjusts payload keys tag iv s adj i Hf) as (Hf1 & Hs1 & _ & Hc1).
  rewrite link_round_same by (done || apply Hf1).
  destruct (round_delivers _ _ _ _ _ Hb (λ _, true) (fold_left adjust adj i)) as (i2 & -> & Hf2 & Hs2 & _);
    [done|congruence..|].
  cbn [obind]. by apply IH.
Qed.

(** C12: A payload sent as a resource over a fresh link arrives. The handshake of
    two ends that speak this version succeeds with one key on both sides, unless
    the signalling asks for a mode or MTU the endpoint does not have. A resource
    is built with it unless the payload is too large or two parts share a map
    hash. Its advertisement crosses the link encrypted and is admitted at the
    other end. Then, with any initialisation vectors and any window adjustments,
    half as many rounds as there are parts, each an encrypted request and the
    parts it asks for, leave the receiver complete; assembly with its own key
    gives the payload, and the sender accepts the proof it writes. *)
Theorem resource_over_link xi ei k dest eph sg payload tag iv iv' plan :
  length dest = DESTINATION_LENGTH → length tag = RANDOM_HASH_SIZE → length iv = 16 → length iv' = 16 →
  Forall (λ r, length (fst r) = 16) plan →
  match handshake xi ei k dest eph sg with
  | Panic => False
  | Err e => e = UnsupportedMode ∧ sd_mode sg ≠ 1%Z ∨ e = InvalidMtu ∧ sd_mtu sg ≠ 0%Z ∧ sd_mtu sg ≠ 500%Z
  | Ok None => False
  | Ok (Some (ki, kr)) => ki = kr ∧
      match build payload ki tag iv with
      | Panic => False
      | Err e =>
          (e = ResourceError.TooLarge ∧ DATA_MAX < length payload) ∨
          (e = ResourceError.MapHashCollision ∧ ¬ NoDup (hashes_of (blob_of ki iv tag payload) tag))
      | Ok s => ∃ n packed received adv i0,
          ResourceAdv.pack (advertisement s) (zeros ADV_PACKED_MAX) = (Ok n, packed) ∧
          over ki kr iv' (take n packed) = Ok received ∧
          ResourceAdv.parse received = Ok adv ∧ from_advertisement adv = Ok i0 ∧
          (or_num_parts s ≤ 2 * length plan →
           ∃ i i' proof, link_rounds plan ki kr s i0 = Ok i ∧
             assemble kr i = (Ok (length payload), i') ∧ data i' = Ok (Some payload) ∧
             build_proof i' (zeros PROOF_LEN) = (Ok PROOF_LEN, proof) ∧
             validate_proof s (take PROOF_LEN proof) = true)
      end
  end.
Proof.
  intros Hd Htag Hiv Hiv' Hplan.
  destruct (fixed_endpoint_cases sg) as [Hsg|(e & Hsg & He)].
  2:{ unfold handshake. rewrite build_link_request_spec, Hsg. cbn [obind]. done. }
  destruct (handshake_agrees xi ei k dest eph sg Hd Hsg) as [keys ->]. split; [done|].
  pose proof (build_cases payload keys tag iv Htag Hiv) as Hb.
  destruct (build payload keys tag iv) as [s|e|]; [|done|done].
  destruct (advertisement_crosses _ _ _ _ _ Hb) as (n & packed & Hpack & Hparse & Hn192).
  destruct (follows_admitted _ _ _ _ _ Hb) as (i0 & H0 & Hf0 & Hs0 & Hc0).
  exists n, packed, (take n packed), (advertisement s), i0. split; [done|]. split.
  { apply over_same; [done|]. rewrite length_take. unfold ADV_PACKED_MAX in Hn192. lia. }
  split; [done|]. split; [done|]. intros Hn. rewrite (link_rounds_same payload keys tag iv s Hb plan i0) by done.
  destruct (rounds_complete _ _ _ _ _ Hb (snd <$> plan) i0 Hf0 Hs0) as (i & Hi & Hf & Hs & Hc);
    [rewrite length_fmap; lia|].
  apply Nat.eqb_eq in Hc. destruct (assemble_genuine _ _ _ _ _ Hb i Hf Hs Hc) as (i' & Ha & Hf' & Hs' & Hp).
  destruct (proof_genuine _ _ _ _ _ Hb i' (zeros PROOF_LEN) Hf' Hs' Hp) as (proof & Ho & Hv);
    [unfold zeros; by rewrite length_replicate|].
  exists i, i', proof. split; [done|]. split; [done|]. split; [|done].
  rewrite data_spec, (bool_decide_eq_true_2 _ Hs'), Hp by apply Hf'. done.
Qed.

End link_transfer.

#[local] Existing Instances Toy.sha256 Toy.hmac Toy.aes Toy.hkdf Toy.x25519 Toy.ed25519.

(** Three bytes over a link, in one round. *)
Lemma resource_over_link_witness :
  let h := handshake (seqZ 1 32) (seqZ 2 32) (seqZ 0 64) (zeros 16) (seqZ 3 32) endpoint_signalling in
  ∃ ki kr s i0 i i', h = Ok (Some (ki, kr)) ∧ build [7; 8; 9]%Z ki [1; 2; 3; 4]%Z (zeros 16) = Ok s ∧
    link_rounds [(zeros 16, [Shrink])] ki kr s i0 = Ok i ∧
    assemble kr i = (Ok 3, i') ∧ data i' = Ok (Some [7; 8; 9]%Z).
Proof.
  intros h.
  pose proof (resource_over_link (seqZ 1 32) (seqZ 2 32) (seqZ 0 64) (zeros 16) (seqZ 3 32) endpoint_signalling
    [7; 8; 9]%Z [1; 2; 3; 4]%Z (zeros 16) (zeros 16) [(zeros 16, [Shrink])] eq_refl eq_refl eq_refl eq_refl) as H.
  specialize (H ltac:(constructor; [reflexivity|constructor])). fold h in H.
  assert (E : match h with
    | Ok (Some (ki, _)) => match build [7; 8; 9]%Z ki [1; 2; 3; 4]%Z (zeros 16) with
                           | Ok s => or_num_parts s <=? 2 | _ => false end
    | _ => false end = true) by (vm_compute; reflexivity).
  destruct h as [[[ki kr]|]|e|]; [|discriminate E..]. destruct H as [_ H].
  destruct (build [7; 8; 9]%Z ki [1; 2; 3; 4]%Z (zeros 16)) as [s|e|] eqn:Hb; [|discriminate E..].
  destruct H as (n & packed & received & adv & i0 & _ & _ & _ & _ & H).
  destruct H as (i & i' & proof & Hr & Ha & Hd & _); [apply Nat.leb_le in E; exact E|].
  exists ki, kr, s, i0, i, i'. split; [reflexivity|]. split; [exact Hb|]. split; [exact Hr|]. split; [exact Ha|exact Hd].
Defined.
