(* ===== verification/Outbound.v ===== *)
(** What leaves a node (src/src/transport.rs): the frames of the outbound
    queue, the life time metadata that decides whether a queued frame may still
    be sent, and its portable token; the classifications and counters of the
    transport; and the host's view of an interface.

    The round trip of the token is proved here: a token decodes to what was
    encoded, and nothing but an encoding decodes. *)

From S2P Require Import Prelude Constants Buffer Wire Identity Ifac KnownDestinations Config.

(** * Received frames and interfaces *)

Record RxMeta := {
  rx_interface_id : Z;
  rx_interface_mode : option InterfaceMode;
  rx_rssi : option Z;
  rx_snr_quarter_db : option Z
}.

Module RxMeta.
Definition new (interface_id : Z) : RxMeta :=
  {| rx_interface_id := interface_id; rx_interface_mode := None; rx_rssi := None;
     rx_snr_quarter_db := None |}.
Definition with_mode (interface_id : Z) (interface_mode : InterfaceMode) : RxMeta :=
  {| rx_interface_id := interface_id; rx_interface_mode := Some interface_mode; rx_rssi := None;
     rx_snr_quarter_db := None |}.
(** [meta.interface_mode = Some(mode)]. *)
Definition set_mode (mode : InterfaceMode) (m : RxMeta) : RxMeta :=
  {| rx_interface_id := rx_interface_id m; rx_interface_mode := Some mode;
     rx_rssi := rx_rssi m; rx_snr_quarter_db := rx_snr_quarter_db m |}.
End RxMeta.

Record InterfaceFacts := {
  f_generation : Z;
  f_bitrate_bps : Z;
  f_clear_mtu : nat;
  f_id : Z;
  f_mode : InterfaceMode;
  f_flags : Z
}.

Module InterfaceFacts.
Definition EMPTY : InterfaceFacts :=
  {| f_generation := 0; f_bitrate_bps := 0; f_clear_mtu := 500; f_id := 0; f_mode := Full;
     f_flags := 0 |}.
Definition outbound (f : InterfaceFacts) : bool :=
  negb (Z.land (f_flags f) 2 =? 0)%Z && negb (f_generation f =? 0)%Z.
End InterfaceFacts.

(** [x as u16] of a [usize]. *)
Definition as_u16 (n : nat) : nat := Z.to_nat (Z.of_nat n mod 65536).

(** * Life time of a queued frame *)

Definition OUTBOUND_MAX_AGE_MS : Z := 120000.

Module OutboundState.
Inductive t :=
| Independent
| Reverse (generation : Z)
| Link (generation : Z)
| Discovery (identity : Z).

#[global] Instance eq_dec : EqDecision t.
Proof. solve_decision. Defined.
End OutboundState.
Abbreviation OutboundState := OutboundState.t.

Record OutboundLifetime := {
  ol_enqueued_ms : Z;
  ol_expires_ms : Z;
  ol_path : Z;
  ol_state : OutboundState
}.

#[export] Instance OutboundLifetime_eq_dec : EqDecision OutboundLifetime.
Proof. solve_decision. Defined.

(** [to_le_bytes] and [from_le_bytes] of a [u64]. *)
Definition le64 (z : Z) : list Z := rev (be_bytes 8 z).
Definition of_le (l : list Z) : Z := of_be (rev l).

Module OutboundLifetime.

Definition TOKEN_BYTES : nat := 88.

(** "RTX\x02". *)
Definition TOKEN_MAGIC : list Z := [82; 84; 88; 2]%Z.

Definition to_token (l : OutboundLifetime) : list Z :=
  let token := zeros TOKEN_BYTES in
  let token := splice 0 TOKEN_MAGIC token in
  let token := <[4 := if negb (ol_path l =? 0)%Z then 1%Z else 0%Z]> token in
  let token := splice 8 (le64 (ol_enqueued_ms l)) token in
  let token := splice 16 (le64 (ol_expires_ms l)) token in
  let token := splice 24 (le64 (ol_path l)) token in
  let (kind, generation) :=
    match ol_state l with
    | OutboundState.Independent => (0, 0)
    | OutboundState.Reverse generation => (1, generation)
    | OutboundState.Link generation => (2, generation)
    | OutboundState.Discovery identity => (3, identity)
    end%Z in
  let token := <[5 := kind]> token in
  splice 32 (le64 generation) token.

(** The argument is an array of [TOKEN_BYTES] bytes. *)
Definition from_token (token : list Z) : option OutboundLifetime :=
  if negb (take 4 token =k TOKEN_MAGIC) || (1 <? token !!! 4%nat)%Z
     || negb (slice token 6 8 =k zeros 2) || existsb (λ byte, negb (byte =? 0)%Z) (drop 40 token)
  then None
  else
    let enqueued_ms := of_le (slice token 8 16) in
    let expires_ms := of_le (slice token 16 24) in
    if (expires_ms <? enqueued_ms)%Z || (sat_add64 enqueued_ms OUTBOUND_MAX_AGE_MS <? expires_ms)%Z
    then None
    else
      let path := of_le (slice token 24 32) in
      if negb (Bool.eqb (token !!! 4%nat =? 1)%Z (negb (path =? 0)%Z)) then None
      else
        let generation := of_le (slice token 32 40) in
        state ← match token !!! 5%nat with
                | 0%Z => if (generation =? 0)%Z then Some OutboundState.Independent else None
                | 1%Z => if negb (generation =? 0)%Z then Some (OutboundState.Reverse generation) else None
                | 2%Z => if negb (generation =? 0)%Z then Some (OutboundState.Link generation) else None
                | 3%Z => if negb (generation =? 0)%Z then Some (OutboundState.Discovery generation) else None
                | _ => None
                end;
        Some {| ol_enqueued_ms := enqueued_ms; ol_expires_ms := expires_ms; ol_path := path;
                ol_state := state |}.

End OutboundLifetime.

(** * Queued frames *)

Module OutboundReason.
Inductive t :=
| AnnounceRebroadcast | PathResponse | PathRequestForward | PathRequest | TransportForward
| ProofReturn | Local.

#[global] Instance eq_dec : EqDecision t.
Proof. solve_decision. Defined.

Definition gated (r : t) : bool :=
  match r with AnnounceRebroadcast => true | _ => false end.
End OutboundReason.
Abbreviation OutboundReason := OutboundReason.t.

Record OutboundFrame := {
  of_interface_id : Z;
  of_packet : PacketBuffer;
  of_reason : OutboundReason;
  of_lifetime : OutboundLifetime
}.

Record OutboundDelivery := {
  od_identity : Z;
  od_interface_generations : list Z;
  od_pending_targets : Z;
  od_initialized : bool
}.

Record QueuedOutbound (D : Type) := { qo_frame : OutboundFrame; qo_delivery : D }.
Arguments qo_frame {D}.
Arguments qo_delivery {D}.

(** * Results and counters *)

Module IngestAction.
Inductive t :=
| Accepted | Duplicate | LearnedAnnounce | AnnounceIgnored | ScheduledAnnounce
| AnsweredPathRequest | ForwardedPathRequest | ForwardedTransport | ForwardedProof
| LocalEndpoint | LocalPlain | WatchedAnnounce (scheduled : bool) | Dropped.

#[global] Instance eq_dec : EqDecision t.
Proof. solve_decision. Defined.
End IngestAction.
Abbreviation IngestAction := IngestAction.t.

Module TransportError.
Inductive t :=
| InvalidConfig | UnknownInterface | InterfaceOffline | InterfaceNotOutbound
| InterfaceNotInbound | MtuExceeded | Backpressure
| LinkCapacityUnavailable (interface_id : Z) (clear_mtu required : nat)
| InvalidLinkSignalling | UnsupportedTransitModeTransform | CapacityTooSmall
| Wire (e : WireError) | Buffer (e : BufferError) | Announce (e : AnnounceError)
| Ifac (e : IfacError) | KnownDestination (e : KnownDestinationError).
End TransportError.
Abbreviation TransportError := TransportError.t.

(** Each counter is incremented by [x = x.saturating_add(1)]. *)

Record TransportStats := {
  ts_accepted : Z;
  ts_duplicates : Z;
  ts_learned_announces : Z;
  ts_queued_outbound : Z;
  ts_dropped : Z;
  ts_validation_failures : Z;
  ts_outbound_dropped : Z;
  ts_outbound_expired : Z;
  ts_announces_rate_dropped : Z
}.

Module TransportStats.
Definition ZERO : TransportStats :=
  {| ts_accepted := 0; ts_duplicates := 0; ts_learned_announces := 0; ts_queued_outbound := 0;
     ts_dropped := 0; ts_validation_failures := 0; ts_outbound_dropped := 0; ts_outbound_expired
     := 0; ts_announces_rate_dropped := 0 |}.
Definition count_accepted (s : TransportStats) : TransportStats :=
  {| ts_accepted := sat_add64 (ts_accepted s) 1; ts_duplicates := ts_duplicates s;
     ts_learned_announces := ts_learned_announces s; ts_queued_outbound := ts_queued_outbound s;
     ts_dropped := ts_dropped s; ts_validation_failures := ts_validation_failures s;
     ts_outbound_dropped := ts_outbound_dropped s; ts_outbound_expired := ts_outbound_expired s;
     ts_announces_rate_dropped := ts_announces_rate_dropped s |}.
Definition count_duplicates (s : TransportStats) : TransportStats :=
  {| ts_accepted := ts_accepted s; ts_duplicates := sat_add64 (ts_duplicates s) 1;
     ts_learned_announces := ts_learned_announces s; ts_queued_outbound := ts_queued_outbound s;
     ts_dropped := ts_dropped s; ts_validation_failures := ts_validation_failures s;
     ts_outbound_dropped := ts_outbound_dropped s; ts_outbound_expired := ts_outbound_expired s;
     ts_announces_rate_dropped := ts_announces_rate_dropped s |}.
Definition count_learned_announces (s : TransportStats) : TransportStats :=
  {| ts_accepted := ts_accepted s; ts_duplicates := ts_duplicates s; ts_learned_announces :=
     sat_add64 (ts_learned_announces s) 1; ts_queued_outbound := ts_queued_outbound s;
     ts_dropped := ts_dropped s; ts_validation_failures := ts_validation_failures s;
     ts_outbound_dropped := ts_outbound_dropped s; ts_outbound_expired := ts_outbound_expired s;
     ts_announces_rate_dropped := ts_announces_rate_dropped s |}.
Definition count_queued_outbound (s : TransportStats) : TransportStats :=
  {| ts_accepted := ts_accepted s; ts_duplicates := ts_duplicates s; ts_learned_announces :=
     ts_learned_announces s; ts_queued_outbound := sat_add64 (ts_queued_outbound s) 1;
     ts_dropped := ts_dropped s; ts_validation_failures := ts_validation_failures s;
     ts_outbound_dropped := ts_outbound_dropped s; ts_outbound_expired := ts_outbound_expired s;
     ts_announces_rate_dropped := ts_announces_rate_dropped s |}.
Definition count_dropped (s : TransportStats) : TransportStats :=
  {| ts_accepted := ts_accepted s; ts_duplicates := ts_duplicates s; ts_learned_announces :=
     ts_learned_announces s; ts_queued_outbound := ts_queued_outbound s; ts_dropped := sat_add64
     (ts_dropped s) 1; ts_validation_failures := ts_validation_failures s; ts_outbound_dropped
     := ts_outbound_dropped s; ts_outbound_expired := ts_outbound_expired s;
     ts_announces_rate_dropped := ts_announces_rate_dropped s |}.
Definition count_validation_failures (s : TransportStats) : TransportStats :=
  {| ts_accepted := ts_accepted s; ts_duplicates := ts_duplicates s; ts_learned_announces :=
     ts_learned_announces s; ts_queued_outbound := ts_queued_outbound s; ts_dropped :=
     ts_dropped s; ts_validation_failures := sat_add64 (ts_validation_failures s) 1;
     ts_outbound_dropped := ts_outbound_dropped s; ts_outbound_expired := ts_outbound_expired s;
     ts_announces_rate_dropped := ts_announces_rate_dropped s |}.
Definition count_outbound_dropped (s : TransportStats) : TransportStats :=
  {| ts_accepted := ts_accepted s; ts_duplicates := ts_duplicates s; ts_learned_announces :=
     ts_learned_announces s; ts_queued_outbound := ts_queued_outbound s; ts_dropped :=
     ts_dropped s; ts_validation_failures := ts_validation_failures s; ts_outbound_dropped :=
     sat_add64 (ts_outbound_dropped s) 1; ts_outbound_expired := ts_outbound_expired s;
     ts_announces_rate_dropped := ts_announces_rate_dropped s |}.
Definition add_outbound_dropped (k : Z) (s : TransportStats) : TransportStats :=
  {| ts_accepted := ts_accepted s; ts_duplicates := ts_duplicates s;
     ts_learned_announces := ts_learned_announces s; ts_queued_outbound := ts_queued_outbound s;
     ts_dropped := ts_dropped s; ts_validation_failures := ts_validation_failures s;
     ts_outbound_dropped := sat_add64 (ts_outbound_dropped s) k;
     ts_outbound_expired := ts_outbound_expired s;
     ts_announces_rate_dropped := ts_announces_rate_dropped s |}.
Definition count_outbound_expired (s : TransportStats) : TransportStats :=
  {| ts_accepted := ts_accepted s; ts_duplicates := ts_duplicates s; ts_learned_announces :=
     ts_learned_announces s; ts_queued_outbound := ts_queued_outbound s; ts_dropped :=
     ts_dropped s; ts_validation_failures := ts_validation_failures s; ts_outbound_dropped :=
     ts_outbound_dropped s; ts_outbound_expired := sat_add64 (ts_outbound_expired s) 1;
     ts_announces_rate_dropped := ts_announces_rate_dropped s |}.
Definition count_announces_rate_dropped (s : TransportStats) : TransportStats :=
  {| ts_accepted := ts_accepted s; ts_duplicates := ts_duplicates s; ts_learned_announces :=
     ts_learned_announces s; ts_queued_outbound := ts_queued_outbound s; ts_dropped :=
     ts_dropped s; ts_validation_failures := ts_validation_failures s; ts_outbound_dropped :=
     ts_outbound_dropped s; ts_outbound_expired := ts_outbound_expired s;
     ts_announces_rate_dropped := sat_add64 (ts_announces_rate_dropped s) 1 |}.
End TransportStats.

(** * The token round trip *)

Lemma bytes_rev l : bytes l → bytes (rev l).
Proof.
  unfold bytes. rewrite !Forall_forall. intros Hb x Hx. apply Hb.
  by apply list_elem_of_In, in_rev, list_elem_of_In.
Qed.

Lemma le64_of_le s : bytes s → length s = 8 → le64 (of_le s) = s.
Proof.
  intros Hb Hl. unfold le64, of_le. rewrite <- Hl, <- length_rev, be_bytes_of_be.
  - apply rev_involutive.
  - by apply bytes_rev.
Qed.

Lemma of_le_le64 z : in_u64 z → of_le (le64 z) = z.
Proof.
  intros Hz. unfold le64, of_le. rewrite rev_involutive. apply of_be_be_bytes. unfold_u64. simpl. lia.
Qed.

Lemma of_le_range s : bytes s → length s = 8 → in_u64 (of_le s).
Proof.
  intros Hb Hl. unfold of_le. pose proof (of_be_bound (rev s)) as H.
  rewrite length_rev, Hl in H. unfold_u64. simpl in H. specialize (H (bytes_rev _ Hb)). lia.
Qed.

Lemma bytes_le64 z : bytes (le64 z).
Proof. apply bytes_rev, bytes_be_bytes. Qed.

Module Token.

(** The generation a state refers to, and its discriminant in the token. *)
Definition kind (s : OutboundState) : Z :=
  match s with
  | OutboundState.Independent => 0 | OutboundState.Reverse _ => 1
  | OutboundState.Link _ => 2 | OutboundState.Discovery _ => 3
  end.
Definition generation (s : OutboundState) : Z :=
  match s with
  | OutboundState.Independent => 0
  | OutboundState.Reverse g | OutboundState.Link g | OutboundState.Discovery g => g
  end.

Definition layout (l : OutboundLifetime) : list Z :=
  OutboundLifetime.TOKEN_MAGIC
  ++ [if negb (ol_path l =? 0)%Z then 1%Z else 0%Z; kind (ol_state l); 0%Z; 0%Z]
  ++ le64 (ol_enqueued_ms l) ++ le64 (ol_expires_ms l) ++ le64 (ol_path l)
  ++ le64 (generation (ol_state l)) ++ zeros 48.

(** What a life time made by the node satisfies. *)
Record wf (l : OutboundLifetime) : Prop := {
  wf_enqueued : in_u64 (ol_enqueued_ms l);
  wf_expires : (ol_enqueued_ms l ≤ ol_expires_ms l
                ≤ sat_add64 (ol_enqueued_ms l) OUTBOUND_MAX_AGE_MS)%Z;
  wf_path : in_u64 (ol_path l);
  wf_generation : in_u64 (generation (ol_state l));
  wf_state : ol_state l ≠ OutboundState.Independent → generation (ol_state l) ≠ 0%Z
}.

Lemma to_token_layout l : OutboundLifetime.to_token l = layout l.
Proof. unfold OutboundLifetime.to_token, layout. destruct (ol_state l); reflexivity. Qed.

Lemma bytes_layout l : bytes (layout l).
Proof.
  unfold layout, OutboundLifetime.TOKEN_MAGIC. rewrite !bytes_app. split; [|split].
  - repeat constructor; unfold is_byte; lia.
  - unfold kind. case_if; destruct (ol_state l); repeat constructor; unfold is_byte; lia.
  - repeat split; auto using bytes_le64, bytes_zeros.
Qed.

Lemma wf_expires_range l : wf l → in_u64 (ol_expires_ms l).
Proof.
  intros [[He _] [Hx Hm] _ _ _]. split; [by etrans|]. etrans; [exact Hm|]. apply Z.le_min_r.
Qed.

Lemma from_layout l : wf l → OutboundLifetime.from_token (layout l) = Some l.
Proof.
  intros Hwf. pose proof (wf_expires_range l Hwf). destruct Hwf as [He Hx Hp Hg Hs].
  unfold OutboundLifetime.from_token.
  change (drop 40 (layout l)) with (zeros 48). change (take 4 (layout l)) with OutboundLifetime.TOKEN_MAGIC.
  change (slice (layout l) 6 8) with (zeros 2).
  change (slice (layout l) 8 16) with (le64 (ol_enqueued_ms l)).
  change (slice (layout l) 16 24) with (le64 (ol_expires_ms l)).
  change (slice (layout l) 24 32) with (le64 (ol_path l)).
  change (slice (layout l) 32 40) with (le64 (generation (ol_state l))).
  change (layout l !!! 4) with (if negb (ol_path l =? 0)%Z then 1%Z else 0%Z).
  change (layout l !!! 5) with (kind (ol_state l)).
  rewrite !of_le_le64 by done.
  rewrite !bool_decide_eq_true_2 by done. change (existsb _ (zeros 48)) with false.
  rewrite (proj2 (Z.ltb_ge _ _)) by (case_if; lia).
  rewrite !(proj2 (Z.ltb_ge _ _)) by lia. cbn [negb orb].
  assert (Hpath : Bool.eqb ((if negb (ol_path l =? 0)%Z then 1 else 0) =? 1)%Z
                    (negb (ol_path l =? 0)%Z) = true) by (by destruct (ol_path l =? 0)%Z).
  rewrite Hpath. cbn [negb].
  destruct l as [e x p st]; cbn [ol_state ol_path ol_enqueued_ms ol_expires_ms] in *.
  destruct st as [|g|g|g]; cbn [kind generation] in *; [reflexivity|..];
    (rewrite (proj2 (Z.eqb_neq g 0)) by (by apply Hs)); reflexivity.
Qed.

Lemma all_zero (l : list Z) :
  existsb (λ byte, negb (byte =? 0)%Z) l = false → l = zeros (length l).
Proof.
  induction l as [|x l IH]; [done|]. simpl. intros [Hx Hl]%orb_false_iff. bool_hyps. subst x.
  unfold zeros in *. simpl. f_equal. by apply IH.
Qed.

Lemma slice_pair (t : list Z) i : i + 2 ≤ length t → slice t i (i + 2) = [t !!! i; t !!! (i + 1)%nat].
Proof.
  intros Hl. unfold slice. replace (i + 2 - i) with 2 by lia.
  rewrite (drop_S t (t !!! i) i), (drop_S t (t !!! (i + 1)%nat) (S i)); [done|..].
  - replace (S i) with (i + 1) by lia. apply list_lookup_lookup_total_lt. lia.
  - apply list_lookup_lookup_total_lt. lia.
Qed.

(** A token cut into its fields. *)
Lemma token_fields (t : list Z) :
  length t = 88 →
  t = take 4 t ++ [t !!! 4%nat; t !!! 5%nat] ++ slice t 6 8 ++ slice t 8 16 ++ slice t 16 24
      ++ slice t 24 32 ++ slice t 32 40 ++ drop 40 t.
Proof.
  intros Hl. pose proof (slice_pair t 4 ltac:(lia)) as Hp. simpl Nat.add in Hp. rewrite <- Hp.
  change (take 4 t) with (slice t 0 4).
  rewrite (slice_drop_app t 32 40), (slice_drop_app t 24 32), (slice_drop_app t 16 24),
    (slice_drop_app t 8 16), (slice_drop_app t 6 8), (slice_drop_app t 4 6),
    (slice_drop_app t 0 4) by lia. done.
Qed.

(** A token that decodes is the layout of what it decodes to. *)
Lemma from_token_inv t l :
  bytes t → length t = OutboundLifetime.TOKEN_BYTES → OutboundLifetime.from_token t = Some l →
  wf l ∧ layout l = t.
Proof.
  intros Hb Hlen. unfold OutboundLifetime.from_token, OutboundLifetime.TOKEN_BYTES in *.
  case_if; [done|]. case_if; [done|]. case_if; [done|]. intros Hl.
  assert (Hs : ∀ i, i + 8 ≤ 88 → in_u64 (of_le (slice t i (i + 8))) ∧
                    le64 (of_le (slice t i (i + 8))) = slice t i (i + 8)).
  { intros i Hi. assert (length (slice t i (i + 8)) = 8) by (rewrite length_slice; lia).
    split; [apply of_le_range|apply le64_of_le]; auto using bytes_slice. }
  pose proof (Hs 8 ltac:(lia)) as [He Le]. pose proof (Hs 16 ltac:(lia)) as [Hx Lx].
  pose proof (Hs 24 ltac:(lia)) as [Hp Lp]. pose proof (Hs 32 ltac:(lia)) as [Hg Lg].
  simpl Nat.add in *.
  set (st := match t !!! 5%nat with 0%Z => _ | _ => _ end) in Hl.
  assert (Hst : ∃ s, st = Some s ∧ kind s = t !!! 5%nat ∧ generation s = of_le (slice t 32 40) ∧
                (s ≠ OutboundState.Independent → generation s ≠ 0%Z)).
  { unfold st in *. destruct (t !!! 5%nat) as [|[[|[]|]|[|[]|]|]|]; try done;
      case_if; try done; eexists; split; try reflexivity; simpl; auto. }
  destruct Hst as (s & Hst & Hk & Hgen & Hnz). rewrite Hst in Hl. simpl in Hl. injection Hl as <-.
  bool_hyps.
  match goal with H : slice t 6 8 = _ |- _ => rename H into Hres end.
  match goal with H : take 4 t = _ |- _ => rename H into Hmagic end.
  match goal with H : existsb _ _ = false |- _ => apply all_zero in H; rename H into Hpad end.
  rewrite length_drop, Hlen in Hpad.
  split.
  { constructor; cbn [ol_path ol_state ol_enqueued_ms ol_expires_ms].
    - exact He. - by split. - exact Hp. - by rewrite Hgen. - exact Hnz. }
  unfold layout. cbn [ol_path ol_state ol_enqueued_ms ol_expires_ms].
  rewrite Le, Lx, Lp, Hgen, Lg, Hk. rewrite (token_fields t Hlen) at 7.
  rewrite Hmagic, Hres, Hpad. simpl app. do 4 f_equal. f_equal.
  assert (H4b : is_byte (t !!! 4%nat)).
  { apply (bytes_lookup t 4); [done|]. apply list_lookup_lookup_total_lt. lia. }
  unfold is_byte in H4b. repeat case_if; simpl in *; try done; bool_hyps; simpl in *; lia.
Qed.
End Token.

(** The owner-to-driver token is a faithful representation of a life time.
    Every life time a node makes encodes to 88 bytes that decode to it, and any
    88 bytes that decode are the encoding of the result, whose age limit is
    within the queue's: no two tokens mean the same and none is read leniently. *)
Lemma outbound_token_roundtrip l t :
  (Token.wf l →
     bytes (OutboundLifetime.to_token l) ∧
     length (OutboundLifetime.to_token l) = OutboundLifetime.TOKEN_BYTES ∧
     OutboundLifetime.from_token (OutboundLifetime.to_token l) = Some l) ∧
  (bytes t → length t = OutboundLifetime.TOKEN_BYTES → OutboundLifetime.from_token t = Some l →
     Token.wf l ∧ OutboundLifetime.to_token l = t).
Proof.
  rewrite Token.to_token_layout. split.
  - intros Hwf. split; [apply Token.bytes_layout|]. split; [|by apply Token.from_layout].
    unfold Token.layout. destruct (ol_state l); reflexivity.
  - intros Hb Hl Ht. by apply Token.from_token_inv.
Qed.

Lemma outbound_token_roundtrip_witness :
  let l := {| ol_enqueued_ms := 1000; ol_expires_ms := 121000; ol_path := 7;
              ol_state := OutboundState.Link 3 |} in
  OutboundLifetime.from_token (OutboundLifetime.to_token l) = Some l.
Proof.
  intros l. apply (outbound_token_roundtrip l []). constructor.
  - unfold in_u64, u64_max. simpl. lia.
  - vm_compute. split; congruence.
  - unfold in_u64, u64_max. simpl. lia.
  - unfold in_u64, u64_max. simpl. lia.
  - done.
Defined.
