(* ===== verification/Model.v ===== *)
(** The two transport models (src/src/model.rs): who owns the interfaces of a
    node and what is stored with a queued frame. [Endpoint] keeps the host's
    interface facts; [Router] keeps a registry with registration generations,
    announce gates and its own counters.

    The class [Model] is the trait; [ModelLaws] is what the transport relies on
    whichever model it runs on, and both instances satisfy it. *)

From S2P Require Import Prelude Constants Slots Buffer Config Lora AnnounceFlow Discovery.
From S2P Require Import Outbound.

Definition ENDPOINT_LOCAL_SLOTS : nat := 4.
Definition ROUTER_LOCAL_SLOTS : nat := 8.
Definition LOCAL_LINKS_MAX : nat := 6.
Definition WATCHED_DESTINATIONS_MAX : nat := 4.

Inductive LocalSlot := LocalEmpty | LocalDestination (d : list Z) | LocalLink (id : list Z).

#[export] Instance LocalSlot_eq_dec : EqDecision LocalSlot.
Proof. solve_decision. Defined.

Record RouterStats := {
  rs_interface_dropped : Z;
  rs_mtu_dropped : Z;
  rs_reflection_dropped : Z;
  rs_announces_released : Z;
  rs_bulk_paths_learned : Z;
  rs_bulk_paths_refused : Z
}.

Module RouterStats.
Definition ZERO : RouterStats :=
  {| rs_interface_dropped := 0; rs_mtu_dropped := 0; rs_reflection_dropped := 0;
     rs_announces_released := 0; rs_bulk_paths_learned := 0; rs_bulk_paths_refused := 0 |}.
Definition count_interface_dropped (s : RouterStats) : RouterStats :=
  {| rs_interface_dropped := sat_add64 (rs_interface_dropped s) 1; rs_mtu_dropped :=
     rs_mtu_dropped s; rs_reflection_dropped := rs_reflection_dropped s; rs_announces_released
     := rs_announces_released s; rs_bulk_paths_learned := rs_bulk_paths_learned s;
     rs_bulk_paths_refused := rs_bulk_paths_refused s |}.
Definition count_mtu_dropped (s : RouterStats) : RouterStats :=
  {| rs_interface_dropped := rs_interface_dropped s; rs_mtu_dropped := sat_add64 (rs_mtu_dropped
     s) 1; rs_reflection_dropped := rs_reflection_dropped s; rs_announces_released :=
     rs_announces_released s; rs_bulk_paths_learned := rs_bulk_paths_learned s;
     rs_bulk_paths_refused := rs_bulk_paths_refused s |}.
Definition count_reflection_dropped (s : RouterStats) : RouterStats :=
  {| rs_interface_dropped := rs_interface_dropped s; rs_mtu_dropped := rs_mtu_dropped s;
     rs_reflection_dropped := sat_add64 (rs_reflection_dropped s) 1; rs_announces_released :=
     rs_announces_released s; rs_bulk_paths_learned := rs_bulk_paths_learned s;
     rs_bulk_paths_refused := rs_bulk_paths_refused s |}.
Definition count_announces_released (s : RouterStats) : RouterStats :=
  {| rs_interface_dropped := rs_interface_dropped s; rs_mtu_dropped := rs_mtu_dropped s;
     rs_reflection_dropped := rs_reflection_dropped s; rs_announces_released := sat_add64
     (rs_announces_released s) 1; rs_bulk_paths_learned := rs_bulk_paths_learned s;
     rs_bulk_paths_refused := rs_bulk_paths_refused s |}.
Definition count_bulk_paths_learned (s : RouterStats) : RouterStats :=
  {| rs_interface_dropped := rs_interface_dropped s; rs_mtu_dropped := rs_mtu_dropped s;
     rs_reflection_dropped := rs_reflection_dropped s; rs_announces_released :=
     rs_announces_released s; rs_bulk_paths_learned := sat_add64 (rs_bulk_paths_learned s) 1;
     rs_bulk_paths_refused := rs_bulk_paths_refused s |}.
Definition count_bulk_paths_refused (s : RouterStats) : RouterStats :=
  {| rs_interface_dropped := rs_interface_dropped s; rs_mtu_dropped := rs_mtu_dropped s;
     rs_reflection_dropped := rs_reflection_dropped s; rs_announces_released :=
     rs_announces_released s; rs_bulk_paths_learned := rs_bulk_paths_learned s;
     rs_bulk_paths_refused := sat_add64 (rs_bulk_paths_refused s) 1 |}.
End RouterStats.

Record Router := MkRouter {
  r_registry : InterfaceRegistry;
  r_generations : list Z;
  r_last_generation : Z;
  r_announce_gates : list Z;
  r_lora_modem : option LoraModemConfig;
  r_plain_sink : option (list Z);
  r_watched : list (list Z);
  r_watched_len : nat;
  r_stats : RouterStats
}.

(** [self.field = v] on a router. *)
Definition r_set_registry (v : InterfaceRegistry) (r : Router) : Router :=
  MkRouter v (r_generations r) (r_last_generation r) (r_announce_gates r) (r_lora_modem r)
     (r_plain_sink r) (r_watched r) (r_watched_len r) (r_stats r).
Definition r_set_generations (v : list Z) (r : Router) : Router :=
  MkRouter (r_registry r) v (r_last_generation r) (r_announce_gates r) (r_lora_modem r)
     (r_plain_sink r) (r_watched r) (r_watched_len r) (r_stats r).
Definition r_set_last_generation (v : Z) (r : Router) : Router :=
  MkRouter (r_registry r) (r_generations r) v (r_announce_gates r) (r_lora_modem r)
     (r_plain_sink r) (r_watched r) (r_watched_len r) (r_stats r).
Definition r_set_announce_gates (v : list Z) (r : Router) : Router :=
  MkRouter (r_registry r) (r_generations r) (r_last_generation r) v (r_lora_modem r)
     (r_plain_sink r) (r_watched r) (r_watched_len r) (r_stats r).
Definition r_set_lora_modem (v : option LoraModemConfig) (r : Router) : Router :=
  MkRouter (r_registry r) (r_generations r) (r_last_generation r) (r_announce_gates r) v
     (r_plain_sink r) (r_watched r) (r_watched_len r) (r_stats r).
Definition r_set_plain_sink (v : option (list Z)) (r : Router) : Router :=
  MkRouter (r_registry r) (r_generations r) (r_last_generation r) (r_announce_gates r)
     (r_lora_modem r) v (r_watched r) (r_watched_len r) (r_stats r).
Definition r_set_watched (v : list (list Z)) (r : Router) : Router :=
  MkRouter (r_registry r) (r_generations r) (r_last_generation r) (r_announce_gates r)
     (r_lora_modem r) (r_plain_sink r) v (r_watched_len r) (r_stats r).
Definition r_set_watched_len (v : nat) (r : Router) : Router :=
  MkRouter (r_registry r) (r_generations r) (r_last_generation r) (r_announce_gates r)
     (r_lora_modem r) (r_plain_sink r) (r_watched r) v (r_stats r).
Definition r_set_stats (v : RouterStats) (r : Router) : Router :=
  MkRouter (r_registry r) (r_generations r) (r_last_generation r) (r_announce_gates r)
     (r_lora_modem r) (r_plain_sink r) (r_watched r) (r_watched_len r) v.
Definition r_count (f : RouterStats → RouterStats) (r : Router) : Router :=
  r_set_stats (f (r_stats r)) r.

Module Router.

Definition new (registry : InterfaceRegistry) (lora_modem : option LoraModemConfig) : Router :=
  {| r_registry := registry; r_generations := replicate REQUESTERS 1%Z; r_last_generation := 1;
     r_announce_gates := replicate REQUESTERS AnnounceGate.OPEN; r_lora_modem := lora_modem;
     r_plain_sink := None; r_watched := replicate WATCHED_DESTINATIONS_MAX (zeros 16);
     r_watched_len := 0; r_stats := RouterStats.ZERO |}.

Definition interface (id : Z) (r : Router) : option InterfaceConfig :=
  InterfaceRegistry.get id (r_registry r).

Definition watched_destinations (r : Router) : list (list Z) := take (r_watched_len r) (r_watched r).

Definition watches (destination : list Z) (r : Router) : bool :=
  existsb (λ d, d =k destination) (watched_destinations r).

Definition generation (id : Z) (r : Router) : Z :=
  match InterfaceRegistry.slot id (r_registry r) with
  | Some slot => r_generations r !!! slot
  | None => 0
  end.

Definition EMPTY : Router := new InterfaceRegistry.new None.

Definition delivery (identity interface : Z) (r : Router) : Z := generation interface r.

Definition delivery_is_current (interface delivery : Z) (r : Router) : bool :=
  negb (delivery =? 0)%Z && (generation interface r =? delivery)%Z.

Definition facts (slot : nat) (r : Router) : InterfaceFacts :=
  match InterfaceRegistry.at_slot slot (r_registry r) with
  | None => InterfaceFacts.EMPTY
  | Some interface =>
      {| f_generation := 1;
         f_bitrate_bps := Z.min (if_bitrate_bps interface) u32_max;
         f_clear_mtu := as_u16 (InterfaceConfig.clear_mtu interface);
         f_id := if_id interface;
         f_mode := if_mode interface;
         f_flags := Z.lor (Z.lor (Z.lor 1 4)
                      (if if_online interface && outbound (if_direction interface) then 2 else 0))
                      (if bool_decide (if_role interface = LocalClient) then 8 else 0) |}
  end.

Definition ifac (id : Z) (config : LiteConfig) (r : Router) : option IfacConfig :=
  match InterfaceRegistry.get id (r_registry r) with
  | Some interface => if_ifac interface
  | None => None
  end.

Definition online (id : Z) (r : Router) : bool :=
  match InterfaceRegistry.get id (r_registry r) with
  | Some interface => if_online interface && outbound (if_direction interface)
  | None => false
  end.

End Router.

(** The facts of the eight requester slots. *)
Record Endpoint := { e_facts : list InterfaceFacts }.

(** [(0..REQUESTERS).find(..)] on a facts function. *)
Definition slot_of (facts : nat → InterfaceFacts) (id : Z) : option nat :=
  find (λ slot, negb (Z.land (f_flags (facts slot)) 1 =? 0)%Z && (f_id (facts slot) =? id)%Z)
       (seq 0 REQUESTERS).

Definition with_f_mode (m : InterfaceMode) (f : InterfaceFacts) : InterfaceFacts :=
  {| f_generation := f_generation f; f_bitrate_bps := f_bitrate_bps f;
     f_clear_mtu := f_clear_mtu f; f_id := f_id f; f_mode := m; f_flags := f_flags f |}.

Module Endpoint.

Definition EMPTY : Endpoint := {| e_facts := replicate REQUESTERS InterfaceFacts.EMPTY |}.

Definition delivery (identity interface : Z) (e : Endpoint) : OutboundDelivery :=
  {| od_identity := identity; od_interface_generations := replicate 7 0%Z;
     od_pending_targets := 127; od_initialized := false |}.

(** [self.facts[slot]]; the slots are [0..REQUESTERS]. *)
Definition facts (slot : nat) (e : Endpoint) : InterfaceFacts :=
  default InterfaceFacts.EMPTY (e_facts e !! slot).

Definition slot (id : Z) (e : Endpoint) : option nat := slot_of (λ s, facts s e) id.

Definition free_slot (e : Endpoint) : option nat :=
  position (λ f, (Z.land (f_flags f) 1 =? 0)%Z) (e_facts e).

Definition observe (meta : RxMeta) (config : LiteConfig) (clear_mtu : nat) (e : Endpoint) : Endpoint :=
  let mode := default (lc_mode config) (rx_interface_mode meta) in
  match slot (rx_interface_id meta) e with
  | Some s =>
      if (Z.land (f_flags (facts s e)) 4 =? 0)%Z
      then {| e_facts := alter (with_f_mode mode) s (e_facts e) |} else e
  | None =>
      match free_slot e with
      | Some s =>
          {| e_facts := <[s := {| f_id := rx_interface_id meta; f_generation := 1; f_mode := mode;
                                  f_bitrate_bps := 0; f_clear_mtu := as_u16 clear_mtu;
                                  f_flags := Z.lor 1 2 |}]> (e_facts e) |}
      | None => e
      end
  end.

End Endpoint.

(** * The interface *)

(** [M] is the model state and [D] what it stores with a queued frame. *)
Class Model (M D : Type) := {
  m_EMPTY : M;
  m_LOCAL_SLOTS : nat;
  m_LOCAL_LINKS_MAX : nat;
  m_ROUTER : bool;
  m_delivery : Z → Z → M → D;
  m_delivery_is_current : Z → D → M → bool;
  m_facts : nat → M → InterfaceFacts;
  m_observe : RxMeta → LiteConfig → nat → M → M;
  m_ifac : Z → LiteConfig → M → option IfacConfig;
  m_online : Z → M → bool;
  m_router : M → option Router;
  m_set_router : Router → M → M  (** a write through [router_mut] *)
}.

Definition m_slot `{Model M D} (id : Z) (m : M) : option nat := slot_of (λ s, m_facts s m) id.

#[export] Instance endpoint_model : Model Endpoint OutboundDelivery := {|
  m_EMPTY := Endpoint.EMPTY;
  m_LOCAL_SLOTS := ENDPOINT_LOCAL_SLOTS;
  m_LOCAL_LINKS_MAX := ENDPOINT_LOCAL_SLOTS;
  m_ROUTER := false;
  m_delivery := Endpoint.delivery;
  m_delivery_is_current := λ _ _ _, true;
  m_facts := Endpoint.facts;
  m_observe := Endpoint.observe;
  m_ifac := λ _ config _, lc_ifac config;
  m_online := λ _ _, true;
  m_router := λ _, None;
  m_set_router := λ _ m, m
|}.

#[export] Instance router_model : Model Router Z := {|
  m_EMPTY := Router.EMPTY;
  m_LOCAL_SLOTS := ROUTER_LOCAL_SLOTS;
  m_LOCAL_LINKS_MAX := LOCAL_LINKS_MAX;
  m_ROUTER := true;
  m_delivery := Router.delivery;
  m_delivery_is_current := Router.delivery_is_current;
  m_facts := Router.facts;
  m_observe := λ _ _ _ r, r;
  m_ifac := Router.ifac;
  m_online := Router.online;
  m_router := λ r, Some r;
  m_set_router := λ r _, r
|}.

(** What the transport relies on: a router state is there exactly on the router
    model and writes to it are reads of it; its counters and gates influence
    neither interface facts nor delivery; observing a frame registers no more
    than its interface. *)
Class ModelLaws (M D : Type) `{Model M D} := {
  law_router : ∀ m : M, m_ROUTER = match m_router m with Some _ => true | None => false end;
  law_set : ∀ (m : M) r r', m_router m = Some r → m_router (m_set_router r' m) = Some r';
  law_set_none : ∀ (m : M) r', m_router m = None → m_set_router r' m = m;
  law_bookkeeping : ∀ (m : M) r r', m_router m = Some r →
    r_registry r' = r_registry r → r_generations r' = r_generations r →
    let m' := m_set_router r' m in
    (∀ slot, m_facts slot m' = m_facts slot m) ∧
    (∀ id d, m_delivery_is_current id d m' = m_delivery_is_current id d m) ∧
    (∀ id c, m_ifac id c m' = m_ifac id c m) ∧ (∀ id, m_online id m' = m_online id m) ∧
    (∀ k id, m_delivery k id m' = m_delivery k id m);
  law_router_observe : ∀ (m : M) meta c n, m_router (m_observe meta c n m) = m_router m;
  law_router_facts : ∀ (m : M) r slot, m_router m = Some r → m_facts slot m = Router.facts slot r;
  law_ifac_observe : ∀ (m : M) meta c n id c',
    m_ifac id c' (m_observe meta c n m) = m_ifac id c' m;
  law_clear_mtu : ∀ (m : M) slot, f_clear_mtu (m_facts slot m) ≤ MTU →
    ∀ meta c n, n ≤ MTU → f_clear_mtu (m_facts slot (m_observe meta c n m)) ≤ MTU
}.

Lemma as_u16_le n k : n ≤ k → as_u16 n ≤ k.
Proof.
  unfold as_u16. intros Hn. pose proof (Z.mod_le (Z.of_nat n) 65536 ltac:(lia) ltac:(lia)). lia.
Qed.

Lemma endpoint_observe_mtu meta c n e slot :
  n ≤ MTU → f_clear_mtu (Endpoint.facts slot e) ≤ MTU →
  f_clear_mtu (Endpoint.facts slot (Endpoint.observe meta c n e)) ≤ MTU.
Proof.
  intros Hn He. unfold Endpoint.observe. destruct (Endpoint.slot _ _) as [s|].
  - case_if; [|done]. unfold Endpoint.facts in *. simpl.
    destruct (decide (s = slot)) as [->|Hne]; [|by rewrite list_lookup_alter_ne].
    rewrite list_lookup_alter_eq. by destruct (e_facts e !! slot).
  - destruct (Endpoint.free_slot e) as [s|] eqn:Hf; [|done].
    unfold Endpoint.free_slot in Hf. apply position_lt in Hf.
    unfold Endpoint.facts in *. simpl.
    destruct (decide (s = slot)) as [->|Hne]; [|by rewrite list_lookup_insert_ne].
    rewrite list_lookup_insert_eq by done. simpl. by apply as_u16_le.
Qed.

#[export] Instance endpoint_laws : ModelLaws Endpoint OutboundDelivery.
Proof.
  split; try done. intros m slot Hm meta c n Hn. by apply endpoint_observe_mtu.
Qed.

#[export] Instance router_laws : ModelLaws Router Z.
Proof.
  split; try done; [|by intros m r slot [= ->]]. intros m r r' [= <-] Hreg Hgen m'. unfold m'. simpl.
  unfold Router.facts, Router.delivery_is_current, Router.ifac, Router.online, Router.delivery,
    Router.generation. rewrite Hreg, Hgen. done.
Qed.
