(* ===== verification/Node.v ===== *)
(** The transport node (src/src/transport.rs, the queue side of
    src/src/transport/router.rs): its state, construction and configuration, the
    destinations and links it owns, the queries on its interfaces, the life time
    of what it queues and the outbound queue itself.

    A method on [&mut self] is a function returning the new node. The const
    generics are the capacities of the tables. *)

From S2P Require Import Prelude Constants Primitives Buffer Wire Slots Queue HashTables GenTable.
From S2P Require Import PathTable Lora AnnounceFlow AnnounceTables FlowTables Discovery Config.
From S2P Require Import Ifac Identity KnownDestinations Links Outbound Model.

Record LiteNode (M D : Type) := MkNode {
  ln_config : LiteConfig;
  ln_clock_ms : Z;
  ln_transport_id : list Z;
  ln_local : list LocalSlot;
  ln_announce_admission : AnnounceAdmission;
  ln_known_destinations : KnownDestinations;
  ln_packet_hashes : list (option PacketHashEntry);
  ln_paths : PathTable;
  ln_announce_cache : AnnounceCache;
  ln_announce_schedule : AnnounceSchedule;
  ln_reverse : ReverseTable;
  ln_links : LinkTable;
  ln_request_tags : list (option RequestTagEntry);
  ln_outbound : @RingQueue.Queue (QueuedOutbound D);
  ln_last_delivery_identity : Z;
  ln_retained_owner_mode : bool;
  ln_discoveries : Discoveries;
  ln_interfaces : M;
  ln_stats : TransportStats
}.
Arguments MkNode {M D}.
Arguments ln_config {M D}.
Arguments ln_clock_ms {M D}.
Arguments ln_transport_id {M D}.
Arguments ln_local {M D}.
Arguments ln_announce_admission {M D}.
Arguments ln_known_destinations {M D}.
Arguments ln_packet_hashes {M D}.
Arguments ln_paths {M D}.
Arguments ln_announce_cache {M D}.
Arguments ln_announce_schedule {M D}.
Arguments ln_reverse {M D}.
Arguments ln_links {M D}.
Arguments ln_request_tags {M D}.
Arguments ln_outbound {M D}.
Arguments ln_last_delivery_identity {M D}.
Arguments ln_retained_owner_mode {M D}.
Arguments ln_discoveries {M D}.
Arguments ln_interfaces {M D}.
Arguments ln_stats {M D}.

(** [self.field = v]. *)
Section setters.
Context {M D : Type}.
Implicit Types n : LiteNode M D.

Definition set_config (v : LiteConfig) n : LiteNode M D :=
  MkNode v (ln_clock_ms n) (ln_transport_id n) (ln_local n) (ln_announce_admission n)
    (ln_known_destinations n) (ln_packet_hashes n) (ln_paths n) (ln_announce_cache n)
    (ln_announce_schedule n) (ln_reverse n) (ln_links n) (ln_request_tags n) (ln_outbound n)
    (ln_last_delivery_identity n) (ln_retained_owner_mode n) (ln_discoveries n) (ln_interfaces
    n) (ln_stats n).
Definition set_clock_ms (v : Z) n : LiteNode M D :=
  MkNode (ln_config n) v (ln_transport_id n) (ln_local n) (ln_announce_admission n)
    (ln_known_destinations n) (ln_packet_hashes n) (ln_paths n) (ln_announce_cache n)
    (ln_announce_schedule n) (ln_reverse n) (ln_links n) (ln_request_tags n) (ln_outbound n)
    (ln_last_delivery_identity n) (ln_retained_owner_mode n) (ln_discoveries n) (ln_interfaces
    n) (ln_stats n).
Definition set_transport_id (v : list Z) n : LiteNode M D :=
  MkNode (ln_config n) (ln_clock_ms n) v (ln_local n) (ln_announce_admission n)
    (ln_known_destinations n) (ln_packet_hashes n) (ln_paths n) (ln_announce_cache n)
    (ln_announce_schedule n) (ln_reverse n) (ln_links n) (ln_request_tags n) (ln_outbound n)
    (ln_last_delivery_identity n) (ln_retained_owner_mode n) (ln_discoveries n) (ln_interfaces
    n) (ln_stats n).
Definition set_local (v : list LocalSlot) n : LiteNode M D :=
  MkNode (ln_config n) (ln_clock_ms n) (ln_transport_id n) v (ln_announce_admission n)
    (ln_known_destinations n) (ln_packet_hashes n) (ln_paths n) (ln_announce_cache n)
    (ln_announce_schedule n) (ln_reverse n) (ln_links n) (ln_request_tags n) (ln_outbound n)
    (ln_last_delivery_identity n) (ln_retained_owner_mode n) (ln_discoveries n) (ln_interfaces
    n) (ln_stats n).
Definition set_announce_admission (v : AnnounceAdmission) n : LiteNode M D :=
  MkNode (ln_config n) (ln_clock_ms n) (ln_transport_id n) (ln_local n) v (ln_known_destinations
    n) (ln_packet_hashes n) (ln_paths n) (ln_announce_cache n) (ln_announce_schedule n)
    (ln_reverse n) (ln_links n) (ln_request_tags n) (ln_outbound n) (ln_last_delivery_identity
    n) (ln_retained_owner_mode n) (ln_discoveries n) (ln_interfaces n) (ln_stats n).
Definition set_known_destinations (v : KnownDestinations) n : LiteNode M D :=
  MkNode (ln_config n) (ln_clock_ms n) (ln_transport_id n) (ln_local n) (ln_announce_admission
    n) v (ln_packet_hashes n) (ln_paths n) (ln_announce_cache n) (ln_announce_schedule n)
    (ln_reverse n) (ln_links n) (ln_request_tags n) (ln_outbound n) (ln_last_delivery_identity
    n) (ln_retained_owner_mode n) (ln_discoveries n) (ln_interfaces n) (ln_stats n).
Definition set_packet_hashes (v : list (option PacketHashEntry)) n : LiteNode M D :=
  MkNode (ln_config n) (ln_clock_ms n) (ln_transport_id n) (ln_local n) (ln_announce_admission
    n) (ln_known_destinations n) v (ln_paths n) (ln_announce_cache n) (ln_announce_schedule n)
    (ln_reverse n) (ln_links n) (ln_request_tags n) (ln_outbound n) (ln_last_delivery_identity
    n) (ln_retained_owner_mode n) (ln_discoveries n) (ln_interfaces n) (ln_stats n).
Definition set_paths (v : PathTable) n : LiteNode M D :=
  MkNode (ln_config n) (ln_clock_ms n) (ln_transport_id n) (ln_local n) (ln_announce_admission
    n) (ln_known_destinations n) (ln_packet_hashes n) v (ln_announce_cache n)
    (ln_announce_schedule n) (ln_reverse n) (ln_links n) (ln_request_tags n) (ln_outbound n)
    (ln_last_delivery_identity n) (ln_retained_owner_mode n) (ln_discoveries n) (ln_interfaces
    n) (ln_stats n).
Definition set_announce_cache (v : AnnounceCache) n : LiteNode M D :=
  MkNode (ln_config n) (ln_clock_ms n) (ln_transport_id n) (ln_local n) (ln_announce_admission
    n) (ln_known_destinations n) (ln_packet_hashes n) (ln_paths n) v (ln_announce_schedule n)
    (ln_reverse n) (ln_links n) (ln_request_tags n) (ln_outbound n) (ln_last_delivery_identity
    n) (ln_retained_owner_mode n) (ln_discoveries n) (ln_interfaces n) (ln_stats n).
Definition set_announce_schedule (v : AnnounceSchedule) n : LiteNode M D :=
  MkNode (ln_config n) (ln_clock_ms n) (ln_transport_id n) (ln_local n) (ln_announce_admission
    n) (ln_known_destinations n) (ln_packet_hashes n) (ln_paths n) (ln_announce_cache n) v
    (ln_reverse n) (ln_links n) (ln_request_tags n) (ln_outbound n) (ln_last_delivery_identity
    n) (ln_retained_owner_mode n) (ln_discoveries n) (ln_interfaces n) (ln_stats n).
Definition set_reverse (v : ReverseTable) n : LiteNode M D :=
  MkNode (ln_config n) (ln_clock_ms n) (ln_transport_id n) (ln_local n) (ln_announce_admission
    n) (ln_known_destinations n) (ln_packet_hashes n) (ln_paths n) (ln_announce_cache n)
    (ln_announce_schedule n) v (ln_links n) (ln_request_tags n) (ln_outbound n)
    (ln_last_delivery_identity n) (ln_retained_owner_mode n) (ln_discoveries n) (ln_interfaces
    n) (ln_stats n).
Definition set_links (v : LinkTable) n : LiteNode M D :=
  MkNode (ln_config n) (ln_clock_ms n) (ln_transport_id n) (ln_local n) (ln_announce_admission
    n) (ln_known_destinations n) (ln_packet_hashes n) (ln_paths n) (ln_announce_cache n)
    (ln_announce_schedule n) (ln_reverse n) v (ln_request_tags n) (ln_outbound n)
    (ln_last_delivery_identity n) (ln_retained_owner_mode n) (ln_discoveries n) (ln_interfaces
    n) (ln_stats n).
Definition set_request_tags (v : list (option RequestTagEntry)) n : LiteNode M D :=
  MkNode (ln_config n) (ln_clock_ms n) (ln_transport_id n) (ln_local n) (ln_announce_admission
    n) (ln_known_destinations n) (ln_packet_hashes n) (ln_paths n) (ln_announce_cache n)
    (ln_announce_schedule n) (ln_reverse n) (ln_links n) v (ln_outbound n)
    (ln_last_delivery_identity n) (ln_retained_owner_mode n) (ln_discoveries n) (ln_interfaces
    n) (ln_stats n).
Definition set_outbound (v : @RingQueue.Queue (QueuedOutbound D)) n : LiteNode M D :=
  MkNode (ln_config n) (ln_clock_ms n) (ln_transport_id n) (ln_local n) (ln_announce_admission
    n) (ln_known_destinations n) (ln_packet_hashes n) (ln_paths n) (ln_announce_cache n)
    (ln_announce_schedule n) (ln_reverse n) (ln_links n) (ln_request_tags n) v
    (ln_last_delivery_identity n) (ln_retained_owner_mode n) (ln_discoveries n) (ln_interfaces
    n) (ln_stats n).
Definition set_last_delivery_identity (v : Z) n : LiteNode M D :=
  MkNode (ln_config n) (ln_clock_ms n) (ln_transport_id n) (ln_local n) (ln_announce_admission
    n) (ln_known_destinations n) (ln_packet_hashes n) (ln_paths n) (ln_announce_cache n)
    (ln_announce_schedule n) (ln_reverse n) (ln_links n) (ln_request_tags n) (ln_outbound n) v
    (ln_retained_owner_mode n) (ln_discoveries n) (ln_interfaces n) (ln_stats n).
Definition set_retained_owner_mode (v : bool) n : LiteNode M D :=
  MkNode (ln_config n) (ln_clock_ms n) (ln_transport_id n) (ln_local n) (ln_announce_admission
    n) (ln_known_destinations n) (ln_packet_hashes n) (ln_paths n) (ln_announce_cache n)
    (ln_announce_schedule n) (ln_reverse n) (ln_links n) (ln_request_tags n) (ln_outbound n)
    (ln_last_delivery_identity n) v (ln_discoveries n) (ln_interfaces n) (ln_stats n).
Definition set_discoveries (v : Discoveries) n : LiteNode M D :=
  MkNode (ln_config n) (ln_clock_ms n) (ln_transport_id n) (ln_local n) (ln_announce_admission
    n) (ln_known_destinations n) (ln_packet_hashes n) (ln_paths n) (ln_announce_cache n)
    (ln_announce_schedule n) (ln_reverse n) (ln_links n) (ln_request_tags n) (ln_outbound n)
    (ln_last_delivery_identity n) (ln_retained_owner_mode n) v (ln_interfaces n) (ln_stats n).
Definition set_interfaces (v : M) n : LiteNode M D :=
  MkNode (ln_config n) (ln_clock_ms n) (ln_transport_id n) (ln_local n) (ln_announce_admission
    n) (ln_known_destinations n) (ln_packet_hashes n) (ln_paths n) (ln_announce_cache n)
    (ln_announce_schedule n) (ln_reverse n) (ln_links n) (ln_request_tags n) (ln_outbound n)
    (ln_last_delivery_identity n) (ln_retained_owner_mode n) (ln_discoveries n) v (ln_stats n).
Definition set_stats (v : TransportStats) n : LiteNode M D :=
  MkNode (ln_config n) (ln_clock_ms n) (ln_transport_id n) (ln_local n) (ln_announce_admission
    n) (ln_known_destinations n) (ln_packet_hashes n) (ln_paths n) (ln_announce_cache n)
    (ln_announce_schedule n) (ln_reverse n) (ln_links n) (ln_request_tags n) (ln_outbound n)
    (ln_last_delivery_identity n) (ln_retained_owner_mode n) (ln_discoveries n) (ln_interfaces
    n) v.
End setters.

(** A counter of [self.stats]. *)
Definition count {M D} (f : TransportStats → TransportStats) (n : LiteNode M D) : LiteNode M D :=
  set_stats (f (ln_stats n)) n.

Section node.
Context `{SHA : Sha256} `{HKDF : HkdfSha256} `{ED : Ed25519} `{HM : Model M D}.
Abbreviation LiteNode := (LiteNode M D).
Implicit Types n : LiteNode.

(** A counter of the router, when there is one. *)
Definition rcount (f : RouterStats → RouterStats) n : LiteNode :=
  match m_router (ln_interfaces n) with
  | Some r => set_interfaces (m_set_router (r_count f r) (ln_interfaces n)) n
  | None => n
  end.

Definition router_interface (id : Z) n : option InterfaceConfig :=
  r ← m_router (ln_interfaces n); Router.interface id r.

(** * Construction and configuration *)

(** The const generics of the node type. *)
Record Capacities := {
  PATHS : nat; HASHES : nat; ANNOUNCES : nat; REVERSE : nat; LINKS : nat; TAGS : nat;
  OUTBOUND : nat; KNOWN_DESTINATIONS : nat; SCHEDULED : nat
}.

Definition validate_config (caps : Capacities) (config : LiteConfig) : outcome TransportError unit :=
  match LiteConfig.validate config with
  | Err _ => Err TransportError.InvalidConfig
  | Panic => Panic
  | Ok _ =>
      let t := lc_table_caps config in
      if (PATHS caps <? path_entries t) || (HASHES caps <? packet_hashes t)
         || (ANNOUNCES caps <? announce_entries t) || (REVERSE caps <? reverse_entries t)
         || (LINKS caps <? link_entries t) || (TAGS caps <? path_request_tags t)
         || (OUTBOUND caps <? queued_announces_per_interface t)
         || (OUTBOUND caps <? tx_queue_depth_cap t)
      then Err TransportError.CapacityTooSmall else Ok tt
  end.

Definition new_const (caps : Capacities) (config : LiteConfig) (transport_id : list Z) : LiteNode :=
  {| ln_config := config; ln_clock_ms := 0; ln_transport_id := transport_id;
     ln_local := replicate m_LOCAL_SLOTS LocalEmpty;
     ln_announce_admission := AnnounceAdmission.new;
     ln_known_destinations := KnownDestinations.new (KNOWN_DESTINATIONS caps);
     ln_packet_hashes := PacketHashTable.new (HASHES caps);
     ln_paths := PathTable.new (PATHS caps);
     ln_announce_cache := AnnounceCache.new (ANNOUNCES caps);
     ln_announce_schedule := AnnounceSchedule.new (SCHEDULED caps);
     ln_reverse := ReverseTable.new (REVERSE caps);
     ln_links := LinkTable.new (LINKS caps);
     ln_request_tags := RequestTagTable.new (TAGS caps);
     ln_outbound := RingQueue.new (OUTBOUND caps);
     ln_last_delivery_identity := 0;
     ln_retained_owner_mode := false;
     ln_discoveries := Discoveries.new (LINKS caps);
     ln_interfaces := m_EMPTY;
     ln_stats := TransportStats.ZERO |}.

Definition new (caps : Capacities) (config : LiteConfig) (transport_id : list Z)
  : outcome TransportError LiteNode :=
  let* _ := validate_config caps config in
  Ok (new_const caps config transport_id).

(** [Some(self.transport_id)] comparison of a header. *)
Definition accepts_transport_address (header : PacketHeader) n : bool :=
  bool_decide (packet_type (flags header) = Announce)
  || match transport_id header with None => true | Some _ => false end
  || bool_decide (transport_id header = Some (ln_transport_id n)).

(** * Own destinations and local links *)

Definition holds_local (value : LocalSlot) n : bool := existsb (λ s, s =k value) (ln_local n).

Definition register_local_slot (value : LocalSlot) n : bool * LiteNode :=
  if holds_local value n then (true, n)
  else match position (λ s, s =k LocalEmpty) (ln_local n) with
       | Some i => (true, set_local (<[i := value]> (ln_local n)) n)
       | None => (false, n)
       end.

Definition register_local_destination (destination_hash : list Z) n : bool * LiteNode :=
  register_local_slot (LocalDestination destination_hash) n.

Definition register_own_destination (destination_hash : list Z) n : bool * LiteNode :=
  register_local_destination destination_hash n.

Definition is_link_slot (s : LocalSlot) : bool :=
  match s with LocalLink _ => true | _ => false end.

Definition local_link_count n : nat := length (List.filter is_link_slot (ln_local n)).

Definition register_local_link (link_id : list Z) n : bool * LiteNode :=
  let value := LocalLink link_id in
  if negb (holds_local value n) && (m_LOCAL_LINKS_MAX <=? local_link_count n) then (false, n)
  else register_local_slot value n.

(** Emptying the slots that satisfy a test. *)
Definition empty_slots (p : LocalSlot → bool) n : LiteNode :=
  set_local (map (λ s, if p s then LocalEmpty else s) (ln_local n)) n.

Definition unregister_local_destination (destination : list Z) n : LiteNode :=
  empty_slots (λ s, s =k LocalDestination destination) n.

Definition unregister_local_link (link : list Z) n : LiteNode :=
  empty_slots (λ s, s =k LocalLink link) n.

Definition is_own_destination (destination : list Z) n : bool :=
  holds_local (LocalDestination destination) n.

Definition own_destinations n : list (list Z) :=
  omap (λ s, match s with LocalDestination d => Some d | _ => None end) (ln_local n).

Definition clear_local n : LiteNode := set_local (replicate (length (ln_local n)) LocalEmpty) n.

Definition clear_own_destinations n : LiteNode :=
  empty_slots (λ s, match s with LocalDestination _ => true | _ => false end) n.

(** * Queries and host operations *)

Definition cached_announce (destination_hash : list Z) (now_ms : Z) n : option (list Z) :=
  _ ← PathTable.get_live destination_hash now_ms (ln_paths n);
  cached ← AnnounceCache.get destination_hash now_ms (ln_announce_cache n);
  Some (PacketBuffer.as_slice (ca_raw cached)).

Definition has_path (destination_hash : list Z) (now_ms : Z) n : bool :=
  match PathTable.get_live destination_hash now_ms (ln_paths n) with Some _ => true | None => false end.

Definition path (destination_hash : list Z) (now_ms : Z) n : option PathEntry :=
  PathTable.get_live destination_hash now_ms (ln_paths n).

Definition path_count (now_ms : Z) n : nat := PathTable.live_count now_ms (ln_paths n).

Definition drop_path (destination_hash : list Z) n : bool * LiteNode :=
  let (dropped, t) := PathTable.drop_path destination_hash (ln_paths n) in (dropped, set_paths t n).

Definition with_rates (steady grace : Z) (c : LiteConfig) : LiteConfig :=
  {| lc_mode := lc_mode c; lc_table_caps := lc_table_caps c; lc_mtu := lc_mtu c; lc_mdu := lc_mdu c;
     lc_max_announce_app_data := lc_max_announce_app_data c;
     lc_transport_enabled := lc_transport_enabled c;
     lc_probe_destination_enabled := lc_probe_destination_enabled c; lc_ifac := lc_ifac c;
     lc_announce_admission :=
       {| steady_per_sec := steady; grace_per_sec := grace;
          grace_secs := grace_secs (lc_announce_admission c) |} |}.

Definition set_announce_budget (steady grace : Z) n : LiteNode :=
  let c := lc_announce_admission (ln_config n) in
  if (steady_per_sec c =? steady)%Z && (grace_per_sec c =? grace)%Z then n
  else set_announce_admission AnnounceAdmission.new (set_config (with_rates steady grace (ln_config n)) n).

Definition known_destination_recall (destination_hash : list Z) n : option (list Z) * LiteNode :=
  let (k, t) := KnownDestinations.recall destination_hash (ln_known_destinations n) in
  (k, set_known_destinations t n).

Definition known_destination_learn (destination_hash public_key : list Z) (now : Z)
  : st LiteNode KnownDestinationError bool := λ n,
  let (r, t) := KnownDestinations.learn destination_hash public_key now (ln_known_destinations n) in
  (r, set_known_destinations t n).

Definition known_destination_count n : nat := kds_len (ln_known_destinations n).

Definition known_destinations_export_into n : st (list Z) KnownDestinationError nat :=
  KnownDestinations.export_into (ln_known_destinations n).

Definition known_destinations_import (blob : list Z) (now : Z)
  : st LiteNode KnownDestinationError unit := λ n,
  let (r, t) := KnownDestinations.import blob now (ln_known_destinations n) in
  (r, set_known_destinations t n).

(** * Interfaces *)

Definition interface_slot (id : Z) n : option nat := m_slot id (ln_interfaces n).

Definition default_clear_mtu n : nat :=
  let tag := match lc_ifac (ln_config n) with Some ifac => Z.to_nat (ifac_size ifac) | None => 0 end in
  Nat.min MTU (LORA_SPLIT_FRAME_PAYLOAD_MAX - tag).

Definition observe_interface (meta : RxMeta) n : LiteNode :=
  set_interfaces (m_observe meta (ln_config n) (default_clear_mtu n) (ln_interfaces n)) n.

Definition interface_clear_mtu (id : Z) n : nat :=
  match interface_slot id n with
  | None => default_clear_mtu n
  | Some slot => f_clear_mtu (m_facts slot (ln_interfaces n))
  end.

Definition require_link_capacity (interface_id : Z) n : outcome TransportError unit :=
  if m_ROUTER && match interface_slot interface_id n with None => true | Some _ => false end
  then Err TransportError.UnknownInterface
  else
    let clear_mtu := interface_clear_mtu interface_id n in
    if clear_mtu <? 500
    then Err (TransportError.LinkCapacityUnavailable interface_id clear_mtu 500)
    else Ok tt.

Definition interface_bitrate (id : Z) n : Z :=
  match interface_slot id n with
  | Some slot =>
      let f := m_facts slot (ln_interfaces n) in
      if InterfaceFacts.outbound f then f_bitrate_bps f else 0
  | None => 0
  end.

(** [Iterator::min] with the default zero. *)
Definition min_or_zero (l : list Z) : Z :=
  match l with [] => 0 | x :: rest => fold_left Z.min rest x end.

Definition slowest_outbound_bitrate (requester : Z) n : Z :=
  min_or_zero
    (map f_bitrate_bps
      (List.filter
        (λ f, (negb (f_id f =? requester)%Z
               || match router_interface (f_id f) n with
                  | Some i => repeat_ (if_direction i) | None => false end)
              && InterfaceFacts.outbound f && (0 <? f_bitrate_bps f)%Z)
        (map (λ slot, m_facts slot (ln_interfaces n)) (seq 0 REQUESTERS)))).

Definition outbound_interface_online (interface_id : Z) n : bool :=
  m_online interface_id (ln_interfaces n).

Definition is_local_client_interface (interface : Z) n : bool :=
  match interface_slot interface n with
  | Some slot => negb (Z.land (f_flags (m_facts slot (ln_interfaces n))) 8 =? 0)%Z
  | None => false
  end.

(** * Life times *)

Definition outbound_lifetime_is_live (interface_id : Z) (lifetime : OutboundLifetime) (now_ms : Z) n : bool :=
  if (now_ms <? ol_enqueued_ms lifetime)%Z || (ol_expires_ms lifetime <=? now_ms)%Z
     || negb (outbound_interface_online interface_id n) then false
  else if negb (ol_path lifetime =? 0)%Z
          && negb (match PathTable.get_generation (ol_path lifetime) now_ms (ln_paths n) with
                   | Some path => outbound_interface_online (pe_interface_id path) n
                   | None => false
                   end) then false
  else
    match ol_state lifetime with
    | OutboundState.Independent => true
    | OutboundState.Discovery id =>
        lc_transport_enabled (ln_config n) && Discoveries.live id now_ms (ln_discoveries n)
    | OutboundState.Reverse generation =>
        match ReverseTable.get_generation generation now_ms (ln_reverse n) with
        | Some entry => (re_outbound_interface entry =? interface_id)%Z
                        && outbound_interface_online (re_receiving_interface entry) n
        | None => false
        end
    | OutboundState.Link generation =>
        match LinkTable.get_generation generation now_ms (ln_links n) with
        | Some entry =>
            ((le_outbound_interface entry =? interface_id)%Z
             || (le_receiving_interface entry =? interface_id)%Z)
            && outbound_interface_online (le_outbound_interface entry) n
            && outbound_interface_online (le_receiving_interface entry) n
        | None => false
        end
    end.

Definition with_ol_expires (z : Z) (l : OutboundLifetime) : OutboundLifetime :=
  {| ol_enqueued_ms := ol_enqueued_ms l; ol_expires_ms := z; ol_path := ol_path l; ol_state := ol_state l |}.
Definition with_ol_path (g : Z) (l : OutboundLifetime) : OutboundLifetime :=
  {| ol_enqueued_ms := ol_enqueued_ms l; ol_expires_ms := ol_expires_ms l; ol_path := g;
     ol_state := ol_state l |}.
Definition with_ol_state (s : OutboundState) (l : OutboundLifetime) : OutboundLifetime :=
  {| ol_enqueued_ms := ol_enqueued_ms l; ol_expires_ms := ol_expires_ms l; ol_path := ol_path l;
     ol_state := s |}.

(** The independent life time both snapshots start from. *)
Definition fresh_lifetime (now_ms : Z) : OutboundLifetime :=
  {| ol_enqueued_ms := now_ms; ol_expires_ms := sat_add64 now_ms OUTBOUND_MAX_AGE_MS; ol_path := 0;
     ol_state := OutboundState.Independent |}.

(** Binding a life time to a learned path. *)
Definition bind_path (path : PathEntry) (now_ms : Z) (l : OutboundLifetime) n : OutboundLifetime :=
  let l := with_ol_path (default 0%Z (PathTable.generation (pe_destination_hash path) now_ms (ln_paths n))) l in
  with_ol_expires (Z.min (ol_expires_ms l) (pe_expires_ms path)) l.

Definition local_outbound_lifetime (packet : list Z) (now_ms : Z) n
  : outcome TransportError OutboundLifetime :=
  let* view := omap_err TransportError.Wire (parse_view packet) in
  let header := pv_header view in
  let lifetime := fresh_lifetime now_ms in
  if bool_decide (destination_type (flags header) = Single) then
    match PathTable.get_live (Wire.destination_hash header) now_ms (ln_paths n) with
    | Some path => Ok (bind_path path now_ms lifetime n)
    | None => Ok lifetime
    end
  else Ok lifetime.

(** The part of [packet_lifetime] for packets that follow a learned path. *)
Definition path_lifetime (header : PacketHeader) (path : PathEntry) (now_ms : Z)
    (lifetime : OutboundLifetime) n : OutboundLifetime :=
  let lifetime := bind_path path now_ms lifetime n in
  match packet_type (flags header) with
  | LinkRequest =>
      let lifetime := with_ol_state (OutboundState.Link 0) lifetime in
      with_ol_expires
        (Z.min (ol_expires_ms lifetime)
               (link_deadline now_ms (pe_hops path) (interface_bitrate (pe_interface_id path) n))) lifetime
  | Data =>
      let lifetime := with_ol_state (OutboundState.Reverse 0) lifetime in
      with_ol_expires
        (Z.min (ol_expires_ms lifetime) (sat_add64 now_ms (REVERSE_TIMEOUT_SECS * 1000))) lifetime
  | _ => lifetime
  end.

(** The part of [packet_lifetime] for link traffic and link proofs. *)
Definition link_lifetime (header : PacketHeader) (now_ms : Z) (lifetime : OutboundLifetime) n
  : OutboundLifetime :=
  if bool_decide (destination_type (flags header) = Link) || bool_decide (context header = Lrproof) then
    let lifetime := with_ol_state
      (OutboundState.Link (default 0%Z (LinkTable.generation (Wire.destination_hash header) now_ms (ln_links n))))
      lifetime in
    match LinkTable.get (Wire.destination_hash header) now_ms (ln_links n) with
    | Some link =>
        let link_deadline :=
          if le_validated link || bool_decide (context header = Lrproof)
          then sat_add64 now_ms (LINK_TIMEOUT_SECS * 1000) else le_expires_ms link in
        with_ol_expires (Z.min (ol_expires_ms lifetime) link_deadline) lifetime
    | None => lifetime
    end
  else lifetime.

Definition packet_lifetime (packet : PacketBuffer) (reason : OutboundReason) n : OutboundLifetime :=
  let now_ms := ln_clock_ms n in
  let lifetime := fresh_lifetime now_ms in
  match parse_view (PacketBuffer.as_slice packet) with
  | Ok view =>
      let header := pv_header view in
      let path_dependent :=
        bool_decide (packet_type (flags header) = Announce)
        || (bool_decide (destination_type (flags header) = Single)
            && bool_decide (reason = OutboundReason.TransportForward)) in
      let lifetime :=
        match PathTable.get_live (Wire.destination_hash header) now_ms (ln_paths n) with
        | Some path => if path_dependent then path_lifetime header path now_ms lifetime n else lifetime
        | None => lifetime
        end in
      link_lifetime header now_ms lifetime n
  | _ => lifetime
  end.

(** * The outbound queue *)

Definition record_expired_outbound n : LiteNode :=
  count TransportStats.count_outbound_dropped (count TransportStats.count_outbound_expired n).

Definition outbound_oldest_age_ms (now_ms : Z) n : Z :=
  fold_left Z.max
    (map (λ q, sat_sub now_ms (ol_enqueued_ms (of_lifetime (qo_frame q)))) (RingQueue.iter (ln_outbound n))) 0%Z.

Definition outbound_len n : nat := RingQueue.q_len (ln_outbound n).

(** A queued frame that may no longer be sent. *)
Definition stale (now_ms : Z) n (q : QueuedOutbound D) : bool :=
  negb (outbound_lifetime_is_live (of_interface_id (qo_frame q)) (of_lifetime (qo_frame q)) now_ms n)
  || negb (m_delivery_is_current (of_interface_id (qo_frame q)) (qo_delivery q) (ln_interfaces n)).

(** The loop of [expire_outbound]; one iteration per queued frame is enough. *)
Fixpoint expire_loop (fuel : nat) (now_ms : Z) n : LiteNode :=
  match fuel with
  | O => n
  | S fuel' =>
      match position (stale now_ms n) (RingQueue.iter (ln_outbound n)) with
      | None => n
      | Some offset =>
          expire_loop fuel' now_ms
            (record_expired_outbound (set_outbound (snd (RingQueue.remove offset (ln_outbound n))) n))
      end
  end.

Definition expire_outbound (now_ms : Z) n : LiteNode :=
  expire_loop (S (outbound_len n)) now_ms n.

Definition on_interface (id : Z) (q : QueuedOutbound D) : bool :=
  (of_interface_id (qo_frame q) =? id)%Z.
Definition is_gated (q : QueuedOutbound D) : bool := OutboundReason.gated (of_reason (qo_frame q)).

Definition reserve_router_queue (id : Z) (reason : OutboundReason) n : bool * LiteNode :=
  match m_router (ln_interfaces n) with
  | None => (true, n)
  | Some r =>
      match Router.interface id r with
      | None => (false, n)
      | Some interface =>
          if negb (if_online interface) || negb (outbound (if_direction interface)) then (false, n)
          else
            let frames := RingQueue.iter (ln_outbound n) in
            let queued := length (List.filter (on_interface id) frames) in
            if if_tx_queue_depth interface <=? queued then
              match or_else (position (λ q, on_interface id q && is_gated q) frames)
                      (if OutboundReason.gated reason then None
                       else position (on_interface id) frames) with
              | None => (false, n)
              | Some offset =>
                  (true, count TransportStats.count_outbound_dropped
                           (set_outbound (snd (RingQueue.remove offset (ln_outbound n))) n))
              end
            else if Nat.min (tx_queue_depth_cap (lc_table_caps (ln_config n)))
                            (RingQueue.capacity (ln_outbound n)) <=? outbound_len n
            then (false, n)
            else (true, n)
      end
  end.

(** The wire bytes of a packet on an interface. *)
Definition wrap (interface_id : Z) (packet : PacketBuffer) n : option PacketBuffer :=
  let wire := PacketBuffer.new WIRE_MTU_MAX in
  match m_ifac interface_id (ln_config n) (ln_interfaces n) with
  | Some ifac =>
      match ifac_sign_into (PacketBuffer.as_slice packet) (ifac_key ifac) (ifac_size ifac) wire with
      | (Ok _, wire) => Some wire
      | _ => None
      end
  | None =>
      match PacketBuffer.extend_from_slice (PacketBuffer.as_slice packet) wire with
      | (Ok _, wire) => Some wire
      | _ => None
      end
  end.

Definition enqueue_with_lifetime (interface_id : Z) (packet : PacketBuffer) (reason : OutboundReason)
    (lifetime : OutboundLifetime) n : bool * LiteNode :=
  if match m_router (ln_interfaces n) with
     | Some r => negb (match Router.interface interface_id r with
                       | Some interface => if_online interface && outbound (if_direction interface)
                       | None => false
                       end)
     | None => false
     end
  then (false, count TransportStats.count_dropped (rcount RouterStats.count_interface_dropped n))
  else if interface_clear_mtu interface_id n <? pb_len packet then
    let n := count TransportStats.count_outbound_dropped n in
    (false, match m_router (ln_interfaces n) with
            | Some _ => count TransportStats.count_dropped (rcount RouterStats.count_mtu_dropped n)
            | None => n
            end)
  else
    match wrap interface_id packet n with
    | None => (false, count TransportStats.count_dropped (count TransportStats.count_outbound_dropped n))
    | Some wire =>
        match checked_add64 (ln_last_delivery_identity n) 1 with
        | None => (false, count TransportStats.count_outbound_dropped n)
        | Some next_identity =>
            match reserve_router_queue interface_id reason n with
            | (false, n) =>
                let n := count TransportStats.count_outbound_dropped n in
                (false, if m_ROUTER then count TransportStats.count_dropped n else n)
            | (true, n) =>
                let n := set_last_delivery_identity next_identity n in
                let (evicted, q) := RingQueue.push_drop_oldest
                  {| qo_frame := {| of_interface_id := interface_id; of_packet := wire;
                                    of_reason := reason; of_lifetime := lifetime |};
                     qo_delivery := m_delivery next_identity interface_id (ln_interfaces n) |}
                  (ln_outbound n) in
                let n := set_outbound q n in
                let n := if evicted then count TransportStats.count_outbound_dropped n else n in
                (true, count TransportStats.count_queued_outbound n)
            end
        end
    end.

Definition enqueue (interface_id : Z) (packet : PacketBuffer) (reason : OutboundReason) n
  : bool * LiteNode :=
  enqueue_with_lifetime interface_id packet reason (packet_lifetime packet reason n) n.

Definition enqueue_forwarded_with_lifetime (source target : Z) (packet : PacketBuffer)
    (reason : OutboundReason) (lifetime : OutboundLifetime) n : bool * LiteNode :=
  match m_router (ln_interfaces n) with
  | Some r =>
      match Router.interface target r with
      | None => (false, rcount RouterStats.count_interface_dropped n)
      | Some interface =>
          if (source =? target)%Z && negb (repeat_ (if_direction interface))
          then (false, rcount RouterStats.count_reflection_dropped n)
          else if negb (source =? target)%Z && negb (forward (if_direction interface))
          then (false, rcount RouterStats.count_interface_dropped n)
          else enqueue_with_lifetime target packet reason lifetime n
      end
  | None => enqueue_with_lifetime target packet reason lifetime n
  end.

Definition enqueue_forwarded (source target : Z) (packet : PacketBuffer) (reason : OutboundReason) n
  : bool * LiteNode :=
  enqueue_forwarded_with_lifetime source target packet reason (packet_lifetime packet reason n) n.

(** The loop over the interface slots, counting the copies queued. *)
Fixpoint broadcast_loop (slots : list nat) (source : Z) (packet : PacketBuffer) (reason : OutboundReason)
    (local_only : bool) (lifetime : OutboundLifetime) (queued : nat) n : nat * LiteNode :=
  match slots with
  | [] => (queued, n)
  | slot :: slots =>
      match (r ← m_router (ln_interfaces n); InterfaceRegistry.at_slot slot (r_registry r)) with
      | Some target =>
          if negb local_only || bool_decide (if_role target = LocalClient) then
            let (ok, n) := enqueue_forwarded_with_lifetime source (if_id target) packet reason lifetime n in
            broadcast_loop slots source packet reason local_only lifetime
              (queued + if ok : bool then 1 else 0) n
          else broadcast_loop slots source packet reason local_only lifetime queued n
      | None => broadcast_loop slots source packet reason local_only lifetime queued n
      end
  end.

Definition enqueue_packet_broadcast_with_lifetime (source : Z) (packet : PacketBuffer)
    (reason : OutboundReason) (local_only : bool) (lifetime : OutboundLifetime) n : nat * LiteNode :=
  if negb m_ROUTER then
    let (ok, n) := enqueue_with_lifetime source packet reason lifetime n in
    (if ok : bool then 1 else 0, n)
  else broadcast_loop (seq 0 REQUESTERS) source packet reason local_only lifetime 0 n.

Definition enqueue_packet_broadcast (source : Z) (packet : PacketBuffer) (reason : OutboundReason)
    (local_only : bool) n : nat * LiteNode :=
  let lifetime := packet_lifetime packet reason n in
  let lifetime :=
    if bool_decide (reason = OutboundReason.PathRequestForward)
    then with_ol_expires (Z.min (ol_expires_ms lifetime) (sat_add64 (ln_clock_ms n) REQUEST_GATE_MS)) lifetime
    else lifetime in
  enqueue_packet_broadcast_with_lifetime source packet reason local_only lifetime n.

Definition egress_error (id : Z) (packet_len : nat) n : TransportError :=
  match
    match m_router (ln_interfaces n) with
    | Some r =>
        match Router.interface id r with
        | None => Some TransportError.UnknownInterface
        | Some interface =>
            if negb (if_online interface) then Some TransportError.InterfaceOffline
            else if negb (outbound (if_direction interface))
            then Some TransportError.InterfaceNotOutbound else None
        end
    | None => None
    end
  with
  | Some e => e
  | None => if interface_clear_mtu id n <? packet_len
            then TransportError.MtuExceeded else TransportError.Backpressure
  end.

End node.
