(* ===== verification/Forward.v ===== *)
(** Forwarding by a transport node (src/src/transport.rs): data along learned
    paths, link requests, link traffic, and proofs back along the reverse route
    or the link. *)

From S2P Require Import Prelude Constants Primitives Buffer Wire Slots Queue HashTables GenTable.
From S2P Require Import PathTable FlowTables Discovery Config Ifac Identity Links Outbound Model.
From S2P Require Import Node.

Definition HASHLIST_LIFETIME_MS : Z := 120000.

Definition with_route (ht : HeaderType) (tt : TransportType) (f : PacketFlags) : PacketFlags :=
  {| header_type := ht; context_flag := context_flag f; transport_type := tt;
     destination_type := destination_type f; packet_type := packet_type f |}.

Section forward.
Context `{SHA : Sha256} `{HKDF : HkdfSha256} `{ED : Ed25519} `{HM : Model M D}.
Abbreviation LiteNode := (LiteNode M D).
Implicit Types n : LiteNode.

(** [PacketBuffer::from_slice(raw)?.copy_with_hops(hops)]. *)
Definition copy_for_forward (raw : list Z) (hops : Z) : outcome TransportError PacketBuffer :=
  let* packet := omap_err TransportError.Buffer (PacketBuffer.from_slice MTU raw) in
  Ok (PacketBuffer.copy_with_hops packet hops).

Definition rewrite_forwarded_transport_packet (raw : list Z) (original_header header : PacketHeader)
    (now_ms : Z) n : outcome TransportError (option (Z * PacketBuffer)) :=
  match PathTable.get_live (Wire.destination_hash header) now_ms (ln_paths n) with
  | None => Ok None
  | Some path =>
      match (pe_hops path ?= 1)%Z with
      | Gt =>
          match pe_next_hop path with
          | None => Ok None
          | Some next_hop =>
              let new_header :=
                {| flags := with_route Header2 Transport (flags header); hops := hops header;
                   transport_id := Some next_hop;
                   Wire.destination_hash := Wire.destination_hash header; context := context header |} in
              let* packet := omap_err TransportError.Wire (rewrite_with_header raw original_header new_header) in
              Ok (Some (pe_interface_id path, packet))
          end
      | Eq =>
          let new_header :=
            {| flags := with_route Header1 Broadcast (flags header); hops := hops header;
               transport_id := None;
               Wire.destination_hash := Wire.destination_hash header; context := context header |} in
          let* packet := omap_err TransportError.Wire (rewrite_with_header raw original_header new_header) in
          Ok (Some (pe_interface_id path, packet))
      | Lt =>
          let* packet := copy_for_forward raw (hops header) in
          Ok (Some (pe_interface_id path, packet))
      end
  end.

Definition handle_transport_forward (raw : list Z) (original_header header : PacketHeader)
    (meta : RxMeta) (now_ms : Z) : st LiteNode TransportError IngestAction := λ n,
  if negb (lc_transport_enabled (ln_config n)) then (Ok IngestAction.Dropped, n)
  else if negb (transport_id original_header =k Some (ln_transport_id n)) then (Ok IngestAction.Dropped, n)
  else
    match rewrite_forwarded_transport_packet raw original_header header now_ms n with
    | Err e => (Err e, n)
    | Panic => (Panic, n)
    | Ok None => (Ok IngestAction.Dropped, n)
    | Ok (Some (target_interface, forwarded)) =>
        let proof_hash := truncated_packet_hash raw (header_type (flags original_header)) in
        match ReverseTable.next_generation (ln_reverse n) with
        | None => (Ok IngestAction.Dropped, n)
        | Some generation =>
            let lifetime := packet_lifetime forwarded OutboundReason.TransportForward n in
            let lifetime := with_ol_state (OutboundState.Reverse generation) lifetime in
            match enqueue_forwarded_with_lifetime (rx_interface_id meta) target_interface forwarded
                    OutboundReason.TransportForward lifetime n with
            | (false, n) => (Ok IngestAction.Dropped, n)
            | (true, n) =>
                let n := set_paths (PathTable.touch (Wire.destination_hash header) now_ms (ln_paths n)) n in
                let n := set_reverse (ReverseTable.insert
                  {| re_proof_hash := proof_hash; re_receiving_interface := rx_interface_id meta;
                     re_outbound_interface := target_interface;
                     re_expires_ms := sat_add64 now_ms (REVERSE_TIMEOUT_SECS * 1000) |}
                  now_ms (ln_reverse n)) n in
                (Ok IngestAction.ForwardedTransport, n)
            end
        end
    end.

(** * Link requests *)

(** The checks on the request and the default-mode trailer removed from the
    forwarded copy. *)
Definition transit_request (raw : list Z) (original_header : PacketHeader) (forwarded : PacketBuffer)
  : outcome TransportError (LinkRequestView * PacketBuffer) :=
  let off := header_size original_header in
  let* body := slice_get raw off (length raw) in
  let* request := omap_err (λ _, TransportError.InvalidLinkSignalling) (parse_request body) in
  let* _ := omap_err (λ _, TransportError.InvalidLinkSignalling)
              (SignallingData.effective_mtu (lr_signalling request)) in
  if (sd_mode (lr_signalling request) =? DEFAULT_MODE)%Z then
    if length raw - off =? LINK_REQUEST_LEN then
      match PacketBuffer.set_len (pb_len forwarded - LINK_MTU_SIZE) forwarded with
      | (Ok _, forwarded) => Ok (request, forwarded)
      | (Err e, _) => Err (TransportError.Buffer e)
      | (Panic, _) => Panic
      end
    else Ok (request, forwarded)
  else if negb (sd_mtu (lr_signalling request) =? 500)%Z
  then Err TransportError.UnsupportedTransitModeTransform
  else Ok (request, forwarded).

(** The entry inserted for a forwarded request. *)
Definition transit_entry (raw : list Z) (original_header header : PacketHeader) (request : LinkRequestView)
    (receiving target : Z) (now_ms : Z) (path : PathEntry) n : LinkEntry :=
  {| le_link_id := link_id_from_raw raw (header_type (flags original_header));
     le_destination_ed25519 := Some (drop 32 (pe_public_key path));
     le_receiving_interface := receiving;
     le_outbound_interface := target;
     le_remaining_hops := pe_hops path;
     le_taken_hops := hops header;
     le_requested_mode := sd_mode (lr_signalling request);
     le_accepted_mtu_ceiling := 500;
     le_validated := false;
     le_expires_ms := link_deadline now_ms (pe_hops path) (interface_bitrate target n) |}.

(** From the capacity checks on: what happens once the request has a route and
    a free slot. *)
Definition forward_link_request (raw : list Z) (original_header header : PacketHeader) (receiving : Z)
    (target_interface : Z) (forwarded : PacketBuffer) (now_ms : Z)
  : st LiteNode TransportError IngestAction := λ n,
  match
    (let* _ := require_link_capacity receiving n in
     let* _ := require_link_capacity target_interface n in
     transit_request raw original_header forwarded)
  with
  | Err e => (Err e, n)
  | Panic => (Panic, n)
  | Ok (request, forwarded) =>
      match PathTable.get_live (Wire.destination_hash header) now_ms (ln_paths n),
            LinkTable.next_generation (ln_links n) with
      | Some path, Some generation =>
          let entry := transit_entry raw original_header header request receiving target_interface
                         now_ms path n in
          let lifetime := packet_lifetime forwarded OutboundReason.TransportForward n in
          let lifetime := with_ol_state (OutboundState.Link generation) lifetime in
          match enqueue_forwarded_with_lifetime receiving target_interface forwarded
                  OutboundReason.TransportForward lifetime n with
          | (false, n) => (Ok IngestAction.Dropped, n)
          | (true, n) =>
              let n := set_paths (PathTable.touch (Wire.destination_hash header) now_ms (ln_paths n)) n in
              let n := set_links (LinkTable.insert entry now_ms (ln_links n)) n in
              (Ok IngestAction.ForwardedTransport, n)
          end
      | _, _ => (Ok IngestAction.Dropped, n)
      end
  end.

Definition handle_link_request (raw : list Z) (original_header header : PacketHeader)
    (meta : RxMeta) (now_ms : Z) : st LiteNode TransportError IngestAction := λ n,
  if negb (lc_transport_enabled (ln_config n)) then (Ok IngestAction.Dropped, n)
  else if negb (transport_id original_header =k Some (ln_transport_id n)) then (Ok IngestAction.Dropped, n)
  else
    let link_id := link_id_from_raw raw (header_type (flags original_header)) in
    if LinkTable.contains_live link_id now_ms (ln_links n) then (Ok IngestAction.Dropped, n)
    else
      let (free, links) := LinkTable.has_free_slot now_ms (ln_links n) in
      let n := set_links links n in
      if negb free then (Ok IngestAction.Dropped, n)
      else
        match rewrite_forwarded_transport_packet raw original_header header now_ms n with
        | Err e => (Err e, n)
        | Panic => (Panic, n)
        | Ok None => (Ok IngestAction.Dropped, n)
        | Ok (Some (target_interface, forwarded)) =>
            forward_link_request raw original_header header (rx_interface_id meta) target_interface
              forwarded now_ms n
        end.

(** * Link proofs, link traffic and reverse proofs *)

Definition is_err {E A} (c : outcome E A) : bool :=
  match c with Ok _ => false | _ => true end.

Definition validate_transit_lrproof (raw : list Z) (header : PacketHeader) (link : LinkEntry) n : bool :=
  let payload_offset := header_size header in
  if length raw <? payload_offset then false
  else
    let proof := drop payload_offset raw in
    if negb (length proof =? 96) && negb (length proof =? 99) then false
    else
      match parse_proof proof with
      | Ok parsed =>
          if negb (sd_mode (lp_signalling parsed) =? le_requested_mode link)%Z
             || (match SignallingData.effective_mtu (lp_signalling parsed) with
                 | Ok mtu => (le_accepted_mtu_ceiling link <? mtu)%Z
                 | _ => true
                 end)
             || is_err (require_link_capacity (le_receiving_interface link) n)
             || is_err (require_link_capacity (le_outbound_interface link) n)
          then false
          else
            match le_destination_ed25519 link with
            | None => false
            | Some destination_ed25519 =>
                if negb (ed_key_ok destination_ed25519) then false
                else
                  let signature := take 64 proof in
                  let signed := write_fields 0
                    ([Wire.destination_hash header; slice proof 64 96; destination_ed25519]
                     ++ if length proof =? 99 then [slice proof 96 99] else []) (zeros (16 + 32 + 32 + 3)) in
                  let pos := 16 + 32 + 32 + if length proof =? 99 then 3 else 0 in
                  ed_verify destination_ed25519 (take pos signed) signature
            end
      | _ => false
      end.

(** Where a packet of a link goes next: [None] when the link does not route it,
    [Some None] when it is consumed without being forwarded. *)
Definition link_target (link : LinkEntry) (header : PacketHeader) (arrived : Z) : option (option Z) :=
  if (le_outbound_interface link =? le_receiving_interface link)%Z then
    if (hops header =? le_remaining_hops link)%Z || (hops header =? le_taken_hops link)%Z
    then Some (Some (le_outbound_interface link)) else Some None
  else if (arrived =? le_receiving_interface link)%Z then
    if (hops header =? le_taken_hops link)%Z then Some (Some (le_outbound_interface link)) else Some None
  else if (arrived =? le_outbound_interface link)%Z then
    if (hops header =? le_remaining_hops link)%Z then Some (Some (le_receiving_interface link)) else Some None
  else None.

(** Copying and queueing a link packet; the hash and the renewal follow only a
    successful admission. *)
Definition forward_link_packet (raw : list Z) (header : PacketHeader) (arrived target_interface : Z)
    (link : LinkEntry) (now_ms : Z) (reason : OutboundReason) : st LiteNode TransportError bool := λ n,
  let hash := packet_hash raw (header_type (flags header)) in
  let tracked := negb (skip_hashlist (context header)) in
  let (dup, hashes) := if tracked then PacketHashTable.contains hash now_ms (ln_packet_hashes n)
                       else (false, ln_packet_hashes n) in
  let n := set_packet_hashes hashes n in
  if dup then (Ok true, count TransportStats.count_duplicates n)
  else
    match copy_for_forward raw (hops header) with
    | Err e => (Err e, n)
    | Panic => (Panic, n)
    | Ok packet =>
        match enqueue_forwarded arrived target_interface packet reason n with
        | (false, n) => (Ok true, n)
        | (true, n) =>
            let n := if tracked
                     then set_packet_hashes (snd (PacketHashTable.insert hash
                            (sat_add64 now_ms HASHLIST_LIFETIME_MS) now_ms (ln_packet_hashes n))) n
                     else n in
            let n := if le_validated link
                     then set_links (LinkTable.touch (le_link_id link)
                            (sat_add64 now_ms (LINK_TIMEOUT_SECS * 1000)) now_ms (ln_links n)) n
                     else n in
            (Ok true, n)
        end
    end.

Definition route_link_packet (raw : list Z) (header : PacketHeader) (meta : RxMeta) (now_ms : Z)
    (reason : OutboundReason) : st LiteNode TransportError bool := λ n,
  if negb (lc_transport_enabled (ln_config n))
     || negb (bool_decide (destination_type (flags header) = Link))
     || bool_decide (packet_type (flags header) = LinkRequest)
     || bool_decide (context header = Lrproof)
  then (Ok false, n)
  else
    match LinkTable.get (Wire.destination_hash header) now_ms (ln_links n) with
    | None => (Ok false, n)
    | Some link =>
        if (le_accepted_mtu_ceiling link <? Z.of_nat (length raw))%Z
           || is_err (require_link_capacity (le_receiving_interface link) n)
           || is_err (require_link_capacity (le_outbound_interface link) n)
        then (Ok true, n)
        else
          match link_target link header (rx_interface_id meta) with
          | None => (Ok false, n)
          | Some None => (Ok true, n)
          | Some (Some target_interface) =>
              forward_link_packet raw header (rx_interface_id meta) target_interface link now_ms reason n
          end
    end.

(** An establishment proof for a link in the table, arriving where the request
    left and with the hop count of the path. *)
Definition transit_lrproof (raw : list Z) (header : PacketHeader) (link : LinkEntry) (arrived : Z)
    (now_ms : Z) : st LiteNode TransportError IngestAction := λ n,
  if negb (validate_transit_lrproof raw header link n) then (Ok IngestAction.Dropped, n)
  else
    let hash := packet_hash raw (header_type (flags header)) in
    let (dup, hashes) := PacketHashTable.contains hash now_ms (ln_packet_hashes n) in
    let n := set_packet_hashes hashes n in
    if dup then (Ok IngestAction.Duplicate, count TransportStats.count_duplicates n)
    else
      match copy_for_forward raw (hops header) with
      | Err e => (Err e, n)
      | Panic => (Panic, n)
      | Ok packet =>
          match enqueue_forwarded arrived (le_receiving_interface link) packet
                  OutboundReason.ProofReturn n with
          | (false, n) => (Ok IngestAction.Dropped, n)
          | (true, n) =>
              let n := set_packet_hashes (snd (PacketHashTable.insert hash
                         (sat_add64 now_ms HASHLIST_LIFETIME_MS) now_ms (ln_packet_hashes n))) n in
              let n := set_links (LinkTable.mark_validated (Wire.destination_hash header)
                         (sat_add64 now_ms (LINK_TIMEOUT_SECS * 1000)) now_ms (ln_links n)) n in
              (Ok IngestAction.ForwardedProof, n)
          end
      end.

(** A proof for a packet this node forwarded, from the interface it left by. *)
Definition reverse_proof (raw : list Z) (header : PacketHeader) (arrived : Z) (now_ms : Z)
  : st LiteNode TransportError IngestAction := λ n,
  if match ReverseTable.get (Wire.destination_hash header) now_ms (ln_reverse n) with
     | Some reverse => (re_outbound_interface reverse =? arrived)%Z
     | None => false
     end
  then
    let (taken, t) :=
      ReverseTable.take_with_generation (Wire.destination_hash header) now_ms (ln_reverse n) in
    let n := set_reverse t n in
    match taken with
    | None => (Ok IngestAction.Dropped, n)
    | Some (reverse, generation) =>
        match copy_for_forward raw (hops header) with
        | Err e => (Err e, n)
        | Panic => (Panic, n)
        | Ok packet =>
            let lifetime :=
              with_ol_expires (Z.min (re_expires_ms reverse) (sat_add64 now_ms OUTBOUND_MAX_AGE_MS))
                (packet_lifetime packet OutboundReason.ProofReturn n) in
            match enqueue_forwarded_with_lifetime arrived (re_receiving_interface reverse) packet
                    OutboundReason.ProofReturn lifetime n with
            | (false, n) =>
                (Ok IngestAction.Dropped,
                 set_reverse (ReverseTable.restore_consumed reverse generation (ln_reverse n)) n)
            | (true, n) => (Ok IngestAction.ForwardedProof, n)
            end
        end
    end
  else (Ok IngestAction.Dropped, n).

Definition handle_proof (raw : list Z) (header : PacketHeader) (meta : RxMeta) (now_ms : Z)
  : st LiteNode TransportError IngestAction := λ n,
  if bool_decide (context header = Lrproof) then
    match LinkTable.get (Wire.destination_hash header) now_ms (ln_links n) with
    | Some link =>
        if (le_outbound_interface link =? rx_interface_id meta)%Z
           && (le_remaining_hops link =? hops header)%Z
        then transit_lrproof raw header link (rx_interface_id meta) now_ms n
        else (Ok IngestAction.Dropped, count TransportStats.count_dropped n)
    | None => (Ok IngestAction.Dropped, count TransportStats.count_dropped n)
    end
  else
    match route_link_packet raw header meta now_ms OutboundReason.ProofReturn n with
    | (Err e, n) => (Err e, n)
    | (Panic, n) => (Panic, n)
    | (Ok true, n) => (Ok IngestAction.ForwardedProof, n)
    | (Ok false, n) => reverse_proof raw header (rx_interface_id meta) now_ms n
    end.

End forward.
