(* ===== verification/Announcing.v ===== *)
(** Announces and path discovery in a transport node (src/src/transport.rs and
    the announce side of src/src/transport/router.rs): learning paths from
    validated announces, answering and forwarding path requests, completing
    recursive discoveries, and rebroadcasting on the host's clock. *)

From S2P Require Import Prelude Constants Primitives Buffer Wire Slots Queue HashTables GenTable.
From S2P Require Import PathTable Lora AnnounceFlow AnnounceTables FlowTables Discovery Config.
From S2P Require Import Ifac Identity KnownDestinations Links Outbound Model Node Forward.

Definition DEFAULT_ANNOUNCE_JITTER_MS : Z := 500.
Definition ANNOUNCE_SCRATCH_MAX : nat := SIGNED_DATA_MAX.

(** "rnstransport.path.request" as bytes. *)
Definition PATH_REQUEST_NAME : list Z :=
  [114; 110; 115; 116; 114; 97; 110; 115; 112; 111; 114; 116; 46; 112; 97; 116; 104; 46;
   114; 101; 113; 117; 101; 115; 116]%Z.

Definition announce_jitter_ms (packet_hash transport_id : list Z) (round : Z) : Z :=
  let i := Z.to_nat (Z.min round PATHFINDER_R) * 2 in
  let raw := of_be [Z.lxor (packet_hash !!! i) (transport_id !!! i);
                    Z.lxor (packet_hash !!! (i + 1)) (transport_id !!! (i + 1))] in
  (raw mod DEFAULT_ANNOUNCE_JITTER_MS)%Z.

Definition mode_discovers_unknown_paths (mode : InterfaceMode) : bool :=
  match mode with
  | AccessPoint | Gateway | Roaming | Internal => true
  | _ => false
  end.

Definition announce_path_expiry_secs (mode : InterfaceMode) : Z :=
  match mode with
  | AccessPoint => AP_PATH_TIME_SECS
  | Roaming => ROAMING_PATH_TIME_SECS
  | Full | PointToPoint | Internal | Gateway | Boundary => PATHFINDER_E_SECS
  end.

Definition announce_egress_allowed (source target : InterfaceConfig) : bool :=
  if negb (if_online target) || negb (outbound (if_direction target)) then false
  else if (if_id source =? if_id target)%Z && negb (repeat_ (if_direction target)) then false
  else if negb (if_id source =? if_id target)%Z && negb (forward (if_direction target)) then false
  else if bool_decide (if_role target = LocalClient) then true
  else
    match if_mode target with
    | AccessPoint => false
    | Internal => negb (bool_decide (if_mode source = Boundary))
    | Roaming => negb (bool_decide (if_mode source = Roaming) || bool_decide (if_mode source = Boundary))
    | Boundary => negb (bool_decide (if_mode source = Roaming))
    | Full | PointToPoint | Gateway => true
    end.

(** [count_ones] of a byte. *)
Definition count_ones (z : Z) : Z :=
  Z.of_nat (length (List.filter (λ s, Z.testbit z (Z.of_nat s)) (seq 0 8))).

(** Updates of a scheduled announce. *)
Definition sa_rebuild (due expires retries local targets : Z) (e : ScheduledAnnounce) : ScheduledAnnounce :=
  {| sa_destination_hash := sa_destination_hash e; sa_packet := sa_packet e;
     sa_interface_id := sa_interface_id e; sa_due_ms := due; sa_expires_ms := expires;
     sa_block_rebroadcast := sa_block_rebroadcast e; sa_hops := sa_hops e; sa_retries := retries;
     sa_local_rebroadcasts := local; sa_pending_targets := targets |}.
Definition with_due (z : Z) e := sa_rebuild z (sa_expires_ms e) (sa_retries e)
  (sa_local_rebroadcasts e) (sa_pending_targets e) e.
Definition with_expires (z : Z) e := sa_rebuild (sa_due_ms e) z (sa_retries e)
  (sa_local_rebroadcasts e) (sa_pending_targets e) e.
Definition with_retries (z : Z) e := sa_rebuild (sa_due_ms e) (sa_expires_ms e) z
  (sa_local_rebroadcasts e) (sa_pending_targets e) e.
Definition with_local_rebroadcasts (z : Z) e := sa_rebuild (sa_due_ms e) (sa_expires_ms e)
  (sa_retries e) z (sa_pending_targets e) e.

Section announcing.
Context `{SHA : Sha256} `{HKDF : HkdfSha256} `{ED : Ed25519} `{HM : Model M D}.
Abbreviation LiteNode := (LiteNode M D).
Implicit Types n : LiteNode.

Definition path_request_destination : list Z := destination_hash_from_name PATH_REQUEST_NAME None.

(** * Building packets *)

Definition transport_announce_from_raw (cached_raw destination_hash : list Z) (hops : Z)
    (context : PacketContext) n : outcome TransportError PacketBuffer :=
  let* cached := omap_err TransportError.Wire (parse_view cached_raw) in
  let header :=
    {| flags := {| header_type := Header2; context_flag := context_flag (flags (pv_header cached));
                   transport_type := Transport; destination_type := Single; packet_type := Announce |};
       Wire.hops := hops; transport_id := Some (ln_transport_id n);
       Wire.destination_hash := destination_hash; Wire.context := context |} in
  omap_err TransportError.Wire (build_packet header (pv_payload cached)).

Definition path_response_from_cached_announce (cached_raw destination_hash : list Z) (hops : Z) n
  : outcome TransportError PacketBuffer :=
  transport_announce_from_raw cached_raw destination_hash hops PathResponse n.

Definition build_path_request (destination_hash tag : list Z) n : outcome TransportError PacketBuffer :=
  let tag_buf := splice 0 (take (Nat.min (length tag) 16) tag) (zeros 16) in
  match
    (PacketBuffer.extend_from_slice destination_hash ;;;
     (if lc_transport_enabled (ln_config n)
      then PacketBuffer.extend_from_slice (ln_transport_id n) else st_ret tt) ;;;
     PacketBuffer.extend_from_slice tag_buf) (PacketBuffer.new MTU)
  with
  | (Err e, _) => Err (TransportError.Buffer e)
  | (Panic, _) => Panic
  | (Ok _, payload) =>
      let header :=
        {| flags := {| header_type := Header1; context_flag := false; transport_type := Broadcast;
                       destination_type := Plain; packet_type := Data |};
           hops := 0; transport_id := None; Wire.destination_hash := path_request_destination;
           context := CtxNone |} in
      omap_err TransportError.Wire (build_packet header (PacketBuffer.as_slice payload))
  end.

(** * Path requests of this node *)

Definition tag_key (destination tag : list Z) : list Z :=
  splice 16 tag (splice 0 destination (zeros 32)).

Definition request_path (destination_hash tag : list Z) (interface_id now_ms : Z)
  : st LiteNode TransportError unit := λ n,
  let n := set_clock_ms now_ms n in
  let n := expire_outbound now_ms n in
  match build_path_request destination_hash tag n with
  | Err e => (Err e, n)
  | Panic => (Panic, n)
  | Ok request =>
      match enqueue interface_id request OutboundReason.PathRequest n with
      | (false, n) => (Err (egress_error interface_id (pb_len request) n), n)
      | (true, n) =>
          let (_, tags) := RequestTagTable.insert_if_new (tag_key destination_hash tag)
            (sat_add64 now_ms (PATH_REQUEST_DUPLICATE_GATE_SECS * 1000)) now_ms (ln_request_tags n) in
          (Ok tt, set_request_tags tags n)
      end
  end.

(** * Completing a discovery *)

Fixpoint answer_requesters (slots : list nat) (requesters : Z) (response : PacketBuffer)
    (meta : RxMeta) n : LiteNode :=
  match slots with
  | [] => n
  | slot :: slots =>
      let target := m_facts slot (ln_interfaces n) in
      let n :=
        if negb (Z.land requesters (Z.shiftl 1 (Z.of_nat slot)) =? 0)%Z
           && InterfaceFacts.outbound target
           && (negb (f_id target =? rx_interface_id meta)%Z
               || ((Z.land (f_flags target) 8 =? 0)%Z && negb (bool_decide (f_mode target = Roaming))))
        then snd (enqueue (f_id target) response OutboundReason.PathResponse n)
        else n in
      answer_requesters slots requesters response meta n
  end.

Definition finish_discovery (raw : list Z) (header : PacketHeader) (meta : RxMeta) (now_ms : Z)
  : st LiteNode TransportError unit := λ n,
  if negb (lc_transport_enabled (ln_config n)) then (Ok tt, n)
  else
    let (taken, t) :=
      Discoveries.take_discovery (Wire.destination_hash header) now_ms (ln_discoveries n) in
    let n := set_discoveries t n in
    match taken with
    | None => (Ok tt, n)
    | Some owner =>
        match path_response_from_cached_announce raw (Wire.destination_hash header) (hops header) n with
        | Err _ => (Ok tt, count (TransportStats.add_outbound_dropped (count_ones (d_requesters owner))) n)
        | Panic => (Panic, n)
        | Ok response =>
            (Ok tt, answer_requesters (seq 0 REQUESTERS) (d_requesters owner) response meta n)
        end
    end.

(** * Announces *)

(** What a heard copy of an announce does to our queued rebroadcast of it, and
    whether it cancels the retry. *)
Definition heard_copy (wire_hops now_ms : Z) (e : ScheduledAnnounce) : ScheduledAnnounce * bool :=
  if (0 <? sa_retries e)%Z then
    if (wire_hops =? sa_hops e)%Z then
      let e := with_local_rebroadcasts (sat_add8 (sa_local_rebroadcasts e) 1) e in
      (e, (LOCAL_REBROADCASTS_MAX <=? sa_local_rebroadcasts e)%Z)
    else if (wire_hops =? sat_add8 (sa_hops e) 1)%Z && (now_ms <? sa_due_ms e)%Z then (e, true)
    else (e, false)
  else (e, false).

Definition note_heard_copy (destination_hash : list Z) (wire_hops now_ms : Z) n : LiteNode :=
  if lc_transport_enabled (ln_config n) then
    match find (λ e, sa_destination_hash e =k destination_hash) (flatten (ln_announce_schedule n)) with
    | None => n
    | Some entry =>
        let cancel := snd (heard_copy wire_hops now_ms entry) in
        let t := AnnounceSchedule.get_mut destination_hash (λ e, fst (heard_copy wire_hops now_ms e))
                   (ln_announce_schedule n) in
        set_announce_schedule (if cancel then AnnounceSchedule.remove destination_hash t else t) n
    end
  else n.

(** The route an announce teaches. *)
Definition learned_entry (view : PacketView) (announce : AnnounceView) (header : PacketHeader)
    (meta : RxMeta) (raw : list Z) (bulk : bool) (now_ms : Z) n : PathEntry :=
  let path_expiry_secs :=
    announce_path_expiry_secs (default (lc_mode (ln_config n)) (rx_interface_mode meta)) in
  {| pe_destination_hash := Wire.destination_hash header;
     pe_next_hop := transport_id (pv_header view);
     pe_hops := hops header;
     pe_interface_id := rx_interface_id meta;
     pe_expires_ms := sat_add64 now_ms (path_expiry_secs * 1000);
     pe_last_seen_ms := now_ms;
     pe_packet_hash := packet_hash raw (header_type (flags (pv_header view)));
     pe_random_hash := av_random_hash announce;
     pe_public_key := av_public_key announce;
     pe_bulk := bulk |}.

Definition is_bulk (destination_hash : list Z) (meta : RxMeta) (now_ms : Z) n : bool :=
  match router_interface (rx_interface_id meta) n with
  | Some i => if_bulk_paths i
  | None => false
  end
  && negb (existsb (λ entry, Discoveries.entry_live now_ms entry
                             && (d_destination entry =k destination_hash))
             (ds_entries (ln_discoveries n))).

(** The rebroadcast queued for a learned announce. *)
Definition scheduled_entry (destination_hash : list Z) (packet : PacketBuffer) (packet_hash : list Z)
    (hops : Z) (meta : RxMeta) (now_ms : Z) n : ScheduledAnnounce :=
  {| sa_destination_hash := destination_hash; sa_packet := packet;
     sa_interface_id := rx_interface_id meta;
     sa_due_ms := sat_add64 now_ms (announce_jitter_ms packet_hash (ln_transport_id n) 0);
     sa_expires_ms := sat_add64 now_ms (QUEUED_ANNOUNCE_LIFE_SECS * 1000);
     sa_block_rebroadcast := false; sa_hops := hops; sa_retries := 0;
     sa_local_rebroadcasts := 0; sa_pending_targets := 0 |}.

(** After the path was learned: the cache, the discovery and the rebroadcast. *)
Definition publish_learned (raw : list Z) (header : PacketHeader) (entry : PathEntry) (meta : RxMeta)
    (now_ms : Z) : st LiteNode TransportError IngestAction := λ n,
  let n := count TransportStats.count_learned_announces n in
  let n := set_announce_cache (AnnounceCache.retain_paths (ln_paths n) now_ms (ln_announce_cache n)) n in
  match omap_err TransportError.Buffer (PacketBuffer.from_slice MTU raw) with
  | Err e => (Err e, n)
  | Panic => (Panic, n)
  | Ok cached =>
      let n := set_announce_cache (AnnounceCache.insert
        {| ca_destination_hash := Wire.destination_hash header; ca_raw := cached;
           ca_hops := hops header; ca_expires_ms := pe_expires_ms entry; ca_bulk := pe_bulk entry |}
        now_ms (ln_announce_cache n)) n in
      match finish_discovery raw header meta now_ms n with
      | (Err e, n) => (Err e, n)
      | (Panic, n) => (Panic, n)
      | (Ok _, n) =>
          if lc_transport_enabled (ln_config n)
             && negb (bool_decide (context header = PathResponse)) then
            match transport_announce_from_raw raw (Wire.destination_hash header) (hops header) CtxNone n with
            | Ok packet =>
                let e := scheduled_entry (Wire.destination_hash header) packet (pe_packet_hash entry)
                           (hops header) meta now_ms n in
                (Ok IngestAction.ScheduledAnnounce,
                 set_announce_schedule (AnnounceSchedule.insert e now_ms (ln_announce_schedule n)) n)
            | Err _ => (Ok IngestAction.LearnedAnnounce, n)
            | Panic => (Panic, n)
            end
          else (Ok IngestAction.LearnedAnnounce, n)
      end
  end.

(** From the hop check on: the announce is validated. *)
Definition learn_announce (raw : list Z) (view : PacketView) (announce : AnnounceView)
    (header : PacketHeader) (meta : RxMeta) (now_ms : Z) : st LiteNode TransportError IngestAction := λ n,
  if (PATHFINDER_M <=? hops header)%Z
  then (Ok IngestAction.Dropped, count TransportStats.count_dropped n)
  else
    let n := note_heard_copy (Wire.destination_hash header) (hops (pv_header view)) now_ms n in
    let bulk := is_bulk (Wire.destination_hash header) meta now_ms n in
    let new_destination :=
      match PathTable.get_live (Wire.destination_hash header) now_ms (ln_paths n) with
      | Some _ => false | None => true end in
    let entry := learned_entry view announce header meta raw bulk now_ms n in
    let (learned, paths) := PathTable.insert_or_update entry now_ms (ln_paths n) in
    let n := set_paths paths n in
    let n := if bulk && new_destination
             then rcount (if learned then RouterStats.count_bulk_paths_learned
                          else RouterStats.count_bulk_paths_refused) n
             else n in
    if learned then publish_learned raw header entry meta now_ms n
    else (Ok IngestAction.AnnounceIgnored, n).

(** The key an announced destination is known under. *)
Definition known_key (destination_hash : list Z) n : option (list Z) :=
  match KnownDestinations.peek destination_hash (ln_known_destinations n) with
  | Some k => Some k
  | None => PathTable.known_public_key destination_hash (ln_paths n)
  end.

Definition handle_announce (raw : list Z) (view : PacketView) (header : PacketHeader) (meta : RxMeta)
    (now_ms : Z) : st LiteNode TransportError IngestAction := λ n,
  if is_own_destination (Wire.destination_hash header) n
  then (Ok IngestAction.Dropped, count TransportStats.count_dropped n)
  else
    let (admitted, admission) := AnnounceAdmission.admit_announce (lc_announce_admission (ln_config n))
      (bool_decide (context header = PathResponse)) now_ms (ln_announce_admission n) in
    let n := set_announce_admission admission n in
    if negb admitted
    then (Ok IngestAction.Dropped,
          count TransportStats.count_dropped (count TransportStats.count_announces_rate_dropped n))
    else
      match
        (let* announce := parse (pv_payload view) (context_flag (flags (pv_header view)))
                            (lc_max_announce_app_data (ln_config n)) in
         let* _ := fst (validate announce (Wire.destination_hash header)
                          (known_key (Wire.destination_hash header) n) (zeros ANNOUNCE_SCRATCH_MAX)) in
         Ok announce)
      with
      | Err e => (Err (TransportError.Announce e), n)
      | Panic => (Panic, n)
      | Ok announce =>
          if negb (KnownDestinations.capacity (ln_known_destinations n) =? 0)
             && (av_name_hash announce =k name_hash LXMF_DELIVERY_NAME) then
            let (r, known) := KnownDestinations.learn (Wire.destination_hash header)
              (av_public_key announce) now_ms (ln_known_destinations n) in
            let n := set_known_destinations known n in
            match r with
            | Err e => (Err (TransportError.KnownDestination e), n)
            | Panic => (Panic, n)
            | Ok _ => learn_announce raw view announce header meta now_ms n
            end
          else learn_announce raw view announce header meta now_ms n
      end.

(** * Path requests of others *)

(** The live path is answered from the cache; [None] falls through to discovery. *)
Definition answer_from_cache (requested : list Z) (requestor : option (list Z)) (mode : InterfaceMode)
    (interface_id now_ms : Z) n : option (outcome TransportError IngestAction * LiteNode) :=
  match PathTable.get_live requested now_ms (ln_paths n) with
  | None => None
  | Some path =>
      if match requestor with Some r => pe_next_hop path =k Some r | None => false end
      then Some (Ok IngestAction.Dropped, n)
      else if bool_decide (mode = Roaming) && (pe_interface_id path =? interface_id)%Z
      then Some (Ok IngestAction.Dropped, n)
      else if lc_transport_enabled (ln_config n) then
        match AnnounceCache.get requested now_ms (ln_announce_cache n) with
        | None => None
        | Some cached =>
            match path_response_from_cached_announce (PacketBuffer.as_slice (ca_raw cached)) requested
                    (ca_hops cached) n with
            | Err e => Some (Err e, n)
            | Panic => Some (Panic, n)
            | Ok response =>
                let (ok, n) := enqueue interface_id response OutboundReason.PathResponse n in
                Some (Ok (if ok : bool then IngestAction.AnsweredPathRequest else IngestAction.Dropped), n)
            end
        end
      else None
  end.

(** Forwarding the request without a discovery; [local_only] on the last resort. *)
Definition relay_request (interface_id : Z) (requested tag : list Z) (local_only : bool)
  : st LiteNode TransportError IngestAction := λ n,
  match build_path_request requested tag n with
  | Err e => (Err e, n)
  | Panic => (Panic, n)
  | Ok request =>
      let (queued, n) := enqueue_packet_broadcast interface_id request OutboundReason.PathRequestForward
                           local_only n in
      (Ok (if 0 <? queued then IngestAction.ForwardedPathRequest else IngestAction.Dropped), n)
  end.

Definition discover (interface_id : Z) (requested tag : list Z) (now_ms : Z)
  : st LiteNode TransportError IngestAction := λ n,
  match interface_slot interface_id n with
  | None => (Ok IngestAction.Dropped, n)
  | Some slot =>
      if negb (InterfaceFacts.outbound (m_facts slot (ln_interfaces n))) then (Ok IngestAction.Dropped, n)
      else
        let timeout := discovery_timeout (slowest_outbound_bitrate interface_id n) in
        let (r, t) := Discoveries.begin requested slot now_ms timeout (ln_discoveries n) in
        let n := set_discoveries t n in
        match r with
        | Joined => (Ok IngestAction.Accepted, n)
        | Refused => (Ok IngestAction.Dropped, count TransportStats.count_dropped n)
        | New id =>
            match build_path_request requested tag n with
            | Err e => (Err e, n)
            | Panic => (Panic, n)
            | Ok request =>
                let lifetime :=
                  {| ol_enqueued_ms := now_ms;
                     ol_expires_ms := Z.min (sat_add64 now_ms REQUEST_GATE_MS)
                                        (default now_ms (Discoveries.deadline id (ln_discoveries n)));
                     ol_path := 0; ol_state := OutboundState.Discovery id |} in
                let (queued, n) := enqueue_packet_broadcast_with_lifetime interface_id request
                  OutboundReason.PathRequestForward false lifetime n in
                (Ok (if queued =? 0 then IngestAction.Dropped else IngestAction.ForwardedPathRequest), n)
            end
        end
  end.

Definition handle_path_request (payload : list Z) (meta : RxMeta) (now_ms : Z)
  : st LiteNode TransportError IngestAction := λ n,
  let interface_id := rx_interface_id meta in
  let mode := default (lc_mode (ln_config n)) (rx_interface_mode meta) in
  if length payload <=? 16 then (Ok IngestAction.Dropped, count TransportStats.count_dropped n)
  else
    let requested := take 16 payload in
    let requestor_transport_id := if 32 <? length payload then Some (slice payload 16 32) else None in
    let tag := if 32 <? length payload then slice payload 32 (Nat.min (length payload) 48)
               else slice payload 16 (Nat.min (length payload) 32) in
    if length tag =? 0 then (Ok IngestAction.Dropped, count TransportStats.count_dropped n)
    else
      let (is_new, tags) := RequestTagTable.insert_if_new (tag_key requested tag)
        (sat_add64 now_ms (PATH_REQUEST_DUPLICATE_GATE_SECS * 1000)) now_ms (ln_request_tags n) in
      let n := set_request_tags tags n in
      if negb is_new then (Ok IngestAction.Duplicate, count TransportStats.count_duplicates n)
      else if is_own_destination requested n then (Ok IngestAction.LocalEndpoint, n)
      else
        match answer_from_cache requested requestor_transport_id mode interface_id now_ms n with
        | Some r => r
        | None =>
            if m_ROUTER && is_local_client_interface interface_id n
            then relay_request interface_id requested tag false n
            else if lc_transport_enabled (ln_config n) && mode_discovers_unknown_paths mode
            then discover interface_id requested tag now_ms n
            else if m_ROUTER then relay_request interface_id requested tag true n
            else (Ok IngestAction.Dropped, n)
        end.

(** * Rebroadcasting *)

Definition announce_targets (source : Z) n : Z :=
  match m_router (ln_interfaces n) with
  | None => 0
  | Some r =>
      match Router.interface source r with
      | None => 0
      | Some source =>
          fold_left (λ targets slot, Z.lor targets (Z.shiftl 1 (Z.of_nat slot)))
            (List.filter (λ slot, match InterfaceRegistry.at_slot slot (r_registry r) with
                                  | Some target => announce_egress_allowed source target
                                  | None => false
                                  end) (seq 0 REQUESTERS)) 0%Z
      end
  end.

(** The packet of a scheduled announce has the hash of the live path. *)
Definition matches_path (packet : PacketBuffer) (path_hash : list Z) : bool :=
  match parse_view (PacketBuffer.as_slice packet) with
  | Ok view => packet_hash (PacketBuffer.as_slice packet) (header_type (flags (pv_header view))) =k path_hash
  | _ => false
  end.

Definition announce_current (announce : ScheduledAnnounce) (now_ms : Z) n : bool :=
  match PathTable.get_live (sa_destination_hash announce) now_ms (ln_paths n) with
  | Some path => matches_path (sa_packet announce) (pe_packet_hash path)
  | None => false
  end.

(** The time a released announce keeps its interface's gate shut. *)
Definition release_spacing (wire_len : nat) (target : InterfaceConfig) (modem : option LoraModemConfig)
  : outcome Empty_set Z :=
  match if_role target, modem with
  | LoRa, Some modem => lora_spacing_ms wire_len modem (if_announce_cap_permille target)
  | _, _ => Ok (default 0%Z (bitrate_spacing_ms wire_len (if_bitrate_bps target)
                               (if_announce_cap_permille target)))
  end.

(** [gates[slot].charge(now, spacing)], with the counter of releases. *)
Definition charge_gate (slot : nat) (now_ms spacing : Z) (r : Router) : Router :=
  r_set_announce_gates
    (alter (AnnounceGate.charge now_ms spacing) slot (r_announce_gates r))
    (r_count RouterStats.count_announces_released r).

(** The [while let] of one slot: stale announces are dropped, the first current
    one is offered and ends the loop. One iteration per scheduled announce is
    enough. *)
Fixpoint release_slot (fuel slot : nat) (target : InterfaceConfig) (now_ms : Z) n
  : outcome Empty_set unit * LiteNode :=
  match fuel with
  | O => (Ok tt, n)
  | S fuel' =>
      match AnnounceSchedule.release_pending slot now_ms (ln_announce_schedule n) with
      | (None, t) => (Ok tt, set_announce_schedule t n)
      | (Some announce, t) =>
          let n := set_announce_schedule t n in
          if negb (announce_current announce now_ms n) then
            release_slot fuel' slot target now_ms
              (set_announce_schedule
                 (AnnounceSchedule.remove (sa_destination_hash announce) (ln_announce_schedule n)) n)
          else
            let wire_len := pb_len (sa_packet announce)
              + match if_ifac target with Some i => Z.to_nat (ifac_size i) | None => 0 end in
            match enqueue_forwarded (sa_interface_id announce) (if_id target) (sa_packet announce)
                    OutboundReason.AnnounceRebroadcast n with
            | (false, n) => (Ok tt, n)
            | (true, n) =>
                match m_router (ln_interfaces n) with
                | None => (Panic, n)  (* [expect("router model")] *)
                | Some r =>
                    match release_spacing wire_len target (r_lora_modem r) with
                    | Ok spacing =>
                        (Ok tt, set_interfaces (m_set_router (charge_gate slot now_ms spacing r)
                                                  (ln_interfaces n)) n)
                    | Err e => (Err e, n)
                    | Panic => (Panic, n)
                    end
                end
            end
      end
  end.

Fixpoint release_slots (slots : list nat) (now_ms : Z) n : outcome Empty_set unit * LiteNode :=
  match slots with
  | [] => (Ok tt, n)
  | slot :: slots =>
      match m_router (ln_interfaces n) with
      | None => (Ok tt, n)
      | Some r =>
          match InterfaceRegistry.at_slot slot (r_registry r) with
          | None => release_slots slots now_ms n
          | Some target =>
              if negb (AnnounceGate.is_open now_ms (r_announce_gates r !!! slot))
                 || existsb (λ q, on_interface (if_id target) q && is_gated q)
                      (RingQueue.iter (ln_outbound n))
              then release_slots slots now_ms n
              else
                match release_slot (S (length (ln_announce_schedule n))) slot target now_ms n with
                | (Ok _, n) => release_slots slots now_ms n
                | (r, n) => (r, n)
                end
          end
      end
  end.

Definition release_gated_announces (now_ms : Z) n : outcome Empty_set unit * LiteNode :=
  if negb m_ROUTER then (Ok tt, n) else release_slots (seq 0 REQUESTERS) now_ms n.

(** The announce after its attempt, and whether it is scheduled again. *)
Definition after_attempt (announce : ScheduledAnnounce) (path_hash : list Z) (now_ms : Z) n
  : option ScheduledAnnounce :=
  let announce := with_retries (sat_add8 (sa_retries announce) 1) announce in
  if negb (sa_block_rebroadcast announce) && (sa_retries announce <=? PATHFINDER_R)%Z then
    Some (with_due (sat_add64 (sat_add64 now_ms (PATHFINDER_G_SECS * 1000))
                      (announce_jitter_ms path_hash (ln_transport_id n) (sa_retries announce))) announce)
  else if negb (sa_pending_targets announce =? 0)%Z then Some (with_due PENDING_ONLY announce)
  else None.

(** One due announce. *)
Definition rebroadcast (announce : ScheduledAnnounce) (now_ms : Z) n : LiteNode :=
  match PathTable.get_live (sa_destination_hash announce) now_ms (ln_paths n) with
  | None => n
  | Some path =>
      let path_hash := pe_packet_hash path in
      if negb (sa_block_rebroadcast announce) && negb (matches_path (sa_packet announce) path_hash) then n
      else
        let '(announce, n) :=
          if negb (sa_block_rebroadcast announce) && m_ROUTER then
            let targets := announce_targets (sa_interface_id announce) n in
            let announce :=
              if (Z.land (sa_pending_targets announce) targets =? 0)%Z
              then with_expires (sat_add64 now_ms (QUEUED_ANNOUNCE_LIFE_SECS * 1000)) announce
              else announce in
            (AnnounceSchedule.with_targets (Z.lor (sa_pending_targets announce) targets) announce, n)
          else
            (announce,
             snd (enqueue (sa_interface_id announce) (sa_packet announce)
                    (if sa_block_rebroadcast announce then OutboundReason.PathResponse
                     else OutboundReason.AnnounceRebroadcast) n)) in
        match after_attempt announce path_hash now_ms n with
        | Some again =>
            set_announce_schedule (AnnounceSchedule.insert again now_ms (ln_announce_schedule n)) n
        | None => n
        end
  end.

(** The [while let] over the due announces. *)
Fixpoint tick_loop (fuel : nat) (now_ms : Z) n : LiteNode :=
  match fuel with
  | O => n
  | S fuel' =>
      match AnnounceSchedule.pop_due now_ms (ln_announce_schedule n) with
      | (None, t) => set_announce_schedule t n
      | (Some announce, t) => tick_loop fuel' now_ms (rebroadcast announce now_ms (set_announce_schedule t n))
      end
  end.

(** The expiry of every table at the start of a tick. *)
Definition expire_tables (now_ms : Z) n : LiteNode :=
  let n := set_clock_ms now_ms n in
  let n := if lc_transport_enabled (ln_config n) then n
           else set_discoveries (Discoveries.clear (ln_discoveries n)) n in
  let n := set_discoveries (Discoveries.expire now_ms (ln_discoveries n)) n in
  let n := set_packet_hashes (PacketHashTable.expire now_ms (ln_packet_hashes n)) n in
  let n := set_paths (PathTable.expire now_ms (ln_paths n)) n in
  let n := set_announce_cache (AnnounceCache.expire now_ms (ln_announce_cache n)) n in
  let n := set_announce_cache (AnnounceCache.retain_paths (ln_paths n) now_ms (ln_announce_cache n)) n in
  let n := set_announce_schedule (AnnounceSchedule.expire now_ms (ln_announce_schedule n)) n in
  let n := set_reverse (ReverseTable.expire now_ms (ln_reverse n)) n in
  let n := set_links (LinkTable.expire now_ms (ln_links n)) n in
  let n := set_request_tags (RequestTagTable.expire now_ms (ln_request_tags n)) n in
  expire_outbound now_ms n.

Definition tick (now_ms : Z) n : outcome Empty_set unit * LiteNode :=
  let n := expire_tables now_ms n in
  let n := tick_loop (S (length (ln_announce_schedule n))) now_ms n in
  release_gated_announces now_ms n.

End announcing.
