(* ===== verification/Ingest.v ===== *)
(** Receiving a frame (src/src/transport.rs, [ingest] and [ingest_inner], with
    the router's ingress check and PLAIN bridging of
    src/src/transport/router.rs): interface checks, access code, filters,
    duplicate suppression, capture for the local endpoint and dispatch to the
    handlers. *)

From S2P Require Import Prelude Constants Primitives Buffer Wire Slots Queue HashTables GenTable.
From S2P Require Import PathTable AnnounceTables FlowTables Discovery Config Ifac Identity Links.
From S2P Require Import Outbound Model Node Forward Announcing.

Section ingest.
Context `{SHA : Sha256} `{HKDF : HkdfSha256} `{ED : Ed25519} `{HM : Model M D}.
Abbreviation LiteNode := (LiteNode M D).
Implicit Types n : LiteNode.

(** * Interface checks and access codes *)

Definition router_ingress (interface : Z) (wire_len : nat) : st LiteNode TransportError bool := λ n,
  match m_router (ln_interfaces n) with
  | None => (Ok true, n)
  | Some r =>
      let refuse e := (Err e, count TransportStats.count_dropped
                                (rcount RouterStats.count_interface_dropped n)) in
      match InterfaceRegistry.get interface (r_registry r) with
      | None => refuse TransportError.UnknownInterface
      | Some i =>
          if negb (if_online i) then refuse TransportError.InterfaceOffline
          else if negb (inbound (if_direction i)) then refuse TransportError.InterfaceNotInbound
          else if InterfaceConfig.wire_mtu i <? wire_len
          then (Ok false, count TransportStats.count_dropped (rcount RouterStats.count_mtu_dropped n))
          else (Ok true, n)
      end
  end.

(** The clock, the expiries and the interface of the frame. *)
Definition begin_ingest (meta : RxMeta) (now_ms : Z) n : LiteNode :=
  let n := set_clock_ms now_ms n in
  let n := observe_interface meta n in
  let n := if lc_transport_enabled (ln_config n) then n
           else set_discoveries (Discoveries.clear (ln_discoveries n)) n in
  let n := set_discoveries (Discoveries.expire now_ms (ln_discoveries n)) n in
  expire_outbound now_ms n.

Definition registered_mode (meta : RxMeta) n : RxMeta :=
  match router_interface (rx_interface_id meta) n with
  | Some interface => RxMeta.set_mode (if_mode interface) meta
  | None => meta
  end.

(** The clear packet of a frame; [None] when it is dropped. *)
Definition clear_packet (raw : list Z) (interface : Z) n : outcome Empty_set (option (list Z)) :=
  match m_ifac interface (ln_config n) (ln_interfaces n) with
  | Some ifac =>
      match ifac_verify_into raw (ifac_key ifac) (ifac_size ifac) (PacketBuffer.new MTU) with
      | (Ok _, plain) => Ok (Some (PacketBuffer.as_slice plain))
      | (Err _, _) => Ok None
      | (Panic, _) => Panic
      end
  | None => Ok (if has_ifac_flag raw then None else Some raw)
  end.

(** * Capture for the local endpoint *)

(** The endpoint's buffer, when the host passed one, is part of the state. *)
Definition capture_endpoint (raw : list Z) (hops : Z) (endpoint : option PacketBuffer)
  : outcome TransportError IngestAction * option PacketBuffer :=
  match endpoint with
  | None => (Ok IngestAction.Dropped, None)
  | Some endpoint =>
      match PacketBuffer.extend_from_slice raw (PacketBuffer.clear endpoint) with
      | (Err e, endpoint) => (Err (TransportError.Buffer e), Some endpoint)
      | (Panic, endpoint) => (Panic, Some endpoint)
      | (Ok _, endpoint) =>
          match store (E := TransportError) (PacketBuffer.as_slice endpoint) 1 hops with
          | Ok bs => (Ok IngestAction.LocalEndpoint, Some (PacketBuffer.write_slice endpoint bs))
          | Err e => (Err e, Some endpoint)
          | Panic => (Panic, Some endpoint)
          end
      end
  end.

Definition capture_plain (payload : list Z) (endpoint : option PacketBuffer)
  : outcome TransportError IngestAction * option PacketBuffer :=
  match endpoint with
  | None => (Ok IngestAction.Dropped, None)
  | Some endpoint =>
      match PacketBuffer.extend_from_slice payload (PacketBuffer.clear endpoint) with
      | (Err e, endpoint) => (Err (TransportError.Buffer e), Some endpoint)
      | (Panic, endpoint) => (Panic, Some endpoint)
      | (Ok _, endpoint) => (Ok IngestAction.LocalPlain, Some endpoint)
      end
  end.

(** * Filters *)

(** A link request must be well formed and fit the interface's links. *)
Definition check_link_request (view : PacketView) (interface : Z) n : outcome TransportError unit :=
  if bool_decide (packet_type (flags (pv_header view)) = LinkRequest) then
    let* _ := omap_err (λ _, TransportError.InvalidLinkSignalling) (parse_request (pv_payload view)) in
    require_link_capacity interface n
  else Ok tt.

(** A packet for the configured PLAIN sink. *)
Definition for_plain_sink (header : PacketHeader) n : bool :=
  match m_router (ln_interfaces n) with
  | Some r => match r_plain_sink r with
              | Some sink => sink =k Wire.destination_hash header
              | None => false
              end
  | None => false
  end
  && bool_decide (packet_type (flags header) = Data)
  && bool_decide (destination_type (flags header) = Plain)
  && bool_decide (transport_type (flags header) = Broadcast).

(** The filters on the wire header that drop a packet before the hash list. *)
Definition filtered (header : PacketHeader) n : bool :=
  (PATHFINDER_M <=? hops header)%Z
  || negb (accepts_transport_address header n)
  || (negb (skip_hashlist (context header))
      && (bool_decide (destination_type (flags header) = Plain)
          || bool_decide (destination_type (flags header) = Group))
      && (bool_decide (packet_type (flags header) = Announce) || (1 <? hops header)%Z)).

(** Traffic whose duplicate admission is left to a link or to the handlers. *)
Definition defer_hashlist (header : PacketHeader) (local_link : option (list Z)) (now_ms : Z) n : bool :=
  LinkTable.contains_live (Wire.destination_hash header) now_ms (ln_links n)
  || bool_decide (packet_type (flags header) = LinkRequest)
  || bool_decide (context header = Lrproof)
  || (bool_decide (destination_type (flags header) = Link)
      && ((local_link =k Some (Wire.destination_hash header))
          || holds_local (LocalLink (Wire.destination_hash header)) n)).

(** The duplicate check; a duplicate SINGLE announce passes. *)
Definition suppress_duplicate (raw : list Z) (header : PacketHeader) (local_link : option (list Z))
    (now_ms : Z) n : bool * LiteNode :=
  if negb (skip_hashlist (context header)) && negb (defer_hashlist header local_link now_ms n) then
    let hash := packet_hash raw (header_type (flags header)) in
    let (inserted, t) := PacketHashTable.insert hash (sat_add64 now_ms HASHLIST_LIFETIME_MS) now_ms
                           (ln_packet_hashes n) in
    let n := set_packet_hashes t n in
    let single_announce := bool_decide (packet_type (flags header) = Announce)
                           && bool_decide (destination_type (flags header) = Single) in
    if negb inserted && negb single_announce
    then (true, count TransportStats.count_duplicates n)
    else (false, n)
  else (false, n).

Definition with_hops (h : Z) (header : PacketHeader) : PacketHeader :=
  {| flags := flags header; hops := h; transport_id := transport_id header;
     Wire.destination_hash := Wire.destination_hash header; context := context header |}.

(** The header as the node handles it: one hop further, except from a local
    client. *)
Definition received_header (header : PacketHeader) (interface : Z) n : PacketHeader :=
  let h := sat_add8 (hops header) 1 in
  with_hops (if is_local_client_interface interface n then sat_sub h 1 else h) header.

(** Traffic owned by a registered destination or link of this node. *)
Definition for_local (header : PacketHeader) n : bool :=
  (bool_decide (packet_type (flags header) = LinkRequest)
   && bool_decide (destination_type (flags header) = Single)
   && is_own_destination (Wire.destination_hash header) n)
  || (bool_decide (packet_type (flags header) = Data)
      && ((bool_decide (destination_type (flags header) = Link)
           && holds_local (LocalLink (Wire.destination_hash header)) n)
          || (bool_decide (destination_type (flags header) = Single)
              && is_own_destination (Wire.destination_hash header) n))).

(** * Dispatch *)

Definition bridge_plain_broadcast (raw : list Z) (header : PacketHeader) (source : Z)
  : st LiteNode TransportError IngestAction := λ n,
  if negb m_ROUTER then (Ok IngestAction.Dropped, n)
  else
    match copy_for_forward raw (hops header) with
    | Err e => (Err e, n)
    | Panic => (Panic, n)
    | Ok packet =>
        let local_only := negb (is_local_client_interface source n) in
        let (queued, n) := enqueue_packet_broadcast source packet OutboundReason.TransportForward
                             local_only n in
        (Ok (if 0 <? queued then IngestAction.ForwardedTransport else IngestAction.Dropped), n)
    end.

Definition handle_data (raw : list Z) (view : PacketView) (header : PacketHeader) (meta : RxMeta)
    (now_ms : Z) : st LiteNode TransportError IngestAction := λ n,
  match route_link_packet raw header meta now_ms OutboundReason.TransportForward n with
  | (Err e, n) => (Err e, n)
  | (Panic, n) => (Panic, n)
  | (Ok true, n) => (Ok IngestAction.ForwardedTransport, n)
  | (Ok false, n) =>
      if Wire.destination_hash header =k path_request_destination
      then handle_path_request (pv_payload view) meta now_ms n
      else if bool_decide (destination_type (flags header) = Plain)
              && bool_decide (transport_type (flags header) = Broadcast)
      then bridge_plain_broadcast raw header (rx_interface_id meta) n
      else handle_transport_forward raw (pv_header view) header meta now_ms n
  end.

Definition dispatch (raw : list Z) (view : PacketView) (header : PacketHeader) (meta : RxMeta)
    (now_ms : Z) : st LiteNode TransportError IngestAction :=
  match packet_type (flags header) with
  | Announce => handle_announce raw view header meta now_ms
  | Data => handle_data raw view header meta now_ms
  | LinkRequest => handle_link_request raw (pv_header view) header meta now_ms
  | Proof_ => handle_proof raw header meta now_ms
  end.

(** What the host is told, and given, once a handler has run. *)
Definition conclude (raw : list Z) (header : PacketHeader) (endpoint : option PacketBuffer)
    (result : outcome TransportError IngestAction) n
  : outcome TransportError IngestAction * LiteNode * option PacketBuffer :=
  let watched := match m_router (ln_interfaces n) with
                 | Some r => Router.watches (Wire.destination_hash header) r
                 | None => false
                 end in
  match result with
  | Ok IngestAction.LocalEndpoint =>
      let (r, endpoint) := capture_endpoint raw (hops header) endpoint in (r, n, endpoint)
  | Ok (IngestAction.LearnedAnnounce as learned) | Ok (IngestAction.ScheduledAnnounce as learned) =>
      if watched && match endpoint with Some _ => true | None => false end then
        match capture_endpoint raw (hops header) endpoint with
        | (Ok _, endpoint) =>
            (Ok (IngestAction.WatchedAnnounce (bool_decide (learned = IngestAction.ScheduledAnnounce))),
             n, endpoint)
        | (Err _, endpoint) => (result, n, endpoint)
        | (Panic, endpoint) => (Panic, n, endpoint)
        end
      else (result, n, endpoint)
  | Err (TransportError.Announce e) =>
      (result, count TransportStats.count_validation_failures n, endpoint)
  | _ => (result, n, endpoint)
  end.

(** A packet past the checks on its interface. *)
Definition process (raw : list Z) (view : PacketView) (meta : RxMeta) (now_ms : Z)
    (local_link : option (list Z)) (endpoint : option PacketBuffer) n
  : outcome TransportError IngestAction * LiteNode * option PacketBuffer :=
  let n := count TransportStats.count_accepted n in
  if filtered (pv_header view) n
  then (Ok IngestAction.Dropped, count TransportStats.count_dropped n, endpoint)
  else
    let (duplicate, n) := suppress_duplicate raw (pv_header view) local_link now_ms n in
    if duplicate then (Ok IngestAction.Duplicate, n, endpoint)
    else
      let header := received_header (pv_header view) (rx_interface_id meta) n in
      if for_local header n then
        let (r, endpoint) := capture_endpoint raw (hops header) endpoint in (r, n, endpoint)
      else
        let (result, n) := dispatch raw view header meta now_ms n in
        conclude raw header endpoint result n.

(** A clear packet from an interface. *)
Definition ingest_packet (raw : list Z) (meta : RxMeta) (now_ms : Z) (local_link : option (list Z))
    (endpoint : option PacketBuffer) n
  : outcome TransportError IngestAction * LiteNode * option PacketBuffer :=
  if interface_clear_mtu (rx_interface_id meta) n <? length raw then (Ok IngestAction.Dropped, n, endpoint)
  else
    match
      (let* view := omap_err TransportError.Wire (parse_view raw) in
       let* _ := check_link_request view (rx_interface_id meta) n in Ok view)
    with
    | Err e => (Err e, n, endpoint)
    | Panic => (Panic, n, endpoint)
    | Ok view =>
        if for_plain_sink (pv_header view) n then
          if negb (hops (pv_header view) =? 0)%Z then (Ok IngestAction.Dropped, n, endpoint)
          else let (r, endpoint) := capture_plain (pv_payload view) endpoint in (r, n, endpoint)
        else process raw view meta now_ms local_link endpoint n
    end.

Definition ingest_inner (raw : list Z) (meta : RxMeta) (now_ms : Z) (local_link : option (list Z))
    (endpoint : option PacketBuffer) n
  : outcome TransportError IngestAction * LiteNode * option PacketBuffer :=
  let n := begin_ingest meta now_ms n in
  match router_ingress (rx_interface_id meta) (length raw) n with
  | (Err e, n) => (Err e, n, endpoint)
  | (Panic, n) => (Panic, n, endpoint)
  | (Ok false, n) => (Ok IngestAction.Dropped, n, endpoint)
  | (Ok true, n) =>
      let meta := registered_mode meta n in
      match clear_packet raw (rx_interface_id meta) n with
      | Err e => (Panic, n, endpoint)  (* no error value *)
      | Panic => (Panic, n, endpoint)
      | Ok None =>
          (Ok IngestAction.Dropped,
           count TransportStats.count_dropped (count TransportStats.count_validation_failures n), endpoint)
      | Ok (Some raw) => ingest_packet raw meta now_ms local_link endpoint n
      end
  end.

Definition ingest_with_local_link (raw : list Z) (meta : RxMeta) (now_ms : Z)
    (local_link : option (list Z)) : st LiteNode TransportError IngestAction := λ n,
  fst (ingest_inner raw meta now_ms local_link None n).

Definition ingest (raw : list Z) (meta : RxMeta) (now_ms : Z) : st LiteNode TransportError IngestAction :=
  ingest_with_local_link raw meta now_ms None.

Definition ingest_endpoint (raw : list Z) (meta : RxMeta) (now_ms : Z) (endpoint : PacketBuffer) n
  : outcome TransportError IngestAction * LiteNode * option PacketBuffer :=
  ingest_inner raw meta now_ms None (Some endpoint) n.

End ingest.
