(* ===== verification/Hosts.v ===== *)
(** The host's side of a node (src/src/transport.rs and
    src/src/transport/router.rs): resetting it, registering and retiring the
    interfaces of a router or of an endpoint, and taking frames out of the
    outbound queue: by interface on a router, in order or through the retained
    delivery protocol on an endpoint. *)

From S2P Require Import Prelude Constants Primitives Buffer Wire Slots Queue HashTables GenTable.
From S2P Require Import PathTable Lora AnnounceFlow AnnounceTables FlowTables Discovery Config.
From S2P Require Import Ifac Identity KnownDestinations Links Outbound Model Node.

Section any_model.
Context `{SHA : Sha256} `{HKDF : HkdfSha256} `{ED : Ed25519} `{HM : Model M D}.
Abbreviation LiteNode := (LiteNode M D).
Implicit Types n : LiteNode.

(** The router's part of a reset: a fresh registration epoch. *)
Definition reset_router_state (generation : Z) (r : Router) : Router :=
  let r := r_set_last_generation generation r in
  let r := r_set_generations (replicate (length (r_generations r)) generation) r in
  let r := r_set_announce_gates (replicate (length (r_announce_gates r)) AnnounceGate.OPEN) r in
  let r := r_set_stats RouterStats.ZERO r in
  let r := r_set_plain_sink None r in
  let r := r_set_watched (replicate WATCHED_DESTINATIONS_MAX (zeros 16)) r in
  r_set_watched_len 0 r.

Definition reset_tables (config : LiteConfig) (transport_id : list Z) n : LiteNode :=
  let n := set_config config n in
  let n := set_transport_id transport_id n in
  let n := clear_local n in
  let n := set_announce_admission AnnounceAdmission.new n in
  let n := set_packet_hashes (PacketHashTable.clear (ln_packet_hashes n)) n in
  let n := set_paths (PathTable.clear (ln_paths n)) n in
  let n := set_announce_cache (AnnounceCache.clear (ln_announce_cache n)) n in
  let n := set_announce_schedule (AnnounceSchedule.clear (ln_announce_schedule n)) n in
  let n := set_reverse (ReverseTable.clear (ln_reverse n)) n in
  let n := set_links (LinkTable.clear (ln_links n)) n in
  let n := set_request_tags (RequestTagTable.clear (ln_request_tags n)) n in
  let n := set_outbound (RingQueue.clear (ln_outbound n)) n in
  let n := set_discoveries (Discoveries.clear (ln_discoveries n)) n in
  set_stats TransportStats.ZERO n.

Definition reset_in_place (caps : Capacities) (config : LiteConfig) (transport_id : list Z)
  : st LiteNode TransportError unit := λ n,
  match validate_config caps config with
  | Err e => (Err e, n)
  | Panic => (Panic, n)
  | Ok _ =>
      match m_router (ln_interfaces n) with
      | None => (Ok tt, reset_tables config transport_id n)
      | Some r =>
          match checked_add64 (r_last_generation r) 1 with
          | None => (Err TransportError.InvalidConfig, n)
          | Some generation =>
              (Ok tt, reset_tables config transport_id
                        (set_interfaces (m_set_router (reset_router_state generation r)
                                           (ln_interfaces n)) n))
          end
      end
  end.

(** The tables of a node without an interface that was replaced or removed. *)
Definition forget_interface (id : Z) n : LiteNode :=
  let n := set_paths (PathTable.remove_interface id (ln_paths n)) n in
  let n := set_reverse (ReverseTable.remove_interface id (ln_reverse n)) n in
  let n := set_links (LinkTable.remove_interface id (ln_links n)) n in
  let n := set_announce_schedule (AnnounceSchedule.remove_interface id (ln_announce_schedule n)) n in
  let n := set_announce_cache
    (AnnounceCache.retain_paths (ln_paths n) (ln_clock_ms n) (ln_announce_cache n)) n in
  expire_outbound (ln_clock_ms n) n.

End any_model.

(** * Routers *)

Module RouterHost.
Section router_host.
Context `{SHA : Sha256} `{HKDF : HkdfSha256} `{ED : Ed25519}.
Abbreviation RouterNode := (LiteNode Router Z).
Implicit Types n : RouterNode.

Record RouterOutboundFrame := { rof_frame : OutboundFrame; rof_target_generation : Z }.

Definition new_router_const (caps : Capacities) (config : LiteConfig) (id : list Z)
    (registry : InterfaceRegistry) (modem : option LoraModemConfig) : RouterNode :=
  set_interfaces (Router.new registry modem) (new_const caps config id).

Definition registry_ok (registry : InterfaceRegistry) (config : LiteConfig)
  : outcome TransportError unit :=
  omap_err (λ _, TransportError.InvalidConfig)
    (InterfaceRegistry.validate (tx_queue_depth_cap (lc_table_caps config)) registry).

Definition new_router (caps : Capacities) (config : LiteConfig) (id : list Z)
    (registry : InterfaceRegistry) (modem : option LoraModemConfig) : outcome TransportError RouterNode :=
  let* _ := validate_config caps config in
  let* _ := registry_ok registry config in
  Ok (new_router_const caps config id registry modem).

Definition interface (id : Z) n : option InterfaceConfig := Router.interface id (ln_interfaces n).
Definition router_stats n : RouterStats := r_stats (ln_interfaces n).

(** An update of the router. *)
Definition on_router (f : Router → Router) n : RouterNode := set_interfaces (f (ln_interfaces n)) n.

Definition reset_router_in_place (caps : Capacities) (config : LiteConfig) (id : list Z)
    (registry : InterfaceRegistry) (modem : option LoraModemConfig)
  : st RouterNode TransportError unit :=
  st_lift (registry_ok registry config) ;;;
  reset_in_place caps config id ;;;
  (λ n, (Ok tt, on_router (λ r, r_set_lora_modem modem (r_set_registry registry r)) n)).

Definition set_own_destination (destination : option (list Z)) n : RouterNode :=
  let n := clear_own_destinations n in
  match destination with
  | Some d => snd (register_local_destination d n)
  | None => n
  end.

Definition own_destination n : option (list Z) :=
  match own_destinations n with [d] => Some d | _ => None end.

Definition set_watched_destinations (destinations : list (list Z)) n : bool * RouterNode :=
  if WATCHED_DESTINATIONS_MAX <? length destinations then (false, n)
  else
    (true, on_router (λ r,
       r_set_watched_len (length destinations)
         (r_set_watched (splice 0 destinations (replicate WATCHED_DESTINATIONS_MAX (zeros 16))) r)) n).

Definition set_local_plain_sink (destination : option (list Z)) n : RouterNode :=
  on_router (r_set_plain_sink destination) n.
Definition local_plain_sink n : option (list Z) := r_plain_sink (ln_interfaces n).

(** The slot's generation, gate, owed rebroadcasts and path requests begin
    anew. *)
Definition open_slot (slot : nat) (generation : Z) (r : Router) : Router :=
  r_set_announce_gates (<[slot := AnnounceGate.OPEN]> (r_announce_gates r))
    (r_set_generations (<[slot := generation]> (r_generations r)) r).

Definition register_interface (interface : InterfaceConfig) : st RouterNode ConfigError unit := λ n,
  match InterfaceConfig.validate (tx_queue_depth_cap (lc_table_caps (ln_config n))) interface with
  | Err e => (Err e, n)
  | Panic => (Panic, n)
  | Ok _ =>
      match checked_add64 (r_last_generation (ln_interfaces n)) 1 with
      | None => (Err InterfaceGenerationExhausted, n)
      | Some generation =>
          let (r, registry) := InterfaceRegistry.register interface (r_registry (ln_interfaces n)) in
          let n := on_router (r_set_registry registry) n in
          match r with
          | Err e => (Err e, n)
          | Panic => (Panic, n)
          | Ok _ =>
              match InterfaceRegistry.slot (if_id interface) (r_registry (ln_interfaces n)) with
              | None => (Err UnknownInterface, n)
              | Some slot =>
                  let n := on_router (λ r, open_slot slot generation (r_set_last_generation generation r)) n in
                  let n := set_announce_schedule
                    (AnnounceSchedule.clear_target slot (ln_announce_schedule n)) n in
                  (Ok tt, set_discoveries (Discoveries.retire_requester slot (ln_discoveries n)) n)
              end
          end
      end
  end.

Definition retire_router_interface (id : Z) (slot : nat) n : RouterNode :=
  let n := on_router (open_slot slot 0) n in
  let n := set_discoveries (Discoveries.retire_requester slot (ln_discoveries n)) n in
  let n := set_announce_schedule (AnnounceSchedule.clear_target slot (ln_announce_schedule n)) n in
  forget_interface id n.

Definition unregister_interface (id : Z) : st RouterNode ConfigError InterfaceConfig := λ n,
  match InterfaceRegistry.slot id (r_registry (ln_interfaces n)) with
  | None => (Err UnknownInterface, n)
  | Some slot =>
      if InterfaceRegistry.len (r_registry (ln_interfaces n)) =? 1
      then (Err CannotRemoveLastInterface, n)
      else
        let (removed, registry) := InterfaceRegistry.unregister id (r_registry (ln_interfaces n)) in
        let n := on_router (r_set_registry registry) n in
        match removed with
        | Ok removed => (Ok removed, retire_router_interface id slot n)
        | Err e => (Err e, n)
        | Panic => (Panic, n)
        end
  end.

Definition set_interface_online (id : Z) (online : bool) : st RouterNode ConfigError unit := λ n,
  match InterfaceRegistry.slot id (r_registry (ln_interfaces n)) with
  | None => (Err UnknownInterface, n)
  | Some slot =>
      let was_online := match InterfaceRegistry.get id (r_registry (ln_interfaces n)) with
                        | Some i => if_online i | None => false end in
      match
        (if online && negb was_online then
           match checked_add64 (r_last_generation (ln_interfaces n)) 1 with
           | None => None
           | Some generation =>
               Some (on_router (λ r, r_set_generations (<[slot := generation]> (r_generations r))
                                       (r_set_last_generation generation r)) n)
           end
         else Some n)
      with
      | None => (Err InterfaceGenerationExhausted, n)
      | Some n =>
          let (r, registry) := InterfaceRegistry.set_online id online (r_registry (ln_interfaces n)) in
          let n := on_router (r_set_registry registry) n in
          match r with
          | Err e => (Err e, n)
          | Panic => (Panic, n)
          | Ok _ => (Ok tt, if online then n else retire_router_interface id slot n)
          end
      end
  end.

Definition send_local (interface : Z) (packet : PacketBuffer) n : bool * RouterNode :=
  enqueue_with_lifetime interface packet OutboundReason.Local (fresh_lifetime (ln_clock_ms n)) n.

Definition router_outbound_is_live (interface : Z) (lifetime : OutboundLifetime)
    (target_generation now_ms : Z) n : bool :=
  Router.delivery_is_current interface target_generation (ln_interfaces n)
  && outbound_lifetime_is_live interface lifetime now_ms n.

Definition interface_frame_offset (id : Z) n : option nat :=
  let frames := RingQueue.iter (ln_outbound n) in
  or_else (position (λ q, on_interface id q && negb (is_gated q)) frames)
          (position (on_interface id) frames).

Definition poll_tx_for_interface (id : Z) n : option RouterOutboundFrame * RouterNode :=
  let n := expire_outbound (ln_clock_ms n) n in
  match interface_frame_offset id n with
  | None => (None, n)
  | Some offset =>
      let (queued, q) := RingQueue.remove offset (ln_outbound n) in
      let n := set_outbound q n in
      (match queued with
       | Some queued => Some {| rof_frame := qo_frame queued; rof_target_generation := qo_delivery queued |}
       | None => None
       end, n)
  end.

Definition outbound_peek_for_interface (id : Z) n : option (nat * OutboundReason) :=
  offset ← interface_frame_offset id n;
  q ← RingQueue.iter (ln_outbound n) !! offset;
  Some (pb_len (of_packet (qo_frame q)), of_reason (qo_frame q)).

Definition outbound_peek_len_for_interface (id : Z) n : option nat :=
  fst <$> outbound_peek_for_interface id n.

Definition outbound_len_for_interface (id : Z) n : nat :=
  length (List.filter (on_interface id) (RingQueue.iter (ln_outbound n))).

End router_host.
End RouterHost.

(** * Endpoints *)

Module EndpointHost.
Section endpoint_host.
Context `{SHA : Sha256} `{HKDF : HkdfSha256} `{ED : Ed25519}.
Abbreviation EndpointNode := (LiteNode Endpoint OutboundDelivery).
Abbreviation Queued := (QueuedOutbound OutboundDelivery).
Implicit Types n : EndpointNode.

Definition with_flags (z : Z) (f : InterfaceFacts) : InterfaceFacts :=
  {| f_generation := f_generation f; f_bitrate_bps := f_bitrate_bps f;
     f_clear_mtu := f_clear_mtu f; f_id := f_id f; f_mode := f_mode f; f_flags := z |}.
Definition with_clear_mtu (m : nat) (f : InterfaceFacts) : InterfaceFacts :=
  {| f_generation := f_generation f; f_bitrate_bps := f_bitrate_bps f; f_clear_mtu := m;
     f_id := f_id f; f_mode := f_mode f; f_flags := f_flags f |}.

Definition set_facts (slot : nat) (f : InterfaceFacts) n : EndpointNode :=
  set_interfaces {| e_facts := <[slot := f]> (e_facts (ln_interfaces n)) |} n.

(** [delivery.pending_targets &= !(mask)]. *)
Definition with_pending (targets : Z) (d : OutboundDelivery) : OutboundDelivery :=
  {| od_identity := od_identity d; od_interface_generations := od_interface_generations d;
     od_pending_targets := targets; od_initialized := od_initialized d |}.
Definition drop_targets (mask : Z) (q : Queued) : Queued :=
  {| qo_frame := qo_frame q;
     qo_delivery := with_pending (Z.land (od_pending_targets (qo_delivery q)) (not8 mask)) (qo_delivery q) |}.

Definition retained_outbound_retire_interface (interface : Z) n : EndpointNode :=
  let n := match interface_slot interface n with
           | Some slot =>
               let f := Endpoint.facts slot (ln_interfaces n) in
               set_facts slot (with_flags (Z.land (f_flags f) (not8 2)) f) n
           | None => n
           end in
  if (7 <=? interface)%Z then n
  else set_outbound (RingQueue.iter_mut (drop_targets (Z.shiftl 1 interface)) (ln_outbound n)) n.

Definition retire_replaced_interface (interface : Z) n : EndpointNode :=
  let n := retained_outbound_retire_interface interface n in
  let n := match interface_slot interface n with
           | Some slot =>
               let n := set_discoveries (Discoveries.retire_requester slot (ln_discoveries n)) n in
               set_facts slot InterfaceFacts.EMPTY n
           | None => n
           end in
  let n := set_paths (PathTable.remove_interface interface (ln_paths n)) n in
  let n := set_announce_schedule
    (AnnounceSchedule.remove_interface interface (ln_announce_schedule n)) n in
  let n := set_reverse (ReverseTable.remove_interface interface (ln_reverse n)) n in
  let n := set_links (LinkTable.remove_interface interface (ln_links n)) n in
  let n := set_announce_cache
    (AnnounceCache.retain_paths (ln_paths n) (ln_clock_ms n) (ln_announce_cache n)) n in
  expire_outbound (ln_clock_ms n) n.

Definition occupied (f : InterfaceFacts) : bool := negb (Z.land (f_flags f) 1 =? 0)%Z.

Definition update_interface (id generation : Z) (mode : InterfaceMode) (bitrate_bps : Z)
    (outbound local_client : bool) n : bool * EndpointNode :=
  match or_else (interface_slot id n) (Endpoint.free_slot (ln_interfaces n)) with
  | None => (false, n)
  | Some slot =>
      let previous := Endpoint.facts slot (ln_interfaces n) in
      let n :=
        if occupied previous then
          if negb (bool_decide (f_mode previous = mode)) then retire_replaced_interface id n
          else if negb (f_generation previous =? generation)%Z || negb outbound
          then retained_outbound_retire_interface id n else n
        else n in
      let previous := Endpoint.facts slot (ln_interfaces n) in
      (true, set_facts slot
        {| f_id := id; f_generation := generation; f_mode := mode; f_bitrate_bps := bitrate_bps;
           f_clear_mtu := if occupied previous then f_clear_mtu previous
                          else as_u16 (default_clear_mtu n);
           f_flags := Z.lor (Z.lor (Z.lor 1 4)
                        (if outbound && negb (generation =? 0)%Z then 2 else 0))
                        (if local_client then 8 else 0) |} n)
  end.

Definition update_interface_packet_capacity (id generation : Z) (clear_mtu : nat) n : bool * EndpointNode :=
  match interface_slot id n with
  | None => (false, n)
  | Some slot =>
      let f := Endpoint.facts slot (ln_interfaces n) in
      if (generation =? 0)%Z || negb (f_generation f =? generation)%Z then (false, n)
      else
        let clear_mtu := as_u16 (Nat.min clear_mtu MTU) in
        if negb (f_clear_mtu f =? clear_mtu) then
          let n := set_links (LinkTable.remove_interface id (ln_links n)) n in
          let n := set_facts slot (with_clear_mtu clear_mtu f) n in
          (true, expire_outbound (ln_clock_ms n) n)
        else (true, n)
  end.

Definition poll_tx n : option OutboundFrame * EndpointNode :=
  if ln_retained_owner_mode n then (None, n)
  else
    let n := expire_outbound (ln_clock_ms n) n in
    let (queued, q) := RingQueue.pop (ln_outbound n) in
    (qo_frame <$> queued, set_outbound q n).

Definition outbound_peek_len n : option nat :=
  if ln_retained_owner_mode n then None
  else (λ q, pb_len (of_packet (qo_frame q))) <$> RingQueue.peek (ln_outbound n).

(** ** Retained delivery *)

(** The targets a frame may go to, by why it was queued. *)
Definition selected_targets (frame : OutboundFrame) : Z :=
  match of_reason frame with
  | OutboundReason.Local | OutboundReason.PathResponse | OutboundReason.TransportForward
  | OutboundReason.ProofReturn =>
      if (of_interface_id frame <? 7)%Z then Z.shiftl 1 (of_interface_id frame) else 0
  | OutboundReason.AnnounceRebroadcast | OutboundReason.PathRequestForward =>
      if (of_interface_id frame <? 7)%Z then Z.land 127 (not8 (Z.shiftl 1 (of_interface_id frame))) else 127
  | OutboundReason.PathRequest => 127
  end.

(** The first sight of a frame binds it to the interface generations. *)
Definition bind_delivery (generations : list Z) (q : Queued) : Queued :=
  let d := qo_delivery q in
  if od_initialized d then q
  else {| qo_frame := qo_frame q;
          qo_delivery :=
            {| od_identity := od_identity d; od_interface_generations := generations;
               od_pending_targets := Z.land (od_pending_targets d) (selected_targets (qo_frame q));
               od_initialized := true |} |}.

(** A target whose generation is gone or changed is no longer owed the frame. *)
Definition retire_targets (generations : list Z) (q : Queued) : Queued :=
  fold_left
    (λ q id,
       let generation := generations !!! id in
       if (generation =? 0)%Z
          || negb (generation =? (od_interface_generations (qo_delivery q) !!! id))%Z
       then drop_targets (Z.shiftl 1 (Z.of_nat id)) q else q)
    (seq 0 (length generations)) q.

(** The loop dropping the frames no target is owed any more. *)
Fixpoint drop_finished (fuel : nat) n : EndpointNode :=
  match fuel with
  | O => n
  | S fuel' =>
      match position (λ q : Queued, (od_pending_targets (qo_delivery q) =? 0)%Z)
                     (RingQueue.iter (ln_outbound n)) with
      | None => n
      | Some offset =>
          drop_finished fuel'
            (count TransportStats.count_outbound_dropped
               (set_outbound (snd (RingQueue.remove offset (ln_outbound n))) n))
      end
  end.

Definition retained_outbound_select (after blocked : Z) (generations : list Z) n
  : option Queued * EndpointNode :=
  let n := set_retained_owner_mode true n in
  let n := expire_outbound (ln_clock_ms n) n in
  let n := set_outbound
    (RingQueue.iter_mut (λ q, retire_targets generations (bind_delivery generations q)) (ln_outbound n)) n in
  let n := drop_finished (S (outbound_len n)) n in
  (find (λ q : Queued, (after <? od_identity (qo_delivery q))%Z
             && negb (Z.land (od_pending_targets (qo_delivery q)) (not8 blocked) =? 0)%Z)
     (RingQueue.iter (ln_outbound n)), n).

Definition has_identity (identity : Z) (q : Queued) : bool := (od_identity (qo_delivery q) =? identity)%Z.

Definition retained_outbound_ack (identity completed : Z) n : bool * EndpointNode :=
  if negb (ln_retained_owner_mode n) || (identity =? 0)%Z then (false, n)
  else
    match position (has_identity identity) (RingQueue.iter (ln_outbound n)) with
    | None => (false, n)
    | Some offset =>
        match RingQueue.iter (ln_outbound n) !! offset with
        | None => (false, n)
        | Some queued =>
            if negb (od_initialized (qo_delivery queued)) then (false, n)
            else
              let q := RingQueue.get_mut offset (drop_targets completed) (ln_outbound n) in
              (true, set_outbound
                 (if (od_pending_targets (qo_delivery (drop_targets completed queued)) =? 0)%Z
                  then snd (RingQueue.remove offset q) else q) n)
        end
    end.

Definition retained_outbound_take (identity : Z) n : bool * EndpointNode :=
  if negb (ln_retained_owner_mode n) || (identity =? 0)%Z then (false, n)
  else
    match position (has_identity identity) (RingQueue.iter (ln_outbound n)) with
    | None => (false, n)
    | Some offset =>
        let (taken, q) := RingQueue.remove offset (ln_outbound n) in
        (match taken with Some _ => true | None => false end, set_outbound q n)
    end.

End endpoint_host.
End EndpointHost.
