(* ===== verification/NodeFacts.v ===== *)
(** The outbound queue of a node as a list: what expiry removes, what an
    admission adds and what it may displace, and that queueing touches nothing
    else of the node. *)

From stdpp Require Import sorting.
From S2P Require Import Prelude Constants Primitives Buffer Wire Slots Queue HashTables GenTable.
From S2P Require Import PathTable Lora AnnounceFlow AnnounceTables FlowTables Discovery Config.
From S2P Require Import Ifac Identity KnownDestinations Links Outbound Model Node.

Lemma filter_delete {A} (p : A → bool) (l : list A) i :
  position p l = Some i →
  List.filter (λ x, negb (p x)) (delete i l) = List.filter (λ x, negb (p x)) l ∧
  length (delete i l) = pred (length l).
Proof.
  revert i. induction l as [|x l IH]; intros i; simpl; [done|]. destruct (p x) eqn:Hp.
  - by intros [= <-].
  - destruct (position p l) as [j|] eqn:Hj; [|done]. intros [= <-]. simpl.
    destruct (IH j eq_refl) as [-> Hl]. rewrite ?Hp. split; [done|].
    rewrite Hl. apply position_lt in Hj. lia.
Qed.

Lemma filter_none {A} (p : A → bool) (l : list A) :
  position p l = None → List.filter (λ x, negb (p x)) l = l.
Proof.
  induction l as [|x l IH]; simpl; [done|]. destruct (p x) eqn:Hp; [done|].
  destruct (position p l); [done|]. simpl. intros _. by rewrite IH.
Qed.

Section queue_facts.
Context `{SHA : Sha256} `{HKDF : HkdfSha256} `{ED : Ed25519} `{HL : ModelLaws M D}.
Abbreviation LiteNode := (LiteNode M D).
Implicit Types n : LiteNode.

(** The queued frames, oldest first. *)
Definition frames n : list (QueuedOutbound D) := RingQueue.iter (ln_outbound n).

(** The ring represents the list of its frames. *)
Definition queue_ok n : Prop := RingQueue.rep (ln_outbound n) (frames n).

Lemma queue_ok_rep n l : RingQueue.rep (ln_outbound n) l → queue_ok n ∧ frames n = l.
Proof. intros Hr. unfold queue_ok, frames. by rewrite (RingQueue.iter_rep _ _ Hr). Qed.

(** ** What queueing changes *)

(** What a router state means to the transport, counters and gates apart. *)
Definition same_router (r r' : Router) : Prop :=
  r_registry r' = r_registry r ∧ r_generations r' = r_generations r ∧
  r_lora_modem r' = r_lora_modem r ∧ r_plain_sink r' = r_plain_sink r ∧
  r_watched r' = r_watched r ∧ r_watched_len r' = r_watched_len r.

(** Two model states that only differ in router counters and gates. *)
Record same_interfaces (m m' : M) : Prop := {
  si_facts : ∀ slot, m_facts slot m' = m_facts slot m;
  si_current : ∀ id d, m_delivery_is_current id d m' = m_delivery_is_current id d m;
  si_ifac : ∀ id c, m_ifac id c m' = m_ifac id c m;
  si_online : ∀ id, m_online id m' = m_online id m;
  si_delivery : ∀ k id, m_delivery k id m' = m_delivery k id m;
  si_router : match m_router m, m_router m' with
              | Some r, Some r' => same_router r r'
              | None, None => True
              | _, _ => False
              end
}.

#[export] Instance same_interfaces_preorder : PreOrder same_interfaces.
Proof.
  split.
  - intros m. split; try done. by destruct (m_router m).
  - intros m1 m2 m3 [] []. split; try congruence.
    destruct (m_router m1), (m_router m2), (m_router m3); try done.
    unfold same_router in *. naive_solver congruence.
Qed.

Lemma same_interfaces_write m r r' :
  m_router m = Some r → same_router r r' → same_interfaces m (m_set_router r' m).
Proof.
  intros Hr Hs. destruct (law_bookkeeping m r r' Hr) as (? & ? & ? & ? & ?); [apply Hs..|].
  split; try done. by rewrite (law_set m r r' Hr), Hr.
Qed.

Definition write_queue (q : RingQueue.Queue (QueuedOutbound D)) (i : Z) (m : M) (s : TransportStats) n
  : LiteNode :=
  set_stats s (set_interfaces m (set_last_delivery_identity i (set_outbound q n))).

(** [n'] is [n] but for its queue, the delivery identities and counters. *)
Definition queues n n' : Prop :=
  ∃ q i m s, n' = write_queue q i m s n ∧ same_interfaces (ln_interfaces n) m.

#[export] Instance queues_preorder : PreOrder queues.
Proof.
  split.
  - intros n. exists (ln_outbound n), (ln_last_delivery_identity n), (ln_interfaces n), (ln_stats n).
    split; [by destruct n|done].
  - intros n1 n2 n3 (q & i & m & s & -> & Hm) (q' & i' & m' & s' & -> & Hm').
    exists q', i', m', s'. split; [done|]. by etrans.
Qed.

Lemma queues_count f n : queues n (count f n).
Proof.
  exists (ln_outbound n), (ln_last_delivery_identity n), (ln_interfaces n), (f (ln_stats n)).
  split; [by destruct n|done].
Qed.

Lemma queues_set_outbound q n : queues n (set_outbound q n).
Proof.
  exists q, (ln_last_delivery_identity n), (ln_interfaces n), (ln_stats n).
  split; [by destruct n|done].
Qed.

Lemma queues_set_identity i n : queues n (set_last_delivery_identity i n).
Proof.
  exists (ln_outbound n), i, (ln_interfaces n), (ln_stats n). split; [by destruct n|done].
Qed.

Lemma queues_rcount f n : queues n (rcount f n).
Proof.
  unfold rcount. destruct (m_router (ln_interfaces n)) as [r|] eqn:Hr; [|done].
  exists (ln_outbound n), (ln_last_delivery_identity n), (m_set_router (r_count f r) (ln_interfaces n)),
    (ln_stats n).
  split; [by destruct n|]. by apply (same_interfaces_write _ r).
Qed.

Lemma queues_interfaces n n' : queues n n' → same_interfaces (ln_interfaces n) (ln_interfaces n').
Proof. by intros (q & i & m & s & -> & Hm). Qed.

(** ** Liveness of a frame *)

(** What staleness of a frame depends on. *)
Lemma stale_ext now n n' q :
  lc_transport_enabled (ln_config n') = lc_transport_enabled (ln_config n) →
  ln_paths n' = ln_paths n → ln_reverse n' = ln_reverse n → ln_links n' = ln_links n →
  ln_discoveries n' = ln_discoveries n → same_interfaces (ln_interfaces n) (ln_interfaces n') →
  stale now n' q = stale now n q.
Proof.
  intros Ht Hp Hr Hl Hd Hi. unfold stale. rewrite (si_current _ _ Hi). f_equal. f_equal.
  unfold outbound_lifetime_is_live, outbound_interface_online. rewrite Ht, Hp, Hr, Hl, Hd, (si_online _ _ Hi).
  destruct (PathTable.get_generation _ _ _) as [path|]; rewrite ?(si_online _ _ Hi);
    destruct (ol_state _) as [|g|g|id]; try done;
    [destruct (ReverseTable.get_generation _ _ _)|destruct (LinkTable.get_generation _ _ _)|
     destruct (ReverseTable.get_generation _ _ _)|destruct (LinkTable.get_generation _ _ _)];
    by rewrite ?(si_online _ _ Hi).
Qed.

Lemma stale_queues now n n' q : queues n n' → stale now n' q = stale now n q.
Proof. intros (x & i & m & s & -> & Hm). by apply stale_ext. Qed.

(** ** Expiry *)

Lemma remove_frames off n :
  queue_ok n →
  let n' := set_outbound (snd (RingQueue.remove off (ln_outbound n))) n in
  queue_ok n' ∧ frames n' = delete off (frames n) ∧
  RingQueue.capacity (ln_outbound n') = RingQueue.capacity (ln_outbound n) ∧
  fst (RingQueue.remove off (ln_outbound n)) = frames n !! off.
Proof.
  intros Hok n'. pose proof (RingQueue.remove_rep _ _ off Hok) as Hr. unfold n'.
  destruct (RingQueue.remove off (ln_outbound n)) as [r q] eqn:Hq. cbn [fst snd].
  destruct Hr as (Hv & Hc & Hr).
  destruct (queue_ok_rep (set_outbound q n) _ Hr) as [Hok' Hf]. done.
Qed.

(** The counters after losing one frame to expiry. *)
Definition expired_stats (s : TransportStats) : TransportStats :=
  TransportStats.count_outbound_dropped (TransportStats.count_outbound_expired s).

Lemma expire_loop_spec fuel now n :
  queue_ok n → length (frames n) < fuel →
  ∃ q, let n' := expire_loop fuel now n in
    n' = set_stats (Nat.iter (length (frames n) - length (frames n')) expired_stats (ln_stats n))
           (set_outbound q n) ∧
    queue_ok n' ∧ frames n' = List.filter (λ f, negb (stale now n f)) (frames n) ∧
    RingQueue.capacity (ln_outbound n') = RingQueue.capacity (ln_outbound n).
Proof.
  revert n. induction fuel as [|fuel IH]; intros n Hok Hlen; [lia|]. simpl.
  change (RingQueue.iter (ln_outbound n)) with (frames n).
  destruct (position (stale now n) (frames n)) as [off|] eqn:Hp.
  - destruct (remove_frames off n Hok) as (Hok1 & Hf1 & Hc1 & _).
    set (n1 := record_expired_outbound _).
    assert (Hn1 : queue_ok n1 ∧ frames n1 = delete off (frames n)) by done.
    destruct Hn1 as [Hokn Hfn]. destruct (filter_delete _ _ _ Hp) as [Hfil Hl1].
    pose proof (position_lt _ _ _ Hp) as Hlt.
    assert (Hq1 : queues n n1).
    { unfold n1, record_expired_outbound. etrans; [apply queues_set_outbound|].
      etrans; apply queues_count. }
    destruct (IH n1) as (q & Heq & Hok' & Hf' & Hc'); [done|rewrite Hfn, Hl1; lia|].
    exists q. cbv zeta in *. split; [|split; [done|split]].
    + rewrite Heq at 1. unfold n1 at 2 3. cbn.
      assert (Hle : length (frames (expire_loop fuel now n1)) ≤ length (frames n1)).
      { rewrite Hf'. apply filter_length_le. }
      rewrite Hfn, Hl1 in Hle |- *.
      replace (length (frames n) - length (frames (expire_loop fuel now n1)))
        with (S (pred (length (frames n)) - length (frames (expire_loop fuel now n1)))) by lia.
      rewrite Nat.iter_succ_r. destruct n. reflexivity.
    + rewrite Hf', Hfn. rewrite <- Hfil. apply filter_ext. intros f. by rewrite (stale_queues now n n1).
    + rewrite Hc'. exact Hc1.
  - exists (ln_outbound n). rewrite Nat.sub_diag. simpl. split; [by destruct n|].
    split; [done|]. split; [|done]. symmetry. by apply filter_none.
Qed.

(** Expiry keeps exactly the frames that may still be sent, in order, and
    accounts for the others. *)
Lemma expire_outbound_spec now n :
  queue_ok n →
  ∃ q, let n' := expire_outbound now n in
    n' = set_stats (Nat.iter (length (frames n) - length (frames n')) expired_stats (ln_stats n))
           (set_outbound q n) ∧
    queue_ok n' ∧ frames n' = List.filter (λ f, negb (stale now n f)) (frames n) ∧
    RingQueue.capacity (ln_outbound n') = RingQueue.capacity (ln_outbound n).
Proof.
  intros Hok. apply expire_loop_spec; [done|]. unfold outbound_len. destruct Hok as (Hl & _). lia.
Qed.

Lemma expire_queues now n : queues n (expire_outbound now n).
Proof.
  unfold expire_outbound. generalize (S (outbound_len n)). intros fuel. revert n.
  induction fuel as [|fuel IH]; intros n; simpl; [done|].
  destruct (position _ _); [|done]. etrans; [|apply IH]. unfold record_expired_outbound.
  etrans; [apply queues_set_outbound|]. etrans; apply queues_count.
Qed.

(** ** Admission *)

Lemma position_elem {A} (p : A → bool) (l : list A) i :
  position p l = Some i → ∃ x, l !! i = Some x ∧ p x = true.
Proof. intros Hp. apply position_Some in Hp as (x & Hx & Hpx & _). by exists x. Qed.

(** The frame a reservation on a router gives up. *)
Definition displaced (id : Z) (reason : OutboundReason) (l : list (QueuedOutbound D)) (off : nat) : Prop :=
  ∃ v, l !! off = Some v ∧ on_interface id v = true ∧
    (is_gated v = true ∨
     OutboundReason.gated reason = false ∧ ∀ q, q ∈ l → on_interface id q = true → is_gated q = false).

Lemma reserve_spec id reason n :
  queue_ok n →
  let (ok, n') := reserve_router_queue id reason n in
  queues n n' ∧ queue_ok n' ∧
  RingQueue.capacity (ln_outbound n') = RingQueue.capacity (ln_outbound n) ∧
  ln_last_delivery_identity n' = ln_last_delivery_identity n ∧
  ln_interfaces n' = ln_interfaces n ∧
  (ok = false → n' = n) ∧
  (ok = true → match m_router (ln_interfaces n) with
   | None => n' = n
   | Some r => ∃ i, Router.interface id r = Some i ∧
       if if_tx_queue_depth i <=? length (List.filter (on_interface id) (frames n))
       then ∃ off, displaced id reason (frames n) off ∧ frames n' = delete off (frames n)
       else n' = n ∧ length (frames n) < RingQueue.capacity (ln_outbound n)
   end).
Proof.
  intros Hok. unfold reserve_router_queue. change (RingQueue.iter (ln_outbound n)) with (frames n).
  destruct (m_router (ln_interfaces n)) as [r|]; [|by split_and!].
  destruct (Router.interface id r) as [i|]; [|by split_and!].
  case_if; [by split_and!|]. case_if.
  - destruct (or_else _ _) as [off|] eqn:Hoff; [|by split_and!].
    destruct (remove_frames off n Hok) as (Hok' & Hf & Hc & _).
    split; [etrans; [apply queues_set_outbound|apply queues_count]|].
    split; [exact Hok'|]. split; [exact Hc|]. split; [done|]. split; [done|]. split; [done|].
    intros _. exists i. rewrite (proj2 (Nat.leb_le _ _)) by done. split; [done|].
    exists off. split; [|exact Hf].
    unfold or_else in Hoff. destruct (position _ (frames n)) as [o|] eqn:Hp.
    + injection Hoff as <-. apply position_elem in Hp as (v & Hv & [Hi Hg]%andb_true_iff).
      exists v. auto.
    + destruct (OutboundReason.gated reason) eqn:Hgr; [done|].
      apply position_elem in Hoff as (v & Hv & Hi). exists v. split; [done|]. split; [done|].
      right. split; [done|]. intros q [j Hj]%list_elem_of_lookup Hq.
      rewrite position_None in Hp. specialize (Hp j q Hj). by rewrite Hq in Hp.
  - case_if; [by split_and!|]. split_and!; try done. intros _. exists i. split; [done|].
    rewrite (proj2 (Nat.leb_gt _ _)) by done. split; [done|].
    unfold outbound_len in *. destruct Hok as (Hl & _). lia.
Qed.

Lemma push_frames v n :
  queue_ok n → 0 < RingQueue.capacity (ln_outbound n) →
  let (evicted, q) := RingQueue.push_drop_oldest v (ln_outbound n) in
  let n' := set_outbound q n in
  queue_ok n' ∧ RingQueue.capacity q = RingQueue.capacity (ln_outbound n) ∧
  evicted = (length (frames n) =? RingQueue.capacity (ln_outbound n)) ∧
  frames n' = (if evicted then tail (frames n) else frames n) ++ [v].
Proof.
  intros Hok Hc. pose proof (RingQueue.push_rep _ _ v Hok Hc) as Hp.
  destruct (RingQueue.push_drop_oldest v (ln_outbound n)) as [evicted q]. cbv zeta.
  destruct Hp as (-> & Hcap & Hr). destruct (queue_ok_rep (set_outbound q n) _ Hr) as [Hok' Hf].
  done.
Qed.

Lemma sublist_delete {A} (l : list A) i : delete i l `sublist_of` l.
Proof. revert i. induction l as [|x l IH]; intros [|i]; simpl; by repeat constructor. Qed.

Lemma sublist_tail {A} (l : list A) : tail l `sublist_of` l.
Proof. destruct l; by repeat constructor. Qed.

(** The frame an admission queues. *)
Definition queued_frame (id : Z) (wire : PacketBuffer) (reason : OutboundReason)
    (lifetime : OutboundLifetime) n : QueuedOutbound D :=
  {| qo_frame := {| of_interface_id := id; of_packet := wire; of_reason := reason;
                    of_lifetime := lifetime |};
     qo_delivery := m_delivery (ln_last_delivery_identity n + 1) id (ln_interfaces n) |}.

(** What an admission keeps. An endpoint's full queue loses its oldest frame; a
    router's queue only gives up a frame of the same interface, and only when
    that interface has its share. *)
Definition kept_frames (id : Z) (reason : OutboundReason) (kept : list (QueuedOutbound D)) n : Prop :=
  match m_router (ln_interfaces n) with
  | Some r => ∃ i, Router.interface id r = Some i ∧
      if if_tx_queue_depth i <=? length (List.filter (on_interface id) (frames n))
      then ∃ off, displaced id reason (frames n) off ∧ kept = delete off (frames n)
      else kept = frames n ∧ length (frames n) < RingQueue.capacity (ln_outbound n)
  | None => kept = if length (frames n) =? RingQueue.capacity (ln_outbound n) then tail (frames n) else frames n
  end.

(** A refused admission. *)
Lemma queue_unchanged n n' :
  queue_ok n → queues n n' → ln_outbound n' = ln_outbound n →
  ln_last_delivery_identity n' = ln_last_delivery_identity n →
  queues n n' ∧ queue_ok n' ∧
  RingQueue.capacity (ln_outbound n') = RingQueue.capacity (ln_outbound n) ∧
  frames n' = frames n ∧ ln_last_delivery_identity n' = ln_last_delivery_identity n.
Proof. intros Hok Hq Ho Hl. unfold queue_ok, frames in *. by rewrite Ho, Hl. Qed.

Lemma rcount_queue f n :
  ln_outbound (rcount f n) = ln_outbound n ∧
  ln_last_delivery_identity (rcount f n) = ln_last_delivery_identity n.
Proof. unfold rcount. by destruct (m_router _). Qed.

Lemma queues_counted f g n : queues n (count f (rcount g n)).
Proof. etrans; [apply queues_rcount|apply queues_count]. Qed.

(** What the push after a successful reservation leaves. *)
Lemma push_reserved id wire reason lifetime n n1 :
  queue_ok n → 0 < RingQueue.capacity (ln_outbound n) →
  reserve_router_queue id reason n = (true, n1) →
  let n2 := set_last_delivery_identity (ln_last_delivery_identity n + 1) n1 in
  let (evicted, q) := RingQueue.push_drop_oldest (queued_frame id wire reason lifetime n) (ln_outbound n2) in
  queues n (set_outbound q n2) ∧ queue_ok (set_outbound q n2) ∧
  RingQueue.capacity q = RingQueue.capacity (ln_outbound n) ∧
  ∃ kept, kept_frames id reason kept n ∧
    frames (set_outbound q n2) = kept ++ [queued_frame id wire reason lifetime n].
Proof.
  intros Hok Hcap Hres n2. pose proof (reserve_spec id reason n Hok) as Hspec. rewrite Hres in Hspec.
  destruct Hspec as (Hq1 & Hok1 & Hc1 & _ & _ & _ & Htrue).
  assert (Hcap2 : 0 < RingQueue.capacity (ln_outbound n2)) by (change (ln_outbound n2) with (ln_outbound n1); lia).
  pose proof (push_frames (queued_frame id wire reason lifetime n) n2 Hok1 Hcap2) as Hpush.
  destruct (RingQueue.push_drop_oldest _ (ln_outbound n2)) as [evicted q].
  destruct Hpush as (Hokq & Hcq & Hev & Hfq). change (frames n2) with (frames n1) in *.
  change (RingQueue.capacity (ln_outbound n2)) with (RingQueue.capacity (ln_outbound n1)) in *.
  split; [etrans; [exact Hq1|]; etrans; [apply queues_set_identity|apply queues_set_outbound]|].
  split; [done|]. split; [by rewrite Hcq|]. exists (if evicted then tail (frames n1) else frames n1).
  split; [|done]. specialize (Htrue eq_refl). unfold kept_frames.
  destruct (m_router (ln_interfaces n)) as [r|].
  - destruct Htrue as (i & Hi & Hcase). exists i. split; [done|].
    destruct (if_tx_queue_depth i <=? length (List.filter (on_interface id) (frames n))).
    + destruct Hcase as (off & Hd & Hf). exists off. split; [done|].
      rewrite (proj2 (Nat.eqb_neq _ _)) in Hev; [by rewrite Hev|].
      pose proof Hok as (_ & Hle & _). rewrite Hf, Hc1.
      destruct Hd as (v & Hv & _). apply lookup_lt_Some in Hv.
      pose proof (length_delete (frames n) off ltac:(by apply lookup_lt_is_Some)). lia.
    + destruct Hcase as [-> Hlt]. rewrite (proj2 (Nat.eqb_neq _ _)) in Hev by lia. by rewrite Hev.
  - rewrite Htrue in *. by rewrite <- Hev.
Qed.

Lemma reserve_queues id reason n : queues n (snd (reserve_router_queue id reason n)).
Proof.
  unfold reserve_router_queue. repeat (case_match; try done);
    (etrans; [apply queues_set_outbound|apply queues_count]).
Qed.

Lemma enqueue_queues id packet reason lifetime n :
  queues n (snd (enqueue_with_lifetime id packet reason lifetime n)).
Proof.
  unfold enqueue_with_lifetime. case_if; [apply queues_counted|]. case_if.
  { cbv zeta. etrans; [apply (queues_count TransportStats.count_outbound_dropped)|].
    cbn [snd].
    destruct (m_router (ln_interfaces (count _ n))); [apply queues_counted|done]. }
  destruct (wrap id packet n); [|etrans; [apply (queues_count TransportStats.count_outbound_dropped)|apply queues_count]].
  destruct (checked_add64 _ _); [|apply queues_count].
  pose proof (reserve_queues id reason n) as Hr.
  destruct (reserve_router_queue id reason n) as [[] n1]; (etrans; [exact Hr|]).
  - cbv zeta. cbn [snd]. destruct (RingQueue.push_drop_oldest _ _) as [evicted q].
    etrans; [|apply queues_count]. etrans; [apply queues_set_identity|].
    etrans; [apply queues_set_outbound|]. case_if; [apply queues_count|done].
  - cbv zeta. cbn [snd]. etrans; [apply (queues_count TransportStats.count_outbound_dropped)|].
    case_if; [apply queues_count|done].
Qed.

Lemma enqueue_spec id packet reason lifetime n :
  queue_ok n → 0 < RingQueue.capacity (ln_outbound n) →
  let (ok, n') := enqueue_with_lifetime id packet reason lifetime n in
  queues n n' ∧ queue_ok n' ∧
  RingQueue.capacity (ln_outbound n') = RingQueue.capacity (ln_outbound n) ∧
  if ok : bool then
    ∃ wire kept, wrap id packet n = Some wire ∧ pb_len packet ≤ interface_clear_mtu id n ∧
      (ln_last_delivery_identity n < u64_max)%Z ∧
      kept_frames id reason kept n ∧ frames n' = kept ++ [queued_frame id wire reason lifetime n] ∧
      ln_last_delivery_identity n' = (ln_last_delivery_identity n + 1)%Z
  else frames n' = frames n ∧ ln_last_delivery_identity n' = ln_last_delivery_identity n.
Proof.
  intros Hok Hcap. unfold enqueue_with_lifetime. case_if.
  { apply queue_unchanged; [done|apply queues_counted|..]; apply rcount_queue. }
  case_if.
  { cbv zeta. set (n1 := count TransportStats.count_outbound_dropped n).
    change (ln_interfaces n1) with (ln_interfaces n).
    assert (Hq : queues n n1) by apply queues_count.
    destruct (m_router (ln_interfaces n)); apply queue_unchanged; try done;
      [etrans; [exact Hq|apply queues_counted]|apply (rcount_queue _ n1)..]. }
  destruct (wrap id packet n) as [wire|] eqn:Hw.
  2:{ apply queue_unchanged; [done| |done..]. etrans; apply queues_count. }
  destruct (checked_add64 _ _) as [next|] eqn:Hnext.
  2:{ apply queue_unchanged; [done| |done..]. apply queues_count. }
  apply checked_add64_Some in Hnext as [-> Hnext].
  pose proof (reserve_spec id reason n Hok) as Hres.
  destruct (reserve_router_queue id reason n) as [ok n1] eqn:Hr.
  destruct Hres as (_ & _ & _ & _ & Hi1 & Hfalse & _).
  destruct ok.
  - pose proof (push_reserved id wire reason lifetime n n1 Hok Hcap Hr) as Hpush.
    unfold queued_frame in Hpush at 1. cbv zeta in *.
    change (ln_interfaces (set_last_delivery_identity _ n1)) with (ln_interfaces n1). rewrite Hi1.
    destruct (RingQueue.push_drop_oldest _ _) as [evicted q].
    destruct Hpush as (Hq & Hokq & Hcq & kept & Hk & Hf).
    split; [etrans; [exact Hq|]; etrans; [|apply queues_count]; case_if; [apply queues_count|done]|].
    split; [by destruct evicted|]. split; [by destruct evicted|]. exists wire, kept.
    split; [done|]. split; [done|]. split; [lia|]. by destruct evicted.
  - rewrite Hfalse by done. cbv zeta. apply queue_unchanged; [done| |by destruct m_ROUTER..].
    etrans; [apply queues_count|]. case_if; [apply queues_count|done].
Qed.

(** ** Sequences of admissions *)

(** Frames issued between two delivery identities, in order. *)
Definition issued (m : M) (a b : Z) (l : list (QueuedOutbound D)) : Prop :=
  ∃ ks, StronglySorted Z.lt ks ∧ Forall (λ k, (a < k ≤ b)%Z) ks ∧
    Forall2 (λ k f, qo_delivery f = m_delivery k (of_interface_id (qo_frame f)) m ∧
                    PacketBuffer.wf WIRE_MTU_MAX (of_packet (qo_frame f))) ks l.

(** A queue step only drops frames and appends freshly issued ones. *)
Record queue_step n n' : Prop := {
  qs_queues : queues n n';
  qs_ok : queue_ok n → 0 < RingQueue.capacity (ln_outbound n) →
    queue_ok n' ∧ RingQueue.capacity (ln_outbound n') = RingQueue.capacity (ln_outbound n) ∧
    (ln_last_delivery_identity n ≤ ln_last_delivery_identity n')%Z ∧
    ∃ new, frames n' `sublist_of` frames n ++ new ∧
      issued (ln_interfaces n) (ln_last_delivery_identity n) (ln_last_delivery_identity n') new
}.

Lemma issued_nil m a b : issued m a b [].
Proof. exists []. by repeat constructor. Qed.

Lemma issued_app m a b c l1 l2 :
  (a ≤ b ≤ c)%Z → issued m a b l1 → issued m b c l2 → issued m a c (l1 ++ l2).
Proof.
  intros Hab (k1 & Hs1 & Hr1 & Hf1) (k2 & Hs2 & Hr2 & Hf2). exists (k1 ++ k2).
  rewrite Forall_forall in Hr1, Hr2. split; [|split].
  - apply StronglySorted_app_2; [|done..]. intros x y Hx%Hr1 Hy%Hr2. lia.
  - apply Forall_forall. intros x [Hx%Hr1|Hx%Hr2]%elem_of_app; lia.
  - by apply Forall2_app.
Qed.

Lemma issued_interfaces m m' a b l : same_interfaces m m' → issued m' a b l → issued m a b l.
Proof.
  intros Hs (ks & H1 & H2 & H3). exists ks. split; [done|]. split; [done|].
  eapply Forall2_impl; [exact H3|]. intros k f [-> Hw]. split; [apply (si_delivery _ _ Hs)|done].
Qed.

#[export] Instance queue_step_preorder : PreOrder queue_step.
Proof.
  split.
  - intros n. split; [done|]. intros Hok Hc. split; [done|]. split; [done|]. split; [done|].
    exists []. rewrite app_nil_r. split; [done|apply issued_nil].
  - intros n1 n2 n3 [Hq1 H1] [Hq2 H2]. split; [by etrans|]. intros Hok Hc.
    destruct (H1 Hok Hc) as (Hok2 & Hc2 & Hl2 & new1 & Hs1 & Hi1).
    destruct (H2 Hok2 ltac:(by rewrite Hc2)) as (Hok3 & Hc3 & Hl3 & new2 & Hs2 & Hi2).
    split; [done|]. split; [congruence|]. split; [lia|]. exists (new1 ++ new2). split.
    + rewrite app_assoc. etrans; [exact Hs2|]. by apply sublist_app.
    + eapply issued_app; [split; [exact Hl2|exact Hl3]|done|].
      eapply issued_interfaces; [by apply queues_interfaces|done].
Qed.

(** A step that leaves the queue alone. *)
Lemma queue_step_still n n' :
  queues n n' → ln_outbound n' = ln_outbound n →
  ln_last_delivery_identity n' = ln_last_delivery_identity n → queue_step n n'.
Proof.
  intros Hq Ho Hl. split; [done|]. intros Hok Hc. unfold queue_ok, frames in *. rewrite Ho, Hl.
  split; [done|]. split; [done|]. split; [done|].
  exists []. rewrite app_nil_r. split; [done|apply issued_nil].
Qed.

Lemma step_count f n : queue_step n (count f n).
Proof. apply queue_step_still; [apply queues_count|done..]. Qed.

Lemma step_rcount f n : queue_step n (rcount f n).
Proof. apply queue_step_still; [apply queues_rcount|apply rcount_queue..]. Qed.

Lemma step_expire_outbound now n : queue_step n (expire_outbound now n).
Proof.
  split; [apply expire_queues|]. intros Hok Hc.
  destruct (expire_outbound_spec now n Hok) as (q & Heq & Hok' & Hf & Hc').
  split; [done|]. split; [done|]. split; [by rewrite Heq|].
  exists []. rewrite app_nil_r, Hf. split; [|apply issued_nil].
  clear. induction (frames n) as [|f l IH]; simpl; [done|]. case_if; by constructor.
Qed.

(** The wire buffer a frame is built in. *)
Lemma buf_try_wf CAP (c : st PacketBuffer BufferError unit) (k : st PacketBuffer IfacError unit) b :
  (∀ b, PacketBuffer.wf CAP b → PacketBuffer.wf CAP (snd (c b))) →
  (∀ b, PacketBuffer.wf CAP b → PacketBuffer.wf CAP (snd (k b))) →
  PacketBuffer.wf CAP b → PacketBuffer.wf CAP (snd ((buf_try c ;;; k) b)).
Proof.
  intros Hc Hk Hb. unfold st_bind, buf_try. specialize (Hc b Hb).
  destruct (c b) as [[[]|e|] b']; simpl in *; auto.
Qed.

Lemma wrap_wf id packet n wire : wrap id packet n = Some wire → PacketBuffer.wf WIRE_MTU_MAX wire.
Proof.
  unfold wrap. destruct (m_ifac _ _ _) as [ifac|].
  - unfold ifac_sign_into. destruct (validate_size _) as [s|e|]; [|done..].
    destruct (PacketBuffer.as_slice packet) as [|b0 [|b1 rest]]; [done..|]. case_if; [done|].
    destruct (derive_mask _ _ _) as [mask|e|]; [|done..]. intros Hw.
    match type of Hw with context [?c (PacketBuffer.clear _)] => set (k := c) in Hw end.
    assert (Hk : PacketBuffer.wf WIRE_MTU_MAX (snd (k (PacketBuffer.clear (PacketBuffer.new WIRE_MTU_MAX))))).
    { apply buf_try_wf; [intros; by apply PacketBuffer.wf_push| |by apply PacketBuffer.wf_clear, PacketBuffer.wf_new].
      intros b1' Hb1. apply buf_try_wf; [intros; by apply PacketBuffer.wf_push| |done].
      intros b2 Hb2. apply buf_try_wf; [intros; by apply PacketBuffer.wf_extend| |done].
      intros b3 Hb3. apply buf_try_wf; [intros; by apply PacketBuffer.wf_extend| |done].
      intros b4 Hb4. apply PacketBuffer.write_slice_content; [done|].
      rewrite length_imap. by apply (PacketBuffer.length_as_slice WIRE_MTU_MAX). }
    destruct (k _) as [[[]|e|] w]; [|done..]. by injection Hw as <-.
  - pose proof (PacketBuffer.wf_extend WIRE_MTU_MAX (PacketBuffer.as_slice packet) _
      (PacketBuffer.wf_new WIRE_MTU_MAX)) as Hw.
    destruct (PacketBuffer.extend_from_slice _ _) as [[[]|e|] w]; [|done..]. by intros [= <-].
Qed.

Lemma kept_sublist id reason kept n : kept_frames id reason kept n → kept `sublist_of` frames n.
Proof.
  unfold kept_frames. destruct (m_router _).
  - intros (i & _ & Hk). case_if; [destruct Hk as (off & _ & ->); apply sublist_delete|by destruct Hk as [-> _]].
  - intros ->. case_if; [apply sublist_tail|done].
Qed.

Lemma step_enqueue id packet reason lifetime n :
  queue_step n (snd (enqueue_with_lifetime id packet reason lifetime n)).
Proof.
  split; [apply enqueue_queues|]. intros Hok Hc. pose proof (enqueue_spec id packet reason lifetime n Hok Hc) as Hs.
  destruct (enqueue_with_lifetime _ _ _ _ _) as [ok n']. destruct Hs as (_ & Hok' & Hc' & Hs).
  split; [done|]. split; [done|]. cbn [snd]. destruct ok.
  - destruct Hs as (wire & kept & Hw & _ & _ & Hk & Hf & Hl). split; [lia|].
    exists [queued_frame id wire reason lifetime n]. rewrite Hf, Hl. split.
    + apply sublist_app; [by eapply kept_sublist|done].
    + exists [(ln_last_delivery_identity n + 1)%Z]. split; [by repeat constructor|].
      split; [constructor; [lia|constructor]|]. constructor; [|constructor].
      split; [done|]. by eapply wrap_wf.
  - destruct Hs as [-> ->]. split; [done|].
    exists []. rewrite app_nil_r. split; [done|apply issued_nil].
Qed.

End queue_facts.
