(* ===== verification/NodeSteps.v ===== *)
(** The life of a node as a step relation: each step changes one table, and
    only in the ways the tables allow. Invariants of the node, and what a route
    or a validated link can come from, are proved over sequences of steps; the
    entry points are shown to be such sequences in [NodeRuns]. *)

From S2P Require Import Prelude Constants Primitives Buffer Wire Slots Queue HashTables GenTable.
From S2P Require Import PathTable Lora AnnounceFlow AnnounceTables FlowTables Discovery Config.
From S2P Require Import Ifac Identity KnownDestinations Links Outbound Model Node NodeFacts.

(** An entry of a generation-stamped table. *)
Definition stored {T} (t : GenTable T) (e : T) : Prop := ∃ i, gt_entries t !! i = Some (Some e).

Lemma stored_purge {T} (d : T → bool) t e :
  stored (with_entries (purge d) t) e ↔ stored t e ∧ d e = false.
Proof.
  split.
  - intros [i Hi]. cbn in Hi. apply lookup_purge_Some in Hi as [Hi Hd]. split; [by exists i|done].
  - intros [[i Hi] Hd]. exists i. cbn. by apply lookup_purge_Some.
Qed.

Lemma stored_delete {T} idx (t : GenTable T) e :
  stored (with_entries (insert idx None) t) e → stored t e.
Proof. intros [i Hi]. cbn in Hi. apply list_lookup_insert_Some in Hi as [(_ & [=] & _)|[_ Hi]]. by exists i. Qed.

Lemma stored_insert {T} idx x (t : GenTable T) e :
  stored (with_entries (insert idx (Some x)) t) e → stored t e ∨ e = x.
Proof.
  intros [i Hi]. cbn in Hi. apply list_lookup_insert_Some in Hi as [(_ & [=] & _)|[_ Hi]]; [by right|].
  left. by exists i.
Qed.

Lemma stored_store {T} idx x g (t : GenTable T) e : stored (gen_store idx x g t) e → stored t e ∨ e = x.
Proof.
  intros [i Hi]. cbn in Hi. apply list_lookup_insert_Some in Hi as [(_ & [=] & _)|[_ Hi]]; [by right|].
  left. by exists i.
Qed.

Lemma stored_update {T} (p : T → bool) f t e :
  stored (with_entries (update_first p f) t) e → stored t e ∨ ∃ e0, stored t e0 ∧ p e0 = true ∧ e = f e0.
Proof.
  intros [i Hi]. cbn in Hi. rewrite lookup_update_first in Hi.
  destruct (gt_entries t !! i) as [[e0|]|] eqn:He; [|done..].
  case_bool_decide as Hp; injection Hi as <-; [right|by left; exists i].
  exists e0. split; [by exists i|]. split; [|done].
  apply position_Some in Hp as (s & Hs & Hps & _). rewrite He in Hs. by injection Hs as <-.
Qed.

Lemma stored_clear {T} `{Entry T K} (t : GenTable T) e : ¬ stored (gen_clear t) e.
Proof. intros [i Hi]. cbn in Hi. by apply lookup_replicate in Hi as [[=] _]. Qed.

(** * Routes *)

(** The same route and announce, with other times. *)
Definition with_time (expires seen : Z) (e : PathEntry) : PathEntry :=
  {| pe_destination_hash := pe_destination_hash e; pe_next_hop := pe_next_hop e;
     pe_hops := pe_hops e; pe_interface_id := pe_interface_id e; pe_expires_ms := expires;
     pe_last_seen_ms := seen; pe_packet_hash := pe_packet_hash e;
     pe_random_hash := pe_random_hash e; pe_public_key := pe_public_key e; pe_bulk := pe_bulk e |}.

Definition renewed (e e' : PathEntry) : Prop := ∃ x s, e' = with_time x s e.

#[export] Instance renewed_preorder : PreOrder renewed.
Proof.
  split.
  - intros e. exists (pe_expires_ms e), (pe_last_seen_ms e). by destruct e.
  - intros e1 e2 e3 (x & s & ->) (x' & s' & ->). by exists x', s'.
Qed.

(** What happens to the path table other than learning. *)
Inductive path_upkeep (t : PathTable) : PathTable → Prop :=
| upkeep_touch d now : path_upkeep t (PathTable.touch d now t)
| upkeep_expire now : path_upkeep t (PathTable.expire now t)
| upkeep_drop d : path_upkeep t (snd (PathTable.drop_path d t))
| upkeep_interface i : path_upkeep t (PathTable.remove_interface i t)
| upkeep_clear : path_upkeep t (PathTable.clear t).

Lemma upkeep_step t t' : path_upkeep t t' → PathTable.step t t'.
Proof. intros []; constructor. Qed.

Lemma path_expire_stored now t e : stored (PathTable.expire now t) e → stored t e.
Proof. rewrite PathTable.expire_eq. by intros [He _]%stored_purge. Qed.

Lemma upkeep_stored t t' e' : path_upkeep t t' → stored t' e' → ∃ e, stored t e ∧ renewed e e'.
Proof.
  intros [d now|now|d|i|]; intros He.
  - unfold PathTable.touch in He. apply stored_update in He as [He|(e & He & _ & ->)]; [by exists e'|].
    exists e. split; [done|]. by exists (sat_add64 now (sat_sub (pe_expires_ms e) (pe_last_seen_ms e))), now.
  - exists e'. split; [by eapply path_expire_stored|done].
  - unfold PathTable.drop_path in He. destruct (position _ _); [apply stored_delete in He|]; by exists e'.
  - unfold PathTable.remove_interface in He. apply stored_purge in He as [He _]. by exists e'.
  - by apply stored_clear in He.
Qed.

Lemma learn_stored e now t e' :
  stored (snd (PathTable.insert_or_update e now t)) e' → stored t e' ∨ e' = e.
Proof.
  unfold PathTable.insert_or_update, PathTable.replace_entry. intros He.
  assert (Hx : stored (PathTable.expire now t) e' ∨ e' = e).
  { destruct (position _ _) as [idx|].
    - destruct (mjoin _) as [old|]; [|by left]. destruct (PathTable.should_replace _ _ _); [|by left].
      destruct (slot_is _ _); [by apply stored_insert in He|].
      destruct (PathTable.next_generation _); [by apply stored_store in He|by left].
    - destruct (or_else _ _) as [idx|]; [|by left].
      destruct (slot_is _ _); [by apply stored_insert in He|].
      destruct (PathTable.next_generation _); [by apply stored_store in He|by left]. }
  destruct Hx as [Hx| ->]; [left; by eapply path_expire_stored|by right].
Qed.

(** * Links *)

(** The destination's signing key has its length. *)
Definition link_keyed (e : LinkEntry) : Prop :=
  ∀ key, le_destination_ed25519 e = Some key → length key = 32.

(** What happens to the link table other than validation. *)
Inductive link_upkeep (t : LinkTable) : LinkTable → Prop :=
| link_insert e now : le_validated e = false → link_keyed e → link_upkeep t (LinkTable.insert e now t)
| link_free now : link_upkeep t (snd (LinkTable.has_free_slot now t))
| link_touch k x now : link_upkeep t (LinkTable.touch k x now t)
| link_interface i : link_upkeep t (LinkTable.remove_interface i t)
| link_expire now : link_upkeep t (LinkTable.expire now t)
| link_clear : link_upkeep t (LinkTable.clear t).

Lemma link_upkeep_step t t' : link_upkeep t t' → LinkTable.step t t'.
Proof. intros []; constructor. Qed.

#[export] Existing Instance LinkTable.same_link_preorder.

Lemma link_expire_stored now t e : stored (LinkTable.expire now t) e → stored t e.
Proof. by intros [He _]%stored_purge. Qed.

Lemma gen_insert_stored {T} `{EqDecision K, Entry T K} (x : T) now t e :
  stored (gen_insert x now t) e → stored t e ∨ e = x.
Proof.
  unfold gen_insert. intros He. cbv zeta in He.
  assert (Hx : stored (with_entries (expire_slots now) t) e ∨ e = x).
  { destruct (gen_next _); [|by left]. destruct (or_else _ _); [by apply stored_store in He|by left]. }
  destruct Hx as [Hx|]; [|by right]. left. by apply stored_purge in Hx as [Hx _].
Qed.

Lemma same_link_key e e' : LinkTable.same_link e e' → le_destination_ed25519 e' = le_destination_ed25519 e.
Proof. by intros [-> _]. Qed.

Lemma link_upkeep_stored t t' e' :
  link_upkeep t t' → stored t' e' →
  (∃ e, stored t e ∧ le_validated e = le_validated e' ∧ LinkTable.same_link e e') ∨
  (le_validated e' = false ∧ link_keyed e').
Proof.
  intros [x now Hx Hkey|now|k x now|i|now|] He.
  - change (LinkTable.insert x now t) with (gen_insert x now t) in He.
    apply gen_insert_stored in He as [He| ->]; [|by right]. left. by exists e'.
  - left. apply link_expire_stored in He. by exists e'.
  - left. unfold LinkTable.touch in He. apply stored_update in He as [He|(e & He & _ & ->)];
      apply link_expire_stored in He; [by exists e'|]. exists e. split; [done|]. split; [done|].
    split; by destruct e.
  - left. apply stored_purge in He as [He _]. by exists e'.
  - left. apply link_expire_stored in He. by exists e'.
  - by apply stored_clear in He.
Qed.

Lemma validate_stored k x now t e' :
  stored (LinkTable.mark_validated k x now t) e' →
  stored t e' ∨ ∃ e, stored t e ∧ (now < le_expires_ms e)%Z ∧ le_link_id e = k ∧ LinkTable.same_link e e'.
Proof.
  unfold LinkTable.mark_validated. intros [He|(e & He & Hk & ->)]%stored_update.
  - left. by eapply link_expire_stored.
  - right. apply stored_purge in He as [He Hl]. exists e. split; [done|].
    apply bool_decide_eq_true in Hk.
    split; [|split; [done|split; by destruct e]].
    cbn in Hl. lia.
Qed.

Section steps.
Context `{SHA : Sha256} `{HKDF : HkdfSha256} `{ED : Ed25519} `{HL : ModelLaws M D}.
Abbreviation LiteNode := (LiteNode M D).
Implicit Types n : LiteNode.

(** The evidence a route and a validated link need. *)
Variable (may_learn : PathEntry → Prop) (may_validate : LinkEntry → Prop).

(** A duplicate table keeps its capacity and its keys stay distinct. *)
Definition keeps_keys {T} `{Entry T (list Z)} (t t' : list (option T)) : Prop :=
  length t' = length t ∧ (unique_keys t → unique_keys t').

Inductive node_step : LiteNode → LiteNode → Prop :=
| ns_queue n n' : queue_step n n' → node_step n n'
| ns_clock now n : node_step n (set_clock_ms now n)
| ns_observe meta n : node_step n (observe_interface meta n)
| ns_admission a n : node_step n (set_announce_admission a n)
| ns_known d k now n : length k = PUBLIC_KEY_LENGTH → bytes k → in_u64 now →
    node_step n (set_known_destinations
      (snd (KnownDestinations.learn d k now (ln_known_destinations n))) n)
| ns_hashes t n : keeps_keys (ln_packet_hashes n) t → node_step n (set_packet_hashes t n)
| ns_tags t n : keeps_keys (ln_request_tags n) t → node_step n (set_request_tags t n)
| ns_cache t n : keeps_keys (ln_announce_cache n) t → node_step n (set_announce_cache t n)
| ns_schedule t n :
    AnnounceSchedule.step (ln_announce_schedule n) t → node_step n (set_announce_schedule t n)
| ns_discoveries t n : Discoveries.step (ln_discoveries n) t → node_step n (set_discoveries t n)
| ns_reverse t n : ReverseTable.step (ln_reverse n) t → node_step n (set_reverse t n)
| ns_paths t n : path_upkeep (ln_paths n) t → node_step n (set_paths t n)
| ns_learn e now n : may_learn e → length (pe_public_key e) = PUBLIC_KEY_LENGTH →
    node_step n (set_paths (snd (PathTable.insert_or_update e now (ln_paths n))) n)
| ns_links t n : link_upkeep (ln_links n) t → node_step n (set_links t n)
| ns_validate k x now n :
    (∀ e, LinkTable.get k now (ln_links n) = Some e → may_validate e) →
    node_step n (set_links (LinkTable.mark_validated k x now (ln_links n)) n).

(** ** What steps never change *)

Record static n n' : Prop := {
  st_config : ln_config n' = ln_config n;
  st_transport_id : ln_transport_id n' = ln_transport_id n;
  st_local : ln_local n' = ln_local n;
  st_retained : ln_retained_owner_mode n' = ln_retained_owner_mode n;
  st_router : match m_router (ln_interfaces n), m_router (ln_interfaces n') with
              | Some r, Some r' => same_router r r'
              | None, None => True
              | _, _ => False
              end
}.

#[export] Instance static_preorder : PreOrder static.
Proof.
  split.
  - intros n. split; try done. by destruct (m_router _).
  - intros n1 n2 n3 [] []. split; try congruence.
    destruct (m_router (ln_interfaces n1)), (m_router (ln_interfaces n2)), (m_router (ln_interfaces n3));
      try done. unfold same_router in *. destruct_and?. split_and!; congruence.
Qed.

Lemma static_interfaces n n' :
  ln_config n' = ln_config n → ln_transport_id n' = ln_transport_id n → ln_local n' = ln_local n →
  ln_retained_owner_mode n' = ln_retained_owner_mode n →
  m_router (ln_interfaces n') = m_router (ln_interfaces n) → static n n'.
Proof.
  intros ???? Hr. split; try done. rewrite Hr. destruct (m_router (ln_interfaces n)); by split_and?.
Qed.

Lemma step_static n n' : node_step n n' → static n n'.
Proof.
  intros [n1 n2 Hq| | | | | | | | | | | | | |]; try by apply static_interfaces.
  - destruct (qs_queues _ _ Hq) as (q & i & m & s & -> & Hm). split; try done. apply (si_router _ _ Hm).
  - apply static_interfaces; try done. cbn. apply law_router_observe.
Qed.

Lemma run_static n n' : rtc node_step n n' → static n n'.
Proof. induction 1 as [|? ? ? Hs%step_static _ IH]; [done|by etrans]. Qed.

(** ** Tables follow their own step relations *)

(** A table that only some steps touch, and those by its own steps. *)
Lemma run_table {T} (f : LiteNode → T) (R : T → T → Prop) n n' :
  (∀ a b, node_step a b → R (f a) (f b) ∨ f b = f a) →
  rtc node_step n n' → rtc R (f n) (f n').
Proof.
  intros Hf. induction 1 as [|a b c Hab _ IH]; [done|].
  destruct (Hf _ _ Hab) as [Hr| <-]; [by eapply rtc_l|done].
Qed.

Ltac by_table :=
  apply run_table; intros ? ? [n1 n2 Hq| | | | | | | | | | | | | |];
    [destruct (qs_queues _ _ Hq) as (? & ? & ? & ? & -> & _); by right|..]; cbn; auto.

Lemma run_reverse n n' : rtc node_step n n' → rtc ReverseTable.step (ln_reverse n) (ln_reverse n').
Proof. by_table. Qed.

Lemma run_schedule n n' :
  rtc node_step n n' → rtc AnnounceSchedule.step (ln_announce_schedule n) (ln_announce_schedule n').
Proof. by_table. Qed.

Lemma run_discoveries n n' :
  rtc node_step n n' → rtc Discoveries.step (ln_discoveries n) (ln_discoveries n').
Proof. by_table. Qed.

Lemma run_paths n n' : rtc node_step n n' → rtc PathTable.step (ln_paths n) (ln_paths n').
Proof. by_table; left; [by apply upkeep_step|constructor]. Qed.

Lemma run_links n n' : rtc node_step n n' → rtc LinkTable.step (ln_links n) (ln_links n').
Proof. by_table; left; [by apply link_upkeep_step|constructor]. Qed.

(** ** The invariant *)

Record node_ok n : Prop := {
  no_queue : queue_ok n;
  no_capacity : 0 < RingQueue.capacity (ln_outbound n);
  no_paths : PathTable.ok (ln_paths n);
  no_reverse : ReverseTable.ok (ln_reverse n);
  no_links : LinkTable.ok (ln_links n);
  no_schedule : AnnounceSchedule.ok (ln_announce_schedule n);
  no_cache : unique_keys (ln_announce_cache n);
  no_hashes : unique_keys (ln_packet_hashes n);
  no_tags : unique_keys (ln_request_tags n);
  no_discoveries : Discoveries.ok (ln_discoveries n);
  no_known : KnownDestinations.ok (ln_known_destinations n);
  no_path_keys : ∀ e, stored (ln_paths n) e → length (pe_public_key e) = PUBLIC_KEY_LENGTH;
  no_link_keys : ∀ e, stored (ln_links n) e → link_keyed e;
  no_ifac : ∀ id i, m_ifac id (ln_config n) (ln_interfaces n) = Some i → is_byte (ifac_size i)
}.

Lemma ok_queue n n' : queue_step n n' → node_ok n → node_ok n'.
Proof.
  intros [Hq Hok] []. destruct (Hok no_queue0 no_capacity0) as (Hq' & Hc' & _).
  destruct Hq as (q & i & m & s & -> & Hm). split; try done; [by rewrite Hc'|].
  intros id x. cbn. rewrite (si_ifac _ _ Hm). apply no_ifac0.
Qed.

Lemma step_ok n n' : node_step n n' → node_ok n → node_ok n'.
Proof.
  intros [n1 n2 Hq|z n1|meta n1|a n1|d k now n1 Hk Hb Hn|t n1 [_ Ht]|t n1 [_ Ht]|t n1 [_ Ht]|
    t n1 Ht|t n1 Ht|t n1 Ht|t n1 Ht|e now n1 He Hl|t n1 Ht|k x now n1 Hv]; [by apply ok_queue|..];
    intros []; split; try done; cbn; auto.
  - intros id i. rewrite law_ifac_observe. apply no_ifac0.
  - by apply KnownDestinations.learn_ok.
  - by eapply AnnounceSchedule.sched_step_ok.
  - by eapply Discoveries.disc_step_ok.
  - by eapply ReverseTable.rev_step_keeps.
  - by eapply PathTable.step_keeps, upkeep_step.
  - intros e' He'. destruct (upkeep_stored _ _ _ Ht He') as (e & He & x & s & ->).
    exact (no_path_keys0 e He).
  - by apply PathTable.path_ok_insert.
  - intros e' He'. apply learn_stored in He' as [He'| ->]; [by apply no_path_keys0|done].
  - by eapply LinkTable.link_step_keeps, link_upkeep_step.
  - intros e' He'. destruct (link_upkeep_stored _ _ _ Ht He') as [(e & He & _ & Hs)|[_ Hk]]; [|done].
    unfold link_keyed. rewrite (same_link_key _ _ Hs). by apply no_link_keys0.
  - eapply LinkTable.link_step_keeps; [done|constructor].
  - intros e' He'. apply validate_stored in He' as [He'|(e & He & _ & _ & Hs)]; [by apply no_link_keys0|].
    unfold link_keyed. rewrite (same_link_key _ _ Hs). by apply no_link_keys0.
Qed.

Lemma run_ok n n' : node_ok n → rtc node_step n n' → node_ok n'.
Proof. intros Hok. apply (rtc_preserves _ node_ok); [|done]. intros a b Ha Hab. by eapply step_ok. Qed.

(** A new node, whose queue must have room for a frame. *)
Lemma node_ok_new caps config id :
  0 < OUTBOUND caps →
  (∀ i x, m_ifac i config (m_EMPTY : M) = Some x → is_byte (ifac_size x)) →
  node_ok (new_const caps config id).
Proof.
  intros Hq Hi. split; cbn.
  - by apply (queue_ok_rep _ []), RingQueue.rep_new.
  - unfold RingQueue.capacity. cbn. by rewrite length_replicate.
  - apply PathTable.path_ok_new.
  - apply ReverseTable.rev_ok_new.
  - apply LinkTable.link_ok_new.
  - split; [apply unique_keys_empty|]. intros i e He. by apply lookup_replicate in He as [[=] _].
  - apply unique_keys_empty.
  - apply unique_keys_empty.
  - apply unique_keys_empty.
  - apply Discoveries.disc_ok_new.
  - apply KnownDestinations.ok_new.
  - intros e [i He]. cbn in He. by apply lookup_replicate in He as [[=] _].
  - intros e [i He]. cbn in He. by apply lookup_replicate in He as [[=] _].
  - exact Hi.
Qed.

(** ** Where routes and validated links come from *)

Lemma step_routes n n' e' :
  node_step n n' → stored (ln_paths n') e' →
  (∃ e, stored (ln_paths n) e ∧ renewed e e') ∨ may_learn e'.
Proof.
  intros [n1 n2 Hq|z n1|meta n1|a n1|d k now n1 Hk Hb Hn|t n1 Ht|t n1 Ht|t n1 Ht|
    t n1 Ht|t n1 Ht|t n1 Ht|t n1 Ht|e now n1 He Hl|t n1 Ht|k x now n1 Hv];
    [destruct (qs_queues _ _ Hq) as (? & ? & ? & ? & -> & _)|..]; cbn; intros Hs; try by left; exists e'.
  - left. by eapply upkeep_stored.
  - apply learn_stored in Hs as [Hs| ->]; [left; by exists e'|by right].
Qed.

(** A route of the table is an old one or was learned, times apart. *)
Lemma run_routes n n' e' :
  rtc node_step n n' → stored (ln_paths n') e' →
  (∃ e, stored (ln_paths n) e ∧ renewed e e') ∨ ∃ e, may_learn e ∧ renewed e e'.
Proof.
  intros Hrun. revert e'. pattern n'. revert n' Hrun. apply rtc_ind_r.
  - intros e' Hs. left. by exists e'.
  - intros a b _ Hab IH e' Hs. destruct (step_routes _ _ _ Hab Hs) as [(e & He & Hr)|Hl]; [|right; by exists e'].
    destruct (IH e He) as [(e0 & He0 & Hr0)|(e0 & He0 & Hr0)]; [left|right];
      exists e0; (split; [done|by etrans]).
Qed.

Lemma step_validated n n' e' :
  LinkTable.ok (ln_links n) → node_step n n' → stored (ln_links n') e' → le_validated e' = true →
  (∃ e, stored (ln_links n) e ∧ le_validated e = true ∧ LinkTable.same_link e e') ∨
  ∃ e, may_validate e ∧ LinkTable.same_link e e'.
Proof.
  intros Hok Hstep. revert Hok. destruct Hstep as [n1 n2 Hq|z n1|meta n1|a n1|d k now n1 Hk Hb Hn|t n1 Ht|t n1 Ht|t n1 Ht|
    t n1 Ht|t n1 Ht|t n1 Ht|t n1 Ht|e now n1 He Hl|t n1 Ht|k x now n1 Hv];
    [destruct (qs_queues _ _ Hq) as (? & ? & ? & ? & -> & _)|..]; cbn; intros Hok Hs Htrue;
    try by left; exists e'.
  - left. destruct (link_upkeep_stored _ _ _ Ht Hs) as [(e & He & Hv & Hsame)|[Hv _]]; [|congruence].
    exists e. split; [done|]. split; [congruence|done].
  - apply validate_stored in Hs as [Hs|(e & [i He] & Hl & Hk & Hsame)]; [by left; exists e'|].
    right. exists e. split; [|done]. apply Hv. apply LinkTable.link_get_Some; [done|].
    split; [done|]. split; [done|]. by exists i.
Qed.

(** A validated link was validated before or on the evidence. *)
Lemma run_validated n n' e' :
  LinkTable.ok (ln_links n) → rtc node_step n n' → stored (ln_links n') e' → le_validated e' = true →
  (∃ e, stored (ln_links n) e ∧ le_validated e = true ∧ LinkTable.same_link e e') ∨
  ∃ e, may_validate e ∧ LinkTable.same_link e e'.
Proof.
  intros Hok Hrun. revert e'. pattern n'. revert n' Hrun. apply rtc_ind_r.
  - intros e' Hs Ht. left. by exists e'.
  - intros a b Hab Hbc IH e' Hs Ht.
    assert (Hb : LinkTable.ok (ln_links a))
      by (eapply LinkTable.link_steps_keep, run_links; [exact Hok|exact Hab]).
    destruct (step_validated _ _ _ Hb Hbc Hs Ht) as [(e & He & Hte & Hr)|(e & He & Hr)];
      [|right; by exists e].
    destruct (IH e He Hte) as [(e0 & He0 & Ht0 & Hr0)|(e0 & He0 & Hr0)]; [left|right];
      exists e0; repeat (split; [done|]); by etrans.
Qed.

End steps.

(** More evidence allows more steps. *)
Lemma run_mono `{SHA : Sha256} `{HKDF : HkdfSha256} `{ED : Ed25519} `{HL : ModelLaws M D}
    (l l' : PathEntry → Prop) (v v' : LinkEntry → Prop) (n n' : LiteNode M D) :
  (∀ e, l e → l' e) → (∀ e, v e → v' e) → rtc (node_step l v) n n' → rtc (node_step l' v') n n'.
Proof.
  intros Hl Hv. apply rtc_subrel. intros a b [].
  - by apply ns_queue.
  - apply ns_clock.
  - apply ns_observe.
  - apply ns_admission.
  - by apply ns_known.
  - by apply ns_hashes.
  - by apply ns_tags.
  - by apply ns_cache.
  - by apply ns_schedule.
  - by apply ns_discoveries.
  - by apply ns_reverse.
  - by apply ns_paths.
  - apply ns_learn; auto.
  - by apply ns_links.
  - apply ns_validate. eauto.
Qed.
