(* ===== verification/NodeRuns.v ===== *)
(** Every operation of a node is a sequence of the steps of [NodeSteps]: the
    queue, forwarding, announces, path requests, the tick and ingestion. The
    evidence for a learned route or a validated link is what the handlers have
    checked on the packet. *)

From S2P Require Import Prelude Constants Primitives Buffer Wire Slots Queue HashTables GenTable.
From S2P Require Import PathTable Lora AnnounceFlow AnnounceTables FlowTables Discovery Config.
From S2P Require Import Ifac Identity KnownDestinations Links Outbound Model Node NodeFacts.
From S2P Require Import NodeSteps Forward Announcing Ingest.

Section runs.
Context `{SHA : Sha256} `{HKDF : HkdfSha256} `{ED : Ed25519} `{HL : ModelLaws M D}.
Abbreviation LiteNode := (LiteNode M D).
Implicit Types n : LiteNode.
Variable (may_learn : PathEntry → Prop) (may_validate : LinkEntry → Prop).
Abbreviation run := (rtc (node_step (M := M) (D := D) may_learn may_validate)).

Lemma run_queue n n' : queue_step n n' → run n n'.
Proof. intros. by apply rtc_once, ns_queue. Qed.

Lemma run_count f n : run n (count f n).
Proof. apply run_queue, step_count. Qed.

Lemma run_rcount f n : run n (rcount f n).
Proof. apply run_queue, step_rcount. Qed.

(** A run of one step after another run. *)
Lemma run_then a b c : run a b → node_step may_learn may_validate b c → run a c.
Proof. intros. by eapply rtc_r. Qed.

Lemma run_counted f a b : run a b → run a (count f b).
Proof. intros. etrans; [done|apply run_count]. Qed.

(** ** Queueing *)

Lemma step_forwarded source target packet reason lifetime n :
  queue_step n (snd (enqueue_forwarded_with_lifetime source target packet reason lifetime n)).
Proof.
  unfold enqueue_forwarded_with_lifetime. destruct (m_router _); [|apply step_enqueue].
  destruct (Router.interface _ _); [|apply step_rcount].
  case_if; [apply step_rcount|]. case_if; [apply step_rcount|apply step_enqueue].
Qed.

Lemma step_broadcast_loop slots source packet reason local_only lifetime queued n :
  queue_step n (snd (broadcast_loop slots source packet reason local_only lifetime queued n)).
Proof.
  revert queued n. induction slots as [|slot slots IH]; intros queued n; simpl; [done|].
  destruct (_ ← _; _) as [target|]; [|apply IH]. case_if; [|apply IH].
  pose proof (step_forwarded source (if_id target) packet reason lifetime n) as Hs.
  destruct (enqueue_forwarded_with_lifetime _ _ _ _ _ _) as [ok n1].
  etrans; [exact Hs|apply IH].
Qed.

Lemma step_broadcast_lifetime source packet reason local_only lifetime n :
  queue_step n (snd (enqueue_packet_broadcast_with_lifetime source packet reason local_only lifetime n)).
Proof.
  unfold enqueue_packet_broadcast_with_lifetime. case_if; [|apply step_broadcast_loop].
  pose proof (step_enqueue source packet reason lifetime n) as Hs.
  by destruct (enqueue_with_lifetime _ _ _ _ _) as [ok n1].
Qed.

Lemma step_broadcast source packet reason local_only n :
  queue_step n (snd (enqueue_packet_broadcast source packet reason local_only n)).
Proof. apply step_broadcast_lifetime. Qed.

Lemma step_plain_enqueue id packet reason n : queue_step n (snd (enqueue id packet reason n)).
Proof. apply step_enqueue. Qed.

(** A queue step does not see the reverse table. *)
Lemma queue_step_reverse t t' n m :
  queue_step (set_reverse t n) m → queue_step (set_reverse t' n) (set_reverse t' m).
Proof.
  intros [(q & i & mm & s & -> & Hm) Hok]. split; [|exact Hok].
  exists q, i, mm, s. by split; [destruct n|].
Qed.

(** ** Forwarding *)

Ltac by_step := eapply run_then; [|by constructor; try constructor].

Lemma run_transport_forward raw oh h meta now n :
  run n (snd (handle_transport_forward raw oh h meta now n)).
Proof.
  unfold handle_transport_forward. case_if; [done|]. case_if; [done|].
  destruct (rewrite_forwarded_transport_packet _ _ _ _ _) as [[[target fwd]|]|e|]; try done.
  destruct (ReverseTable.next_generation _) as [g|]; [|done]. cbv zeta.
  match goal with |- context [enqueue_forwarded_with_lifetime ?a ?b ?c ?d ?l n] =>
    pose proof (step_forwarded a b c d l n) as Hs;
    destruct (enqueue_forwarded_with_lifetime a b c d l n) as [[] n1] end;
    apply run_queue in Hs; cbn [snd] in *; [|done].
  eapply run_then; [|apply ns_reverse; constructor].
  eapply run_then; [exact Hs|apply ns_paths; constructor].
Qed.

Definition path_keys n : Prop :=
  ∀ e, stored (ln_paths n) e → length (pe_public_key e) = PUBLIC_KEY_LENGTH.

Lemma live_stored d now t e : PathTable.get_live d now t = Some e → stored t e.
Proof.
  unfold PathTable.get_live, PathTable.get.
  destruct (find _ _) as [e'|] eqn:Hf; [|done]. destruct (is_live e' now); [|done]. intros [= <-].
  apply find_flatten_Some in Hf as (i & Hi & _). by exists i.
Qed.

Lemma run_forward_link_request raw oh h receiving target fwd now n :
  path_keys n → run n (snd (forward_link_request raw oh h receiving target fwd now n)).
Proof.
  intros Hkeys. unfold forward_link_request.
  destruct (obind _ _) as [[request packet]|e|]; [|done..].
  destruct (PathTable.get_live _ _ _) as [path|] eqn:Hp; [|done].
  apply live_stored, Hkeys in Hp.
  destruct (LinkTable.next_generation _) as [g|]; [|done]. cbv zeta.
  match goal with |- context [enqueue_forwarded_with_lifetime ?a ?b ?c ?d ?l n] =>
    pose proof (step_forwarded a b c d l n) as Hs;
    destruct (enqueue_forwarded_with_lifetime a b c d l n) as [[] n1] end;
    apply run_queue in Hs; cbn [snd] in *; [|done].
  eapply run_then; [|apply ns_links; constructor; [done|]].
  - eapply run_then; [exact Hs|apply ns_paths; constructor].
  - intros key [= <-]. rewrite length_drop, Hp. done.
Qed.

Lemma run_link_request raw oh h meta now n :
  path_keys n → run n (snd (handle_link_request raw oh h meta now n)).
Proof.
  intros Hkeys. unfold handle_link_request. case_if; [done|]. case_if; [done|]. cbv zeta. case_if; [done|].
  destruct (LinkTable.has_free_slot now (ln_links n)) as [free links] eqn:Hf.
  assert (H1 : run n (set_links links n)).
  { replace links with (snd (LinkTable.has_free_slot now (ln_links n))) by (by rewrite Hf).
    apply rtc_once, ns_links. constructor. }
  case_if; [done|].
  destruct (rewrite_forwarded_transport_packet _ _ _ _ _) as [[[target fwd]|]|e|]; try done.
  etrans; [exact H1|by apply run_forward_link_request].
Qed.

Lemma hashes_contains hash now (t : list (option PacketHashEntry)) :
  keeps_keys t (snd (PacketHashTable.contains hash now t)).
Proof.
  split; [apply length_purge|]. intros Hu. by apply unique_keys_purge.
Qed.

Lemma hashes_insert hash x now (t : list (option PacketHashEntry)) :
  keeps_keys t (snd (PacketHashTable.insert hash x now t)).
Proof.
  rewrite PacketHashTable.insert_dedup.
  set (e := {| ph_hash := hash; ph_expires_ms := x |}).
  assert (Hl : length (snd (dedup_insert e now t)) = length t).
  { unfold dedup_insert. repeat case_match; cbn; rewrite ?length_insert; by apply length_purge. }
  split; [exact Hl|]. intros Hu. pose proof (dedup_insert_spec e now t Hu) as Hs.
  by destruct (dedup_insert e now t) as [fresh t'], Hs as (_ & Hs & _).
Qed.

Lemma tags_insert key x now (t : list (option RequestTagEntry)) :
  keeps_keys t (snd (RequestTagTable.insert_if_new key x now t)).
Proof.
  rewrite RequestTagTable.insert_if_new_dedup.
  set (e := {| rt_key := key; rt_expires_ms := x |}).
  assert (Hl : length (snd (dedup_insert e now t)) = length t).
  { unfold dedup_insert. repeat case_match; cbn; rewrite ?length_insert; by apply length_purge. }
  split; [exact Hl|]. intros Hu. pose proof (dedup_insert_spec e now t Hu) as Hs.
  by destruct (dedup_insert e now t) as [fresh t'], Hs as (_ & Hs & _).
Qed.

Lemma run_forward_link_packet raw h arrived target link now reason n :
  run n (snd (forward_link_packet raw h arrived target link now reason n)).
Proof.
  unfold forward_link_packet. cbv zeta.
  set (hash := packet_hash _ _). set (tracked := negb _).
  destruct (if tracked then _ else _) as [dup hashes] eqn:Hd.
  assert (H1 : run n (set_packet_hashes hashes n)).
  { apply rtc_once, ns_hashes. destruct tracked; [|by injection Hd as _ <-].
    replace hashes with (snd (PacketHashTable.contains hash now (ln_packet_hashes n))) by (by rewrite Hd).
    apply hashes_contains. }
  destruct dup; [by apply run_counted|].
  destruct (copy_for_forward raw _) as [packet|e|]; [|done..].
  match goal with |- context [enqueue_forwarded ?a ?b ?c ?d ?m] =>
    pose proof (step_forwarded a b c d (packet_lifetime c d m) m) as Hs;
    fold (enqueue_forwarded a b c d m) in Hs;
    destruct (enqueue_forwarded a b c d m) as [[] n1] end;
    apply run_queue in Hs; cbn [snd] in *; [|by etrans].
  etrans; [exact H1|]. etrans; [exact Hs|].
  assert (H2 : run n1 (if tracked then set_packet_hashes (snd (PacketHashTable.insert hash
                 (sat_add64 now HASHLIST_LIFETIME_MS) now (ln_packet_hashes n1))) n1 else n1)).
  { destruct tracked; [|done]. apply rtc_once, ns_hashes, hashes_insert. }
  etrans; [exact H2|]. destruct (le_validated link); [|done]. apply rtc_once, ns_links. constructor.
Qed.

Lemma run_route_link_packet raw h meta now reason n :
  run n (snd (route_link_packet raw h meta now reason n)).
Proof.
  unfold route_link_packet. case_if; [done|].
  destruct (LinkTable.get _ _ _) as [link|]; [|done]. case_if; [done|].
  destruct (link_target _ _ _) as [[target|]|]; [apply run_forward_link_packet|done..].
Qed.

Lemma run_reverse_proof raw h arrived now n : run n (snd (reverse_proof raw h arrived now n)).
Proof.
  unfold reverse_proof. case_if; [|done].
  destruct (ReverseTable.take_with_generation _ _ _) as [taken t] eqn:Ht.
  assert (H1 : run n (set_reverse t n)).
  { match type of Ht with ?x = _ => replace t with (snd x) by (by rewrite Ht) end.
    apply rtc_once, ns_reverse. constructor. }
  cbv zeta. destruct taken as [[reverse g]|]; [|done].
  destruct (copy_for_forward raw _) as [packet|e|]; [|done..].
  match goal with |- context [enqueue_forwarded_with_lifetime ?a ?b ?c ?d ?l ?m] =>
    pose proof (step_forwarded a b c d l m) as Hs;
    destruct (enqueue_forwarded_with_lifetime a b c d l m) as [[] n1] end; cbn [snd] in *.
  - etrans; [exact H1|by apply run_queue].
  - pose proof (qs_queues _ _ Hs) as (q & i & m & s & Hn1 & _).
    replace (ln_reverse n1) with t by (by rewrite Hn1).
    apply (queue_step_reverse t (ReverseTable.restore_consumed reverse g t)) in Hs.
    etrans; [|by apply run_queue]. apply rtc_once, ns_reverse. by eapply ReverseTable.step_undo.
Qed.

(** What a node has checked of the proof that validates a link it relays. *)
Record link_proved (raw : list Z) (h : PacketHeader) (arrived : Z) (e : LinkEntry) : Prop := {
  lk_context : context h = Lrproof;
  lk_link : le_link_id e = Wire.destination_hash h;
  lk_interface : le_outbound_interface e = arrived;
  lk_hops : le_remaining_hops e = hops h;
  lk_signed : ∃ key sg xp trailer v mtu,
    le_destination_ed25519 e = Some key ∧
    drop (header_size h) raw = sg ++ xp ++ trailer ∧ length sg = 64 ∧ length xp = 32 ∧
    (length trailer = 0 ∨ length trailer = 3) ∧
    parse_proof (sg ++ xp ++ trailer) = Ok v ∧
    sd_mode (lp_signalling v) = le_requested_mode e ∧
    SignallingData.effective_mtu (lp_signalling v) = Ok mtu ∧ (mtu ≤ le_accepted_mtu_ceiling e)%Z ∧
    ed_verify key (le_link_id e ++ xp ++ key ++ trailer) sg = true
}.

Lemma split3 (l : list Z) i j :
  i ≤ j → j ≤ length l → l = take i l ++ slice l i j ++ drop j l.
Proof.
  intros Hi Hj. unfold slice. rewrite <- (take_drop i l) at 1. f_equal.
  rewrite <- (take_drop (j - i) (drop i l)) at 1. f_equal. rewrite drop_drop. f_equal. lia.
Qed.

(** The bytes the signature is checked over. *)
Lemma signed_bytes (d xp key trailer : list Z) rest :
  length d = 16 → length xp = 32 → length key = 32 → length trailer ≤ 3 → concat rest = trailer →
  take (16 + 32 + 32 + length trailer)
    (write_fields 0 ([d; xp; key] ++ rest) (zeros (16 + 32 + 32 + 3)))
  = d ++ xp ++ key ++ trailer.
Proof.
  intros Hd Hx Hk Ht Hr.
  assert (Hc : concat ([d; xp; key] ++ rest) = d ++ xp ++ key ++ trailer) by (cbn; by rewrite Hr).
  rewrite write_fields_0; rewrite Hc;
    [|unfold zeros; rewrite !length_app, length_replicate; lia].
  apply take_app_length'. rewrite !length_app. lia.
Qed.

Lemma validate_transit_sound raw h link n :
  length (Wire.destination_hash h) = 16 → link_keyed link → le_link_id link = Wire.destination_hash h →
  context h = Lrproof → le_remaining_hops link = hops h →
  validate_transit_lrproof raw h link n = true → link_proved raw h (le_outbound_interface link) link.
Proof.
  intros Hd Hkey Hid Hctx Hhops. unfold validate_transit_lrproof. cbv zeta. case_if; [done|].
  set (proof := drop _ raw). destruct (negb _ && negb _) eqn:Hlen; [done|].
  destruct (parse_proof proof) as [v|e|] eqn:Hp; [|done..].
  destruct (_ || _ || _ || _) eqn:Hc; [done|].
  assert (Hl : length proof = 96 ∨ length proof = 99) by (apply andb_false_iff in Hlen as [Hl|Hl]; bool_hyps; lia).
  rewrite !orb_false_iff in Hc. destruct Hc as (((Hmode & Hmtu) & _) & _).
  apply negb_false_iff, Z.eqb_eq in Hmode.
  destruct (SignallingData.effective_mtu (lp_signalling v)) as [mtu|e|] eqn:Hm; [|done..].
  apply Z.ltb_ge in Hmtu.
  destruct (le_destination_ed25519 link) as [key|] eqn:Hk; [|done].
  specialize (Hkey key Hk). case_if; [done|]. intros Hv. split; try done.
  exists key, (take 64 proof), (slice proof 64 96), (drop 96 proof), v, mtu.
  split; [done|]. rewrite <- (split3 proof 64 96) by lia. split; [done|].
  split; [rewrite length_take; lia|]. split; [rewrite length_slice; lia|].
  split; [rewrite length_drop; lia|]. split; [done|].
  split; [done|]. split; [done|]. split; [done|].
  set (rest := if length proof =? 99 then [slice proof 96 99] else []) in Hv.
  assert (Hr : concat rest = drop 96 proof).
  { unfold rest. destruct (length proof =? 99) eqn:H99; bool_hyps; cbn; rewrite ?app_nil_r.
    - unfold slice. apply take_ge. rewrite length_drop. lia.
    - rewrite drop_ge by lia. done. }
  rewrite Hid, <- (signed_bytes _ _ _ _ rest); [|done| |done| |done];
    [|rewrite length_slice; lia|rewrite length_drop; lia].
  rewrite <- Hv. do 2 f_equal. rewrite length_drop. destruct (length proof =? 99) eqn:H99; bool_hyps; lia.
Qed.

Lemma link_get_keyed d now n link :
  node_ok n → LinkTable.get d now (ln_links n) = Some link →
  link_keyed link ∧ le_link_id link = d.
Proof.
  intros Hok Hg. apply LinkTable.link_get_Some in Hg as (Hid & _ & Hs); [|apply Hok].
  split; [|done]. by apply (no_link_keys n Hok).
Qed.

Lemma run_transit_lrproof raw h link arrived now n :
  (∀ e, link_proved raw h arrived e → may_validate e) →
  node_ok n → length (Wire.destination_hash h) = 16 → context h = Lrproof →
  LinkTable.get (Wire.destination_hash h) now (ln_links n) = Some link →
  le_outbound_interface link = arrived → le_remaining_hops link = hops h →
  run n (snd (transit_lrproof raw h link arrived now n)).
Proof.
  intros Hev Hok Hd Hctx Hget Ha Hh. unfold transit_lrproof.
  destruct (validate_transit_lrproof raw h link n) eqn:Hv; cbn [negb]; [|done].
  destruct (link_get_keyed _ _ _ _ Hok Hget) as [Hk Hid].
  pose proof (validate_transit_sound raw h link n Hd Hk Hid Hctx Hh Hv) as Hproved. rewrite Ha in Hproved.
  cbv zeta. set (hash := packet_hash _ _).
  destruct (PacketHashTable.contains hash now (ln_packet_hashes n)) as [dup hashes] eqn:Hc.
  assert (H1 : run n (set_packet_hashes hashes n)).
  { apply rtc_once, ns_hashes.
    replace hashes with (snd (PacketHashTable.contains hash now (ln_packet_hashes n))) by (by rewrite Hc).
    apply hashes_contains. }
  destruct dup; [by apply run_counted|].
  destruct (copy_for_forward raw _) as [packet|e|]; [|done..].
  match goal with |- context [enqueue_forwarded ?a ?b ?c ?d ?m] =>
    pose proof (step_forwarded a b c d (packet_lifetime c d m) m) as Hs;
    fold (enqueue_forwarded a b c d m) in Hs;
    destruct (enqueue_forwarded a b c d m) as [[] n1] end; cbn [snd] in *;
    [|etrans; [exact H1|by apply run_queue]].
  etrans; [exact H1|]. etrans; [by apply run_queue|].
  etrans; [apply rtc_once, ns_hashes, hashes_insert|]. apply rtc_once, ns_validate.
  intros e He. apply Hev. enough (e = link) as -> by done.
  destruct (qs_queues _ _ Hs) as (q & i & m & s & -> & _). cbn in He. congruence.
Qed.

Lemma run_proof raw h meta now n :
  (∀ e, link_proved raw h (rx_interface_id meta) e → may_validate e) →
  node_ok n → length (Wire.destination_hash h) = 16 →
  run n (snd (handle_proof raw h meta now n)).
Proof.
  intros Hev Hok Hd. unfold handle_proof. case_bool_decide as Hctx.
  - destruct (LinkTable.get _ _ _) as [link|] eqn:Hg; [|apply run_count].
    destruct (_ && _) eqn:Hc; [|apply run_count].
    apply andb_true_iff in Hc as [Ha%Z.eqb_eq Hh%Z.eqb_eq].
    by apply run_transit_lrproof.
  - pose proof (run_route_link_packet raw h meta now OutboundReason.ProofReturn n) as Hr.
    destruct (route_link_packet _ _ _ _ _ _) as [[[]|e|] n1]; try exact Hr.
    etrans; [exact Hr|apply run_reverse_proof].
Qed.

(** ** Announces *)

Lemma step_answer_requesters slots requesters response meta n :
  queue_step n (answer_requesters slots requesters response meta n).
Proof.
  revert n. induction slots as [|slot slots IH]; intros n; simpl; [done|].
  etrans; [|apply IH]. case_if; [apply step_plain_enqueue|done].
Qed.

Lemma run_finish_discovery raw h meta now n : run n (snd (finish_discovery raw h meta now n)).
Proof.
  unfold finish_discovery. case_if; [done|].
  destruct (Discoveries.take_discovery _ _ _) as [taken t] eqn:Ht. cbv zeta.
  assert (H1 : run n (set_discoveries t n)).
  { match type of Ht with ?x = _ => replace t with (snd x) by (by rewrite Ht) end.
    apply rtc_once, ns_discoveries. constructor. }
  destruct taken as [owner|]; [|done].
  destruct (path_response_from_cached_announce _ _ _ _) as [response|e|]; cbn [snd].
  - etrans; [exact H1|]. apply run_queue, step_answer_requesters.
  - by apply run_counted.
  - done.
Qed.

(** The clock stays away from the end of its range. *)
Definition clock_ok (now : Z) : Prop := (0 ≤ now ≤ u64_max - 600000)%Z.

Lemma jitter_range hash id round : (0 ≤ announce_jitter_ms hash id round < 500)%Z.
Proof. unfold announce_jitter_ms, DEFAULT_ANNOUNCE_JITTER_MS. cbv zeta. apply Z.mod_pos_bound. lia. Qed.

Lemma due_needed due e :
  clock_ok due ∨ (0 ≤ due < u64_max)%Z → sa_due_ms e = due → AnnounceSchedule.still_needed e = true.
Proof.
  intros Hc Hd. unfold AnnounceSchedule.still_needed, pending_only, PENDING_ONLY. rewrite Hd.
  unfold clock_ok in Hc. rewrite orb_true_iff, !negb_true_iff, !Z.eqb_neq. right.
  unfold u64_max in *. lia.
Qed.

Lemma heard_copy_fit wire_hops now e :
  sa_destination_hash (fst (heard_copy wire_hops now e)) = sa_destination_hash e ∧
  (AnnounceSchedule.fit e → AnnounceSchedule.fit (fst (heard_copy wire_hops now e))).
Proof. unfold heard_copy. repeat case_if; by split. Qed.

Lemma run_note_heard_copy d wire_hops now n : run n (note_heard_copy d wire_hops now n).
Proof.
  unfold note_heard_copy. case_if; [|done]. destruct (find _ _) as [entry|]; [|done]. cbv zeta.
  assert (H1 : AnnounceSchedule.step (ln_announce_schedule n)
    (AnnounceSchedule.get_mut d (λ e, fst (heard_copy wire_hops now e)) (ln_announce_schedule n))).
  { constructor; intros e; apply heard_copy_fit. }
  destruct (snd _); [|by apply rtc_once, ns_schedule].
  etrans; [apply rtc_once, ns_schedule; exact H1|].
  match goal with |- run ?a (set_announce_schedule (AnnounceSchedule.remove _ ?t) _) =>
    change (run a (set_announce_schedule (AnnounceSchedule.remove d t) a)) end.
  apply rtc_once, ns_schedule. constructor.
Qed.

Lemma cache_insert e now (t : AnnounceCache) : keeps_keys t (AnnounceCache.insert e now t).
Proof.
  split; [|apply AnnounceCache.cache_unique_insert].
  unfold AnnounceCache.insert. repeat case_match; rewrite ?length_insert; apply length_purge.
Qed.

Lemma cache_retain paths now (t : AnnounceCache) : keeps_keys t (AnnounceCache.retain_paths paths now t).
Proof. split; [apply length_purge|]. intros Hu. by apply unique_keys_purge. Qed.

(** What a node has checked of the announce that teaches a route. *)
Record announced (raw : list Z) (view : PacketView) (h : PacketHeader) (meta : RxMeta) (e : PathEntry)
  : Prop := {
  an_destination : pe_destination_hash e = Wire.destination_hash h;
  an_next_hop : pe_next_hop e = transport_id (pv_header view);
  an_hops : pe_hops e = hops h;
  an_limit : (hops h < PATHFINDER_M)%Z;
  an_interface : pe_interface_id e = rx_interface_id meta;
  an_packet : pe_packet_hash e = packet_hash raw (header_type (flags (pv_header view)));
  an_signed : ∃ a max,
    parse (pv_payload view) (context_flag (flags (pv_header view))) max = Ok a ∧
    av_public_key a = pe_public_key e ∧ av_random_hash a = pe_random_hash e ∧
    Wire.destination_hash h
      = destination_hash_from_parts (av_name_hash a) (Some (identity_hash (av_public_key a))) ∧
    ed_verify (drop 32 (av_public_key a)) (signed_data (Wire.destination_hash h) a) (av_signature a) = true
}.

Lemma scheduled_fit d packet hash hops meta now n :
  clock_ok now → AnnounceSchedule.fit (scheduled_entry d packet hash hops meta now n).
Proof.
  intros Hc. split; [by vm_compute|].
  pose proof (jitter_range hash (ln_transport_id n) 0) as Hj.
  eapply due_needed; [|reflexivity]. right. unfold scheduled_entry. cbn [sa_due_ms].
  unfold clock_ok, sat_add64, u64_max in *. lia.
Qed.

Lemma run_publish_learned raw h entry meta now n :
  clock_ok now → run n (snd (publish_learned raw h entry meta now n)).
Proof.
  intros Hc. unfold publish_learned. cbv zeta.
  set (n1 := set_announce_cache _ (count _ n)).
  assert (H1 : run n n1).
  { eapply run_then; [apply run_count|]. apply ns_cache, cache_retain. }
  destruct (omap_err _ _) as [cached|e|]; [|done..].
  match goal with |- context [finish_discovery raw h meta now ?m] => set (n2 := m) end.
  assert (H2 : run n n2) by (eapply run_then; [exact H1|apply ns_cache, cache_insert]).
  pose proof (run_finish_discovery raw h meta now n2) as Hf.
  destruct (finish_discovery _ _ _ _ _) as [[[]|e|] n3]; cbn [snd] in *; try by etrans.
  case_if; [|by etrans]. destruct (transport_announce_from_raw _ _ _ _ _) as [packet|e|]; try by etrans.
  eapply run_then; [by etrans|]. apply ns_schedule. constructor. by apply scheduled_fit.
Qed.

Lemma run_learn_announce raw view a max h meta now n :
  (∀ e, announced raw view h meta e → may_learn e) → clock_ok now →
  parse (pv_payload view) (context_flag (flags (pv_header view))) max = Ok a →
  Wire.destination_hash h
    = destination_hash_from_parts (av_name_hash a) (Some (identity_hash (av_public_key a))) →
  ed_verify (drop 32 (av_public_key a)) (signed_data (Wire.destination_hash h) a) (av_signature a) = true →
  run n (snd (learn_announce raw view a h meta now n)).
Proof.
  intros Hev Hc Hp Hd Hs. unfold learn_announce. case_if; [apply run_count|]. cbv zeta.
  set (n1 := note_heard_copy _ _ _ n).
  assert (H1 : run n n1) by apply run_note_heard_copy.
  set (entry := learned_entry _ _ _ _ _ _ _ _).
  destruct (PathTable.insert_or_update entry now (ln_paths n1)) as [learned paths] eqn:Hi.
  pose proof (parse_shape (pv_payload view) (context_flag (flags (pv_header view))) max) as Hshape.
  rewrite Hp in Hshape. destruct Hshape as (_ & Hwf & _).
  assert (H2 : run n (set_paths paths n1)).
  { replace paths with (snd (PathTable.insert_or_update entry now (ln_paths n1))) by (by rewrite Hi).
    eapply run_then; [exact H1|]. apply ns_learn; [|apply Hwf].
    apply Hev. split; try done. exists a, max. done. }
  set (bulk := is_bulk _ _ _ _). set (fresh := match PathTable.get_live _ _ _ with Some _ => _ | _ => _ end).
  assert (H3 : run n (if bulk && fresh
    then rcount (if learned then RouterStats.count_bulk_paths_learned
                 else RouterStats.count_bulk_paths_refused) (set_paths paths n1)
    else set_paths paths n1)).
  { case_if; [etrans; [exact H2|apply run_rcount]|done]. }
  destruct learned; [etrans; [exact H3|by apply run_publish_learned]|exact H3].
Qed.

Lemma announce_key_bytes payload hr max a :
  bytes payload → parse payload hr max = Ok a → bytes (av_public_key a).
Proof.
  intros Hb Hp. pose proof (parse_shape payload hr max) as Hs. rewrite Hp in Hs.
  destruct Hs as (-> & _). unfold payload_of in Hb. by apply bytes_app in Hb as [Hb _].
Qed.

Lemma run_announce raw view h meta now n :
  (∀ e, announced raw view h meta e → is_own_destination (pe_destination_hash e) n = false →
     may_learn e) → clock_ok now →
  length (Wire.destination_hash h) = DESTINATION_LENGTH → bytes (pv_payload view) →
  run n (snd (handle_announce raw view h meta now n)).
Proof.
  intros Hev Hc Hd Hb. unfold handle_announce.
  destruct (is_own_destination (Wire.destination_hash h) n) eqn:Hown; [apply run_count|].
  assert (Hev' : ∀ e, announced raw view h meta e → may_learn e).
  { intros e He. apply Hev; [done|]. by rewrite (an_destination _ _ _ _ _ He). }
  destruct (AnnounceAdmission.admit_announce _ _ _ _) as [admitted admission]. cbv zeta.
  set (n1 := set_announce_admission admission n).
  assert (H1 : run n n1) by apply rtc_once, ns_admission.
  destruct admitted; cbn [negb]; [|by apply run_counted, run_counted].
  destruct (parse _ _ _) as [a|e|] eqn:Hp; cbn [obind]; [|done..].
  pose proof (parse_shape (pv_payload view) (context_flag (flags (pv_header view)))
                (lc_max_announce_app_data (ln_config n1))) as Hshape.
  rewrite Hp in Hshape. destruct Hshape as (_ & Hwf & _).
  destruct (validate_sound a (Wire.destination_hash h) (known_key (Wire.destination_hash h) n1)
              (zeros ANNOUNCE_SCRATCH_MAX) Hwf Hd) as [Hsound _].
  destruct (fst (validate _ _ _ _)) as [ih|e|]; cbn [obind]; [|done..].
  destruct (Hsound ih eq_refl) as (-> & Hdest & _ & Hsig).
  case_if; [|etrans; [exact H1|by eapply run_learn_announce]].
  destruct (KnownDestinations.learn _ _ _ _) as [r known] eqn:Hk.
  assert (Hkn : run n (set_known_destinations known n1)).
  { match type of Hk with ?x = _ => replace known with (snd x) by (by rewrite Hk) end.
    eapply run_then; [exact H1|]. apply ns_known; [apply Hwf|by eapply announce_key_bytes|].
    unfold clock_ok, in_u64, u64_max in *. lia. }
  destruct r as [b|e|]; [|done..]. etrans; [exact Hkn|by eapply run_learn_announce].
Qed.

(** ** Path requests *)

Lemma run_request_path d tag id now n : run n (snd (request_path d tag id now n)).
Proof.
  unfold request_path. cbv zeta. set (n1 := expire_outbound now (set_clock_ms now n)).
  assert (H1 : run n n1).
  { eapply rtc_l; [apply (ns_clock _ _ now)|]. apply run_queue, step_expire_outbound. }
  destruct (build_path_request d tag n1) as [request|e|]; [|done..].
  pose proof (step_plain_enqueue id request OutboundReason.PathRequest n1) as Hs.
  destruct (enqueue _ _ _ _) as [[] n2]; cbn [snd] in *; apply run_queue in Hs; [|by etrans].
  destruct (RequestTagTable.insert_if_new _ _ _ _) as [new tags] eqn:Ht.
  eapply run_then; [by etrans|]. apply ns_tags.
  match type of Ht with ?x = _ => replace tags with (snd x) by (by rewrite Ht) end. apply tags_insert.
Qed.

Lemma run_relay_request id requested tag local_only n :
  run n (snd (relay_request id requested tag local_only n)).
Proof.
  unfold relay_request. destruct (build_path_request _ _ _) as [request|e|]; [|done..].
  pose proof (step_broadcast id request OutboundReason.PathRequestForward local_only n) as Hs.
  destruct (enqueue_packet_broadcast _ _ _ _ _) as [queued n1]. by apply run_queue.
Qed.

Lemma run_discover id requested tag now n : run n (snd (discover id requested tag now n)).
Proof.
  unfold discover. destruct (interface_slot id n) as [slot|]; [|done]. case_if; [done|]. cbv zeta.
  destruct (Discoveries.begin _ _ _ _ _) as [r t] eqn:Hb.
  assert (H1 : run n (set_discoveries t n)).
  { match type of Hb with ?x = _ => replace t with (snd x) by (by rewrite Hb) end.
    apply rtc_once, ns_discoveries. constructor. }
  destruct r as [identity| |]; [|exact H1|by apply run_counted].
  destruct (build_path_request _ _ _) as [request|e|]; [|exact H1..].
  match goal with |- context [enqueue_packet_broadcast_with_lifetime ?a ?b ?c ?d ?l ?m] =>
    pose proof (step_broadcast_lifetime a b c d l m) as Hs;
    destruct (enqueue_packet_broadcast_with_lifetime a b c d l m) as [queued n1] end.
  etrans; [exact H1|by apply run_queue].
Qed.

Lemma run_answer_from_cache requested requestor mode id now n r n' :
  answer_from_cache requested requestor mode id now n = Some (r, n') → run n n'.
Proof.
  unfold answer_from_cache. destruct (PathTable.get_live _ _ _) as [path|]; [|done].
  case_if; [by intros [= _ <-]|]. case_if; [by intros [= _ <-]|]. case_if; [|done].
  destruct (AnnounceCache.get _ _ _) as [cached|]; [|done].
  destruct (path_response_from_cached_announce _ _ _ _) as [response|e|]; [|by intros [= _ <-]..].
  pose proof (step_plain_enqueue id response OutboundReason.PathResponse n) as Hs.
  destruct (enqueue _ _ _ _) as [ok n1]. intros [= _ <-]. by apply run_queue.
Qed.

Lemma run_path_request payload meta now n : run n (snd (handle_path_request payload meta now n)).
Proof.
  unfold handle_path_request. cbv zeta. case_if; [apply run_count|].
  destruct (length _ =? 0); [apply run_count|].
  destruct (RequestTagTable.insert_if_new _ _ _ _) as [is_new tags] eqn:Ht.
  assert (H1 : run n (set_request_tags tags n)).
  { match type of Ht with ?x = _ => replace tags with (snd x) by (by rewrite Ht) end.
    apply rtc_once, ns_tags, tags_insert. }
  destruct is_new; cbn [negb]; [|by apply run_counted]. case_if; [exact H1|].
  destruct (answer_from_cache _ _ _ _ _ _) as [[r n']|] eqn:Ha;
    [etrans; [exact H1|by eapply run_answer_from_cache]|].
  case_if; [etrans; [exact H1|apply run_relay_request]|].
  case_if; [etrans; [exact H1|apply run_discover]|].
  case_if; [etrans; [exact H1|apply run_relay_request]|exact H1].
Qed.

(** ** Ingestion *)

Lemma run_begin_ingest meta now n : run n (begin_ingest meta now n).
Proof.
  unfold begin_ingest. cbv zeta.
  eapply run_then; [|apply ns_queue, step_expire_outbound].
  eapply run_then; [|apply ns_discoveries; constructor].
  assert (H1 : run n (observe_interface meta (set_clock_ms now n))).
  { eapply rtc_l; [apply (ns_clock _ _ now)|]. apply rtc_once, ns_observe. }
  case_if; [exact H1|]. eapply run_then; [exact H1|]. apply ns_discoveries. constructor.
Qed.

Lemma run_router_ingress interface len n : run n (snd (router_ingress interface len n)).
Proof.
  unfold router_ingress. destruct (m_router _) as [r|]; [|done].
  destruct (InterfaceRegistry.get _ _) as [i|]; [|apply run_counted, run_rcount].
  repeat (case_if; [apply run_counted, run_rcount|]). done.
Qed.

Lemma run_suppress raw h link now n : run n (snd (suppress_duplicate raw h link now n)).
Proof.
  unfold suppress_duplicate. case_if; [|done]. cbv zeta.
  destruct (PacketHashTable.insert _ _ _ _) as [inserted t] eqn:Hi.
  assert (Hins : run n (set_packet_hashes t n)).
  { match type of Hi with ?x = _ => replace t with (snd x) by (by rewrite Hi) end.
    apply rtc_once, ns_hashes, hashes_insert. }
  case_if; [by apply run_counted|exact Hins].
Qed.

Lemma run_bridge raw h source n : run n (snd (bridge_plain_broadcast raw h source n)).
Proof.
  unfold bridge_plain_broadcast. case_if; [done|].
  destruct (copy_for_forward _ _) as [packet|e|]; [|done..]. cbv zeta.
  match goal with |- context [enqueue_packet_broadcast ?a ?b ?c ?d ?m] =>
    pose proof (step_broadcast a b c d m) as Hs;
    destruct (enqueue_packet_broadcast a b c d m) as [queued n1] end.
  by apply run_queue.
Qed.

Lemma run_data raw view h meta now n : run n (snd (handle_data raw view h meta now n)).
Proof.
  unfold handle_data.
  pose proof (run_route_link_packet raw h meta now OutboundReason.TransportForward n) as Hr.
  destruct (route_link_packet _ _ _ _ _ _) as [[[]|e|] n1]; try exact Hr.
  etrans; [exact Hr|]. case_if; [apply run_path_request|].
  case_if; [apply run_bridge|apply run_transport_forward].
Qed.

(** What remains of a frame once the access code of its interface is removed: a
    frame with a code that verifies, or on an open interface one that claims
    none. *)
Definition carries_code (raw clear : list Z) (interface : Z) n : Prop :=
  match m_ifac interface (ln_config n) (ln_interfaces n) with
  | Some ifac => ∃ plain,
      ifac_verify_into raw (ifac_key ifac) (ifac_size ifac) (PacketBuffer.new MTU) = (Ok tt, plain) ∧
      clear = PacketBuffer.as_slice plain
  | None => has_ifac_flag raw = false ∧ clear = raw
  end.

Lemma clear_packet_code raw clear interface n :
  clear_packet raw interface n = Ok (Some clear) → carries_code raw clear interface n.
Proof.
  unfold clear_packet, carries_code. destruct (m_ifac _ _ _) as [ifac|].
  - destruct (ifac_verify_into _ _ _ _) as [[[]|e|] p]; [|done..]. intros [= <-]. by exists p.
  - destruct (has_ifac_flag raw); [done|]. by intros [= ->].
Qed.

(** The interface may receive a frame of this length. *)
Definition may_receive (interface : Z) (len : nat) n : Prop :=
  match m_router (ln_interfaces n) with
  | Some r => ∃ i, InterfaceRegistry.get interface (r_registry r) = Some i ∧
      if_online i = true ∧ inbound (if_direction i) = true ∧ len ≤ InterfaceConfig.wire_mtu i
  | None => True
  end.

Lemma router_ingress_spec interface len n :
  match router_ingress interface len n with
  | (Ok true, n') => n' = n ∧ may_receive interface len n
  | (Ok false, n') | (Err TransportError.UnknownInterface, n')
  | (Err TransportError.InterfaceOffline, n') | (Err TransportError.InterfaceNotInbound, n') =>
      ¬ may_receive interface len n ∧ ∃ f g, n' = count f (rcount g n)
  | _ => False
  end.
Proof.
  unfold router_ingress, may_receive. destruct (m_router _) as [r|]; [|done].
  destruct (InterfaceRegistry.get interface (r_registry r)) as [i|];
    [|split; [by intros (i & [=] & _)|by eexists _, _]].
  destruct (if_online i) eqn:Ho; cbn [negb]; [|split; [intros (j & [= <-] & ? & _); congruence|by eexists _, _]].
  destruct (inbound (if_direction i)) eqn:Hi; cbn [negb];
    [|split; [intros (j & [= <-] & _ & ? & _); congruence|by eexists _, _]].
  destruct (Nat.ltb_spec (InterfaceConfig.wire_mtu i) len).
  - split; [|by eexists _, _]. intros (j & [= <-] & _ & _ & ?). lia.
  - split; [done|]. by exists i.
Qed.

(** A packet as the node handles it: unmasked, parsed, one hop further. *)
Record arrival (raw : list Z) (meta : RxMeta) (now : Z) n (clear : list Z) (view : PacketView)
    (h : PacketHeader) : Prop := {
  ar_interface : may_receive (rx_interface_id meta) (length raw) n;
  ar_clear : carries_code raw clear (rx_interface_id meta) n;
  ar_parse : parse_view clear = Ok view;
  ar_header : h = received_header (pv_header view) (rx_interface_id meta) (begin_ingest meta now n)
}.

Definition learnable (raw : list Z) (meta : RxMeta) (now : Z) n (e : PathEntry) : Prop :=
  ∃ clear view h, arrival raw meta now n clear view h ∧
    packet_type (flags h) = Announce ∧ is_own_destination (pe_destination_hash e) n = false ∧
    announced clear view h meta e.

Definition provable (raw : list Z) (meta : RxMeta) (now : Z) n (e : LinkEntry) : Prop :=
  ∃ clear view h, arrival raw meta now n clear view h ∧
    packet_type (flags h) = Proof_ ∧ link_proved clear h (rx_interface_id meta) e.

Lemma own_static d n n' : ln_local n' = ln_local n → is_own_destination d n' = is_own_destination d n.
Proof. intros Hl. unfold is_own_destination, holds_local. by rewrite Hl. Qed.

(** What a received header depends on. *)
Lemma received_ext h i n n' :
  (∀ slot, m_facts slot (ln_interfaces n') = m_facts slot (ln_interfaces n)) →
  received_header h i n' = received_header h i n.
Proof.
  intros Hf. unfold received_header, is_local_client_interface, interface_slot, m_slot, slot_of.
  assert (Hp : ∀ p l, find (λ s, p (m_facts s (ln_interfaces n'))) l =
                      find (λ s, p (m_facts s (ln_interfaces n))) l).
  { intros p l. induction l as [|s l IH]; simpl; [done|]. by rewrite Hf, IH. }
  rewrite (Hp (λ f, negb (Z.land (f_flags f) 1 =? 0)%Z && (f_id f =? i)%Z)).
  destruct (find _ _); by rewrite ?Hf.
Qed.

Lemma view_payload_bytes raw view : bytes raw → parse_view raw = Ok view → bytes (pv_payload view).
Proof.
  intros Hb Hp. apply parse_view_shape in Hp as (b0 & c & _ & _ & -> & _).
  apply Forall_cons in Hb as [_ Hb]. apply Forall_cons in Hb as [_ Hb].
  apply bytes_app in Hb as [_ Hb]. apply bytes_app in Hb as [_ Hb]. by apply Forall_cons in Hb as [_ Hb].
Qed.

Lemma run_dispatch raw view h meta now n :
  (∀ e, packet_type (flags h) = Announce → announced raw view h meta e →
     is_own_destination (pe_destination_hash e) n = false → may_learn e) →
  (∀ e, packet_type (flags h) = Proof_ → link_proved raw h (rx_interface_id meta) e → may_validate e) →
  node_ok n → clock_ok now → bytes raw → parse_view raw = Ok view →
  Wire.destination_hash h = Wire.destination_hash (pv_header view) →
  run n (snd (dispatch raw view h meta now n)).
Proof.
  intros Hl Hv Hok Hc Hb Hp Hd. unfold dispatch.
  assert (Hd16 : length (Wire.destination_hash h) = DESTINATION_LENGTH).
  { rewrite Hd. apply parse_view_shape in Hp as (? & ? & _ & _ & _ & Hlen & _). exact Hlen. }
  destruct (packet_type (flags h)) eqn:Ht.
  - apply run_data.
  - apply run_announce; [by intros; apply Hl|done|done|by eapply view_payload_bytes].
  - apply run_link_request. exact (no_path_keys n Hok).
  - apply run_proof; [by intros; apply Hv|done|exact Hd16].
Qed.

Lemma run_conclude raw h endpoint result n :
  run n (snd (fst (conclude raw h endpoint result n))).
Proof.
  unfold conclude. cbv zeta. repeat case_match; try done; apply run_count.
Qed.

Lemma run_process raw view meta now link endpoint n :
  let h := received_header (pv_header view) (rx_interface_id meta) n in
  (∀ e, packet_type (flags h) = Announce → announced raw view h meta e →
     is_own_destination (pe_destination_hash e) n = false → may_learn e) →
  (∀ e, packet_type (flags h) = Proof_ → link_proved raw h (rx_interface_id meta) e → may_validate e) →
  node_ok n → clock_ok now → bytes raw → parse_view raw = Ok view →
  run n (snd (fst (process raw view meta now link endpoint n))).
Proof.
  intros h Hl Hv Hok Hc Hb Hp. unfold process. cbv zeta.
  set (n1 := count TransportStats.count_accepted n).
  assert (H1 : run n n1) by apply run_count.
  case_if; [by apply run_counted|].
  pose proof (run_suppress raw (pv_header view) link now n1) as Hs.
  destruct (suppress_duplicate _ _ _ _ _) as [dup n2] eqn:Hd. cbn [snd] in Hs.
  assert (H2 : run n n2) by by etrans. assert (Hi : ln_interfaces n2 = ln_interfaces n ∧ ln_local n2 = ln_local n).
  { replace n2 with (snd (suppress_duplicate raw (pv_header view) link now n1)) by (by rewrite Hd).
    unfold suppress_duplicate. case_if; [|done]. cbv zeta.
    destruct (PacketHashTable.insert _ _ _ _). by case_if. }
  destruct dup; [done|].
  rewrite (received_ext _ _ n n2) by (by rewrite (proj1 Hi)). fold h.
  case_if; [by destruct (capture_endpoint _ _ _)|].
  pose proof (run_dispatch raw view h meta now n2) as Hdisp.
  destruct (dispatch _ _ _ _ _ _) as [result n3]. cbn [snd] in Hdisp.
  etrans; [exact H2|]. etrans; [apply Hdisp|apply run_conclude]; try done.
  - intros e Ht Ha Hown. apply Hl; [done|done|]. rewrite <- Hown. symmetry. apply own_static, Hi.
  - by eapply run_ok.
Qed.

Lemma run_ingest_packet raw meta now link endpoint n :
  (∀ view e, let h := received_header (pv_header view) (rx_interface_id meta) n in
     parse_view raw = Ok view → packet_type (flags h) = Announce → announced raw view h meta e →
     is_own_destination (pe_destination_hash e) n = false → may_learn e) →
  (∀ view e, let h := received_header (pv_header view) (rx_interface_id meta) n in
     parse_view raw = Ok view → packet_type (flags h) = Proof_ →
     link_proved raw h (rx_interface_id meta) e → may_validate e) →
  node_ok n → clock_ok now → bytes raw →
  run n (snd (fst (ingest_packet raw meta now link endpoint n))).
Proof.
  intros Hl Hv Hok Hc Hb. unfold ingest_packet. case_if; [done|].
  destruct (parse_view raw) as [view|e|] eqn:Hp; cbn [omap_err obind]; [|done..].
  destruct (check_link_request _ _ _) as [[]|e|]; cbn [obind]; [|done..].
  case_if.
  2:{ apply run_process; try done; intros e; [apply (Hl view e)|apply (Hv view e)]; done. }
  case_if; [done|]. by destruct (capture_plain _ _).
Qed.

Lemma clear_packet_bytes raw i n clear :
  node_ok n → bytes raw → clear_packet raw i n = Ok (Some clear) → bytes clear.
Proof.
  intros Hok Hb. unfold clear_packet. destruct (m_ifac _ _ _) as [ifac|] eqn:Hi.
  - pose proof (verify_plain raw (ifac_key ifac) (ifac_size ifac) (PacketBuffer.new MTU)
      (PacketBuffer.wf_new MTU) Hb (no_ifac n Hok _ _ Hi)) as Hp.
    destruct (ifac_verify_into _ _ _ _) as [[[]|e|] p]; try done. by intros [= <-].
  - case_if; [done|]. by intros [= <-].
Qed.

(** The interface settings of a frame do not depend on observing it. *)
Lemma begin_ingest_clear raw i meta now n : clear_packet raw i (begin_ingest meta now n) = clear_packet raw i n.
Proof.
  unfold clear_packet.
  replace (m_ifac i (ln_config (begin_ingest meta now n)) (ln_interfaces (begin_ingest meta now n)))
    with (m_ifac i (ln_config n) (ln_interfaces n)); [done|].
  unfold begin_ingest. cbv zeta.
  match goal with |- context [expire_outbound now ?a] => set (n1 := a) end.
  destruct (expire_queues now n1) as (q & k & m & s & -> & Hm). cbn. rewrite (si_ifac _ _ Hm).
  subst n1. cbn. case_if; cbn; by rewrite law_ifac_observe.
Qed.

Lemma registered_interface meta n : rx_interface_id (registered_mode meta n) = rx_interface_id meta.
Proof. unfold registered_mode. by destruct (router_interface _ _). Qed.

(** A received frame takes a node through steps whose evidence is the clear
    packet it carries. *)
Lemma may_receive_begin interface len meta now n :
  may_receive interface len (begin_ingest meta now n) ↔ may_receive interface len n.
Proof.
  unfold may_receive. pose proof (st_router _ _ (run_static _ _ _ _ (run_begin_ingest meta now n))) as Hr.
  destruct (m_router (ln_interfaces n)) as [r|], (m_router (ln_interfaces (begin_ingest meta now n))) as [r'|]; try done.
  destruct Hr as (-> & _). done.
Qed.

Lemma run_ingest raw meta now link endpoint n :
  (∀ e, learnable raw meta now n e → may_learn e) →
  (∀ e, provable raw meta now n e → may_validate e) →
  node_ok n → clock_ok now → bytes raw →
  run n (snd (fst (ingest_inner raw meta now link endpoint n))).
Proof.
  intros Hl Hv Hok Hc Hb. unfold ingest_inner. cbv zeta. set (n0 := begin_ingest meta now n).
  assert (H0 : run n n0) by apply run_begin_ingest.
  assert (Hok0 : node_ok n0) by (by eapply run_ok).
  pose proof (run_router_ingress (rx_interface_id meta) (length raw) n0) as Hr.
  destruct (router_ingress _ _ _) as [[[]|e|] n1] eqn:Hri; cbn [snd] in *; try by etrans.
  pose proof (router_ingress_spec (rx_interface_id meta) (length raw) n0) as Hspec.
  rewrite Hri in Hspec. destruct Hspec as [-> Hmay%may_receive_begin].
  destruct (clear_packet raw _ n0) as [[clear|]|e|] eqn:Hcl; cbn [fst snd]; try exact H0.
  2:{ by apply run_counted, run_counted. }
  rewrite registered_interface in Hcl.
  assert (Hbc : bytes clear) by (by eapply clear_packet_bytes).
  assert (Hown : ∀ d, is_own_destination d n0 = is_own_destination d n).
  { intros d. apply own_static. by apply (st_local _ _ (run_static _ _ _ _ H0)). }
  assert (Hcn : carries_code raw clear (rx_interface_id meta) n)
    by (apply clear_packet_code; rewrite <- Hcl; symmetry; apply begin_ingest_clear).
  etrans; [exact H0|]. apply run_ingest_packet; try done; rewrite registered_interface.
  - intros view e h Hp Ht Ha Hno. apply Hl. exists clear, view, h.
    split; [by split|]. split; [done|]. split; [by rewrite <- Hown|].
    destruct Ha. by split; rewrite ?registered_interface in *.
  - intros view e h Hp Ht Ha. apply Hv. exists clear, view, h. by split.
Qed.

(** ** The tick *)

Lemma run_expire_tables now n : run n (expire_tables now n).
Proof.
  unfold expire_tables. cbv zeta.
  eapply run_then; [|apply ns_queue, step_expire_outbound].
  assert (H1 : run n (if lc_transport_enabled (ln_config (set_clock_ms now n)) then set_clock_ms now n
    else set_discoveries (Discoveries.clear (ln_discoveries (set_clock_ms now n))) (set_clock_ms now n))).
  { eapply rtc_l; [apply (ns_clock _ _ now)|]. case_if; [done|].
    apply rtc_once, ns_discoveries. constructor. }
  etrans; [exact H1|]. clear H1. set (n1 := if lc_transport_enabled _ then _ else _). clearbody n1.
  eapply run_then; [|apply ns_tags; split; [apply length_purge|by apply unique_keys_purge]].
  eapply run_then; [|apply ns_links; constructor].
  eapply run_then; [|apply ns_reverse; constructor].
  eapply run_then; [|apply ns_schedule; constructor].
  eapply run_then; [|apply ns_cache, cache_retain].
  eapply run_then; [|apply ns_cache; split; [apply length_purge|by apply unique_keys_purge]].
  eapply run_then; [|apply ns_paths; constructor].
  eapply run_then; [|apply ns_hashes; split; [apply length_purge|by apply unique_keys_purge]].
  apply rtc_once, ns_discoveries. constructor.
Qed.

(** Scheduling again keeps the announce well formed. *)
Lemma after_attempt_fit e hash now n again :
  clock_ok now → is_byte (sa_pending_targets e) → after_attempt e hash now n = Some again →
  AnnounceSchedule.fit again ∧ sa_destination_hash again = sa_destination_hash e.
Proof.
  intros Hc Hb. unfold after_attempt. cbv zeta. case_if.
  - intros [= <-]. split; [|done]. split; [exact Hb|].
    eapply due_needed; [|reflexivity]. right. cbn [sa_due_ms with_due sa_rebuild].
    match goal with |- context [announce_jitter_ms ?a ?b ?c] => pose proof (jitter_range a b c) as Hj end.
    revert Hj. generalize (announce_jitter_ms hash (ln_transport_id n)
      (sa_retries (with_retries (sat_add8 (sa_retries e) 1) e))). intros j Hj.
    unfold clock_ok, sat_add64, PATHFINDER_G_SECS, u64_max in *. lia.
  - case_if; [|done]. intros [= <-]. split; [|done]. split; [exact Hb|].
    unfold AnnounceSchedule.still_needed. cbn. apply orb_true_iff. left. by apply negb_true_iff, Z.eqb_neq.
Qed.

Lemma byte_lor a b : is_byte a → is_byte b → is_byte (Z.lor a b).
Proof.
  intros [Ha1 Ha2] [Hb1 Hb2]. assert (H0 : (0 ≤ Z.lor a b)%Z) by (by apply Z.lor_nonneg).
  split; [done|]. destruct (decide (Z.lor a b = 0%Z)) as [->|Hne]; [lia|].
  change 256%Z with (2 ^ 8)%Z. apply Z.log2_lt_pow2; [lia|]. rewrite Z.log2_lor by done.
  apply Z.max_lub_lt.
  - destruct (decide (a = 0%Z)) as [->|]; [done|]. apply Z.log2_lt_pow2; lia.
  - destruct (decide (b = 0%Z)) as [->|]; [done|]. apply Z.log2_lt_pow2; lia.
Qed.

Lemma announce_targets_byte source n : is_byte (announce_targets source n).
Proof.
  unfold announce_targets. destruct (m_router _) as [r|]; [|by split].
  destruct (Router.interface _ _) as [i|]; [|by split].
  match goal with |- context [List.filter ?f _] => set (p := f) end.
  assert (Hl : ∀ l acc, (∀ s, s ∈ l → s < 8) → is_byte acc →
    is_byte (fold_left (λ t slot, Z.lor t (Z.shiftl 1 (Z.of_nat slot))) (List.filter p l) acc)).
  { induction l as [|s l IH]; intros acc Hs Ha; simpl; [done|].
    destruct (p s); simpl; apply IH; try (intros x Hx; apply Hs; by constructor); [|done].
    apply byte_lor; [done|]. assert (s < 8) by (apply Hs; by constructor). rewrite Z.shiftl_1_l.
    split; [apply Z.pow_nonneg; lia|]. change 256%Z with (2 ^ 8)%Z. apply Z.pow_lt_mono_r; lia. }
  apply Hl; [|by split]. intros s Hs%elem_of_seq. unfold REQUESTERS in Hs. lia.
Qed.

Lemma run_rebroadcast e now n :
  clock_ok now → is_byte (sa_pending_targets e) → run n (rebroadcast e now n).
Proof.
  intros Hc Hb. unfold rebroadcast. destruct (PathTable.get_live _ _ _) as [path|]; [|done].
  cbv zeta. case_if; [done|].
  destruct (if _ && _ then _ else _) as [e' n1] eqn:Hcase.
  assert (H1 : run n n1 ∧ is_byte (sa_pending_targets e')).
  { destruct (negb (sa_block_rebroadcast e) && m_ROUTER); injection Hcase as <- <-.
    - split; [done|]. cbn. apply byte_lor; [|apply announce_targets_byte]. by case_if.
    - split; [|done]. apply run_queue, step_plain_enqueue. }
  destruct H1 as [H1 He']. destruct (after_attempt _ _ _ _) as [again|] eqn:Ha; [|exact H1].
  eapply run_then; [exact H1|]. apply ns_schedule. constructor. by eapply after_attempt_fit.
Qed.

Lemma popped_byte now t e t' :
  AnnounceSchedule.ok t → AnnounceSchedule.pop_due now t = (Some e, t') → is_byte (sa_pending_targets e).
Proof.
  intros [_ Hf]. unfold AnnounceSchedule.pop_due. destruct (position _ _) as [idx|] eqn:Hp; [|done].
  intros [= He _]. apply position_Some in Hp as (s & Hs & _). rewrite Hs in He. cbn in He. subst s.
  unfold AnnounceSchedule.expire in Hs. apply lookup_purge_Some in Hs as [Hs _]. by apply (Hf _ _ Hs).
Qed.

Lemma run_tick_loop fuel now n : clock_ok now → node_ok n → run n (tick_loop fuel now n).
Proof.
  intros Hc. revert n. induction fuel as [|fuel IH]; intros n Hok; simpl; [done|].
  destruct (AnnounceSchedule.pop_due now (ln_announce_schedule n)) as [popped t] eqn:Hp.
  assert (H1 : run n (set_announce_schedule t n)).
  { match type of Hp with ?x = _ => replace t with (snd x) by (by rewrite Hp) end.
    apply rtc_once, ns_schedule. constructor. }
  destruct popped as [e|]; [|exact H1].
  assert (H2 : run n (rebroadcast e now (set_announce_schedule t n))).
  { etrans; [exact H1|]. apply run_rebroadcast; [done|]. by eapply popped_byte, Hp; apply Hok. }
  etrans; [exact H2|]. apply IH. by eapply run_ok.
Qed.

(** Charging a gate is router bookkeeping. *)
Lemma step_charge slot now spacing r n :
  m_router (ln_interfaces n) = Some r →
  queue_step n (set_interfaces (m_set_router (charge_gate slot now spacing r) (ln_interfaces n)) n).
Proof.
  intros Hr. apply queue_step_still; [|done..].
  exists (ln_outbound n), (ln_last_delivery_identity n),
    (m_set_router (charge_gate slot now spacing r) (ln_interfaces n)), (ln_stats n).
  split; [by destruct n|]. by apply (same_interfaces_write _ r).
Qed.

Lemma run_release_slot fuel slot target now n : run n (snd (release_slot fuel slot target now n)).
Proof.
  revert n. induction fuel as [|fuel IH]; intros n; simpl; [done|].
  destruct (AnnounceSchedule.release_pending slot now (ln_announce_schedule n)) as [released t] eqn:Hp.
  assert (H1 : run n (set_announce_schedule t n)).
  { match type of Hp with ?x = _ => replace t with (snd x) by (by rewrite Hp) end.
    apply rtc_once, ns_schedule. constructor. }
  destruct released as [e|]; [|exact H1]. case_if.
  { etrans; [|apply IH]. eapply run_then; [exact H1|]. 
    match goal with |- node_step _ _ ?a (set_announce_schedule (AnnounceSchedule.remove ?d _) _) =>
      apply (ns_schedule _ _ (AnnounceSchedule.remove d (ln_announce_schedule a)) a) end. constructor. }
  match goal with |- context [enqueue_forwarded ?a ?b ?c ?d ?m] =>
    pose proof (step_forwarded a b c d (packet_lifetime c d m) m) as Hs;
    fold (enqueue_forwarded a b c d m) in Hs;
    destruct (enqueue_forwarded a b c d m) as [[] n1] end; cbn [snd] in *;
    apply run_queue in Hs; [|by etrans].
  destruct (m_router (ln_interfaces n1)) as [r|] eqn:Hr; [|by etrans].
  destruct (release_spacing _ _ _) as [spacing|e'|]; cbn [snd]; try by etrans.
  etrans; [exact H1|]. etrans; [exact Hs|]. by apply run_queue, step_charge.
Qed.

Lemma run_release_slots slots now n : run n (snd (release_slots slots now n)).
Proof.
  revert n. induction slots as [|slot slots IH]; intros n; [done|].
  cbn [release_slots].
  destruct (m_router _) as [r|]; [|done]. destruct (InterfaceRegistry.at_slot _ _) as [target|]; [|apply IH].
  case_if; [apply IH|].
  pose proof (run_release_slot (S (length (ln_announce_schedule n))) slot target now n) as Hs.
  destruct (release_slot _ _ _ _ _) as [[[]|e|] n1]; try exact Hs.
  etrans; [exact Hs|apply IH].
Qed.

Lemma run_release now n : run n (snd (release_gated_announces now n)).
Proof. unfold release_gated_announces. case_if; [done|apply run_release_slots]. Qed.

Lemma run_tick now n : clock_ok now → node_ok n → run n (snd (tick now n)).
Proof.
  intros Hc Hok. unfold tick. cbv zeta. assert (H1 : run n (expire_tables now n)) by apply run_expire_tables.
  revert H1. generalize (expire_tables now n). intros n1 H1.
  assert (H2 : run n1 (tick_loop (S (length (ln_announce_schedule n1))) now n1)).
  { apply run_tick_loop; [done|]. by eapply run_ok. }
  revert H2. generalize (tick_loop (S (length (ln_announce_schedule n1))) now n1). intros n2 H2.
  etrans; [exact H1|]. etrans; [exact H2|apply run_release].
Qed.

End runs.
