(* ===== verification/NodeTotal.v ===== *)
(** No operation of a node panics: arbitrary bytes are parsed, relayed or
    refused, and the tick finishes every loop it starts. *)

From S2P Require Import Prelude Constants Primitives Buffer Wire Slots Queue HashTables GenTable.
From S2P Require Import PathTable Lora AnnounceFlow AnnounceTables FlowTables Discovery Config.
From S2P Require Import Ifac Identity KnownDestinations Links Outbound Model Node NodeFacts.
From S2P Require Import NodeSteps Forward Announcing Ingest NodeRuns.

(** A computation of the state monad that does not panic from [s]. *)
Definition total {S E A} (c : st S E A) (s : S) : Prop := fst (c s) ≠ Panic.

Lemma omap_err_total {E F A} (f : E → F) (c : outcome E A) : no_panic c → no_panic (omap_err f c).
Proof. by destruct c. Qed.
#[export] Hint Resolve omap_err_total : lite.

Lemma from_slice_total CAP d : no_panic (PacketBuffer.from_slice CAP d).
Proof.
  destruct (decide (length d ≤ CAP)) as [Hd|Hd].
  - by destruct (PacketBuffer.from_slice_ok CAP d Hd) as (b & -> & _).
  - by rewrite PacketBuffer.from_slice_err by lia.
Qed.

Lemma build_packet_total h p : no_panic (build_packet h p).
Proof.
  destruct (decide (length (header_bytes h) + length p ≤ MTU)) as [Hd|Hd].
  - by destruct (build_packet_ok h p Hd) as (b & -> & _).
  - by rewrite build_packet_err by lia.
Qed.

Lemma rewrite_total raw h h' : no_panic (rewrite_with_header raw h h').
Proof.
  unfold rewrite_with_header. case_if; [done|]. apply obind_no_panic; [|intros; apply build_packet_total].
  unfold slice_get. rewrite (proj2 (Nat.leb_le _ _)), (proj2 (Nat.leb_le (length raw) _)) by lia. done.
Qed.

Lemma effective_mtu_total s : no_panic (SignallingData.effective_mtu s).
Proof. unfold SignallingData.effective_mtu. by repeat case_if. Qed.

Lemma parse_request_total d : no_panic (parse_request d).
Proof.
  unfold parse_request. case_if; [done|]. apply obind_no_panic; [apply effective_mtu_total|done].
Qed.

#[export] Hint Resolve from_slice_total build_packet_total rewrite_total effective_mtu_total
  parse_request_total parse_view_no_panic : lite.

Section total.
Context `{SHA : Sha256} `{HKDF : HkdfSha256} `{ED : Ed25519} `{HL : ModelLaws M D}.
Abbreviation LiteNode := (LiteNode M D).
Implicit Types n : LiteNode.

(** ** Forwarding *)

Lemma copy_total raw hops : no_panic (copy_for_forward raw hops).
Proof. unfold copy_for_forward. apply obind_no_panic; auto with lite. Qed.

Lemma rewrite_forwarded_total raw oh h now n :
  no_panic (rewrite_forwarded_transport_packet raw oh h now n).
Proof.
  unfold rewrite_forwarded_transport_packet. destruct (PathTable.get_live _ _ _) as [path|]; [|done].
  destruct (_ ?= _)%Z.
  - apply obind_no_panic; auto with lite.
  - apply obind_no_panic; [apply copy_total|done].
  - destruct (pe_next_hop path); [|done]. apply obind_no_panic; auto with lite.
Qed.

Lemma transport_forward_total raw oh h meta now n : total (handle_transport_forward raw oh h meta now) n.
Proof.
  unfold total, handle_transport_forward. case_if; [done|]. case_if; [done|].
  pose proof (rewrite_forwarded_total raw oh h now n) as Ht.
  destruct (rewrite_forwarded_transport_packet _ _ _ _ _) as [[[target fwd]|]|e|]; try done.
  destruct (ReverseTable.next_generation _); [|done]. cbv zeta.
  by destruct (enqueue_forwarded_with_lifetime _ _ _ _ _ _) as [[] n1].
Qed.

Lemma require_total id n : no_panic (require_link_capacity id n).
Proof. unfold require_link_capacity. cbv zeta. by repeat case_if. Qed.

Lemma transit_request_total raw oh fwd :
  header_size oh ≤ length raw → no_panic (transit_request raw oh fwd).
Proof.
  intros Hs. unfold transit_request. cbv zeta.
  unfold slice_get. rewrite (proj2 (Nat.leb_le _ _)), (proj2 (Nat.leb_le (length raw) _)) by lia.
  cbn [andb obind]. apply obind_no_panic; [auto with lite|]. intros request _.
  apply obind_no_panic; [auto with lite|]. intros mtu _.
  repeat (case_if; try done). unfold PacketBuffer.set_len. by case_if.
Qed.

Lemma link_request_total raw oh h meta now n :
  header_size oh ≤ length raw → total (handle_link_request raw oh h meta now) n.
Proof.
  intros Hs. unfold total, handle_link_request. case_if; [done|]. case_if; [done|]. cbv zeta.
  case_if; [done|]. destruct (LinkTable.has_free_slot _ _) as [free links]. case_if; [done|].
  pose proof (rewrite_forwarded_total raw oh h now (set_links links n)) as Ht.
  destruct (rewrite_forwarded_transport_packet _ _ _ _ _) as [[[target fwd]|]|e|]; try done.
  unfold forward_link_request.
  assert (Hn : no_panic (let* _ := require_link_capacity (rx_interface_id meta) (set_links links n) in
    let* _ := require_link_capacity target (set_links links n) in transit_request raw oh fwd)).
  { apply obind_no_panic; [apply require_total|]. intros _ _.
    apply obind_no_panic; [apply require_total|]. intros _ _. by apply transit_request_total. }
  destruct (obind _ _) as [[request packet]|e|]; [|done..].
  destruct (PathTable.get_live _ _ _); [|done]. destruct (LinkTable.next_generation _); [|done].
  cbv zeta. by destruct (enqueue_forwarded_with_lifetime _ _ _ _ _ _) as [[] n1].
Qed.

Lemma route_link_total raw h meta now reason n : total (route_link_packet raw h meta now reason) n.
Proof.
  unfold total, route_link_packet. case_if; [done|].
  destruct (LinkTable.get _ _ _) as [link|]; [|done]. case_if; [done|].
  destruct (link_target _ _ _) as [[target|]|]; [|done..]. unfold forward_link_packet. cbv zeta.
  destruct (if negb _ then _ else _) as [[] hashes]; [done|].
  pose proof (copy_total raw (hops h)) as Hc. destruct (copy_for_forward _ _) as [packet|e|]; [|done..].
  by destruct (enqueue_forwarded _ _ _ _ _) as [[] n1].
Qed.

Lemma proof_total raw h meta now n : total (handle_proof raw h meta now) n.
Proof.
  unfold total, handle_proof. pose proof (copy_total raw (hops h)) as Hc. case_bool_decide.
  - destruct (LinkTable.get _ _ _) as [link|]; [|done]. case_if; [|done].
    unfold transit_lrproof. case_if; [done|]. cbv zeta.
    destruct (PacketHashTable.contains _ _ _) as [[] hashes]; [done|].
    destruct (copy_for_forward _ _) as [packet|e|]; [|done..].
    by destruct (enqueue_forwarded _ _ _ _ _) as [[] n1].
  - pose proof (route_link_total raw h meta now OutboundReason.ProofReturn n) as Hr. unfold total in Hr.
    destruct (route_link_packet _ _ _ _ _ _) as [[[]|e|] n1]; try done.
    unfold reverse_proof. case_if; [|done].
    destruct (ReverseTable.take_with_generation _ _ _) as [[[reverse g]|] t]; [|done]. cbv zeta.
    destruct (copy_for_forward _ _) as [packet|e|]; [|done..].
    by destruct (enqueue_forwarded_with_lifetime _ _ _ _ _ _) as [[] n2].
Qed.

(** ** Announces and path requests *)

Lemma from_raw_total raw d hops ctx n : no_panic (transport_announce_from_raw raw d hops ctx n).
Proof. unfold transport_announce_from_raw. apply obind_no_panic; auto with lite. Qed.

Lemma build_request_total d tag n : no_panic (build_path_request d tag n).
Proof.
  unfold build_path_request. cbv zeta.
  assert (Hb : ∀ x b, PacketBuffer.wf MTU b → PacketBuffer.wf MTU (snd (PacketBuffer.extend_from_slice x b))
             ∧ fst (PacketBuffer.extend_from_slice x b) ≠ Panic).
  { intros x b Hb. split; [by apply PacketBuffer.wf_extend|by eapply PacketBuffer.extend_no_panic]. }
  set (mid := if lc_transport_enabled (ln_config n)
              then PacketBuffer.extend_from_slice (ln_transport_id n) else st_ret tt).
  assert (Hm : ∀ b, PacketBuffer.wf MTU b → PacketBuffer.wf MTU (snd (mid b)) ∧ fst (mid b) ≠ Panic).
  { intros b Hw. unfold mid. case_if; [by apply Hb|done]. }
  unfold st_bind. destruct (Hb d _ (PacketBuffer.wf_new MTU)) as [Hw1 Hp1].
  destruct (PacketBuffer.extend_from_slice d _) as [[[]|e|] b1]; cbn [fst snd] in *; [|done..].
  destruct (Hm b1 Hw1) as [Hw2 Hp2]. destruct (mid b1) as [[[]|e|] b2]; cbn [fst snd] in *; [|done..].
  destruct (Hb (splice 0 (take (Nat.min (length tag) 16) tag) (zeros 16)) b2 Hw2) as [_ Hp3].
  destruct (PacketBuffer.extend_from_slice _ b2) as [[[]|e|] b3]; cbn [fst] in *; [|done..].
  auto with lite.
Qed.

Lemma finish_total raw h meta now n : total (finish_discovery raw h meta now) n.
Proof.
  unfold total, finish_discovery. case_if; [done|].
  destruct (Discoveries.take_discovery _ _ _) as [[owner|] t]; [|done]. cbv zeta.
  match goal with |- context [path_response_from_cached_announce ?a ?b ?c ?m] =>
    pose proof (from_raw_total a b c PathResponse m) as Hr;
    fold (path_response_from_cached_announce a b c m) in Hr;
    by destruct (path_response_from_cached_announce a b c m) end.
Qed.

Lemma publish_total raw h entry meta now n : total (publish_learned raw h entry meta now) n.
Proof.
  unfold total, publish_learned. cbv zeta.
  pose proof (from_slice_total MTU raw) as Hf.
  destruct (PacketBuffer.from_slice MTU raw) as [cached|e|]; cbn [omap_err]; [|done..].
  match goal with |- context [finish_discovery raw h meta now ?m] =>
    pose proof (finish_total raw h meta now m) as Ht; unfold total in Ht;
    destruct (finish_discovery raw h meta now m) as [[[]|e|] n3] end; [|done..].
  case_if; [|done]. pose proof (from_raw_total raw (Wire.destination_hash h) (hops h) CtxNone n3) as Hr.
  by destruct (transport_announce_from_raw _ _ _ _ _).
Qed.

Lemma announce_total raw view h meta now n :
  KnownDestinations.ok (ln_known_destinations n) →
  length (Wire.destination_hash h) = DESTINATION_LENGTH → total (handle_announce raw view h meta now) n.
Proof.
  intros Hk Hd. unfold total, handle_announce. case_if; [done|].
  destruct (AnnounceAdmission.admit_announce _ _ _ _) as [admitted admission]. cbv zeta. case_if; [done|].
  set (n1 := set_announce_admission admission n).
  pose proof (parse_shape (pv_payload view) (context_flag (flags (pv_header view)))
                (lc_max_announce_app_data (ln_config n1))) as Hs.
  destruct (parse _ _ _) as [a|e|]; cbn [obind]; [|done..]. destruct Hs as (_ & Hwf & _).
  destruct (validate_sound a (Wire.destination_hash h) (known_key (Wire.destination_hash h) n1)
              (zeros ANNOUNCE_SCRATCH_MAX) Hwf Hd) as [_ Hv].
  destruct (fst (validate _ _ _ _)) as [ih|e|]; cbn [obind]; [|done..].
  assert (Hl : ∀ m, total (learn_announce raw view a h meta now) m).
  { intros m. unfold total, learn_announce. case_if; [done|]. cbv zeta.
    destruct (PathTable.insert_or_update _ _ _) as [[] paths]; [|done]. apply publish_total. }
  case_if; [|apply Hl].
  pose proof (KnownDestinations.learn_spec (Wire.destination_hash h) (av_public_key a) now
    (ln_known_destinations n1) Hk) as Hls.
  destruct (KnownDestinations.learn _ _ _ _) as [[b|e|] known]; [apply Hl|done..].
Qed.

Lemma relay_total id requested tag local_only n : total (relay_request id requested tag local_only) n.
Proof.
  unfold total, relay_request. pose proof (build_request_total requested tag n) as Hb.
  destruct (build_path_request _ _ _) as [request|e|]; [|done..].
  by destruct (enqueue_packet_broadcast _ _ _ _ _).
Qed.

Lemma path_request_total payload meta now n : total (handle_path_request payload meta now) n.
Proof.
  unfold total, handle_path_request. cbv zeta. case_if; [done|]. case_if; [done|].
  destruct (RequestTagTable.insert_if_new _ _ _ _) as [is_new tags]. case_if; [done|]. case_if; [done|].
  set (n1 := set_request_tags tags n). destruct (answer_from_cache _ _ _ _ _ _) as [[r n']|] eqn:Ha.
  - revert Ha. unfold answer_from_cache. destruct (PathTable.get_live _ _ _); [|done].
    repeat (case_if; [by intros [= <- _]|]). case_if; [|done].
    destruct (AnnounceCache.get _ _ _) as [cached|]; [|done].
    match goal with |- context [path_response_from_cached_announce ?a ?b ?c ?m] =>
      pose proof (from_raw_total a b c PathResponse m) as Hr;
      fold (path_response_from_cached_announce a b c m) in Hr;
      destruct (path_response_from_cached_announce a b c m) end; [|by intros [= <- _]|done].
    destruct (enqueue _ _ _ _). by intros [= <- _].
  - case_if; [apply relay_total|]. case_if; [|case_if; [apply relay_total|done]].
    unfold discover. destruct (interface_slot _ _); [|done]. case_if; [done|]. cbv zeta.
    destruct (Discoveries.begin _ _ _ _ _) as [[id| |] t]; [|done..].
    match goal with |- context [build_path_request ?a ?b ?m] =>
      pose proof (build_request_total a b m) as Hb; destruct (build_path_request a b m) end; [|done..].
    by destruct (enqueue_packet_broadcast_with_lifetime _ _ _ _ _ _).
Qed.

Lemma request_path_total d tag id now n : total (request_path d tag id now) n.
Proof.
  unfold total, request_path. cbv zeta.
  match goal with |- context [build_path_request ?a ?b ?m] =>
    pose proof (build_request_total a b m) as Hb; destruct (build_path_request a b m) end; [|done..].
  destruct (enqueue _ _ _ _) as [[] n1]; [|done]. by destruct (RequestTagTable.insert_if_new _ _ _ _).
Qed.

(** ** Ingestion *)

Definition endpoint_wf (endpoint : option PacketBuffer) : Prop :=
  ∀ b, endpoint = Some b → PacketBuffer.wf MTU b.

Lemma capture_total raw hops endpoint :
  2 ≤ length raw → endpoint_wf endpoint →
  fst (capture_endpoint raw hops endpoint) ≠ Panic ∧ endpoint_wf (snd (capture_endpoint raw hops endpoint)).
Proof.
  intros Hl He. unfold capture_endpoint. destruct endpoint as [b|]; [|done].
  specialize (He b eq_refl). apply PacketBuffer.wf_clear in He.
  destruct (decide (length raw ≤ MTU)) as [Hle|Hgt].
  - destruct (PacketBuffer.extend_ok MTU _ raw He) as (b' & -> & Hw & Hlen & Has); [done|].
    change (PacketBuffer.as_slice b' = raw) in Has. unfold store. rewrite Has.
    rewrite (proj2 (Nat.ltb_lt 1 (length raw))) by lia. cbn [fst snd]. split; [done|].
    intros x [= <-]. apply PacketBuffer.write_slice_content; [done|].
    by rewrite length_insert, <- Has, (PacketBuffer.length_as_slice MTU).
  - rewrite (PacketBuffer.extend_err MTU) by (done || (cbn; lia)). split; [done|]. by intros x [= <-].
Qed.

Lemma capture_plain_total payload endpoint :
  endpoint_wf endpoint →
  fst (capture_plain payload endpoint) ≠ Panic ∧ endpoint_wf (snd (capture_plain payload endpoint)).
Proof.
  intros He. unfold capture_plain. destruct endpoint as [b|]; [|done].
  specialize (He b eq_refl). apply PacketBuffer.wf_clear in He.
  pose proof (PacketBuffer.wf_extend MTU payload _ He) as Hw.
  pose proof (PacketBuffer.extend_no_panic MTU payload _ He) as Hp.
  destruct (PacketBuffer.extend_from_slice _ _) as [[u|e|] b']; cbn [fst snd] in *; try done;
    (split; [done|]; by intros x [= <-]).
Qed.

Lemma dispatch_total raw view h meta now n :
  KnownDestinations.ok (ln_known_destinations n) → parse_view raw = Ok view →
  Wire.destination_hash h = Wire.destination_hash (pv_header view) →
  total (dispatch raw view h meta now) n.
Proof.
  intros Hk Hp Hd. apply parse_view_shape in Hp as (b0 & c & Hf & _ & Hraw & Hlen & Htid & _).
  unfold dispatch. destruct (packet_type (flags h)).
  - unfold total, handle_data.
    pose proof (route_link_total raw h meta now OutboundReason.TransportForward n) as Hr. unfold total in Hr.
    destruct (route_link_packet _ _ _ _ _ _) as [[[]|e|] n1]; try done.
    case_if; [apply path_request_total|]. case_if; [|apply transport_forward_total].
    unfold bridge_plain_broadcast. case_if; [done|]. pose proof (copy_total raw (hops h)) as Hc.
    destruct (copy_for_forward _ _); [|done..]. cbv zeta. by destruct (enqueue_packet_broadcast _ _ _ _ _).
  - apply announce_total; [done|]. by rewrite Hd.
  - apply link_request_total. rewrite Hraw. unfold header_size. rewrite Hf. cbn [length].
    rewrite !length_app. cbn [length]. rewrite Hlen.
    destruct (transport_id _) as [tid|]; cbn [default].
    + destruct Htid as [Hh Ht]. rewrite Hh. change (length _) with (length tid) at 1.
      rewrite Ht. unfold HEADER_MAXSIZE, TRANSPORT_ID_LENGTH, DESTINATION_LENGTH. lia.
    + rewrite Htid. unfold HEADER_MINSIZE, TRANSPORT_ID_LENGTH. cbn [length]. lia.
  - apply proof_total.
Qed.

Lemma conclude_total raw h endpoint result n :
  2 ≤ length raw → endpoint_wf endpoint → result ≠ Panic →
  let '(r, _, e) := conclude raw h endpoint result n in r ≠ Panic ∧ endpoint_wf e.
Proof.
  intros Hl He Hr. unfold conclude. cbv zeta. pose proof (capture_total raw (hops h) endpoint Hl He) as Hc.
  destruct (capture_endpoint raw (hops h) endpoint) as [r e] eqn:Hcap. cbn [fst snd] in Hc.
  destruct result as [a|e'|]; [|by destruct e'|done].
  destruct a; try (by split); try exact Hc;
    (destruct (_ && _); [|by split]); (destruct r; [by split; [|apply Hc]..|by destruct Hc]).
Qed.

Lemma process_total raw view meta now link endpoint n :
  node_ok n → endpoint_wf endpoint → parse_view raw = Ok view →
  let '(r, _, e) := process raw view meta now link endpoint n in r ≠ Panic ∧ endpoint_wf e.
Proof.
  intros Hok He Hp. unfold process. cbv zeta. case_if; [by split|].
  destruct (suppress_duplicate _ _ _ _ _) as [dup n2] eqn:Hs.
  assert (Hk : KnownDestinations.ok (ln_known_destinations n2)).
  { replace n2 with (snd (suppress_duplicate raw (pv_header view) link now
      (count TransportStats.count_accepted n))) by (by rewrite Hs).
    unfold suppress_duplicate. case_if; [|apply Hok]. cbv zeta.
    destruct (PacketHashTable.insert _ _ _ _). case_if; apply Hok. }
  case_if; [by split|].
  assert (Hl : 2 ≤ length raw).
  { apply parse_view_shape in Hp as (b0 & c & _ & _ & -> & Hlen & _). cbn [length]. rewrite !length_app. lia. }
  case_if.
  - pose proof (capture_total raw (hops (received_header (pv_header view) (rx_interface_id meta) n2))
      endpoint Hl He) as Hc. by destruct (capture_endpoint _ _ _).
  - pose proof (dispatch_total raw view (received_header (pv_header view) (rx_interface_id meta) n2)
      meta now n2 Hk Hp eq_refl) as Hd. unfold total in Hd.
    destruct (dispatch _ _ _ _ _ _) as [result n3]. by apply conclude_total.
Qed.

Lemma ingest_packet_total raw meta now link endpoint n :
  node_ok n → endpoint_wf endpoint →
  let '(r, _, e) := ingest_packet raw meta now link endpoint n in r ≠ Panic ∧ endpoint_wf e.
Proof.
  intros Hok He. unfold ingest_packet. case_if; [by split|].
  pose proof (parse_view_no_panic raw) as Hv.
  destruct (parse_view raw) as [view|e|] eqn:Hp; cbn [omap_err obind]; [|by split|done].
  assert (Hc : no_panic (check_link_request view (rx_interface_id meta) n)).
  { unfold check_link_request. case_if; [|done]. apply obind_no_panic; [auto with lite|].
    intros _ _. apply require_total. }
  destruct (check_link_request _ _ _) as [[]|e|]; cbn [obind]; [|by split|done].
  case_if; [|by apply process_total]. case_if; [by split|].
  pose proof (capture_plain_total (pv_payload view) endpoint He) as Hcp.
  by destruct (capture_plain _ _).
Qed.

Lemma ingest_total raw meta now link endpoint n :
  node_ok n → bytes raw → endpoint_wf endpoint →
  let '(r, _, e) := ingest_inner raw meta now link endpoint n in r ≠ Panic ∧ endpoint_wf e.
Proof.
  intros Hok Hb He. unfold ingest_inner. cbv zeta. set (n0 := begin_ingest meta now n).
  assert (Hok0 : node_ok n0) by (eapply run_ok; [exact Hok|apply (run_begin_ingest (λ _, True) (λ _, True))]).
  destruct (router_ingress (rx_interface_id meta) (length raw) n0) as [[[]|e|] n1] eqn:Hr; try (by split).
  2:{ revert Hr. unfold router_ingress. repeat case_match; congruence. }
  assert (n1 = n0) as -> by (revert Hr; unfold router_ingress; repeat case_match; congruence).
  destruct (clear_packet _ _ _) as [[clear|]|e|] eqn:Hc; [by apply ingest_packet_total|by split|by destruct e|].
  exfalso. revert Hc. unfold clear_packet. destruct (m_ifac _ _ _) as [ifac|] eqn:Hi; [|by case_if].
  pose proof (verify_plain raw (ifac_key ifac) (ifac_size ifac) (PacketBuffer.new MTU)
    (PacketBuffer.wf_new MTU) Hb (no_ifac n0 Hok0 _ _ Hi)) as Hp.
  by destruct (ifac_verify_into _ _ _ _) as [[u|e|] p].
Qed.

(** ** The tick *)

(** A router with a valid registry and radio. *)
Definition router_ok n : Prop :=
  ∀ r, m_router (ln_interfaces n) = Some r →
    (∃ depth, InterfaceRegistry.validate depth (r_registry r) = Ok tt) ∧
    (∀ modem, r_lora_modem r = Some modem → valid_modem modem) ∧
    (∀ s i x, r_registry r !! s = Some (Some i) → if_ifac i = Some x → is_byte (ifac_size x)).

Lemma router_ok_static n n' : static n n' → router_ok n → router_ok n'.
Proof.
  intros Hs Hr r' Hr'. pose proof (st_router _ _ Hs) as Hrr. rewrite Hr' in Hrr.
  destruct (m_router (ln_interfaces n)) as [r|] eqn:Hrn; [|done].
  destruct Hrr as (Hreg & _ & Hm & _). rewrite Hreg, Hm. by apply Hr.
Qed.

Lemma lora_spacing_total len modem cap :
  len ≤ LORA_SPLIT_FRAME_PAYLOAD_MAX → valid_modem modem → ∃ z, lora_spacing_ms len modem cap = Ok z.
Proof.
  intros Hl Hm. unfold lora_spacing_ms, lora_tx_ms.
  assert (Ha : ∀ k, k ≤ 255 → ∃ z, frame_airtime_ms modem k = Ok z).
  { intros k Hk. destruct (frame_airtime_exact modem k Hm Hk) as [-> _]. by eexists. }
  unfold LORA_SPLIT_FRAME_PAYLOAD_MAX in Hl.
  case_if; unfold LORA_FRAME_PAYLOAD_MAX in *.
  - destruct (Ha (len + 1)) as [z ->]; [lia|]. by eexists.
  - destruct (Ha (254 + 1)) as [z ->]; [lia|]. cbn [obind].
    destruct (Ha (len - 254 + 1)) as [z' ->]; [lia|]. by eexists.
Qed.

(** What fits an interface and its access code fits its frames. *)
Lemma target_fits slot target r n :
  m_router (ln_interfaces n) = Some r → router_ok n → slot < REQUESTERS →
  InterfaceRegistry.at_slot slot (r_registry r) = Some target →
  interface_clear_mtu (if_id target) n ≤ InterfaceConfig.clear_mtu target.
Proof.
  intros Hr Hok Hs Hat. destruct (Hok r Hr) as ([depth Hv] & _).
  apply RegistryFacts.validate_unique in Hv as [Hu _].
  unfold interface_clear_mtu, interface_slot, m_slot, slot_of.
  destruct (find _ _) as [s|] eqn:Hf.
  - apply find_some in Hf as [_ Hf]. rewrite (law_router_facts _ r) in * by done.
    apply andb_true_iff in Hf as [Hflag Hid]. unfold Router.facts in *.
    destruct (InterfaceRegistry.at_slot s (r_registry r)) as [i|] eqn:Hi; [|done].
    apply Z.eqb_eq in Hid. cbn [f_id f_clear_mtu] in *.
    assert (i = target) as ->; [|apply as_u16_le; done].
    unfold InterfaceRegistry.at_slot in Hat, Hi.
    destruct (r_registry r !! s) as [o1|] eqn:H1; [|done]. cbn in Hi. subst o1.
    destruct (r_registry r !! slot) as [o2|] eqn:H2; [|done]. cbn in Hat. subst o2.
    assert (s = slot) as -> by (eapply Hu; [exact H1|exact H2|exact Hid]). congruence.
  - exfalso. assert (Hin : In slot (seq 0 REQUESTERS)) by (apply in_seq; lia).
    pose proof (find_none _ _ Hf slot Hin) as Hn. cbv beta in Hn.
    rewrite (law_router_facts _ r) in Hn by done. unfold Router.facts in Hn. rewrite Hat in Hn.
    cbn [f_id f_flags] in Hn. rewrite Z.eqb_refl, andb_true_r in Hn.
    destruct (if_online target && outbound (if_direction target)), (bool_decide (if_role target = LocalClient));
      discriminate Hn.
Qed.

Lemma spacing_total len slot target r n :
  m_router (ln_interfaces n) = Some r → router_ok n →
  InterfaceRegistry.at_slot slot (r_registry r) = Some target →
  len ≤ InterfaceConfig.clear_mtu target →
  ∃ z, release_spacing (len + match if_ifac target with Some i => Z.to_nat (ifac_size i) | None => 0 end)
         target (r_lora_modem r) = Ok z.
Proof.
  intros Hr Hok Hat Hl. destruct (Hok r Hr) as (_ & Hm & Hb). unfold release_spacing.
  destruct (if_role target) eqn:Hrole; try (by eexists).
  destruct (r_lora_modem r) as [modem|]; [|by eexists].
  apply lora_spacing_total; [|by apply Hm].
  unfold InterfaceConfig.clear_mtu in Hl. rewrite Hrole in Hl.
  unfold InterfaceRegistry.at_slot in Hat.
  destruct (r_registry r !! slot) as [o|] eqn:Ho; [|done]. cbn in Hat. subst o.
  unfold LORA_SPLIT_FRAME_PAYLOAD_MAX, LORA_FRAME_PAYLOAD_MAX in *.
  destruct (if_ifac target) as [x|] eqn:Hx; [|case_if; lia].
  pose proof (Hb slot target x Ho Hx) as [H0 H256]. case_if; lia.
Qed.

(** An admitted packet fits its interface. *)
Lemma enqueued_fits id packet reason lifetime n n' :
  enqueue_with_lifetime id packet reason lifetime n = (true, n') → pb_len packet ≤ interface_clear_mtu id n.
Proof.
  unfold enqueue_with_lifetime. case_if; [done|]. case_if; [done|]. intros _. lia.
Qed.

Lemma forwarded_fits source target packet reason lifetime n n' :
  enqueue_forwarded_with_lifetime source target packet reason lifetime n = (true, n') →
  pb_len packet ≤ interface_clear_mtu target n.
Proof.
  unfold enqueue_forwarded_with_lifetime. destruct (m_router _); [|apply enqueued_fits].
  destruct (Router.interface _ _); [|done]. repeat (case_if; [done|]). apply enqueued_fits.
Qed.

Lemma release_slot_total fuel slot target now n r :
  m_router (ln_interfaces n) = Some r → router_ok n → slot < REQUESTERS →
  InterfaceRegistry.at_slot slot (r_registry r) = Some target →
  fst (release_slot fuel slot target now n) = Ok tt.
Proof.
  revert n. induction fuel as [|fuel IH]; intros n Hr Hok Hs Hat; [done|]. cbn [release_slot].
  destruct (AnnounceSchedule.release_pending _ _ _) as [[e|] t]; [|done]. case_if; [by apply IH|].
  set (n1 := set_announce_schedule t n).
  match goal with |- context [enqueue_forwarded ?a ?b ?c ?d n1] =>
    pose proof (step_forwarded a b c d (packet_lifetime c d n1) n1) as Hstep;
    fold (enqueue_forwarded a b c d n1) in Hstep;
    destruct (enqueue_forwarded a b c d n1) as [[] n2] eqn:He end; [|done].
  cbn [snd] in Hstep. apply forwarded_fits in He.
  pose proof (si_router _ _ (queues_interfaces _ _ (qs_queues _ _ Hstep))) as Hrr.
  change (ln_interfaces n1) with (ln_interfaces n) in Hrr. rewrite Hr in Hrr.
  destruct (m_router (ln_interfaces n2)) as [r2|] eqn:Hr2; [|done].
  destruct Hrr as (_ & _ & Hm & _). rewrite Hm.
  destruct (spacing_total (pb_len (sa_packet e)) slot target r n) as [z ->]; try done.
  etrans; [exact He|]. by apply (target_fits slot target r n).
Qed.

Lemma release_slots_total slots now n :
  router_ok n → (∀ s, s ∈ slots → s < REQUESTERS) → fst (release_slots slots now n) = Ok tt.
Proof.
  revert n. induction slots as [|slot slots IH]; intros n Hok Hs; [done|]. cbn [release_slots].
  assert (Hrest : ∀ s, s ∈ slots → s < REQUESTERS) by (intros; apply Hs; by constructor).
  destruct (m_router (ln_interfaces n)) as [r|] eqn:Hr; [|done].
  destruct (InterfaceRegistry.at_slot slot (r_registry r)) as [target|] eqn:Hat; [|by apply IH].
  case_if; [by apply IH|].
  assert (Hslot : slot < REQUESTERS) by (apply Hs; by constructor).
  pose proof (release_slot_total (S (length (ln_announce_schedule n))) slot target now n r Hr Hok Hslot Hat) as Ht.
  pose proof (run_release_slot (λ _, True) (λ _, True) (S (length (ln_announce_schedule n))) slot target now n) as Hrun.
  destruct (release_slot _ _ _ _ _) as [o n1]. cbn [fst snd] in *. subst o.
  apply IH; [|done]. eapply router_ok_static; [by eapply run_static|done].
Qed.

Lemma tick_total now n : clock_ok now → node_ok n → router_ok n → fst (tick now n) = Ok tt.
Proof.
  intros Hc Hok Hr. unfold tick. cbv zeta.
  assert (H1 : rtc (node_step (λ _, True) (λ _, True)) n (expire_tables now n)) by apply run_expire_tables.
  revert H1. generalize (expire_tables now n). intros n1 H1.
  assert (H2 : rtc (node_step (λ _, True) (λ _, True)) n1
                 (tick_loop (S (length (ln_announce_schedule n1))) now n1)).
  { apply run_tick_loop; [done|]. by eapply run_ok. }
  revert H2. generalize (tick_loop (S (length (ln_announce_schedule n1))) now n1). intros n2 H2.
  unfold release_gated_announces. case_if; [done|]. apply release_slots_total.
  - eapply router_ok_static; [|exact Hr].
    apply (run_static (λ _, True) (λ _, True)). etrans; [exact H1|exact H2].
  - intros s Hs%elem_of_seq. lia.
Qed.

End total.
