(* ===== verification/NodeExample.v ===== *)
(** Small concrete nodes for the witnesses: an endpoint, and a router with a
    radio and a backbone interface, over the toy primitives. *)

From S2P Require Import Prelude Constants Primitives Buffer Wire Slots Queue HashTables GenTable.
From S2P Require Import PathTable Lora AnnounceFlow AnnounceTables FlowTables Discovery Config.
From S2P Require Import Ifac Identity KnownDestinations Links Outbound Model Node NodeFacts.
From S2P Require Import NodeSteps Forward Announcing Ingest Hosts NodeRuns NodeTotal.

Module NodeExample.

#[local] Existing Instances Toy.sha256 Toy.hkdf Toy.ed25519 Toy.x25519.

Definition caps : Capacities :=
  {| PATHS := 3; HASHES := 4; ANNOUNCES := 3; REVERSE := 3; LINKS := 2; TAGS := 3; OUTBOUND := 4;
     KNOWN_DESTINATIONS := 2; SCHEDULED := 3 |}.

Definition tid : list Z := replicate 16 1%Z.
Definition config : LiteConfig := LiteConfig.with_caps
  {| path_entries := 3; announce_entries := 3; reverse_entries := 3; link_entries := 2;
     packet_hashes := 4; recent_announces := 16; path_request_tags := 3; random_blobs_per_path := 8;
     queued_announces_per_interface := 4; tx_queue_depth_cap := 4 |}.

Definition endpoint : LiteNode Endpoint OutboundDelivery := new_const caps config tid.

Definition registry : InterfaceRegistry :=
  Some (InterfaceConfig.lora 1 5000 4) :: Some (InterfaceConfig.backbone 2 1000000 4) :: replicate 6 None.

Definition router : LiteNode Router Z :=
  RouterHost.new_router_const caps config tid registry None.

Lemma endpoint_ok : node_ok endpoint.
Proof. by apply node_ok_new; [compute; lia|]. Qed.

Lemma endpoint_router_ok : router_ok endpoint.
Proof. by intros r Hr. Qed.

Lemma router_node_ok : node_ok router.
Proof.
  pose proof (node_ok_new (M := Router) (D := Z) caps config tid) as Hn.
  destruct Hn as []; [compute; lia|by intros i x Hx|]. split; try done.
  intros i x Hx. revert Hx. cbn. unfold Router.ifac. cbn. intros Hx.
  unfold InterfaceRegistry.get in Hx. cbn in Hx. repeat case_match; by simplify_eq.
Qed.

Lemma router_registry_ok : router_ok router.
Proof.
  intros r [= <-]. split; [exists 4; by vm_compute|]. split; [done|].
  intros s i x. cbn. intros Hs Hx.
  destruct s as [|[|s]]; [injection Hs as <-; done..|].
  do 6 (destruct s as [|s]; [done|]). done.
Qed.

(** An announce of a destination, as it arrives on the radio. *)
Definition identity : LocalIdentity := from_private_key (seqZ 0 64).
Definition nh : list Z := replicate 10 3%Z.
Definition destination : list Z := destination_hash_from_parts nh (Some (li_identity_hash identity)).
Definition announce : list Z :=
  take 151 (snd (create_announce_with_name_hash identity nh (replicate 10 4%Z) None [1; 2; 3]%Z (zeros 200))).
Definition announce_frame : list Z := [1; 0]%Z ++ destination ++ [0]%Z ++ announce.

Lemma announce_frame_bytes : bytes announce_frame.
Proof. by apply bytes_check. Qed.

(** A link request to it from the backbone, and the destination's proof. *)
Definition request_frame : list Z := [82; 0]%Z ++ tid ++ destination ++ [0]%Z ++ seqZ 10 64.
Definition link_id : list Z := link_id_from_raw request_frame Header2.
Definition link_key : list Z := seqZ 50 32.
Definition proof_frame : list Z :=
  [15; 0]%Z ++ link_id ++ [255]%Z
  ++ ed_sign (seqZ 32 32) (link_id ++ link_key ++ drop 32 (li_public_key identity)) ++ link_key.

Lemma request_frame_bytes : bytes request_frame.
Proof. by apply bytes_check. Qed.

Lemma proof_frame_bytes : bytes proof_frame.
Proof. by apply bytes_check. Qed.

End NodeExample.
