(* ===== verification/Rebroadcast.v ===== *)
(** The loops of the tick: every due announce is handled once, and the release
    of gated announces stops at the first that can be sent. More iterations than
    the model's fuel would change nothing. *)

From S2P Require Import Prelude Constants Primitives Buffer Wire Slots Queue HashTables GenTable.
From S2P Require Import PathTable Lora AnnounceFlow AnnounceTables FlowTables Discovery Config.
From S2P Require Import Ifac Identity KnownDestinations Links Outbound Model Node NodeFacts.
From S2P Require Import NodeSteps Forward Announcing Ingest NodeRuns NodeTotal NodeExample.

(** * Counting due announces *)

Definition due (now : Z) (e : ScheduledAnnounce) : bool := (sa_due_ms e <=? now)%Z.

Definition due_count (now : Z) (t : AnnounceSchedule) : nat := length (List.filter (slot_is (due now)) t).

Lemma filter_write {A} (p : A → bool) (l : list A) i x :
  p x = false → length (List.filter p (<[i := x]> l)) ≤ length (List.filter p l) ∧
  (∀ y, l !! i = Some y → p y = true → length (List.filter p (<[i := x]> l)) < length (List.filter p l)).
Proof.
  intros Hx. revert i. induction l as [|a l IH]; intros [|i]; simpl; [done|done| |].
  - rewrite Hx. split; [destruct (p a); simpl; lia|]. intros y [= ->] ->. simpl. lia.
  - destruct (IH i) as [IH1 IH2]. split.
    + destruct (p a); cbn [length]; lia.
    + intros y Hy Hp. specialize (IH2 y Hy Hp). destruct (p a); cbn [length]; lia.
Qed.

Lemma filter_purge_le now d (t : AnnounceSchedule) : due_count now (purge d t) ≤ due_count now t.
Proof.
  unfold due_count. induction t as [|[e|] t IH]; simpl; [done| |done].
  destruct (d e); cbn [List.filter slot_is]; destruct (due now e); cbn [length]; lia.
Qed.

Lemma pop_due_decreases now t e t' :
  AnnounceSchedule.pop_due now t = (Some e, t') → due_count now t' < due_count now t.
Proof.
  unfold AnnounceSchedule.pop_due. destruct (position _ _) as [idx|] eqn:Hp; [|done].
  intros [= _ <-]. apply position_Some in Hp as (s & Hs & Hds & _).
  pose proof (filter_purge_le now (λ e, (sa_expires_ms e <=? now)%Z) t) as Hle.
  destruct (filter_write (slot_is (due now)) (AnnounceSchedule.expire now t) idx None eq_refl) as [_ Hlt].
  specialize (Hlt s Hs Hds). unfold due_count in *.
  change (purge _ t) with (AnnounceSchedule.expire now t) in Hle. lia.
Qed.

Lemma insert_due now again t :
  (now < sa_due_ms again)%Z → due_count now (AnnounceSchedule.insert again now t) ≤ due_count now t.
Proof.
  intros Hd. pose proof (filter_purge_le now (λ e, (sa_expires_ms e <=? now)%Z) t) as Hle.
  assert (Hw : ∀ idx, due_count now (<[idx := Some again]> (AnnounceSchedule.expire now t)) ≤ due_count now t).
  { intros idx. etrans; [|exact Hle]. apply filter_write. simpl. unfold due. lia. }
  unfold AnnounceSchedule.insert. destruct (position _ _); [apply Hw|]. by destruct (or_else _ _).
Qed.

Lemma due_count_length now t : due_count now t ≤ length t.
Proof. apply filter_length_le. Qed.

Section rebroadcast.
Context `{SHA : Sha256} `{HKDF : HkdfSha256} `{ED : Ed25519} `{HL : ModelLaws M D}.
Abbreviation LiteNode := (LiteNode M D).
Implicit Types n : LiteNode.

(** What is scheduled again is due later. *)
Lemma after_attempt_later e hash now n again :
  clock_ok now → after_attempt e hash now n = Some again → (now < sa_due_ms again)%Z.
Proof.
  intros Hc. unfold after_attempt. cbv zeta. case_if.
  - intros [= <-]. cbn [sa_due_ms with_due sa_rebuild].
    match goal with |- context [announce_jitter_ms ?a ?b ?c] =>
      pose proof (jitter_range a b c) as Hj; revert Hj; generalize (announce_jitter_ms a b c) end.
    intros j Hj. unfold clock_ok, sat_add64, PATHFINDER_G_SECS, u64_max in *. lia.
  - case_if; [|done]. intros [= <-]. cbn. unfold PENDING_ONLY, clock_ok, u64_max in *. lia.
Qed.

Lemma queue_schedule n n' : queue_step n n' → ln_announce_schedule n' = ln_announce_schedule n.
Proof. intros [(q & i & m & s & -> & _) _]. done. Qed.

Lemma rebroadcast_due e now n :
  clock_ok now →
  due_count now (ln_announce_schedule (rebroadcast e now n)) ≤ due_count now (ln_announce_schedule n).
Proof.
  intros Hc. unfold rebroadcast. destruct (PathTable.get_live _ _ _) as [path|]; [|done].
  cbv zeta. case_if; [done|]. destruct (if _ && _ then _ else _) as [e' n1] eqn:Hcase.
  assert (H1 : ln_announce_schedule n1 = ln_announce_schedule n).
  { destruct (negb (sa_block_rebroadcast e) && m_ROUTER); injection Hcase as _ <-; [done|].
    apply queue_schedule, step_plain_enqueue. }
  destruct (after_attempt _ _ _ _) as [again|] eqn:Ha; [|by rewrite H1].
  cbn [ln_announce_schedule set_announce_schedule]. rewrite H1. apply insert_due. by eapply after_attempt_later.
Qed.

(** Enough fuel leaves nothing due, and more changes nothing. *)
Lemma tick_loop_done fuel now n :
  clock_ok now → due_count now (ln_announce_schedule n) < fuel →
  fst (AnnounceSchedule.pop_due now (ln_announce_schedule (tick_loop fuel now n))) = None ∧
  ∀ more, tick_loop (fuel + more) now n = tick_loop fuel now n.
Proof.
  intros Hc. revert n. induction fuel as [|fuel IH]; intros n Hf; [lia|]. cbn [tick_loop Nat.add].
  destruct (AnnounceSchedule.pop_due now (ln_announce_schedule n)) as [[e|] t] eqn:Hp.
  - apply IH. apply pop_due_decreases in Hp.
    pose proof (rebroadcast_due e now (set_announce_schedule t n) Hc) as Hr.
    cbn [ln_announce_schedule set_announce_schedule] in Hr. lia.
  - split; [|done]. cbn [ln_announce_schedule set_announce_schedule].
    unfold AnnounceSchedule.pop_due in *. destruct (position _ _) as [idx|] eqn:Hpos.
    { apply position_Some in Hpos as (s & Hs & Hds & _). rewrite Hs in Hp. by destruct s. }
    injection Hp as <-. unfold AnnounceSchedule.expire in *. by rewrite purge_idem, Hpos.
Qed.

(** The announces a slot is still owed are its release loop's measure. *)
Lemma release_owed_less slot now t e t' :
  AnnounceSchedule.release_pending slot now t = (Some e, t') →
  length (AnnounceSchedule.owed slot t') < length (AnnounceSchedule.owed slot t).
Proof.
  intros Hr. apply AnnounceSchedule.release_owed in Hr as (x & bit & Hs & _ & _ & Hp & _).
  apply Permutation_length in Hp. cbn [length] in Hp.
  assert (Hle : length (AnnounceSchedule.owed slot (AnnounceSchedule.expire now t))
                ≤ length (AnnounceSchedule.owed slot t)).
  { unfold AnnounceSchedule.owed, AnnounceSchedule.expire. clear.
    induction t as [|[e|] t IH]; simpl; [done| |done].
    destruct (sa_expires_ms e <=? now)%Z; simpl; destruct (AnnounceSchedule.wants slot e); simpl; lia. }
  lia.
Qed.

(** Purging announces owes no slot more. *)
Lemma owed_purge slot d (t : AnnounceSchedule) :
  length (AnnounceSchedule.owed slot (purge d t)) ≤ length (AnnounceSchedule.owed slot t).
Proof.
  unfold AnnounceSchedule.owed. induction t as [|[e|] t IH]; simpl; [done| |done].
  destruct (d e); simpl; destruct (AnnounceSchedule.wants slot e); simpl; lia.
Qed.

Lemma release_slot_fuel fuel slot target now n more :
  length (AnnounceSchedule.owed slot (ln_announce_schedule n)) < fuel →
  release_slot (fuel + more) slot target now n = release_slot fuel slot target now n.
Proof.
  revert n. induction fuel as [|fuel IH]; intros n Hf; [lia|]. cbn [release_slot Nat.add].
  destruct (AnnounceSchedule.release_pending slot now (ln_announce_schedule n)) as [[e|] t] eqn:Hp; [|done].
  apply release_owed_less in Hp. destruct (negb _); [|done]. apply IH.
  cbn [ln_announce_schedule set_announce_schedule].
  pose proof (owed_purge slot (λ e', sa_destination_hash e' =k sa_destination_hash e) t) as Hr.
  change (purge _ t) with (AnnounceSchedule.remove (sa_destination_hash e) t) in Hr. lia.
Qed.

Lemma owed_length slot (t : AnnounceSchedule) : length (AnnounceSchedule.owed slot t) ≤ length t.
Proof.
  unfold AnnounceSchedule.owed. etrans; [apply filter_length_le|].
  induction t as [|[e|] t IH]; cbn [flatten length]; lia.
Qed.

(** ** Where an announce may go *)

(** The rule for one interface. *)
Definition egress_rule (source target : InterfaceConfig) : Prop :=
  if_online target = true ∧ outbound (if_direction target) = true ∧
  (if_id source = if_id target → repeat_ (if_direction target) = true) ∧
  (if_id source ≠ if_id target → forward (if_direction target) = true) ∧
  (if_role target = LocalClient ∨
   if_mode target ≠ AccessPoint ∧
   (if_mode source = Boundary → if_mode target ≠ Internal ∧ if_mode target ≠ Roaming) ∧
   (if_mode source = Roaming → if_mode target ≠ Roaming ∧ if_mode target ≠ Boundary)).

Lemma mode_rule sm tm :
  match tm with
  | AccessPoint => false
  | Internal => negb (bool_decide (sm = Boundary))
  | Roaming => negb (bool_decide (sm = Roaming) || bool_decide (sm = Boundary))
  | Boundary => negb (bool_decide (sm = Roaming))
  | Full | PointToPoint | Gateway => true
  end = true ↔
  tm ≠ AccessPoint ∧ (sm = Boundary → tm ≠ Internal ∧ tm ≠ Roaming) ∧
  (sm = Roaming → tm ≠ Roaming ∧ tm ≠ Boundary).
Proof. destruct tm, sm; cbn; intuition discriminate. Qed.

Lemma egress_rule_spec source target : announce_egress_allowed source target = true ↔ egress_rule source target.
Proof.
  unfold announce_egress_allowed, egress_rule.
  destruct (if_online target); cbn [negb orb]; [|by split; [|intros [? _]]].
  destruct (outbound (if_direction target)); cbn [negb]; [|by split; [|intros (_ & ? & _)]].
  assert (Hrest : (if if_role target =k LocalClient then true else
      match if_mode target with
      | AccessPoint => false
      | Internal => negb (bool_decide (if_mode source = Boundary))
      | Roaming => negb (bool_decide (if_mode source = Roaming) || bool_decide (if_mode source = Boundary))
      | Boundary => negb (bool_decide (if_mode source = Roaming))
      | Full | PointToPoint | Gateway => true
      end) = true ↔
    (if_role target = LocalClient ∨ if_mode target ≠ AccessPoint ∧
     (if_mode source = Boundary → if_mode target ≠ Internal ∧ if_mode target ≠ Roaming) ∧
     (if_mode source = Roaming → if_mode target ≠ Roaming ∧ if_mode target ≠ Boundary))).
  { case_bool_decide as Hrole; [by split; [left|]|]. rewrite mode_rule. tauto. }
  destruct (Z.eqb_spec (if_id source) (if_id target)) as [Hid|Hid]; cbn [negb andb].
  - destruct (repeat_ (if_direction target)); cbn [negb]; [rewrite Hrest; tauto|].
    split; [done|]. intros (_ & _ & Hr & _). by specialize (Hr Hid).
  - destruct (forward (if_direction target)); cbn [negb]; [rewrite Hrest; tauto|].
    split; [done|]. intros (_ & _ & _ & Hf & _). by specialize (Hf Hid).
Qed.

Lemma targets_bit (p : nat → bool) l acc slot :
  NoDup l → Z.testbit (fold_left (λ t s, Z.lor t (Z.shiftl 1 (Z.of_nat s))) (List.filter p l) acc) (Z.of_nat slot)
  = Z.testbit acc (Z.of_nat slot) || (bool_decide (slot ∈ l) && p slot).
Proof.
  intros Hnd. revert acc. induction l as [|s l IH]; intros acc; cbn [List.filter fold_left].
  - rewrite bool_decide_eq_false_2 by apply not_elem_of_nil. by rewrite orb_false_r.
  - apply NoDup_cons in Hnd as [Hs Hnd].
    assert (Hb : Z.testbit (Z.shiftl 1 (Z.of_nat s)) (Z.of_nat slot) = (s =? slot)).
    { rewrite Z.shiftl_1_l, Z.pow2_bits_eqb by lia. apply eq_bool_prop_intro.
      rewrite !Is_true_true, Z.eqb_eq, Nat.eqb_eq. lia. }
    destruct (Nat.eqb_spec s slot) as [->|Hne].
    + rewrite (bool_decide_eq_true_2 (slot ∈ slot :: l)) by (by constructor).
      destruct (p slot) eqn:Hp; cbn [fold_left]; rewrite IH by done;
        rewrite (bool_decide_eq_false_2 (slot ∈ l)) by done; rewrite ?Z.lor_spec, ?Hb; by destruct (Z.testbit acc _), (bool_decide _).
    + rewrite (bool_decide_ext (slot ∈ s :: l) (slot ∈ l)) by (rewrite elem_of_cons; naive_solver).
      destruct (p s); cbn [fold_left]; rewrite IH by done; rewrite ?Z.lor_spec, ?Hb; by destruct (Z.testbit acc _), (bool_decide _).
Qed.

Lemma announce_targets_bits source slot n :
  Z.testbit (announce_targets source n) (Z.of_nat slot) =
  match m_router (ln_interfaces n) with
  | Some r => match Router.interface source r, InterfaceRegistry.at_slot slot (r_registry r) with
              | Some src, Some target => bool_decide (slot < REQUESTERS) && announce_egress_allowed src target
              | _, _ => false
              end
  | None => false
  end.
Proof.
  unfold announce_targets. destruct (m_router _) as [r|]; [|apply Z.bits_0].
  destruct (Router.interface source r) as [src|]; [|apply Z.bits_0].
  rewrite targets_bit by apply NoDup_seq. rewrite Z.bits_0. cbn [orb].
  assert (Hs : bool_decide (slot ∈ seq 0 REQUESTERS) = bool_decide (slot < REQUESTERS)).
  { apply bool_decide_ext. rewrite elem_of_seq. lia. }
  rewrite Hs. destruct (InterfaceRegistry.at_slot slot (r_registry r)); by rewrite ?andb_false_r.
Qed.

End rebroadcast.

(** C20: the tick ends. With the fuel it is given, no announce is left due after
    the rebroadcast loop, because an announce scheduled again is due later; in
    the release loop each round takes an announce the interface was owed. More
    iterations than these change nothing, and the whole tick returns normally on
    a router with a valid registry and radio. *)
Theorem tick_terminates `{SHA : Sha256} `{HKDF : HkdfSha256} `{ED : Ed25519} `{HL : ModelLaws M D}
    (n : LiteNode M D) now :
  clock_ok now → node_ok n → router_ok n →
  fst (tick now n) = Ok tt ∧
  (∀ m : LiteNode M D, let m' := tick_loop (S (length (ln_announce_schedule m))) now m in
     fst (AnnounceSchedule.pop_due now (ln_announce_schedule m')) = None ∧
     ∀ more, tick_loop (S (length (ln_announce_schedule m)) + more) now m = m') ∧
  (∀ (m : LiteNode M D) slot target more,
     release_slot (S (length (ln_announce_schedule m)) + more) slot target now m
     = release_slot (S (length (ln_announce_schedule m))) slot target now m).
Proof.
  intros Hc Hok Hr. split; [by apply tick_total|]. split.
  - intros m m'. apply tick_loop_done; [done|]. pose proof (due_count_length now (ln_announce_schedule m)). lia.
  - intros m slot target more. apply release_slot_fuel.
    pose proof (owed_length slot (ln_announce_schedule m)). lia.
Qed.

(** An announce goes exactly to the interfaces the modes allow. The bit of a
    slot is set when it holds an online outbound interface that may repeat (for
    the interface the announce came from) or forward (for the others), and that
    is a local client or has a mode open to the source's: never an access point,
    no boundary announces into internal or roaming interfaces, no roaming
    announces into roaming or boundary ones. An endpoint has no such targets. *)
Lemma announce_targets_exact `{SHA : Sha256} `{HKDF : HkdfSha256} `{ED : Ed25519} `{HL : ModelLaws M D}
    (n : LiteNode M D) source slot :
  is_byte (announce_targets source n) ∧
  (Z.testbit (announce_targets source n) (Z.of_nat slot) = true ↔
   slot < REQUESTERS ∧ ∃ r src target, m_router (ln_interfaces n) = Some r ∧
     Router.interface source r = Some src ∧
     InterfaceRegistry.at_slot slot (r_registry r) = Some target ∧ egress_rule src target).
Proof.
  split; [apply announce_targets_byte|]. rewrite announce_targets_bits.
  destruct (m_router _) as [r|]; [|naive_solver].
  destruct (Router.interface source r) as [src|] eqn:Hsrc; [|naive_solver].
  destruct (InterfaceRegistry.at_slot slot (r_registry r)) as [target|] eqn:Ht; [|naive_solver].
  rewrite andb_true_iff, bool_decide_eq_true, egress_rule_spec. naive_solver.
Qed.

(** A router that has scheduled an announce. *)
Lemma tick_terminates_witness :
  let _ := Toy.sha256 in let _ := Toy.hkdf in let _ := Toy.ed25519 in
  fst (tick 1000 NodeExample.router) = Ok tt ∧
  fst (AnnounceSchedule.pop_due 1000 (ln_announce_schedule (tick_loop 4 1000 NodeExample.router))) = None.
Proof.
  intros s k e. destruct (tick_terminates (SHA := s) (HKDF := k) (ED := e) NodeExample.router 1000) as (H1 & H2 & _).
  - unfold clock_ok, u64_max. lia.
  - exact NodeExample.router_node_ok.
  - exact NodeExample.router_registry_ok.
  - split; [exact H1|]. exact (proj1 (H2 NodeExample.router)).
Defined.

(** An announce from the backbone goes on to the radio. *)
Lemma announce_targets_exact_witness :
  let _ := Toy.sha256 in let _ := Toy.hkdf in let _ := Toy.ed25519 in
  Z.testbit (announce_targets 2 NodeExample.router) 0 = true.
Proof.
  intros s k e. apply (announce_targets_exact (SHA := s) (HKDF := k) (ED := e) NodeExample.router 2 0).
  split; [unfold REQUESTERS; lia|].
  exists (ln_interfaces NodeExample.router), (InterfaceConfig.backbone 2 1000000 4), (InterfaceConfig.lora 1 5000 4).
  split; [reflexivity|]. split; [reflexivity|]. split; [reflexivity|].
  unfold egress_rule. split; [reflexivity|]. split; [reflexivity|]. split; [intros Hid; cbn in Hid; discriminate Hid|].
  split; [reflexivity|]. right. split; [discriminate|]. split; intros _; split; discriminate.
Defined.
