(* ===== verification/Trace.v ===== *)
(** A router over time: what its host may do to it, as events, and what every
    run of events preserves. Routes and relayed links are traced back to the
    frames that proved them. *)

From S2P Require Import Prelude Constants Primitives Buffer Wire Slots Queue HashTables GenTable.
From S2P Require Import PathTable Lora AnnounceFlow AnnounceTables FlowTables Discovery Config.
From S2P Require Import Ifac Identity KnownDestinations Links Outbound Model Node NodeFacts.
From S2P Require Import NodeSteps Forward Announcing Ingest Hosts NodeRuns NodeTotal NodeExample.

(** * Registries *)

(** Distinct interfaces, each valid for some queue depth. *)
Definition interface_fits (i : InterfaceConfig) : Prop :=
  (∃ depth, InterfaceConfig.validate depth i = Ok tt) ∧
  ∀ x, if_ifac i = Some x → is_byte (ifac_size x).

Definition registry_fits (t : InterfaceRegistry) : Prop :=
  unique_keys t ∧ ∀ s i, t !! s = Some (Some i) → interface_fits i.

Lemma interface_depth_mono d d' i :
  InterfaceConfig.validate d i = Ok tt → d ≤ d' → InterfaceConfig.validate d' i = Ok tt.
Proof.
  unfold InterfaceConfig.validate. intros Hv Hd. destruct (match if_ifac i with Some _ => _ | None => _ end);
    cbn [obind] in *; try done. destruct ((if_mtu i <? HEADER_MINSIZE) || (MTU <? if_mtu i)); [done|].
  destruct (if_tx_queue_depth i =? 0); cbn [orb] in *; [done|].
  destruct (Nat.ltb_spec d (if_tx_queue_depth i)); [done|].
  destruct (Nat.ltb_spec d' (if_tx_queue_depth i)); [lia|done].
Qed.

Lemma registry_depth (t : InterfaceRegistry) :
  registry_fits t → ∃ depth, InterfaceRegistry.validate depth t = Ok tt.
Proof.
  intros [Hu Hf].
  assert (∃ depth, ∀ s i, t !! s = Some (Some i) → InterfaceConfig.validate depth i = Ok tt) as [d Hd].
  { clear Hu. induction t as [|o t IH]; [by exists 0|].
    destruct IH as [d Hd]; [intros s i Hs; by apply (Hf (S s))|].
    destruct o as [i|]; [|exists d; intros [|s] j Hs; [done|by eapply Hd]].
    destruct (Hf 0 i eq_refl) as [[d0 Hd0] _]. exists (Nat.max d d0). intros [|s] j Hs.
    - injection Hs as <-. apply (interface_depth_mono d0); [done|lia].
    - apply (interface_depth_mono d); [by eapply Hd|lia]. }
  exists d. by apply RegistryFacts.validate_unique.
Qed.

Lemma registry_fits_register i t :
  registry_fits t → interface_fits i → registry_fits (snd (InterfaceRegistry.register i t)).
Proof.
  intros [Hu Hf] Hi. pose proof (RegistryFacts.register_spec i t Hu) as Hs.
  revert Hs. unfold InterfaceRegistry.register. destruct (InterfaceRegistry.get (if_id i) t); [done|].
  destruct (position is_none t) as [s|]; [|done]. intros (_ & Hu' & _). split; [done|].
  intros s' j Hj. cbn in Hj. apply lookup_write_slot in Hj as [[-> [= ->]]|[_ Hj]]; [done|by eapply Hf].
Qed.

Lemma registry_fits_unregister id t :
  registry_fits t → registry_fits (snd (InterfaceRegistry.unregister id t)).
Proof.
  intros [Hu Hf]. unfold InterfaceRegistry.unregister. destruct (InterfaceRegistry.slot id t); [|done].
  split; [by apply unique_keys_delete|]. intros s' j Hj. cbn in Hj.
  apply lookup_write_slot in Hj as [[_ [=]]|[_ Hj]]. by eapply Hf.
Qed.

Lemma registry_fits_online id online t :
  registry_fits t → registry_fits (snd (InterfaceRegistry.set_online id online t)).
Proof.
  intros [Hu Hf]. pose proof (RegistryFacts.set_online_spec id online t Hu) as Hs.
  revert Hs. unfold InterfaceRegistry.set_online. destruct (InterfaceRegistry.get id t); [|done].
  intros [Hu' _]. split; [done|]. intros s j Hj. cbn in Hj.
  unfold InterfaceRegistry.get_mut in Hj. rewrite lookup_update_first in Hj.
  destruct (t !! s) as [[e|]|] eqn:He; [|done..]. case_bool_decide; injection Hj as <-; by apply (Hf s e).
Qed.

(** * What a host does to a router *)

Section trace.
Context `{SHA : Sha256} `{HKDF : HkdfSha256} `{ED : Ed25519}.
Abbreviation RouterNode := (LiteNode Router Z).
Implicit Types n : RouterNode.

(** The arguments have the widths of the source's types; a clock may not reach
    the last ten minutes of its range. *)
Inductive event :=
| Receive (raw : list Z) (meta : RxMeta) (now : Z) (local_link : option (list Z))
    (endpoint : option PacketBuffer)
| Tick (now : Z)
| RequestPath (destination tag : list Z) (interface now : Z)
| SendLocal (interface : Z) (packet : PacketBuffer)
| Poll (interface : Z)
| DropPath (destination : list Z)
| RegisterDestination (destination : list Z)
| RegisterLink (link : list Z)
| UnregisterDestination (destination : list Z)
| UnregisterLink (link : list Z)
| SetOwnDestination (destination : option (list Z))
| LearnKey (destination key : list Z) (now : Z)
| RecallKey (destination : list Z)
| ImportKeys (blob : list Z) (now : Z)
| SetBudget (steady grace : Z)
| SetPlainSink (destination : option (list Z))
| SetWatched (destinations : list (list Z))
| RegisterInterface (interface : InterfaceConfig)
| UnregisterInterface (id : Z)
| SetOnline (id : Z) (online : bool)
| ResetRouter (caps : Capacities) (config : LiteConfig) (id : list Z) (registry : InterfaceRegistry)
    (modem : option LoraModemConfig).

Definition event_ok (ev : event) : Prop :=
  match ev with
  | Receive raw _ now _ endpoint => bytes raw ∧ clock_ok now ∧ endpoint_wf endpoint
  | Tick now => clock_ok now
  | LearnKey _ key now => length key = PUBLIC_KEY_LENGTH ∧ bytes key ∧ in_u64 now
  | ImportKeys blob now => bytes blob ∧ in_u64 now
  | RegisterInterface i => ∀ x, if_ifac i = Some x → is_byte (ifac_size x)
  | ResetRouter _ _ _ registry modem =>
      (∀ s i x, registry !! s = Some (Some i) → if_ifac i = Some x → is_byte (ifac_size x)) ∧
      ∀ m, modem = Some m → valid_modem m
  | _ => True
  end.

(** How an event ends, its value apart. *)
Definition ended {E A} (r : outcome E A * RouterNode) : outcome unit unit * RouterNode :=
  (match r.1 with Ok _ => Ok tt | Err _ => Err tt | Panic => Panic end, r.2).

Definition perform (ev : event) n : outcome unit unit * RouterNode :=
  match ev with
  | Receive raw meta now link endpoint => ended (fst (ingest_inner raw meta now link endpoint n))
  | Tick now => ended (tick now n)
  | RequestPath d tag id now => ended (request_path d tag id now n)
  | SendLocal id packet => (Ok tt, snd (RouterHost.send_local id packet n))
  | Poll id => (Ok tt, snd (RouterHost.poll_tx_for_interface id n))
  | DropPath d => (Ok tt, snd (drop_path d n))
  | RegisterDestination d => (Ok tt, snd (register_local_destination d n))
  | RegisterLink l => (Ok tt, snd (register_local_link l n))
  | UnregisterDestination d => (Ok tt, unregister_local_destination d n)
  | UnregisterLink l => (Ok tt, unregister_local_link l n)
  | SetOwnDestination d => (Ok tt, RouterHost.set_own_destination d n)
  | LearnKey d key now => ended (known_destination_learn d key now n)
  | RecallKey d => (Ok tt, snd (known_destination_recall d n))
  | ImportKeys blob now => ended (known_destinations_import blob now n)
  | SetBudget steady grace => (Ok tt, set_announce_budget steady grace n)
  | SetPlainSink d => (Ok tt, RouterHost.set_local_plain_sink d n)
  | SetWatched l => (Ok tt, snd (RouterHost.set_watched_destinations l n))
  | RegisterInterface i => ended (RouterHost.register_interface i n)
  | UnregisterInterface id => ended (RouterHost.unregister_interface id n)
  | SetOnline id online => ended (RouterHost.set_interface_online id online n)
  | ResetRouter caps config id registry modem =>
      ended (RouterHost.reset_router_in_place caps config id registry modem n)
  end.

(** The router after a list of events. *)
Definition after (evs : list event) n : RouterNode := fold_left (λ n ev, snd (perform ev n)) evs n.

(** ** Changes *)

Record trace_ok n : Prop := {
  tr_node : node_ok n;
  tr_registry : registry_fits (r_registry (ln_interfaces n));
  tr_modem : ∀ m, r_lora_modem (ln_interfaces n) = Some m → valid_modem m
}.

Lemma trace_router_ok n : trace_ok n → router_ok n.
Proof.
  intros [_ Hr Hm] r [= <-]. split; [by apply registry_depth|]. split; [done|].
  intros s i x Hs. destruct Hr as [_ Hr]. by apply (Hr s i Hs).
Qed.

Section changes.
Variable (may_learn : PathEntry → Prop) (may_validate : LinkEntry → Prop).

Inductive change : RouterNode → RouterNode → Prop :=
| ch_step n n' : node_step may_learn may_validate n n' → change n n'
| ch_local l n : change n (set_local l n)
| ch_config c n : change n (set_config c n)
| ch_identity id n : change n (set_transport_id id n)
| ch_stats s n : change n (set_stats s n)
| ch_known t n : (KnownDestinations.ok (ln_known_destinations n) → KnownDestinations.ok t) →
    change n (set_known_destinations t n)
| ch_router r n :
    (registry_fits (r_registry (ln_interfaces n)) → registry_fits (r_registry r)) →
    (∀ m, r_lora_modem r = Some m → r_lora_modem (ln_interfaces n) = Some m ∨ valid_modem m) →
    change n (set_interfaces r n).

Lemma change_ok n n' : change n n' → trace_ok n → trace_ok n'.
Proof.
  intros Hc [Hn Hr Hm]. destruct Hc as [n1 n2 Hs|l n1|c n1|i n1|s n1|t n1 Ht|r n1 Hreg Hmod];
    try (split; [by destruct Hn|done|done]).
  - pose proof (st_router _ _ (step_static _ _ _ _ Hs)) as (Hrg & _ & Hmd & _).
    split; [by eapply step_ok|by rewrite Hrg|by rewrite Hmd].
  - split; [|done|done]. destruct Hn. by split; auto.
  - split; [|by apply Hreg|intros m Hx; destruct (Hmod m Hx); auto].
    destruct Hn. split; try done. intros id x. cbn. unfold Router.ifac.
    destruct (InterfaceRegistry.get id (r_registry r)) as [i|] eqn:Hg; [|done]. intros Hx.
    destruct (Hreg Hr) as [_ Hf]. unfold InterfaceRegistry.get in Hg.
    apply find_flatten_Some in Hg as (s & Hs & _). destruct (Hf s i) as [_ Hb]; [done|]. by apply Hb.
Qed.

Lemma changes_ok n n' : rtc change n n' → trace_ok n → trace_ok n'.
Proof. intros Hr Hok. revert Hr. apply (rtc_preserves _ trace_ok); [|done]. intros a b ??. by eapply change_ok. Qed.

Lemma changes_run n n' : rtc (node_step may_learn may_validate) n n' → rtc change n n'.
Proof. apply (rtc_congruence (λ x, x)). intros a b. apply ch_step. Qed.

Lemma change_run n a b : rtc change n a → rtc (node_step may_learn may_validate) a b → rtc change n b.
Proof. intros Ha Hb. etrans; [exact Ha|by apply changes_run]. Qed.

Lemma changes_routes n n' e' :
  rtc change n n' → stored (ln_paths n') e' →
  (∃ e, stored (ln_paths n) e ∧ renewed e e') ∨ ∃ e, may_learn e ∧ renewed e e'.
Proof.
  intros Hrun. revert e'. pattern n'. revert n' Hrun. apply rtc_ind_r.
  - intros e' Hs. left. by exists e'.
  - intros a b _ Hab IH e' Hs.
    assert (Hone : (∃ e, stored (ln_paths a) e ∧ renewed e e') ∨ may_learn e').
    { destruct Hab as [n1 n2 Hst|l n1|c n1|i n1|s n1|t n1 Ht|r n1 Hreg Hmod]; try by left; exists e'.
      by eapply step_routes. }
    destruct Hone as [(e & He & Hr)|Hl]; [|right; by exists e'].
    destruct (IH e He) as [(e0 & He0 & Hr0)|(e0 & He0 & Hr0)]; [left|right];
      exists e0; (split; [done|by etrans]).
Qed.

Lemma changes_validated n n' e' :
  trace_ok n → rtc change n n' → stored (ln_links n') e' → le_validated e' = true →
  (∃ e, stored (ln_links n) e ∧ le_validated e = true ∧ LinkTable.same_link e e') ∨
  ∃ e, may_validate e ∧ LinkTable.same_link e e'.
Proof.
  intros Hok Hrun. revert e'. pattern n'. revert n' Hrun. apply rtc_ind_r.
  - intros e' Hs Hv. left. by exists e'.
  - intros a b Ha Hab IH e' Hs Hv. pose proof (no_links _ (tr_node _ (changes_ok _ _ Ha Hok))) as Hl.
    assert (Hone : (∃ e, stored (ln_links a) e ∧ le_validated e = true ∧ LinkTable.same_link e e') ∨
                   ∃ e, may_validate e ∧ LinkTable.same_link e e').
    { revert Hl. destruct Hab as [n1 n2 Hst|l n1|c n1|i n1|s n1|t n1 Ht|r n1 Hreg Hmod]; intros Hl;
        try by left; exists e'. by eapply step_validated. }
    destruct Hone as [(e & He & Hve & Hr)|Hx]; [|by right].
    destruct (IH e He Hve) as [(e0 & He0 & Hv0 & Hr0)|(e0 & He0 & Hr0)]; [left|right]; exists e0;
      split_and?; try done; by etrans.
Qed.

End changes.

(** What an event teaches: only a received frame can. *)
Definition taught (ev : event) n (e : PathEntry) : Prop :=
  match ev with Receive raw meta now _ _ => learnable raw meta now n e | _ => False end.
Definition proved (ev : event) n (e : LinkEntry) : Prop :=
  match ev with Receive raw meta now _ _ => provable raw meta now n e | _ => False end.

(** ** Every event is a run of changes *)

Section performs.
Variable (may_learn : PathEntry → Prop) (may_validate : LinkEntry → Prop).
Abbreviation changes := (rtc (change may_learn may_validate)).

Lemma changes_register value n : changes n (snd (register_local_slot value n)).
Proof.
  unfold register_local_slot. case_if; [done|]. destruct (position _ _); [|done]. apply rtc_once, ch_local.
Qed.

Lemma changes_own d n : changes n (RouterHost.set_own_destination d n).
Proof.
  unfold RouterHost.set_own_destination. etrans; [apply rtc_once, ch_local|].
  destruct d; [apply changes_register|done].
Qed.

(** A change of the router alone. *)
Lemma change_router f n :
  (registry_fits (r_registry (ln_interfaces n)) → registry_fits (r_registry (f (ln_interfaces n)))) →
  r_lora_modem (f (ln_interfaces n)) = r_lora_modem (ln_interfaces n) →
  changes n (RouterHost.on_router f n).
Proof. intros Hr Hm. apply rtc_once, ch_router; [done|]. intros m. rewrite Hm. by left. Qed.

Lemma step_taken off n : queue_step n (set_outbound (snd (RingQueue.remove off (ln_outbound n))) n).
Proof.
  split; [apply queues_set_outbound|]. intros Hok _.
  destruct (remove_frames off n Hok) as (Hok' & Hf & Hc & _). split; [done|]. split; [done|]. split; [done|].
  exists []. rewrite Hf, app_nil_r. split; [apply sublist_delete|apply issued_nil].
Qed.

Lemma step_poll id n : queue_step n (snd (RouterHost.poll_tx_for_interface id n)).
Proof.
  unfold RouterHost.poll_tx_for_interface. cbv zeta. etrans; [apply (step_expire_outbound (ln_clock_ms n))|].
  destruct (RouterHost.interface_frame_offset id _) as [off|]; [|done].
  pose proof (step_taken off (expire_outbound (ln_clock_ms n) n)) as Hs.
  destruct (RingQueue.remove off _) as [v q]. done.
Qed.

Lemma run_forget id n : rtc (node_step may_learn may_validate) n (forget_interface id n).
Proof.
  unfold forget_interface. cbv zeta. eapply rtc_l; [apply ns_paths, upkeep_interface|].
  eapply rtc_l; [apply ns_reverse, ReverseTable.step_remove_interface|].
  eapply rtc_l; [apply ns_links, link_interface|].
  eapply rtc_l; [apply ns_schedule, AnnounceSchedule.step_remove_interface|].
  eapply rtc_l; [apply ns_cache, cache_retain|]. apply rtc_once, ns_queue, step_expire_outbound.
Qed.

Lemma changes_retire id slot n : changes n (RouterHost.retire_router_interface id slot n).
Proof.
  unfold RouterHost.retire_router_interface. cbv zeta. etrans; [by apply (change_router (RouterHost.open_slot slot 0))|].
  eapply rtc_l; [apply ch_step, ns_discoveries, Discoveries.step_retire|].
  eapply rtc_l; [apply ch_step, ns_schedule, AnnounceSchedule.step_clear_target|].
  apply changes_run, run_forget.
Qed.

Lemma changes_register_interface i n :
  (∀ x, if_ifac i = Some x → is_byte (ifac_size x)) → changes n (snd (RouterHost.register_interface i n)).
Proof.
  intros Hb. unfold RouterHost.register_interface.
  destruct (InterfaceConfig.validate _ i) as [[]|e|] eqn:Hv; [|done..].
  destruct (checked_add64 _ _) as [g|]; [|done].
  destruct (InterfaceRegistry.register i _) as [r registry] eqn:Hr.
  assert (H1 : changes n (RouterHost.on_router (r_set_registry registry) n)).
  { apply change_router; [|done]. intros Hf. cbn.
    change registry with (snd (r, registry)). rewrite <- Hr. apply registry_fits_register; [done|].
    split; [by eexists|done]. }
  destruct r as [[]|e|]; [|exact H1..]. destruct (InterfaceRegistry.slot _ _) as [s|]; [|exact H1]. cbn [snd].
  etrans; [exact H1|].
  etrans; [by apply (change_router (λ r, RouterHost.open_slot s g (r_set_last_generation g r)))|].
  eapply rtc_l; [apply ch_step, ns_schedule, AnnounceSchedule.step_clear_target|].
  apply rtc_once, ch_step, ns_discoveries, Discoveries.step_retire.
Qed.

Lemma changes_unregister id n : changes n (snd (RouterHost.unregister_interface id n)).
Proof.
  unfold RouterHost.unregister_interface. destruct (InterfaceRegistry.slot id _) as [s|]; [|done].
  case_if; [done|]. destruct (InterfaceRegistry.unregister id _) as [r registry] eqn:Hr.
  assert (H1 : changes n (RouterHost.on_router (r_set_registry registry) n)).
  { apply change_router; [|done]. intros Hf. cbn.
    change registry with (snd (r, registry)). rewrite <- Hr. by apply registry_fits_unregister. }
  destruct r as [c|e|]; [|exact H1..]. cbn [snd]. etrans; [exact H1|apply changes_retire].
Qed.

Lemma changes_online id online n : changes n (snd (RouterHost.set_interface_online id online n)).
Proof.
  unfold RouterHost.set_interface_online. destruct (InterfaceRegistry.slot id _) as [s|]; [|done].
  cbv zeta. match goal with |- context [match ?c with Some _ => _ | None => (Err InterfaceGenerationExhausted, n) end] =>
    assert (Hn : ∀ m, c = Some m → changes n m); [|destruct c as [m|]; [specialize (Hn m eq_refl)|done]] end.
  { intros m. case_if; [|intros [= <-]; done]. destruct (checked_add64 _ _); [|done].
    intros [= <-]. by apply change_router. }
  destruct (InterfaceRegistry.set_online id online _) as [r registry] eqn:Hr.
  assert (H1 : changes n (RouterHost.on_router (r_set_registry registry) m)).
  { etrans; [exact Hn|]. apply change_router; [|done]. intros Hf. cbn.
    change registry with (snd (r, registry)). rewrite <- Hr. by apply registry_fits_online. }
  destruct r as [c|e|]; [|exact H1..]. cbn [snd]. etrans; [exact H1|]. destruct online; [done|apply changes_retire].
Qed.

Lemma changes_reset_tables config id n : changes n (reset_tables config id n).
Proof.
  unfold reset_tables, clear_local. cbv zeta. eapply rtc_l; [apply ch_config|]. eapply rtc_l; [apply ch_identity|].
  eapply rtc_l; [apply ch_local|]. eapply rtc_l; [apply ch_step, ns_admission|].
  assert (He : ∀ T (E : Entry T (list Z)) (t : list (option T)), keeps_keys t (replicate (length t) None)).
  { intros T E t. split; [apply length_replicate|]. intros _. apply unique_keys_empty. }
  eapply rtc_l; [apply ch_step, ns_hashes, He|]. eapply rtc_l; [apply ch_step, ns_paths, upkeep_clear|].
  eapply rtc_l; [apply ch_step, ns_cache, He|].
  eapply rtc_l; [apply ch_step, ns_schedule, AnnounceSchedule.step_clear|].
  eapply rtc_l; [apply ch_step, ns_reverse, ReverseTable.step_clear|].
  eapply rtc_l; [apply ch_step, ns_links, link_clear|]. eapply rtc_l; [apply ch_step, ns_tags, He|].
  eapply rtc_l; [apply ch_step, ns_queue|eapply rtc_l; [apply ch_step, ns_discoveries, Discoveries.step_clear|
    apply rtc_once, ch_stats]].
  split; [apply queues_set_outbound|]. intros Hok Hc. pose proof (RingQueue.rep_clear _ _ Hok) as Hr.
  match goal with |- queue_ok ?m ∧ _ => destruct (queue_ok_rep m [] Hr) as [Hok' Hf] end.
  split; [done|]. split; [cbn; unfold RingQueue.capacity; cbn; apply length_replicate|]. split; [done|].
  exists []. rewrite Hf. split; [apply sublist_nil_l|apply issued_nil].
Qed.

Lemma fits_validated depth (t : InterfaceRegistry) :
  InterfaceRegistry.validate depth t = Ok tt →
  (∀ s i x, t !! s = Some (Some i) → if_ifac i = Some x → is_byte (ifac_size x)) → registry_fits t.
Proof.
  intros [Hu Hv]%RegistryFacts.validate_unique Hb. split; [done|]. intros s i Hs.
  split; [exists depth; by eapply Hv|]. intros x Hx. by eapply Hb.
Qed.

Lemma changes_reset caps config id registry modem n :
  event_ok (ResetRouter caps config id registry modem) →
  changes n (snd (RouterHost.reset_router_in_place caps config id registry modem n)).
Proof.
  intros [Hb Hm]. unfold RouterHost.reset_router_in_place, st_bind, st_lift, RouterHost.registry_ok.
  destruct (InterfaceRegistry.validate _ registry) as [[]|e|] eqn:Hv; cbn [omap_err fst]; [|done..].
  pose proof (fits_validated _ _ Hv Hb) as Hf. unfold reset_in_place.
  destruct (validate_config caps config) as [c|e|]; [|done..]. cbn [m_router ln_interfaces].
  change (m_router (ln_interfaces n)) with (Some (ln_interfaces n)). cbv iota beta.
  destruct (checked_add64 _ _) as [g|]; [|done]. cbn [fst snd].
  assert (H1 : changes n (set_interfaces (m_set_router (reset_router_state g (ln_interfaces n)) (ln_interfaces n)) n)).
  { apply rtc_once, ch_router; [done|]. intros m Hx. by left. }
  etrans; [exact H1|]. etrans; [apply (changes_reset_tables config id)|].
  apply rtc_once, ch_router; [done|]. intros m Hx. right. by apply Hm.
Qed.

End performs.

(** ** No event panics *)

Lemma interface_validate_total depth i : no_panic (InterfaceConfig.validate depth i).
Proof.
  unfold InterfaceConfig.validate, IfacConfig.validate, InterfaceDirection.validate.
  destruct (if_ifac i); repeat case_if; cbn [obind]; repeat case_if; done.
Qed.

Lemma registry_validate_total depth t : no_panic (InterfaceRegistry.validate depth t).
Proof.
  induction t as [|[i|] t IH]; cbn [InterfaceRegistry.validate]; [done| |done].
  pose proof (interface_validate_total depth i). destruct (InterfaceConfig.validate depth i); [|done..].
  cbn [obind]. by case_if.
Qed.

Lemma config_total caps c : no_panic (validate_config caps c).
Proof.
  unfold validate_config, LiteConfig.validate, IfacConfig.validate, TableCaps.validate.
  destruct (lc_ifac c); repeat case_if; cbn [obind]; repeat case_if; done.
Qed.

Lemma ended_snd {E A} (r : outcome E A * RouterNode) : snd (ended r) = snd r.
Proof. done. Qed.

Lemma ended_total {E A} (r : outcome E A * RouterNode) : no_panic (fst r) → fst (ended r) ≠ Panic.
Proof. destruct r as [[]]; done. Qed.

(** What an event does, on the evidence it brings. *)
Lemma perform_changes ev n :
  event_ok ev → trace_ok n → rtc (change (taught ev n) (proved ev n)) n (snd (perform ev n)).
Proof.
  intros Hev Hok. destruct ev; cbn [perform snd]; rewrite ?ended_snd; cbn [event_ok] in Hev.
  - destruct Hev as (Hb & Hc & _). apply changes_run, run_ingest; [done..|apply Hok|done|done].
  - apply changes_run, run_tick; [done|apply Hok].
  - apply changes_run, run_request_path.
  - apply changes_run, rtc_once, ns_queue, step_enqueue.
  - apply changes_run, rtc_once, ns_queue, step_poll.
  - unfold drop_path. destruct (PathTable.drop_path destination (ln_paths n)) as [b t] eqn:Ht.
    apply changes_run, rtc_once, ns_paths. change t with (snd (b, t)). rewrite <- Ht. apply upkeep_drop.
  - apply changes_register.
  - unfold register_local_link. case_if; [done|apply changes_register].
  - apply rtc_once, ch_local.
  - apply rtc_once, ch_local.
  - apply changes_own.
  - destruct Hev as (Hk & Hb & Hn). unfold known_destination_learn.
    destruct (KnownDestinations.learn _ _ _ _) as [r t] eqn:Ht.
    apply changes_run, rtc_once. change t with (snd (r, t)). rewrite <- Ht. by apply ns_known.
  - unfold known_destination_recall. pose proof (KnownDestinations.recall_ok destination (ln_known_destinations n)) as Hr.
    destruct (KnownDestinations.recall _ _) as [k t]. by apply rtc_once, ch_known.
  - destruct Hev as [Hb Hn]. unfold known_destinations_import.
    pose proof (KnownDestinations.import_accepts blob now (ln_known_destinations n) Hb Hn) as Hi.
    destruct (KnownDestinations.import _ _ _) as [[r|e|] t]; [| |done];
      apply rtc_once, ch_known; [by destruct Hi|by subst t].
  - unfold set_announce_budget. cbv zeta. case_if; [done|].
    eapply rtc_l; [apply ch_config|]. apply changes_run, rtc_once, ns_admission.
  - by apply (change_router _ _ (r_set_plain_sink destination)).
  - unfold RouterHost.set_watched_destinations. case_if; [done|]. cbn [snd].
    by apply (change_router _ _ (λ r, r_set_watched_len (length destinations)
         (r_set_watched (splice 0 destinations (replicate WATCHED_DESTINATIONS_MAX (zeros 16))) r))).
  - by apply changes_register_interface.
  - apply changes_unregister.
  - apply changes_online.
  - by apply changes_reset.
Qed.

Lemma perform_total ev n : event_ok ev → trace_ok n → fst (perform ev n) ≠ Panic.
Proof.
  intros Hev Hok. destruct ev; cbn [perform fst]; try done; apply ended_total; cbn [event_ok] in Hev.
  - destruct Hev as (Hb & Hc & He). pose proof (ingest_total raw meta now local_link endpoint n (tr_node _ Hok) Hb He) as Ht.
    destruct (ingest_inner _ _ _ _ _ _) as [[r n'] e]. apply Ht.
  - rewrite tick_total; [done|done|apply Hok|by apply trace_router_ok].
  - apply request_path_total.
  - unfold known_destination_learn. pose proof (KnownDestinations.learn_spec destination key now _ (no_known _ (tr_node _ Hok))) as Hl.
    destruct (KnownDestinations.learn _ _ _ _) as [[r|e|] t]; done.
  - destruct Hev as [Hb Hn]. unfold known_destinations_import.
    pose proof (KnownDestinations.import_accepts blob now (ln_known_destinations n) Hb Hn) as Hi.
    destruct (KnownDestinations.import _ _ _) as [[r|e|] t]; done.
  - unfold RouterHost.register_interface. pose proof (interface_validate_total
      (tx_queue_depth_cap (lc_table_caps (ln_config n))) interface).
    destruct (InterfaceConfig.validate _ _); [|done..]. destruct (checked_add64 _ _); [|done].
    pose proof (RegistryFacts.register_spec interface _ (proj1 (tr_registry _ Hok))) as Hr.
    destruct (InterfaceRegistry.register _ _) as [[r|e|] t]; [by destruct (InterfaceRegistry.slot _ _)|done..].
  - unfold RouterHost.unregister_interface. destruct (InterfaceRegistry.slot id _); [|done]. case_if; [done|].
    pose proof (RegistryFacts.unregister_spec id _ (proj1 (tr_registry _ Hok))) as Hr.
    by destruct (InterfaceRegistry.unregister _ _) as [[r|e|] t].
  - unfold RouterHost.set_interface_online. destruct (InterfaceRegistry.slot id _); [|done]. cbv zeta.
    match goal with |- no_panic (fst (match ?c with Some _ => _ | None => _ end)) =>
      assert (Hn : ∀ m, c = Some m → r_registry (ln_interfaces m) = r_registry (ln_interfaces n));
      [|destruct c as [m|]; [rewrite (Hn m eq_refl)|done]] end.
    { intros m. case_if; [|by intros [= <-]]. destruct (checked_add64 _ _); [|done]. by intros [= <-]. }
    pose proof (RegistryFacts.set_online_spec id online _ (proj1 (tr_registry _ Hok))) as Hr.
    by destruct (InterfaceRegistry.set_online _ _ _) as [[r|e|] t].
  - unfold RouterHost.reset_router_in_place, st_bind, st_lift, RouterHost.registry_ok.
    pose proof (registry_validate_total (tx_queue_depth_cap (lc_table_caps config)) registry) as Hv.
    destruct (InterfaceRegistry.validate _ registry) as [[]|e|]; cbn [omap_err fst]; [|done..].
    unfold reset_in_place. pose proof (config_total caps config) as Hc.
    destruct (validate_config caps config) as [c|e|]; [|done..].
    change (m_router (ln_interfaces n)) with (Some (ln_interfaces n)). cbv iota beta.
    by destruct (checked_add64 _ _).
Qed.

Lemma perform_ok ev n : event_ok ev → trace_ok n → trace_ok (snd (perform ev n)).
Proof. intros. by eapply changes_ok; [apply perform_changes|]. Qed.

Lemma after_snoc evs ev n : after (evs ++ [ev]) n = snd (perform ev (after evs n)).
Proof. unfold after. by rewrite fold_left_app. Qed.

Lemma after_ok evs n : Forall event_ok evs → trace_ok n → trace_ok (after evs n).
Proof.
  induction evs as [|ev evs IH] using rev_ind; [done|]. rewrite Forall_app. intros [Hevs Hev] Hok.
  rewrite after_snoc. apply perform_ok; [by inversion Hev|by apply IH].
Qed.

(** Where a route or a validated link comes from: the event that taught it. *)
Lemma after_routes evs n e' :
  Forall event_ok evs → trace_ok n → stored (ln_paths (after evs n)) e' →
  (∃ e, stored (ln_paths n) e ∧ renewed e e') ∨
  ∃ before ev later e, evs = before ++ ev :: later ∧ taught ev (after before n) e ∧ renewed e e'.
Proof.
  revert e'. induction evs as [|ev evs IH] using rev_ind; intros e' Hevs Hok Hs; [left; by exists e'|].
  apply Forall_app in Hevs as [Hevs Hev]. rewrite after_snoc in Hs. pose proof (after_ok _ _ Hevs Hok) as Hn.
  eapply changes_routes in Hs; [|apply perform_changes; [by inversion Hev|done]].
  destruct Hs as [(e & He & Hr)|(e & He & Hr)]; [|right; by exists evs, ev, [], e].
  destruct (IH e Hevs Hok He) as [(e0 & He0 & Hr0)|(b & x & l & e0 & -> & Ht & Hr0)].
  - left. exists e0. split; [done|by etrans].
  - right. exists b, x, (l ++ [ev]), e0. rewrite <- app_assoc. split; [done|]. split; [done|by etrans].
Qed.

Lemma after_validated evs n e' :
  Forall event_ok evs → trace_ok n → stored (ln_links (after evs n)) e' → le_validated e' = true →
  (∃ e, stored (ln_links n) e ∧ le_validated e = true ∧ LinkTable.same_link e e') ∨
  ∃ before ev later e, evs = before ++ ev :: later ∧ proved ev (after before n) e ∧ LinkTable.same_link e e'.
Proof.
  revert e'. induction evs as [|ev evs IH] using rev_ind; intros e' Hevs Hok Hs Hv; [left; by exists e'|].
  apply Forall_app in Hevs as [Hevs Hev]. rewrite after_snoc in Hs. pose proof (after_ok _ _ Hevs Hok) as Hn.
  eapply changes_validated in Hs; [|done|apply perform_changes; [by inversion Hev|done]|done].
  destruct Hs as [(e & He & Hve & Hr)|(e & He & Hr)]; [|right; by exists evs, ev, [], e].
  destruct (IH e Hevs Hok He Hve) as [(e0 & He0 & Hv0 & Hr0)|(b & x & l & e0 & -> & Ht & Hr0)].
  - left. exists e0. split_and!; try done. by etrans.
  - right. exists b, x, (l ++ [ev]), e0. rewrite <- app_assoc. split; [done|]. split; [done|by etrans].
Qed.

End trace.

(** A router as [new_router] returns it. *)
Lemma new_trace_ok `{SHA : Sha256} `{HKDF : HkdfSha256} `{ED : Ed25519} caps config id registry modem n :
  RouterHost.new_router caps config id registry modem = Ok n →
  (∀ s i x, registry !! s = Some (Some i) → if_ifac i = Some x → is_byte (ifac_size x)) →
  (∀ m, modem = Some m → valid_modem m) → trace_ok n.
Proof.
  unfold RouterHost.new_router, RouterHost.registry_ok, validate_config. intros Hn Hb Hm.
  destruct (LiteConfig.validate config) as [[]|e|] eqn:Hc; try done.
  destruct (_ || _) eqn:Hcaps in Hn; [done|]. cbn [obind] in Hn.
  destruct (InterfaceRegistry.validate _ registry) as [[]|e|] eqn:Hv; try done.
  cbn [omap_err obind] in Hn. injection Hn as <-. split; [|by eapply fits_validated|exact Hm].
  pose proof (fits_validated _ _ Hv Hb) as [_ Hf].
  assert (Ho : 0 < OUTBOUND caps).
  { rewrite !orb_false_iff, !Nat.ltb_ge in Hcaps. destruct Hcaps as [_ Hd].
    unfold LiteConfig.validate, TableCaps.validate in Hc. obind_inv. repeat case_if; try done.
    bool_hyps. lia. }
  pose proof (node_ok_new (M := Router) (D := Z) caps config id Ho) as Hnew.
  destruct Hnew as []; [by intros i x Hx|]. split; try done.
  intros i x. change (match InterfaceRegistry.get i registry with
                      | Some c => if_ifac c | None => None end = Some x → is_byte (ifac_size x)).
  destruct (InterfaceRegistry.get i registry) as [c|] eqn:Hg; [|done]. intros Hx.
  apply find_flatten_Some in Hg as (s & Hs & _). by eapply Hb.
Qed.


(** C1: every route is authentic. However a router got where it is, each route
    in its table was taught, its times apart, by an announce it received: the
    frame carried the access code of its interface, the destination is the hash
    of the announced public key and name and is not the router's own, the
    signature covers the announced fields, and the next hop, the hop count (below
    the limit) and the interface of the route are those of that frame. *)
Theorem routes_are_announced `{SHA : Sha256} `{HKDF : HkdfSha256} `{ED : Ed25519}
    caps config id registry modem n evs e' :
  RouterHost.new_router caps config id registry modem = Ok n →
  (∀ s i x, registry !! s = Some (Some i) → if_ifac i = Some x → is_byte (ifac_size x)) →
  (∀ m, modem = Some m → valid_modem m) → Forall event_ok evs →
  stored (ln_paths (after evs n)) e' →
  ∃ before raw meta now link endpoint later e,
    evs = before ++ Receive raw meta now link endpoint :: later ∧
    renewed e e' ∧ learnable raw meta now (after before n) e.
Proof.
  intros Hn Hb Hm Hevs Hs. pose proof (new_trace_ok _ _ _ _ _ _ Hn Hb Hm) as Hok.
  destruct (after_routes evs n e' Hevs Hok Hs) as [(e & He & _)|(before & ev & later & e & -> & Ht & Hr)].
  - unfold RouterHost.new_router in Hn. obind_inv. subst n.
    destruct He as [i He]. by apply lookup_replicate in He as [[=] _].
  - destruct ev; try done. naive_solver.
Qed.


(** * Witnesses *)

Module TraceExample.
Import NodeExample.
Definition events : list event :=
  [Receive announce_frame (RxMeta.new 1) 1000 None None; Tick 1500;
   Receive request_frame (RxMeta.new 2) 2000 None None; Poll 1;
   Receive proof_frame (RxMeta.new 1) 3000 None None].

Lemma clock_ok_small now : (0 <= now <= 1000000)%Z → clock_ok now.
Proof. unfold clock_ok, u64_max. lia. Qed.

Lemma events_ok : Forall event_ok events.
Proof.
  apply Forall_cons; split; [split; [exact announce_frame_bytes|split; [apply clock_ok_small; lia|done]]|].
  apply Forall_cons; split; [apply clock_ok_small; lia|].
  apply Forall_cons; split; [split; [exact request_frame_bytes|split; [apply clock_ok_small; lia|done]]|].
  apply Forall_cons; split; [done|].
  apply Forall_singleton. split; [exact proof_frame_bytes|split; [apply clock_ok_small; lia|done]].
Qed.

Lemma router_registry_bytes s i x :
  registry !! s = Some (Some i) → if_ifac i = Some x → is_byte (ifac_size x).
Proof.
  intros Hs. destruct s as [|[|s]]; [injection Hs as <-; done..|]. do 6 (destruct s as [|s]; [done|]). done.
Qed.
End TraceExample.


(** The route of the announced destination, after all events. *)
Lemma routes_are_announced_witness :
  let _ := Toy.sha256 in let _ := Toy.hkdf in let _ := Toy.ed25519 in
  ∃ e' before raw meta now link endpoint later e,
    PathTable.get_live NodeExample.destination 3000 (ln_paths (after TraceExample.events NodeExample.router)) = Some e' ∧
    TraceExample.events = before ++ Receive raw meta now link endpoint :: later ∧
    renewed e e' ∧ learnable raw meta now (after before NodeExample.router) e.
Proof.
  intros s k e.
  destruct (PathTable.get_live NodeExample.destination 3000 (ln_paths (after TraceExample.events NodeExample.router)))
    as [e'|] eqn:He'; [|by vm_compute in He'].
  destruct (routes_are_announced (SHA := s) (HKDF := k) (ED := e) NodeExample.caps NodeExample.config
    NodeExample.tid NodeExample.registry None NodeExample.router TraceExample.events e') as
    (before & raw & meta & now & link & endpoint & later & e0 & H); [reflexivity|..].
  - exact TraceExample.router_registry_bytes.
  - intros m [=].
  - exact TraceExample.events_ok.
  - by eapply live_stored.
  - exists e', before, raw, meta, now, link, endpoint, later, e0. split; [reflexivity|exact H].
Defined.

