(* ===== verification/Lifetimes.v ===== *)
(** How long a queued frame may be sent: the life times frames are queued with
    name the route or link they follow, and no later route or link, even of the
    same destination, makes such a frame sendable again. *)

From S2P Require Import Prelude Constants Primitives Buffer Wire Slots Queue HashTables GenTable.
From S2P Require Import PathTable Lora AnnounceFlow AnnounceTables FlowTables Discovery Config.
From S2P Require Import Ifac Identity KnownDestinations Links Outbound Model Node NodeFacts.
From S2P Require Import NodeSteps Forward Announcing Ingest Hosts NodeRuns NodeTotal NodeExample Trace.

(** A live entry is named by its generation. *)
Lemma gen_of_key_live {T K} `{EqDecision K, !Entry T K} (t : GenTable T) (e : T) i now :
  gen_ok t → unique_keys (gt_entries t) → gt_entries t !! i = Some (Some e) → (now < entry_expires e)%Z →
  ∃ g, gen_of_key (entry_key e) now t = Some g ∧ bound t g e.
Proof.
  intros Hok Hu Hi Hl.
  destruct (lookup_lt_is_Some_2 (gt_generations t) i) as [g Hg].
  { rewrite (gen_lengths t Hok). by eapply lookup_lt_Some. }
  assert (Hh : held t i e g) by done. pose proof (gen_issued t Hok i e g Hh) as Hpos.
  destruct (gen_of_key (entry_key e) now t) as [g'|] eqn:Hf.
  - apply gen_of_key_Some in Hf as (_ & e' & (j & Hj) & Hk & _). exists g'. split; [done|].
    assert (j = i) as -> by (by apply (Hu j i e' e (proj1 Hj) Hi)).
    exists i. split; [done|]. apply Hj.
  - unfold gen_of_key in Hf. apply zip_slot in Hh. apply (find_map_None _ _ Hf) in Hh. cbn in Hh.
    rewrite (proj2 (key_is_true (entry_key e) e) eq_refl) in Hh.
    rewrite (proj2 (Z.ltb_lt _ _) Hl), (proj2 (Z.eqb_neq g 0)) in Hh by lia. done.
Qed.

Section lifetimes.
Context `{SHA : Sha256} `{HKDF : HkdfSha256} `{ED : Ed25519} `{HL : ModelLaws M D}.
Abbreviation LiteNode := (LiteNode M D).
Implicit Types n : LiteNode.

Lemma path_generation d now n path :
  PathTable.ok (ln_paths n) → PathTable.get_live d now (ln_paths n) = Some path →
  ∃ g, PathTable.generation d now (ln_paths n) = Some g ∧ bound (ln_paths n) g path.
Proof.
  unfold PathTable.get_live. intros Hok. destruct (PathTable.get d _) as [e|] eqn:Hg; [|done].
  destruct (PathTable.is_live e now) eqn:Hl; [|done]. intros [= ->].
  apply (PathTable.get_Some _ _ _ Hok) in Hg as (<- & i & Hi).
  destruct (gen_of_key_live (ln_paths n) path i now) as (g & Hg & Hb); [apply Hok|apply Hok|done| |].
  { unfold PathTable.is_live, is_live in Hl. bool_hyps. exact Hl. }
  exists g. split; [exact Hg|exact Hb].
Qed.

Lemma link_generation d now n link :
  LinkTable.ok (ln_links n) → LinkTable.get d now (ln_links n) = Some link →
  ∃ g, LinkTable.generation d now (ln_links n) = Some g ∧ bound (ln_links n) g link.
Proof.
  intros Hok (<- & Hl & i & Hi)%LinkTable.link_get_Some; [|done].
  destruct (gen_of_key_live (ln_links n) link i now) as (g & Hg & Hb); [apply Hok|apply Hok|done|done|].
  exists g. split; [exact Hg|exact Hb].
Qed.

(** The generation of an entry names, later on, that entry or nothing. *)
Lemma named_later {T K} `{EqDecision K, !Entry T K} (R : relation T) (t t' : GenTable T) g e e' now :
  gen_ok t → gen_ok t' → keeps R t t' → bound t g e → gen_get g now t' = Some e' → R e e'.
Proof.
  intros Hok Hok' [_ Hk] (i & Hi) [Hb _]%gen_get_Some; [|done].
  pose proof (gen_range t Hok i g (proj2 Hi)) as [_ Hle].
  destruct (Hk g e' Hle Hb) as (e0 & (j & Hj) & Hr).
  assert (j = i) as -> by (by eapply (gen_unique t Hok)).
  assert (e0 = e) as -> by (destruct Hi, Hj; congruence). done.
Qed.

(** ** The life time of a packet *)

Definition follows_path (reason : OutboundReason) (h : PacketHeader) : Prop :=
  packet_type (flags h) = Announce ∨
  destination_type (flags h) = Single ∧ reason = OutboundReason.TransportForward.

Definition follows_link (h : PacketHeader) : Prop :=
  destination_type (flags h) = Link ∨ context h = Lrproof.

Lemma path_lifetime_bound h path now lt n :
  ol_enqueued_ms (path_lifetime h path now lt n) = ol_enqueued_ms lt ∧
  (ol_expires_ms (path_lifetime h path now lt n) ≤ Z.min (ol_expires_ms lt) (pe_expires_ms path))%Z ∧
  ol_path (path_lifetime h path now lt n)
    = default 0%Z (PathTable.generation (pe_destination_hash path) now (ln_paths n)).
Proof. unfold path_lifetime, bind_path. destruct (packet_type (flags h)); cbn; split_and!; (done || lia). Qed.

Lemma link_lifetime_bound h now lt n :
  ol_enqueued_ms (link_lifetime h now lt n) = ol_enqueued_ms lt ∧
  (ol_expires_ms (link_lifetime h now lt n) ≤ ol_expires_ms lt)%Z ∧
  ol_path (link_lifetime h now lt n) = ol_path lt.
Proof.
  unfold link_lifetime. case_if; [|split_and!; (done || lia)]. cbv zeta.
  destruct (LinkTable.get _ _ _); cbn; split_and!; (done || lia).
Qed.

Lemma get_live_key d now n path :
  PathTable.ok (ln_paths n) → PathTable.get_live d now (ln_paths n) = Some path → pe_destination_hash path = d.
Proof.
  unfold PathTable.get_live. intros Hok. destruct (PathTable.get d _) as [e|] eqn:Hg; [|done].
  destruct (PathTable.is_live e now); [|done]. intros [= ->].
  by apply (PathTable.get_Some _ _ _ Hok) in Hg as [-> _].
Qed.

(** A packet that follows a route is queued under the route's generation. *)
Lemma packet_lifetime_path packet reason view path n :
  PathTable.ok (ln_paths n) → parse_view (PacketBuffer.as_slice packet) = Ok view →
  PathTable.get_live (Wire.destination_hash (pv_header view)) (ln_clock_ms n) (ln_paths n) = Some path →
  follows_path reason (pv_header view) →
  let l := packet_lifetime packet reason n in
  ol_enqueued_ms l = ln_clock_ms n ∧ (ol_expires_ms l ≤ ln_clock_ms n + OUTBOUND_MAX_AGE_MS)%Z ∧
  (ol_expires_ms l ≤ pe_expires_ms path)%Z ∧ (ol_path l ≠ 0)%Z ∧ bound (ln_paths n) (ol_path l) path.
Proof.
  intros Hok Hv Hp Hf l. unfold l, packet_lifetime. rewrite Hv. cbv zeta. rewrite Hp.
  assert (Hd : bool_decide (packet_type (flags (pv_header view)) = Announce)
    || bool_decide (destination_type (flags (pv_header view)) = Single)
       && bool_decide (reason = OutboundReason.TransportForward) = true).
  { destruct Hf as [->|[-> ->]]; [done|]. by rewrite orb_true_r. }
  rewrite Hd. set (f := fresh_lifetime (ln_clock_ms n)).
  destruct (path_lifetime_bound (pv_header view) path (ln_clock_ms n) f n) as (H1 & H2 & H3).
  destruct (link_lifetime_bound (pv_header view) (ln_clock_ms n)
    (path_lifetime (pv_header view) path (ln_clock_ms n) f n) n) as (H4 & H5 & H6).
  rewrite H4, H6, H1, H3, (get_live_key _ _ _ _ Hok Hp).
  destruct (path_generation _ _ _ _ Hok Hp) as (g & Hg & Hb). rewrite Hg. cbn.
  unfold f, fresh_lifetime, sat_add64 in *. cbn in *. split_and!; [done|lia|lia| |done].
  destruct Hb as (i & Hi). pose proof (gen_issued _ (proj1 Hok) _ _ _ Hi). lia.
Qed.

Lemma packet_lifetime_link packet reason view link n :
  LinkTable.ok (ln_links n) → parse_view (PacketBuffer.as_slice packet) = Ok view →
  LinkTable.get (Wire.destination_hash (pv_header view)) (ln_clock_ms n) (ln_links n) = Some link →
  follows_link (pv_header view) →
  ∃ g, ol_state (packet_lifetime packet reason n) = OutboundState.Link g ∧ bound (ln_links n) g link.
Proof.
  intros Hok Hv Hl Hf. unfold packet_lifetime. rewrite Hv. cbv zeta. unfold link_lifetime.
  assert (Hd : bool_decide (destination_type (flags (pv_header view)) = Link)
    || bool_decide (context (pv_header view) = Lrproof) = true).
  { destruct Hf as [->| ->]; [done|]. by rewrite orb_true_r. }
  rewrite Hd, Hl. destruct (link_generation _ _ _ _ Hok Hl) as (g & Hg & Hb). rewrite Hg.
  exists g. by split.
Qed.

End lifetimes.


(** A queued frame follows the link it was queued for. Link traffic and link
    proofs queued while the node relays their link are live only while that very
    link is still relayed, on one of its two interfaces and with both online; a
    later link under the same identity does not revive them. *)
Lemma queued_frame_follows_link `{SHA : Sha256} `{HKDF : HkdfSha256} `{ED : Ed25519} `{HL : ModelLaws M D}
    (n n' : LiteNode M D) packet reason view link interface now :
  node_ok n → parse_view (PacketBuffer.as_slice packet) = Ok view →
  LinkTable.get (Wire.destination_hash (pv_header view)) (ln_clock_ms n) (ln_links n) = Some link →
  follows_link (pv_header view) →
  rtc (node_step (λ _, True) (λ _, True)) n n' →
  outbound_lifetime_is_live interface (packet_lifetime packet reason n) now n' = true →
  ∃ g link', ol_state (packet_lifetime packet reason n) = OutboundState.Link g ∧
    LinkTable.get_generation g now (ln_links n') = Some link' ∧ LinkTable.same_link link link' ∧
    (interface = le_outbound_interface link ∨ interface = le_receiving_interface link) ∧
    outbound_interface_online (le_outbound_interface link) n' = true ∧
    outbound_interface_online (le_receiving_interface link) n' = true.
Proof.
  intros Hok Hv Hl Hf Hrun. destruct (packet_lifetime_link packet reason view link n (no_links n Hok) Hv Hl Hf)
    as (g & Hs & Hb).
  unfold outbound_lifetime_is_live. destruct ((_ <? _)%Z || _ || _); [done|]. destruct (_ && negb _); [done|].
  rewrite Hs. destruct (LinkTable.get_generation g now (ln_links n')) as [link'|] eqn:Hgen; [|done].
  intros [[Hi Hon]%andb_prop Hrn]%andb_prop.
  destruct (LinkTable.link_steps_keep _ _ (no_links n Hok) (run_links _ _ _ _ Hrun)) as [Hok' Hk].
  assert (Hsame : LinkTable.same_link link link').
  { eapply (named_later _ (ln_links n) (ln_links n')); [apply (no_links n Hok)|apply Hok'|done|done|exact Hgen]. }
  assert (Ho : le_outbound_interface link' = le_outbound_interface link) by (by destruct Hsame as [-> _]).
  assert (Hr : le_receiving_interface link' = le_receiving_interface link) by (by destruct Hsame as [-> _]).
  rewrite Ho, Hr in *. exists g, link'. split_and!; try done. apply orb_prop in Hi as [Hi|Hi]; bool_hyps; auto.
Qed.

(** * Witnesses *)

Module LifetimeExample.
Import NodeExample.
#[local] Existing Instances Toy.sha256 Toy.hkdf Toy.ed25519.

(** The router once it knows the route, and once it relays the link. *)
Definition routed : LiteNode Router Z := after (take 1 TraceExample.events) router.
Definition relaying : LiteNode Router Z := after (take 3 TraceExample.events) router.

Lemma router_after k : trace_ok (after (take k TraceExample.events) router).
Proof.
  apply after_ok; [apply Forall_take, TraceExample.events_ok|].
  apply (new_trace_ok caps config tid registry None); [reflexivity|exact TraceExample.router_registry_bytes|intros m [=]].
Qed.

Lemma routed_ok : trace_ok routed.
Proof. exact (router_after 1). Qed.
Lemma relaying_ok : trace_ok relaying.
Proof. exact (router_after 3). Qed.

Definition data_packet : PacketBuffer :=
  snd (PacketBuffer.extend_from_slice ([0; 1]%Z ++ destination ++ [0; 9; 9]%Z) (PacketBuffer.new MTU)).
Definition link_packet : PacketBuffer :=
  snd (PacketBuffer.extend_from_slice ([12; 1]%Z ++ link_id ++ [0; 9; 9]%Z) (PacketBuffer.new MTU)).
End LifetimeExample.


(** Link traffic queued before the link's proof arrives, and live after it. *)
Lemma queued_frame_follows_link_witness :
  let _ := Toy.sha256 in let _ := Toy.hkdf in let _ := Toy.ed25519 in
  ∃ g link link',
    LinkTable.get NodeExample.link_id 2000 (ln_links LifetimeExample.relaying) = Some link ∧
    LinkTable.get_generation g 3000
      (ln_links (snd (fst (ingest_inner NodeExample.proof_frame (RxMeta.new 1) 3000 None None LifetimeExample.relaying))))
      = Some link' ∧ LinkTable.same_link link link'.
Proof.
  intros s k e. pose proof LifetimeExample.relaying_ok as Hok.
  destruct (parse_view (PacketBuffer.as_slice LifetimeExample.link_packet)) as [view| |] eqn:Hv;
    [|by vm_compute in Hv..].
  destruct (LinkTable.get (Wire.destination_hash (pv_header view)) (ln_clock_ms LifetimeExample.relaying)
    (ln_links LifetimeExample.relaying)) as [link|] eqn:Hp; [|by vm_compute in Hv; injection Hv as <-; vm_compute in Hp].
  destruct (queued_frame_follows_link (SHA := s) (HKDF := k) (ED := e) LifetimeExample.relaying
    (snd (fst (ingest_inner NodeExample.proof_frame (RxMeta.new 1) 3000 None None LifetimeExample.relaying)))
    LifetimeExample.link_packet OutboundReason.TransportForward view link 1 3000) as (g & link' & _ & Hg & Hr & _).
  - apply Hok.
  - exact Hv.
  - exact Hp.
  - left. vm_compute in Hv. by injection Hv as <-.
  - apply run_ingest; [done|done|apply Hok|apply TraceExample.clock_ok_small; lia|exact NodeExample.proof_frame_bytes].
  - by vm_compute.
  - exists g, link, link'. split; [|split; [exact Hg|exact Hr]].
    refine (eq_trans _ Hp). clear - Hv. vm_compute in Hv. injection Hv as <-. vm_compute. reflexivity.
Defined.
