(* ===== verification/Returns.v ===== *)
(** Data and its proof: what a transport node forwards along a route, the
    reverse route it keeps for the proof, and the single proof it returns. *)

From S2P Require Import Prelude Constants Primitives Buffer Wire Slots Queue HashTables GenTable.
From S2P Require Import PathTable Lora AnnounceFlow AnnounceTables FlowTables Discovery Config.
From S2P Require Import Ifac Identity KnownDestinations Links Outbound Model Node NodeFacts.
From S2P Require Import NodeSteps Forward Announcing Ingest Hosts NodeRuns NodeTotal NodeExample Trace.

Section returns.
Context `{SHA : Sha256} `{HKDF : HkdfSha256} `{ED : Ed25519} `{HL : ModelLaws M D}.
Abbreviation LiteNode := (LiteNode M D).
Implicit Types n : LiteNode.

(** A packet was queued last, as the wire bytes of the interface. *)
Definition sent (id : Z) (packet : PacketBuffer) (reason : OutboundReason) (lifetime : OutboundLifetime)
    n n' : Prop :=
  ∃ wire kept, wrap id packet n = Some wire ∧ kept `sublist_of` frames n ∧
    frames n' = kept ++ [queued_frame id wire reason lifetime n].

(** A packet to forward is queued like any other, or refused. *)
Lemma forwarded_outcome source target packet reason lifetime n :
  queue_ok n → 0 < RingQueue.capacity (ln_outbound n) →
  let (ok, n') := enqueue_forwarded_with_lifetime source target packet reason lifetime n in
  if ok : bool then sent target packet reason lifetime n n' else frames n' = frames n.
Proof.
  intros Hok Hc. pose proof (enqueue_spec target packet reason lifetime n Hok Hc) as Hs.
  assert (Hq : let (ok, n') := enqueue_with_lifetime target packet reason lifetime n in
    if ok : bool then sent target packet reason lifetime n n' else frames n' = frames n).
  { destruct (enqueue_with_lifetime _ _ _ _ _) as [[] n']; destruct Hs as (_ & _ & _ & Hs); [|apply Hs].
    destruct Hs as (wire & kept & Hw & _ & _ & Hk & Hf & _). exists wire, kept.
    split_and!; [done|by eapply kept_sublist|done]. }
  unfold enqueue_forwarded_with_lifetime. destruct (m_router _) as [r|]; [|exact Hq].
  assert (Hr : ∀ f, frames (rcount f n) = frames n) by (intros f; unfold frames; by destruct (rcount_queue f n) as [-> _]).
  destruct (Router.interface target r); [|apply Hr]. case_if; [apply Hr|]. case_if; [apply Hr|exact Hq].
Qed.

(** Nothing but the queue and the counters changes, queued or not. *)
Lemma forwarded_tables source target packet reason lifetime n :
  let n' := snd (enqueue_forwarded_with_lifetime source target packet reason lifetime n) in
  ln_paths n' = ln_paths n ∧ ln_reverse n' = ln_reverse n ∧ ln_links n' = ln_links n ∧
  ln_packet_hashes n' = ln_packet_hashes n.
Proof.
  pose proof (qs_queues _ _ (step_forwarded source target packet reason lifetime n)) as (q & i & m & s & -> & _).
  done.
Qed.

Lemma reverse_inserted entry now t g :
  ReverseTable.ok t → ReverseTable.next_generation t = Some g →
  ReverseTable.ok (ReverseTable.insert entry now t) ∧ bound (ReverseTable.insert entry now t) g entry.
Proof.
  intros [Hg Hu] Hn. destruct (gen_insert_ok entry now t Hg Hu) as [Hg' Hu'].
  rewrite ReverseTable.insert_gen. split; [by split|].
  pose proof (gen_next_Some t g Hg Hn) as (-> & Hr & _). apply gen_insert_binds; try done.
  - unfold in_u64 in Hr. lia.
  - unfold ReverseTable.next_generation, gen_next in Hn. destruct (Nat.eqb_spec (length (gt_entries t)) 0); [done|lia].
Qed.

(** What forwarding a data packet leaves behind. *)
Lemma forward_keeps raw oh h meta now n n' :
  node_ok n → handle_transport_forward raw oh h meta now n = (Ok IngestAction.ForwardedTransport, n') →
  ∃ target packet g,
    lc_transport_enabled (ln_config n) = true ∧ transport_id oh = Some (ln_transport_id n) ∧
    rewrite_forwarded_transport_packet raw oh h now n = Ok (Some (target, packet)) ∧
    sent target packet OutboundReason.TransportForward
      (with_ol_state (OutboundState.Reverse g) (packet_lifetime packet OutboundReason.TransportForward n)) n n' ∧
    ReverseTable.ok (ln_reverse n') ∧
    bound (ln_reverse n') g
      {| re_proof_hash := truncated_packet_hash raw (header_type (flags oh));
         re_receiving_interface := rx_interface_id meta; re_outbound_interface := target;
         re_expires_ms := sat_add64 now (REVERSE_TIMEOUT_SECS * 1000) |}.
Proof.
  intros Hok. unfold handle_transport_forward. case_if; [done|]. case_if; [done|].
  destruct (rewrite_forwarded_transport_packet _ _ _ _ _) as [[[target packet]|]|e|]; try done.
  destruct (ReverseTable.next_generation _) as [g|] eqn:Hg; [|done]. cbv zeta.
  match goal with |- context [enqueue_forwarded_with_lifetime ?a ?b ?c ?d ?l n] =>
    destruct (enqueue_forwarded_with_lifetime a b c d l n) as [[] n1] eqn:He;
    pose proof (forwarded_tables a b c d l n) as Ht;
    pose proof (forwarded_outcome a b c d l n (no_queue n Hok) (no_capacity n Hok)) as Hsent end; [|done].
  rewrite He in Ht, Hsent. cbn [snd] in Ht. destruct Ht as (_ & Hrev & _). intros [= <-].
  exists target, packet, g. bool_hyps. split; [done|]. split; [done|]. split; [done|].
  split; [exact Hsent|].
  change (ln_reverse (set_reverse ?t ?m)) with t.
  change (ln_reverse (set_paths _ n1)) with (ln_reverse n1). rewrite Hrev.
  by apply reverse_inserted; [apply (no_reverse n Hok)|].
Qed.

(** ** The proof *)

Definition names_proof (h : PacketHeader) (e : ReverseEntry) (now : Z) : Prop :=
  re_proof_hash e = Wire.destination_hash h ∧ (now < re_expires_ms e)%Z.

(** A proof the table has no use for changes nothing. *)
Lemma reverse_proof_refused raw h arrived now n :
  (∀ e, ReverseTable.get (Wire.destination_hash h) now (ln_reverse n) = Some e →
     re_outbound_interface e ≠ arrived) →
  reverse_proof raw h arrived now n = (Ok IngestAction.Dropped, n).
Proof.
  intros Hn. unfold reverse_proof. destruct (ReverseTable.get _ _ _) as [e|]; [|done].
  by rewrite (proj2 (Z.eqb_neq _ _) (Hn e eq_refl)).
Qed.

Lemma copy_ok raw h :
  length raw ≤ MTU → ∃ packet, copy_for_forward raw h = Ok packet ∧
    PacketBuffer.as_slice packet = (if 1 <? length raw then <[1 := h]> raw else raw).
Proof.
  intros Hl. unfold copy_for_forward. destruct (PacketBuffer.from_slice_ok MTU raw Hl) as (b & -> & Hw & Hs).
  eexists. split; [done|]. destruct (PacketBuffer.copy_with_hops_content MTU b h Hw) as [_ ->].
  by rewrite <- (PacketBuffer.length_as_slice MTU b Hw), Hs.
Qed.

(** A proof from the interface the packet left by: returned and consumed, or
    the entry is as it was. *)
Lemma reverse_proof_spec raw h arrived now n e :
  node_ok n → ReverseTable.get (Wire.destination_hash h) now (ln_reverse n) = Some e →
  re_outbound_interface e = arrived → length raw ≤ MTU →
  let (r, n') := reverse_proof raw h arrived now n in
  (r = Ok IngestAction.ForwardedProof ∧
   ln_reverse n' = snd (ReverseTable.take_with_generation (Wire.destination_hash h) now (ln_reverse n)) ∧
   ∃ packet lifetime, copy_for_forward raw (hops h) = Ok packet ∧
     sent (re_receiving_interface e) packet OutboundReason.ProofReturn lifetime n n' ∧
     (ol_expires_ms lifetime ≤ re_expires_ms e)%Z) ∨
  (r = Ok IngestAction.Dropped ∧ frames n' `sublist_of` frames n ∧
   ReverseTable.same_bindings (ReverseTable.expire now (ln_reverse n)) (ln_reverse n')).
Proof.
  intros Hok Hg Ho Hraw. unfold reverse_proof. rewrite Hg, Ho, Z.eqb_refl.
  pose proof (ReverseTable.take_slot (Wire.destination_hash h) now _ (no_reverse n Hok)) as Hs.
  destruct (position _ _) as [idx|]; [|by destruct Hs as [Hs _]; rewrite Hg in Hs].
  destruct Hs as (e0 & g & Hi & Hg0 & Hb & Htake). rewrite Hg0 in Hg. injection Hg as ->.
  pose proof (ReverseTable.take_restore _ _ _ _ _ _ (no_reverse n Hok) Htake) as [_ Hrest].
  rewrite Htake. cbn [snd]. revert Hrest.
  generalize (with_entries (<[idx:=None]>) (ReverseTable.expire now (ln_reverse n))). intros t Hrest.
  destruct (copy_ok raw (hops h) Hraw) as (packet & -> & _). cbv zeta.
  match goal with |- context [enqueue_forwarded_with_lifetime ?a ?b ?c ?d ?l ?m] =>
    pose proof (forwarded_outcome a b c d l m (no_queue n Hok) (no_capacity n Hok)) as Hsent;
    pose proof (forwarded_tables a b c d l m) as Ht; set (lt := l) in *;
    destruct (enqueue_forwarded_with_lifetime a b c d lt m) as [[] n1] eqn:He end;
    cbn [snd] in Ht; destruct Ht as (_ & Hrev & _).
  - left. split; [done|]. split; [done|]. exists packet, lt. split; [done|]. split; [exact Hsent|].
    unfold lt. cbn. lia.
  - right. split; [done|]. change (frames (set_reverse ?x n1)) with (frames n1). split; [by rewrite Hsent|].
    change (ln_reverse (set_reverse ?x n1)) with x. by rewrite Hrev.
Qed.

(** Proofs of plain packets go to the reverse table. *)
Definition plain_proof (h : PacketHeader) : Prop :=
  context h ≠ Lrproof ∧ destination_type (flags h) ≠ Link.

Lemma handle_plain_proof raw h meta now n :
  plain_proof h → handle_proof raw h meta now n = reverse_proof raw h (rx_interface_id meta) now n.
Proof.
  intros [Hc Hd]. unfold handle_proof, route_link_packet.
  rewrite (bool_decide_eq_false_2 _ Hc), (bool_decide_eq_false_2 _ Hd). by rewrite orb_true_r.
Qed.

Lemma taken_gone k now now' t :
  ReverseTable.ok t → (now ≤ now')%Z →
  ReverseTable.get k now' (snd (ReverseTable.take_with_generation k now t)) = None.
Proof.
  intros Hok Hn. pose proof (ReverseTable.take_again k now now' t Hok Hn) as Ht.
  pose proof (ReverseTable.take_slot k now' _ (ReverseTable.rev_ok_take k now t Hok)) as Hs.
  destruct (position _ _) as [i|]; [|apply Hs]. destruct Hs as (e & g & _ & _ & _ & Hs). by rewrite Hs in Ht.
Qed.

Lemma get_expire_later k now now' t :
  ReverseTable.ok t → (now ≤ now')%Z →
  ReverseTable.get k now' (ReverseTable.expire now t) = ReverseTable.get k now' t.
Proof.
  intros Hok Hn. apply option_eq. intros e.
  rewrite !ReverseTable.rev_get_Some by auto using ReverseTable.rev_ok_expire.
  split; intros (Hk & Hl & g & Hb); (split; [done|]); (split; [done|]); exists g.
  - by apply bound_purge in Hb as [Hb _].
  - destruct Hb as (i & Hi & Hg). exists i. split; [|done]. apply lookup_purge_Some.
    split; [done|]. apply Z.leb_gt. lia.
Qed.

End returns.


(** * Witness *)

Module ReturnExample.
Import NodeExample.
#[local] Existing Instances Toy.sha256 Toy.hkdf Toy.ed25519.

Definition routed : LiteNode Router Z := after (take 1 TraceExample.events) router.

Lemma routed_node_ok : node_ok routed.
Proof.
  apply (after_ok (take 1 TraceExample.events) router); [apply Forall_take, TraceExample.events_ok|].
  apply (new_trace_ok caps config tid registry None); [reflexivity|exact TraceExample.router_registry_bytes|intros m [=]].
Qed.

(** Data for the announced destination through this node, and its proof. *)
Definition data : list Z := [80; 0]%Z ++ tid ++ destination ++ [0; 9; 9]%Z.
Definition data_header : PacketHeader :=
  {| flags := unpack 80; hops := 0; transport_id := Some tid; Wire.destination_hash := destination;
     context := from_byte 0 |}.
Definition proof_header : PacketHeader :=
  {| flags := unpack 3; hops := 1; transport_id := None;
     Wire.destination_hash := truncated_packet_hash data Header2; context := from_byte 0 |}.
Definition proof_bytes : list Z := [3; 0]%Z ++ truncated_packet_hash data Header2 ++ [0]%Z ++ zeros 64.
Definition forwarded := handle_transport_forward data data_header (with_hops 1 data_header) (RxMeta.new 2) 2000 routed.
End ReturnExample.

