(* ===== verification/Delivery.v ===== *)
(** The outbound queue towards the interfaces: admission on a router, what
    polling an interface takes, and the retained delivery of an endpoint, whose
    host owns a frame until every target has it. *)

From stdpp Require Import sorting.
From S2P Require Import Prelude Constants Primitives Buffer Wire Slots Queue HashTables GenTable.
From S2P Require Import PathTable Lora AnnounceFlow AnnounceTables FlowTables Discovery Config.
From S2P Require Import Ifac Identity KnownDestinations Links Outbound Model Node NodeFacts.
From S2P Require Import NodeSteps Forward Announcing Ingest Hosts NodeRuns NodeTotal NodeExample Trace.

(** * Lists *)

Lemma filter_delete_other {A} (p : A → bool) (l : list A) off v :
  l !! off = Some v → p v = true →
  List.filter (λ x, negb (p x)) (delete off l) = List.filter (λ x, negb (p x)) l ∧
  S (length (List.filter p (delete off l))) = length (List.filter p l).
Proof.
  revert off. induction l as [|x l IH]; intros [|off] Hl Hp; simpl in *; try done.
  - injection Hl as ->. by rewrite Hp.
  - destruct (IH off Hl Hp) as [H1 H2]. rewrite H1. destruct (p x); simpl; split; (done || lia).
Qed.

Section delivery.
Context `{SHA : Sha256} `{HKDF : HkdfSha256} `{ED : Ed25519} `{HL : ModelLaws M D}.
Abbreviation LiteNode := (LiteNode M D).
Implicit Types n : LiteNode.

(** Frames of one interface, and of the others. *)
Definition own (id : Z) (l : list (QueuedOutbound D)) : list (QueuedOutbound D) :=
  List.filter (on_interface id) l.
Definition others (id : Z) (l : list (QueuedOutbound D)) : list (QueuedOutbound D) :=
  List.filter (λ q, negb (on_interface id q)) l.

Lemma kept_isolated id reason kept n r :
  m_router (ln_interfaces n) = Some r → kept_frames id reason kept n →
  ∃ i, Router.interface id r = Some i ∧ others id kept = others id (frames n) ∧
    S (length (own id kept)) ≤ Nat.max (length (own id (frames n))) (if_tx_queue_depth i) ∧
    (kept = frames n ∨
     ∃ off, displaced id reason (frames n) off ∧ kept = delete off (frames n)).
Proof.
  intros Hr. unfold kept_frames. rewrite Hr. intros (i & Hi & Hk). exists i. split; [done|].
  fold (own id (frames n)) in Hk. destruct (Nat.leb_spec (if_tx_queue_depth i) (length (own id (frames n)))).
  - destruct Hk as (off & Hd & ->). destruct (Hd) as (v & Hv & Hid & _).
    destruct (filter_delete_other (on_interface id) (frames n) off v Hv Hid) as [H1 H2].
    unfold own, others in *. split; [done|]. split; [lia|]. right. by exists off.
  - destruct Hk as [-> _]. split; [done|]. split; [lia|by left].
Qed.

Lemma queued_on id wire reason lifetime n : on_interface id (queued_frame id wire reason lifetime n) = true.
Proof. unfold on_interface, queued_frame. cbn. apply Z.eqb_refl. Qed.
End delivery.


Section polling.
Context `{SHA : Sha256} `{HKDF : HkdfSha256} `{ED : Ed25519}.
Abbreviation RouterNode := (LiteNode Router Z).
Implicit Types n : RouterNode.

(** The frames that may still be sent. *)
Definition current n : list (QueuedOutbound Z) :=
  List.filter (λ f, negb (stale (ln_clock_ms n) n f)) (frames n).

(** Frames of the interface that wait for airtime come after those that do not. *)
Lemma frame_offset_spec id n :
  match RouterHost.interface_frame_offset id n with
  | None => own id (frames n) = []
  | Some off => ∃ q, frames n !! off = Some q ∧ on_interface id q = true ∧
      (∀ j q', j < off → frames n !! j = Some q' → on_interface id q' = true → is_gated q' ≠ is_gated q) ∧
      (is_gated q = true → ∀ q', q' ∈ own id (frames n) → is_gated q' = true)
  end.
Proof.
  unfold RouterHost.interface_frame_offset. fold (frames n).
  destruct (position (λ q, on_interface id q && negb (is_gated q)) (frames n)) as [off|] eqn:Hp; cbn [or_else].
  - apply position_Some in Hp as (q & Hq & Hb & Hfirst). bool_hyps. exists q. split_and!; try done; [|congruence].
    intros j q' Hj Hq' Hid. specialize (Hfirst j q' Hj Hq'). rewrite Hid in Hfirst. cbn in Hfirst. bool_hyps. congruence.
  - assert (Hg : ∀ q', q' ∈ own id (frames n) → is_gated q' = true).
    { intros q' Hq'. unfold own in Hq'. apply list_elem_of_In, filter_In in Hq' as [Hin Hid].
      apply list_elem_of_In, list_elem_of_lookup in Hin as [j Hj].
      pose proof (proj1 (position_None _ _) Hp j q' Hj) as Hx. cbn in Hx. rewrite Hid in Hx. cbn in Hx. by bool_hyps. }
    destruct (position (on_interface id) (frames n)) as [off|] eqn:Hp2.
    + apply position_Some in Hp2 as (q & Hq & Hid & Hfirst). exists q. split_and!; try done.
      intros j q' Hj Hq' Hid'. by rewrite (Hfirst j q' Hj Hq') in Hid'.
    + unfold own. destruct (List.filter (on_interface id) (frames n)) as [|x l] eqn:Hf; [done|].
      assert (Hin : In x (List.filter (on_interface id) (frames n))) by (rewrite Hf; by left).
      apply filter_In in Hin as [Hin Hid]. apply list_elem_of_In, list_elem_of_lookup in Hin as [j Hj].
      by rewrite (proj1 (position_None _ _) Hp2 j x Hj) in Hid.
Qed.
End polling.

(** What an interface is given to send. Polling drops every frame that may
    no longer be sent (its life time over, its route, reverse route, link or
    discovery gone, an interface it needs offline, or queued for an earlier
    registration of the interface) and then takes one frame of the interface:
    the oldest that does not wait for airtime, and only if there is none, the
    oldest that does. Everything else stays queued in order, and nothing is
    returned only when nothing of the interface is left. *)
Lemma router_poll_contract `{SHA : Sha256} `{HKDF : HkdfSha256} `{ED : Ed25519} (n : LiteNode Router Z) id :
  node_ok n →
  let (r, n') := RouterHost.poll_tx_for_interface id n in
  match r with
  | None => own id (current n) = [] ∧ frames n' = current n
  | Some f => ∃ off q, current n !! off = Some q ∧ frames n' = delete off (current n) ∧
      RouterHost.rof_frame f = qo_frame q ∧ RouterHost.rof_target_generation f = qo_delivery q ∧
      of_interface_id (qo_frame q) = id ∧
      RouterHost.router_outbound_is_live id (of_lifetime (qo_frame q)) (qo_delivery q) (ln_clock_ms n) n = true ∧
      (∀ j q', j < off → current n !! j = Some q' → on_interface id q' = true → is_gated q' ≠ is_gated q) ∧
      (is_gated q = true → ∀ q', q' ∈ own id (current n) → is_gated q' = true)
  end.
Proof.
  intros Hok. unfold RouterHost.poll_tx_for_interface. cbv zeta.
  destruct (expire_outbound_spec (ln_clock_ms n) n (no_queue n Hok)) as (q0 & _ & Hok1 & Hf1 & _). cbv zeta in *.
  fold (current n) in Hf1. revert Hok1 Hf1. generalize (expire_outbound (ln_clock_ms n) n). intros n1 Hok1 Hf1.
  pose proof (frame_offset_spec id n1) as Ho. rewrite Hf1 in Ho.
  destruct (RouterHost.interface_frame_offset id n1) as [off|]; [|done].
  destruct Ho as (q & Hq & Hid & Hfirst & Hg). destruct (remove_frames off n1 Hok1) as (_ & Hf & _ & Hr).
  destruct (RingQueue.remove off (ln_outbound n1)) as [v ring]. cbn [fst snd] in Hf, Hr.
  rewrite Hf1 in Hr. rewrite Hr, Hq. exists off, q.
  assert (Hidq : of_interface_id (qo_frame q) = id) by (unfold on_interface in Hid; by bool_hyps).
  split; [done|]. split; [by rewrite Hf, Hf1|]. split; [done|]. split; [done|]. split; [done|]. split; [|done].
  assert (Hin : q ∈ current n) by (by eapply list_elem_of_lookup_2).
  apply list_elem_of_In, filter_In in Hin as [_ Hlive]. unfold stale in Hlive. rewrite Hidq in Hlive.
  unfold RouterHost.router_outbound_is_live. apply negb_true_iff, orb_false_iff in Hlive as [H1 H2].
  apply negb_false_iff in H1, H2. by rewrite H1, andb_true_r.
Qed.

(** * Retained delivery *)

Section retained.
Context `{SHA : Sha256} `{HKDF : HkdfSha256} `{ED : Ed25519}.
Abbreviation EndpointNode := (LiteNode Endpoint OutboundDelivery).
Abbreviation Queued := (QueuedOutbound OutboundDelivery).
Import EndpointHost.
Implicit Types (n : EndpointNode) (q : Queued).

Definition identity (q : Queued) : Z := od_identity (qo_delivery q).
(** Target [t] is still to be given the frame. *)
Definition owes (q : Queued) (t : nat) : bool := Z.testbit (od_pending_targets (qo_delivery q)) (Z.of_nat t).
Definition finished (q : Queued) : bool := (od_pending_targets (qo_delivery q) =? 0)%Z.

(** Identities grow along the queue and were all issued. *)
Record identities_ok n : Prop := {
  ids_sorted : StronglySorted Z.lt (map identity (frames n));
  ids_issued : Forall (λ k, (k ≤ ln_last_delivery_identity n)%Z) (map identity (frames n))
}.

Lemma sublist_forall {A} (P : A → Prop) l l' : l `sublist_of` l' → Forall P l' → Forall P l.
Proof. rewrite !Forall_forall. intros Hs Hl x Hx. apply Hl. by eapply elem_of_sublist. Qed.

Lemma sublist_sorted (l l' : list Z) : l `sublist_of` l' → StronglySorted Z.lt l' → StronglySorted Z.lt l.
Proof.
  intros Hs Hl. induction Hs as [|x l1 l2 Hs IH|x l1 l2 Hs IH]; [done| |].
  - apply StronglySorted_inv in Hl as [Hl Hx]. constructor; [by apply IH|]. by eapply sublist_forall.
  - apply StronglySorted_inv in Hl as [Hl _]. by apply IH.
Qed.

Lemma issued_identities m a b (l : list Queued) :
  issued m a b l → StronglySorted Z.lt (map identity l) ∧ Forall (λ k, (a < k ≤ b)%Z) (map identity l).
Proof.
  intros (ks & Hs & Hr & Hf). assert (map identity l = ks) as ->; [|done].
  clear Hs Hr. induction Hf as [|k f ks l [Hd _] _ IH]; [done|]. cbn. rewrite IH. f_equal.
  unfold identity. by rewrite Hd.
Qed.

(** Queueing keeps identities unique. *)
Lemma queue_step_identities n n' : node_ok n → queue_step n n' → identities_ok n → identities_ok n'.
Proof.
  intros Hok [_ Hq] [Hs Hi]. destruct (Hq (no_queue n Hok) (no_capacity n Hok)) as (_ & _ & Hle & new & Hsub & Hnew).
  apply issued_identities in Hnew as [Hns Hni].
  assert (Hsub' : map identity (frames n') `sublist_of` map identity (frames n) ++ map identity new).
  { rewrite <- map_app. by apply (fmap_sublist identity). }
  rewrite Forall_forall in Hi, Hni. split.
  - eapply sublist_sorted; [exact Hsub'|]. apply StronglySorted_app_2; [|done..].
    intros x y Hx%Hi Hy%Hni. lia.
  - eapply sublist_forall; [exact Hsub'|]. apply Forall_forall. intros x [Hx%Hi|Hx%Hni]%elem_of_app; lia.
Qed.

Lemma run_identities l v n n' : node_ok n → rtc (node_step l v) n n' → identities_ok n → identities_ok n'.
Proof.
  intros Hok Hr. revert Hok. induction Hr as [n|n1 n2 n3 Hs _ IH]; [done|]. intros Hok Hi.
  apply IH; [by eapply step_ok|]. destruct Hs; try by destruct Hi. by eapply queue_step_identities.
Qed.

(** ** Targets *)

Lemma testbit_drop mask q t :
  t < 8 → owes (drop_targets mask q) t = owes q t && negb (Z.testbit mask (Z.of_nat t)).
Proof.
  intros Ht. unfold owes, drop_targets. cbn. unfold not8. rewrite Z.land_spec, Z.lxor_spec.
  change 255%Z with (Z.ones 8). rewrite Z.ones_spec_low by lia. by rewrite xorb_true_r.
Qed.

Lemma drop_frame mask q :
  qo_frame (drop_targets mask q) = qo_frame q ∧ identity (drop_targets mask q) = identity q ∧
  od_initialized (qo_delivery (drop_targets mask q)) = od_initialized (qo_delivery q) ∧
  od_interface_generations (qo_delivery (drop_targets mask q)) = od_interface_generations (qo_delivery q).
Proof. done. Qed.

(** What selection makes of a frame. *)
Definition settle (generations : list Z) (q : Queued) : Queued :=
  retire_targets generations (bind_delivery generations q).

Lemma retire_spec (generations : list Z) (ids : list nat) q :
  let q' := fold_left (λ q id, let generation := generations !!! id in
       if (generation =? 0)%Z || negb (generation =? (od_interface_generations (qo_delivery q) !!! id))%Z
       then drop_targets (Z.shiftl 1 (Z.of_nat id)) q else q) ids q in
  qo_frame q' = qo_frame q ∧ identity q' = identity q ∧
  od_initialized (qo_delivery q') = od_initialized (qo_delivery q) ∧
  od_interface_generations (qo_delivery q') = od_interface_generations (qo_delivery q) ∧
  ∀ t, t < 8 → owes q' t = owes q t &&
    (negb (bool_decide (t ∈ ids)) ||
     negb ((generations !!! t =? 0)%Z
           || negb (generations !!! t =? od_interface_generations (qo_delivery q) !!! t)%Z)).
Proof.
  revert q. induction ids as [|i ids IH]; intros q; cbn [fold_left].
  - split_and!; try done. intros t _. rewrite bool_decide_eq_false_2 by apply not_elem_of_nil. by rewrite andb_true_r.
  - set (q1 := if _ : bool then _ else q). cbv zeta. destruct (IH q1) as (H1 & H2 & H3 & H4 & H5). cbv zeta in *.
    assert (Hq1 : qo_frame q1 = qo_frame q ∧ identity q1 = identity q ∧
      od_initialized (qo_delivery q1) = od_initialized (qo_delivery q) ∧
      od_interface_generations (qo_delivery q1) = od_interface_generations (qo_delivery q)).
    { unfold q1. case_if; [apply drop_frame|done]. }
    destruct Hq1 as (F1 & F2 & F3 & F4). split_and!; try congruence. intros t Ht. rewrite H5, F4 by done.
    assert (Ho : owes q1 t = owes q t && negb (bool_decide (t = i) &&
      ((generations !!! i =? 0)%Z || negb (generations !!! i =? od_interface_generations (qo_delivery q) !!! i)%Z))).
    { unfold q1. destruct ((generations !!! i =? 0)%Z || _); [|by rewrite andb_false_r, andb_true_r].
      rewrite testbit_drop by done. rewrite andb_true_r.
      f_equal. f_equal. rewrite Z.shiftl_1_l, Z.pow2_bits_eqb by lia.
      apply eq_bool_prop_intro. rewrite bool_decide_spec, Is_true_true, Z.eqb_eq. lia. }
    rewrite Ho. destruct (decide (t = i)) as [->|Hne].
    + rewrite (bool_decide_eq_true_2 (i = i)) by done. rewrite (bool_decide_eq_true_2 (i ∈ i :: ids)) by (by constructor).
      cbn [andb negb orb]. destruct (owes q i), (_ || _), (bool_decide (i ∈ ids)); done.
    + rewrite (bool_decide_eq_false_2 (t = i)) by done. cbn [andb negb].
      rewrite (bool_decide_ext (t ∈ i :: ids) (t ∈ ids)) by (rewrite elem_of_cons; naive_solver).
      by rewrite andb_true_r.
Qed.
(** The targets a frame is still owed to once the host has looked at it with the
    given interface generations (zero: not connected). *)
Lemma settle_spec (generations : list Z) q :
  length generations = 7 →
  qo_frame (settle generations q) = qo_frame q ∧ identity (settle generations q) = identity q ∧
  od_initialized (qo_delivery (settle generations q)) = true ∧
  ∀ t, t < 7 → owes (settle generations q) t =
    owes q t && negb (generations !!! t =? 0)%Z &&
    (if od_initialized (qo_delivery q)
     then (generations !!! t =? od_interface_generations (qo_delivery q) !!! t)%Z
     else Z.testbit (selected_targets (qo_frame q)) (Z.of_nat t)).
Proof.
  intros Hl. unfold settle, retire_targets. rewrite Hl.
  destruct (retire_spec generations (seq 0 7) (bind_delivery generations q)) as (H1 & H2 & H3 & H4 & H5). cbv zeta in *.
  unfold bind_delivery in *. destruct (od_initialized (qo_delivery q)) eqn:Hi.
  - rewrite Hi in H3. split_and!; try done. intros t Ht. rewrite H5 by lia.
    rewrite bool_decide_eq_true_2 by (apply elem_of_seq; lia). cbn [negb orb].
    by rewrite negb_orb, negb_involutive, andb_assoc.
  - split_and!; try done. intros t Ht. rewrite H5 by lia.
    rewrite bool_decide_eq_true_2 by (apply elem_of_seq; lia). cbn [negb orb qo_delivery od_interface_generations].
    unfold owes. cbn [qo_delivery od_pending_targets]. rewrite Z.land_spec, Z.eqb_refl, orb_false_r.
    destruct (Z.testbit (od_pending_targets _) _), (Z.testbit (selected_targets _) _), (_ =? _)%Z; done.
Qed.

(** The frames left are those some target is owed. *)
Lemma drop_finished_spec fuel n :
  queue_ok n → length (frames n) < fuel →
  ∃ s ring, let n' := drop_finished fuel n in
    n' = set_stats s (set_outbound ring n) ∧ queue_ok n' ∧
    frames n' = List.filter (λ q, negb (finished q)) (frames n) ∧
    RingQueue.capacity (ln_outbound n') = RingQueue.capacity (ln_outbound n).
Proof.
  revert n. induction fuel as [|fuel IH]; intros n Hok Hlen; [lia|]. cbn [drop_finished].
  fold (frames n). change (λ q : Queued, (od_pending_targets (qo_delivery q) =? 0)%Z) with finished.
  destruct (position finished (frames n)) as [off|] eqn:Hp.
  - destruct (remove_frames off n Hok) as (Hok1 & Hf1 & Hc1 & _). destruct (filter_delete _ _ _ Hp) as [Hfil Hdel].
    apply position_lt in Hp. set (n1 := count _ _).
    destruct (IH n1) as (s & ring & -> & Hok2 & Hf2 & Hc2); [done| |].
    + change (frames n1) with (frames (set_outbound (snd (RingQueue.remove off (ln_outbound n))) n)).
      rewrite Hf1. lia.
    + exists s, ring. split; [done|]. split; [done|]. split; [|etrans; [exact Hc2|exact Hc1]].
      rewrite Hf2. change (frames n1) with (frames (set_outbound (snd (RingQueue.remove off (ln_outbound n))) n)).
      by rewrite Hf1, Hfil.
  - exists (ln_stats n), (ln_outbound n). split; [by destruct n|]. split; [done|].
    by rewrite (filter_none _ _ Hp).
Qed.

(** The frames an endpoint may still send. *)
Definition unexpired n : list Queued := List.filter (λ f, negb (stale (ln_clock_ms n) n f)) (frames n).

Lemma select_frames after blocked generations n :
  queue_ok n →
  let (sel, n') := retained_outbound_select after blocked generations n in
  queue_ok n' ∧ ln_retained_owner_mode n' = true ∧
  ln_last_delivery_identity n' = ln_last_delivery_identity n ∧
  frames n' = List.filter (λ q, negb (finished q)) (map (settle generations) (unexpired n)) ∧
  sel = find (λ q, (after <? identity q)%Z
                   && negb (Z.land (od_pending_targets (qo_delivery q)) (not8 blocked) =? 0)%Z) (frames n').
Proof.
  intros Hok. unfold retained_outbound_select. cbv zeta. set (n0 := set_retained_owner_mode true n).
  destruct (expire_outbound_spec (ln_clock_ms n0) n0 Hok) as (q1 & Hn1 & Hok1 & Hf1 & Hc1). cbv zeta in *.
  assert (Hmode : ln_retained_owner_mode (expire_outbound (ln_clock_ms n0) n0) = true ∧
    ln_last_delivery_identity (expire_outbound (ln_clock_ms n0) n0) = ln_last_delivery_identity n) by by rewrite Hn1.
  clear Hn1. revert Hok1 Hf1 Hmode. generalize (expire_outbound (ln_clock_ms n0) n0). intros n1 Hok1 Hf1 [Hm1 Hl1].
  match goal with |- context [set_outbound (RingQueue.iter_mut ?f (ln_outbound n1)) n1] =>
    destruct (RingQueue.iter_mut_rep _ _ f Hok1) as [_ Hr];
    destruct (queue_ok_rep (set_outbound (RingQueue.iter_mut f (ln_outbound n1)) n1) _ Hr) as [Hok2 Hf2];
    revert Hok2 Hf2; set (n2 := set_outbound _ n1); intros Hok2 Hf2 end.
  destruct (drop_finished_spec (S (outbound_len n2)) n2 Hok2) as (s & ring & -> & Hok3 & Hf3 & _).
  { destruct Hok2 as (Hlen & _). unfold outbound_len. lia. }
  split; [done|]. split; [done|]. split; [done|]. split; [|done].
  rewrite Hf3, Hf2, Hf1. done.
Qed.

Lemma position_identity n q off :
  identities_ok n → frames n !! off = Some q → position (has_identity (identity q)) (frames n) = Some off.
Proof.
  intros [Hs _] Hq. destruct (position (has_identity (identity q)) (frames n)) as [i|] eqn:Hp.
  - apply position_Some in Hp as (x & Hx & Hid & _). unfold has_identity in Hid. bool_hyps. f_equal.
    assert (Hx' : map identity (frames n) !! i = Some (identity q)) by (rewrite list_lookup_fmap, Hx; cbn; by f_equal).
    assert (Hq' : map identity (frames n) !! off = Some (identity q)) by (by rewrite list_lookup_fmap, Hq).
    eapply NoDup_lookup; [|exact Hx'|exact Hq'].
    clear -Hs. induction Hs as [|x l Hl IH Hx]; constructor; [|done].
    intros Hin. rewrite Forall_forall in Hx. specialize (Hx x Hin). lia.
  - pose proof (proj1 (position_None _ _) Hp off q Hq) as Hx. unfold has_identity, identity in Hx. bool_hyps. congruence.
Qed.

(** Acknowledging a selected frame. *)
Lemma ack_frames completed n q off :
  queue_ok n → identities_ok n → ln_retained_owner_mode n = true → identity q ≠ 0%Z →
  frames n !! off = Some q → od_initialized (qo_delivery q) = true →
  let (ok, n') := retained_outbound_ack (identity q) completed n in
  ok = true ∧ queue_ok n' ∧ ln_last_delivery_identity n' = ln_last_delivery_identity n ∧
  frames n' = if finished (drop_targets completed q) then delete off (frames n)
              else <[off := drop_targets completed q]> (frames n).
Proof.
  intros Hok Hids Hm Hk Hq Hi. unfold retained_outbound_ack. rewrite Hm, (proj2 (Z.eqb_neq _ _) Hk). cbn [negb orb].
  fold (frames n). rewrite (position_identity n q off Hids Hq), Hq, Hi. cbn [negb]. cbv zeta.
  change (od_pending_targets (qo_delivery (drop_targets completed q)) =? 0)%Z with (finished (drop_targets completed q)).
  destruct (RingQueue.get_mut_rep _ _ off (drop_targets completed) Hok) as [_ Hr].
  assert (Ha : alter (drop_targets completed) off (frames n) = <[off := drop_targets completed q]> (frames n)).
  { apply list_eq. intros i. destruct (decide (i = off)) as [->|Hne].
    - rewrite list_lookup_alter_eq, Hq, list_lookup_insert_eq; [done|]. by eapply lookup_lt_Some.
    - by rewrite list_lookup_alter_ne, list_lookup_insert_ne. }
  rewrite Ha in Hr. split; [done|]. destruct (finished (drop_targets completed q)).
  - pose proof (RingQueue.remove_rep _ _ off Hr) as Hrem. destruct (RingQueue.remove off _) as [v ring].
    destruct Hrem as (_ & _ & Hrep). assert (Hd : delete off (<[off := drop_targets completed q]> (frames n)) = delete off (frames n)).
    { rewrite !delete_take_drop, take_insert_ge, drop_insert_lt by lia. done. }
    rewrite Hd in Hrep. cbn [snd]. destruct (queue_ok_rep (set_outbound ring n) _ Hrep). done.
  - match goal with |- context [set_outbound ?r n] => destruct (queue_ok_rep (set_outbound r n) _ Hr) end. done.
Qed.

End retained.

Section retained_ids.
Context `{SHA : Sha256} `{HKDF : HkdfSha256} `{ED : Ed25519}.
Import EndpointHost.
Implicit Types n : LiteNode Endpoint OutboundDelivery.

Lemma identities_sub n n' :
  map identity (frames n') `sublist_of` map identity (frames n) →
  ln_last_delivery_identity n' = ln_last_delivery_identity n → identities_ok n → identities_ok n'.
Proof.
  intros Hs Hl [H1 H2]. split; [by eapply sublist_sorted|]. rewrite Hl. by eapply sublist_forall.
Qed.

Lemma filter_sublist {A} (p : A → bool) (l : list A) : List.filter p l `sublist_of` l.
Proof. induction l as [|x l IH]; cbn; [done|]. destruct (p x); by constructor. Qed.

Lemma settled_identities (generations : list Z) l :
  length generations = 7 → map identity (map (settle generations) l) = map identity l.
Proof.
  intros Hg. induction l as [|q l IH]; [done|]. cbn [map]. rewrite IH. f_equal.
  by destruct (settle_spec generations q Hg) as (_ & -> & _).
Qed.

Lemma select_identities after blocked (generations : list Z) n :
  queue_ok n → length generations = 7 → identities_ok n →
  identities_ok (snd (retained_outbound_select after blocked generations n)).
Proof.
  intros Hok Hg Hi. pose proof (select_frames after blocked generations n Hok) as Hs.
  destruct (retained_outbound_select _ _ _ _) as [sel n1]. destruct Hs as (_ & _ & Hl & Hf & _).
  apply (identities_sub n n1); [|done|done]. rewrite Hf.
  etrans; [apply (fmap_sublist identity), filter_sublist|]. change (identity <$> ?l) with (map identity l).
  rewrite (settled_identities _ _ Hg). apply (fmap_sublist identity), filter_sublist.
Qed.

Lemma insert_identity n off q q' :
  frames n !! off = Some q → identity q' = identity q →
  map identity (<[off := q']> (frames n)) = map identity (frames n).
Proof.
  intros Hq Hi. change (identity <$> <[off := q']> (frames n) = identity <$> frames n).
  rewrite list_fmap_insert. apply list_insert_id. by rewrite list_lookup_fmap, Hq, Hi.
Qed.

Lemma find_first {A} (p : A → bool) (l : list A) x :
  find p l = Some x → ∃ i, l !! i = Some x ∧ p x = true ∧ ∀ j y, j < i → l !! j = Some y → p y = false.
Proof.
  induction l as [|a l IH]; [done|]. cbn. destruct (p a) eqn:Ha.
  - intros [= ->]. exists 0. split_and!; [done|done|]. intros; lia.
  - intros (i & Hi & Hp & Hf)%IH. exists (S i). split_and!; [done|done|].
    intros [|j] y Hj Hy; [cbn in Hy; congruence|]. apply (Hf j); [lia|done].
Qed.
End retained_ids.

(** C10: a frame is delivered to every target once. When the host of an endpoint
    asks for work, giving the current generation of each of its interfaces, the
    queue keeps exactly the frames that may still be sent and that some target
    is owed. A target is owed a frame only if the frame's purpose selects it, if
    it is connected, and if its generation is the one the frame was first looked
    at with. The host gets the oldest frame, after the given identity, owed to a
    target that is not blocked. Acknowledging it by its identity clears exactly
    the completed targets, drops it when none is left, and touches no other
    frame; identities stay unique, so an acknowledgement cannot hit another
    frame. *)
Theorem retained_delivery `{SHA : Sha256} `{HKDF : HkdfSha256} `{ED : Ed25519}
    (n : LiteNode Endpoint OutboundDelivery) after blocked (generations : list Z) :
  node_ok n → identities_ok n → length generations = 7 → (0 ≤ after)%Z →
  let owed_to q := Z.land (od_pending_targets (qo_delivery q)) (not8 blocked) in
  let (sel, n1) := EndpointHost.retained_outbound_select after blocked generations n in
  identities_ok n1 ∧
  frames n1 = List.filter (λ q, negb (finished q)) (map (settle generations) (unexpired n)) ∧
  (∀ q t, t < 7 → owes (settle generations q) t =
     owes q t && negb (generations !!! t =? 0)%Z &&
     (if od_initialized (qo_delivery q)
      then (generations !!! t =? od_interface_generations (qo_delivery q) !!! t)%Z
      else Z.testbit (EndpointHost.selected_targets (qo_frame q)) (Z.of_nat t))) ∧
  match sel with
  | None => ∀ q, q ∈ frames n1 → (after < identity q)%Z → owed_to q = 0%Z
  | Some q => ∃ off, frames n1 !! off = Some q ∧ (after < identity q)%Z ∧ owed_to q ≠ 0%Z ∧
      (∀ j q', j < off → frames n1 !! j = Some q' → (identity q' ≤ after)%Z ∨ owed_to q' = 0%Z) ∧
      ∀ completed,
        let (ok, n2) := EndpointHost.retained_outbound_ack (identity q) completed n1 in
        let q' := EndpointHost.drop_targets completed q in
        ok = true ∧ identities_ok n2 ∧
        frames n2 = (if finished q' then delete off (frames n1) else <[off := q']> (frames n1)) ∧
        ∀ t, t < 8 → owes q' t = owes q t && negb (Z.testbit completed (Z.of_nat t))
  end.
Proof.
  intros Hok Hids Hg Ha owed_to. pose proof (select_identities after blocked generations n (no_queue n Hok) Hg Hids) as Hi1.
  pose proof (select_frames after blocked generations n (no_queue n Hok)) as Hs.
  destruct (EndpointHost.retained_outbound_select _ _ _ _) as [sel n1]. cbn [snd] in Hi1.
  destruct Hs as (Hok1 & Hm & _ & Hf & Hsel). split; [done|]. split; [done|].
  split; [intros q t Ht; by apply (settle_spec generations q Hg)|].
  destruct sel as [q|].
  - symmetry in Hsel. apply find_first in Hsel as (off & Hq & Hp & Hfirst). bool_hyps.
    exists off. split; [done|]. split; [done|]. split; [done|]. split.
    { intros j q' Hj Hq'. specialize (Hfirst j q' Hj Hq'). cbv beta in Hfirst.
      apply andb_false_iff in Hfirst as [Hf'|Hf']; bool_hyps; [left; lia|by right]. }
    intros completed.
    assert (Hinit : od_initialized (qo_delivery q) = true).
    { assert (Hin : In q (frames n1)) by (apply list_elem_of_In; by eapply list_elem_of_lookup_2).
      rewrite Hf in Hin. apply filter_In in Hin as [Hin _]. apply in_map_iff in Hin as (q0 & <- & _).
      by destruct (settle_spec generations q0 Hg) as (_ & _ & -> & _). }
    pose proof (ack_frames completed n1 q off Hok1 Hi1 Hm ltac:(lia) Hq Hinit) as Hack.
    destruct (EndpointHost.retained_outbound_ack _ _ _) as [ok n2]. destruct Hack as (-> & _ & Hl2 & Hf2).
    split; [done|]. split; [|split; [done|intros t Ht; by apply testbit_drop]].
    apply (identities_sub n1 n2); [|done|done]. rewrite Hf2.
    destruct (finished _); [apply (fmap_sublist identity), sublist_delete|].
    by rewrite (insert_identity n1 off q).
  - intros q Hq Hlt. symmetry in Hsel. apply list_elem_of_In in Hq. pose proof (find_none _ _ Hsel q Hq) as Hx. cbv beta in Hx.
    rewrite (proj2 (Z.ltb_lt _ _) Hlt) in Hx. cbn [andb] in Hx. by bool_hyps.
Qed.

(** * Witnesses *)

Module DeliveryExample.
Import NodeExample.
#[local] Existing Instances Toy.sha256 Toy.hkdf Toy.ed25519.

Definition packet : PacketBuffer :=
  snd (PacketBuffer.extend_from_slice ([0; 1]%Z ++ destination ++ [0; 9; 9]%Z) (PacketBuffer.new MTU)).

(** A router and an endpoint with the packet queued for interface 1. *)
Definition loaded : LiteNode Router Z :=
  snd (enqueue_with_lifetime 1 packet OutboundReason.Local (fresh_lifetime 0) router).
Definition seen : LiteNode Endpoint OutboundDelivery := observe_interface (RxMeta.new 1) endpoint.
Definition loaded_endpoint : LiteNode Endpoint OutboundDelivery :=
  snd (enqueue_with_lifetime 1 packet OutboundReason.Local (fresh_lifetime 0) seen).

Lemma loaded_ok : node_ok loaded.
Proof. eapply ok_queue; [apply step_enqueue|exact router_node_ok]. Qed.

Lemma seen_ok : node_ok seen.
Proof. eapply (step_ok (λ _, True) (λ _, True)); [apply ns_observe|exact endpoint_ok]. Qed.

Lemma loaded_endpoint_ok : node_ok loaded_endpoint.
Proof. eapply ok_queue; [apply step_enqueue|exact seen_ok]. Qed.

Lemma loaded_identities : identities_ok loaded_endpoint.
Proof. eapply queue_step_identities; [exact seen_ok|apply step_enqueue|]. split; cbn; constructor. Qed.

Definition generations : list Z := [0; 5; 0; 0; 0; 0; 0]%Z.
End DeliveryExample.


(** Polling gives the queued packet. *)
Lemma router_poll_contract_witness :
  let _ := Toy.sha256 in let _ := Toy.hkdf in let _ := Toy.ed25519 in
  ∃ f (q : QueuedOutbound Z), fst (RouterHost.poll_tx_for_interface 1 DeliveryExample.loaded) = Some f ∧
    RouterHost.rof_frame f = qo_frame q ∧ of_interface_id (qo_frame q) = 1%Z.
Proof.
  intros s k e.
  pose proof (router_poll_contract (SHA := s) (HKDF := k) (ED := e) DeliveryExample.loaded 1 DeliveryExample.loaded_ok) as H.
  destruct (fst (RouterHost.poll_tx_for_interface 1 DeliveryExample.loaded)) as [f|] eqn:Hf; [|by vm_compute in Hf].
  destruct (RouterHost.poll_tx_for_interface 1 DeliveryExample.loaded) as [r n']. cbn [fst] in Hf. subst r.
  destruct H as (off & q & _ & _ & H1 & _ & H2 & _). exists f, q. split; [reflexivity|split; [exact H1|exact H2]].
Defined.

(** The host of an endpoint is given the packet and acknowledges it. *)
Lemma retained_delivery_witness :
  let _ := Toy.sha256 in let _ := Toy.hkdf in let _ := Toy.ed25519 in
  ∃ q, fst (EndpointHost.retained_outbound_select 0 0 DeliveryExample.generations DeliveryExample.loaded_endpoint) = Some q ∧
    fst (EndpointHost.retained_outbound_ack (identity q) 2
      (snd (EndpointHost.retained_outbound_select 0 0 DeliveryExample.generations DeliveryExample.loaded_endpoint))) = true.
Proof.
  intros s k e.
  pose proof (retained_delivery (SHA := s) (HKDF := k) (ED := e) DeliveryExample.loaded_endpoint 0 0
    DeliveryExample.generations DeliveryExample.loaded_endpoint_ok DeliveryExample.loaded_identities eq_refl ltac:(lia)) as H.
  cbv zeta in H.
  destruct (fst (EndpointHost.retained_outbound_select 0 0 DeliveryExample.generations DeliveryExample.loaded_endpoint))
    as [q|] eqn:Hq; [|by vm_compute in Hq].
  destruct (EndpointHost.retained_outbound_select _ _ _ _) as [sel n1]. cbn [fst] in Hq. subst sel.
  destruct H as (_ & _ & _ & off & _ & _ & _ & _ & H). exists q. split; [reflexivity|].
  specialize (H 2%Z). cbn [snd]. destruct (EndpointHost.retained_outbound_ack _ _ _) as [ok n2]. exact (proj1 H).
Defined.
