(* ===== verification/Receiving.v ===== *)
(** What a received frame must be to have an effect: from an interface that may
    receive, no longer than the interface takes, with the interface's access
    code if it has one, and a well-formed packet once that is removed. The
    frames a router queues always fit the buffers of its interfaces. *)

From stdpp Require Import sorting.
From S2P Require Import Prelude Constants Primitives Buffer Wire Slots Queue HashTables GenTable.
From S2P Require Import PathTable Lora AnnounceFlow AnnounceTables FlowTables Discovery Config.
From S2P Require Import Ifac Identity KnownDestinations Links Outbound Model Node NodeFacts.
From S2P Require Import NodeSteps Forward Announcing Ingest Hosts NodeRuns NodeTotal NodeExample Trace Delivery.

Section receiving.
Context `{SHA : Sha256} `{HKDF : HkdfSha256} `{ED : Ed25519} `{HL : ModelLaws M D}.
Abbreviation LiteNode := (LiteNode M D).
Implicit Types n : LiteNode.

(** Nothing was learned, recorded, scheduled or queued. *)
Record undisturbed n n' : Prop := {
  un_paths : ln_paths n' = ln_paths n;
  un_reverse : ln_reverse n' = ln_reverse n;
  un_links : ln_links n' = ln_links n;
  un_hashes : ln_packet_hashes n' = ln_packet_hashes n;
  un_tags : ln_request_tags n' = ln_request_tags n;
  un_cache : ln_announce_cache n' = ln_announce_cache n;
  un_schedule : ln_announce_schedule n' = ln_announce_schedule n;
  un_known : ln_known_destinations n' = ln_known_destinations n;
  un_admission : ln_announce_admission n' = ln_announce_admission n;
  un_local : ln_local n' = ln_local n;
  un_frames : frames n' `sublist_of` frames n
}.

Lemma begin_undisturbed meta now n : node_ok n → undisturbed n (begin_ingest meta now n).
Proof.
  intros Hok. unfold begin_ingest. cbv zeta.
  match goal with |- context [expire_outbound now ?m] => set (n1 := m) end.
  assert (Hq : queue_ok n1).
  { unfold n1. case_if; apply (no_queue n Hok). }
  destruct (expire_outbound_spec now n1 Hq) as (q & Hn & _ & Hf & _). cbv zeta in *.
  assert (Hfr : frames (expire_outbound now n1) `sublist_of` frames n).
  { rewrite Hf. etrans; [apply filter_sublist|]. unfold n1. by case_if. }
  rewrite Hn. rewrite Hn in Hfr. unfold n1 in *. case_if; by split.
Qed.

Lemma undisturbed_counted f n n' : undisturbed n n' → undisturbed n (count f n').
Proof. by intros []. Qed.

Lemma undisturbed_rcounted f n n' : undisturbed n n' → undisturbed n (rcount f n').
Proof. intros []. unfold rcount. by destruct (m_router (ln_interfaces n')). Qed.

(** A frame with an effect. *)
Definition admissible (raw : list Z) (meta : RxMeta) n : Prop :=
  may_receive (rx_interface_id meta) (length raw) n ∧
  ∃ clear view, carries_code raw clear (rx_interface_id meta) n ∧ parse_view clear = Ok view.

Definition no_effect n (out : outcome TransportError IngestAction * LiteNode * option PacketBuffer)
    (endpoint : option PacketBuffer) : Prop :=
  (fst (fst out) = Ok IngestAction.Dropped ∨ ∃ e, fst (fst out) = Err e) ∧
  undisturbed n (snd (fst out)) ∧ snd out = endpoint.

Lemma inadmissible raw meta now link endpoint n :
  node_ok n → bytes raw → ¬ admissible raw meta n →
  no_effect n (ingest_inner raw meta now link endpoint n) endpoint.
Proof.
  intros Hok Hb Hno. unfold ingest_inner. cbv zeta. pose proof (begin_undisturbed meta now n Hok) as Hu.
  pose proof (router_ingress_spec (rx_interface_id meta) (length raw) (begin_ingest meta now n)) as Hi.
  destruct (router_ingress _ _ _) as [[[]|e|] n1]; [| | |done].
  - destruct Hi as [-> Hmay]. apply (may_receive_begin (λ _, True) (λ _, True)) in Hmay.
    rewrite registered_interface, begin_ingest_clear.
    assert (Hc : no_panic (clear_packet raw (rx_interface_id meta) n)).
    { unfold clear_packet. destruct (m_ifac _ _ _) as [x|] eqn:Hx; [|done].
      pose proof (verify_plain raw (ifac_key x) (ifac_size x) (PacketBuffer.new MTU) (PacketBuffer.wf_new MTU) Hb
        (no_ifac n Hok _ _ Hx)) as Hv. by destruct (ifac_verify_into _ _ _ _) as [[]]. }
    destruct (clear_packet raw (rx_interface_id meta) n) as [[clear|]|[]|] eqn:Hclear; [| |done].
    + unfold ingest_packet. case_if; [split; [by left|done]|].
      destruct (parse_view clear) as [view|e|] eqn:Hp; cbn [omap_err obind].
      * destruct Hno. split; [done|]. exists clear, view. split; [by apply clear_packet_code|done].
      * split; [right; by eexists|done].
      * by apply parse_view_no_panic in Hp.
    + split; [by left|]. split; [by apply undisturbed_counted, undisturbed_counted|done].
  - destruct Hi as (_ & f & g & ->). split; [by left|]. split; [by apply undisturbed_counted, undisturbed_rcounted|done].
  - destruct e; try done; destruct Hi as (_ & f & g & ->); (split; [right; by eexists|]);
      (split; [by apply undisturbed_counted, undisturbed_rcounted|done]).
Qed.

End receiving.


(** ** Frames fit their buffers *)

Section fitting.
Context `{SHA : Sha256} `{HKDF : HkdfSha256} `{ED : Ed25519}.
Implicit Types n : LiteNode Router Z.

Definition frames_fit n : Prop :=
  Forall (λ q, PacketBuffer.wf WIRE_MTU_MAX (of_packet (qo_frame q))) (frames n) ∧
  length (frames n) ≤ RingQueue.capacity (ln_outbound n).

Lemma issued_fit (m : Router) a b (l : list (QueuedOutbound Z)) :
  issued m a b l → Forall (λ q, PacketBuffer.wf WIRE_MTU_MAX (of_packet (qo_frame q))) l.
Proof. intros (ks & _ & _ & Hf). induction Hf as [|k q ks l [_ Hw] _ IH]; by constructor. Qed.

Lemma change_fits l v n n' : change l v n n' → trace_ok n → frames_fit n → frames_fit n'.
Proof.
  intros Hc Hok [Hf Hlen]. pose proof (no_queue _ (tr_node _ (change_ok _ _ _ _ Hc Hok))) as (_ & Hle & _).
  split; [|exact Hle]. destruct Hc as [n1 n2 Hs|s n1|c n1|i n1|s n1|t n1 Ht|r n1 Hreg Hmod]; try exact Hf.
  destruct Hs; try exact Hf. destruct (qs_ok _ _ H) as (_ & _ & _ & new & Hsub & Hnew);
    [apply (no_queue _ (tr_node _ Hok))|apply (no_capacity _ (tr_node _ Hok))|].
  eapply sublist_forall; [exact Hsub|]. apply Forall_app. split; [done|by eapply issued_fit].
Qed.

Lemma changes_fit l v n n' : rtc (change l v) n n' → trace_ok n → frames_fit n → frames_fit n'.
Proof.
  induction 1 as [n|n1 n2 n3 Hc _ IH]; [done|]. intros Hok Hf.
  apply IH; [by eapply change_ok|by eapply change_fits].
Qed.

Lemma after_fits evs n : Forall event_ok evs → trace_ok n → frames_fit n → frames_fit (after evs n).
Proof.
  induction evs as [|ev evs IH] using rev_ind; [done|]. rewrite Forall_app. intros [Hevs Hev] Hok Hf.
  rewrite after_snoc. pose proof (after_ok evs n Hevs Hok) as Ha.
  eapply changes_fit; [apply perform_changes; [by inversion Hev|done]|done|by apply IH].
Qed.

End fitting.


(** * Witnesses *)


