(* ===== verification/Journey.v ===== *)
(** A message across the network and its receipt (src/src/transport.rs,
    src/src/wire.rs, src/src/ifac.rs, src/src/proof.rs): a data packet is
    forwarded by a chain of transport nodes to its destination, and the proof of
    its delivery comes back through the same nodes.

    The nodes are joined by segments; the interfaces at the two ends of a segment
    have the same access code, or none. A [relay] is one visit to a node: the
    state in which a frame finds it, and what it leaves. *)

From S2P Require Import Prelude Constants Primitives Buffer Wire Slots Queue HashTables GenTable.
From S2P Require Import PathTable Lora AnnounceFlow AnnounceTables FlowTables Discovery Config.
From S2P Require Import Ifac Identity KnownDestinations Proofs Links Outbound Model Node NodeFacts.
From S2P Require Import NodeSteps Forward Announcing Ingest Hosts NodeRuns NodeTotal NodeExample Trace Returns Receiving.

(** A packet as it is built. *)
Abbreviation packet_of h p := (header_bytes h ++ p) (only parsing).

(** ** Segments *)

Section segment.
Context `{HKDF : HkdfSha256} `{ED : Ed25519}.

(** What an interface with this access code reads from a frame. *)
Definition reads (code : option IfacConfig) (frame clear : list Z) : Prop :=
  match code with
  | Some ifac => ∃ plain,
      ifac_verify_into frame (ifac_key ifac) (ifac_size ifac) (PacketBuffer.new MTU) = (Ok tt, plain) ∧
      clear = PacketBuffer.as_slice plain
  | None => has_ifac_flag frame = false ∧ clear = frame
  end.

Lemma reads_functional code frame c c' : reads code frame c → reads code frame c' → c = c'.
Proof.
  unfold reads. destruct code as [i|].
  - intros (b & Hb & ->) (b' & Hb' & ->). congruence.
  - by intros [_ ->] [_ ->].
Qed.

Lemma packet_has_no_flag h p : has_ifac_flag (packet_of h p) = false ∧ is_byte (packet_of h p !!! 0).
Proof.
  cbn. unfold has_ifac_flag, is_byte, pack. destruct (flags h) as [[] [] [] [] []]; vm_compute; split; try done; split; congruence.
Qed.

End segment.

Section ends.
Context `{SHA : Sha256} `{HKDF : HkdfSha256} `{ED : Ed25519} `{HL : ModelLaws M D}.
Abbreviation LiteNode := (LiteNode M D).
Implicit Types n : LiteNode.

Definition access (id : Z) n : option IfacConfig := m_ifac id (ln_config n) (ln_interfaces n).

Lemma clear_packet_reads frame id n c :
  clear_packet frame id n = Ok (Some c) ↔ reads (access id n) frame c.
Proof.
  unfold clear_packet, reads, access. destruct (m_ifac _ _ _) as [i|].
  - destruct (ifac_verify_into _ _ _ _) as [[[]|e|] p]; split; try done;
      try (by intros (? & [=] & _)).
    + intros [= <-]. by exists p.
    + by intros (q & [= <-] & ->).
  - destruct (has_ifac_flag frame); split; try done; [by intros []|by intros [= ->]|by intros [_ ->]].
Qed.

(** What is sent on a segment is read at its other end. *)
Lemma wrap_reads id h p packet wire n :
  node_ok n → wf_header h → header_size h + length p ≤ MTU → PacketBuffer.as_slice packet = packet_of h p →
  wrap id packet n = Some wire → reads (access id n) (PacketBuffer.as_slice wire) (packet_of h p).
Proof.
  intros Hok Hwf Hlen Hc. unfold wrap, reads, access. rewrite Hc.
  pose proof (packet_has_no_flag h p) as [Hflag Hb]. pose proof (length_header_bytes h Hwf) as Hh.
  pose proof (header_size_pos h) as Hpos. assert (Hl : length (packet_of h p) = header_size h + length p)
    by (rewrite length_app; lia).
  destruct (m_ifac _ _ _) as [i|] eqn:Hi.
  - apply (no_ifac n Hok) in Hi. destruct (ifac_sign_into _ _ _ _) as [[[]|e|] w] eqn:Hs; [|done..]. intros [= <-].
    assert (Hsize : ∃ s, ifac_size i = Z.of_nat s ∧ 1 ≤ s ≤ SIGNATURE_LENGTH).
    { unfold ifac_sign_into in Hs. destruct (validate_size (ifac_size i)) as [s|e|] eqn:Hv; [|done..].
      unfold validate_size in Hv. destruct ((_ =? 0)%Z || _) eqn:Hz; [done|]. bool_hyps.
      exists (Z.to_nat (ifac_size i)). unfold is_byte in Hi. lia. }
    destruct Hsize as (s & Hse & Hs64). rewrite Hse in *.
    destruct (ifac_roundtrip (packet_of h p) (ifac_key i) s (PacketBuffer.new WIRE_MTU_MAX) (PacketBuffer.new MTU))
      as (f & plain & Hf & _ & _ & Hv & Hpl); try done; [lia|apply PacketBuffer.wf_new..|].
    rewrite Hs in Hf. injection Hf as ->. by exists plain.
  - destruct (PacketBuffer.extend_ok WIRE_MTU_MAX (PacketBuffer.new WIRE_MTU_MAX) (packet_of h p)) as (b & Hext & _ & _ & Hsl);
      [apply PacketBuffer.wf_new|cbn [pb_len PacketBuffer.new]; unfold WIRE_MTU_MAX in *; lia|].
    rewrite Hext. intros [= <-]. rewrite Hsl, PacketBuffer.as_slice_new. done.
Qed.

End ends.

(** ** Frames through a node *)

Section relays.
Context `{SHA : Sha256} `{HKDF : HkdfSha256} `{ED : Ed25519} `{HL : ModelLaws M D}.
Abbreviation LiteNode := (LiteNode M D).
Implicit Types n : LiteNode.

Record relay := {
  rl_node : LiteNode;
  rl_meta : RxMeta;
  rl_time : Z;
  rl_after : LiteNode;
  rl_out : Z
}.
Implicit Types r : relay.

Definition rl_in r : Z := rx_interface_id (rl_meta r).

(** The frame queued last, and its interface. *)
Definition emitted n : option (Z * list Z) :=
  (λ q, (of_interface_id (qo_frame q), PacketBuffer.as_slice (of_packet (qo_frame q)))) <$> last (frames n).

(** The frame is ingested with this action, and what the node queues for it goes
    to the interface as the other frame. *)
Definition passes (action : IngestAction) (frame : list Z) r (frame' : list Z) : Prop :=
  ingest frame (rl_meta r) (rl_time r) (rl_node r) = (Ok action, rl_after r) ∧
  emitted (rl_after r) = Some (rl_out r, frame').

Inductive carried (action : IngestAction) : list Z → list relay → list Z → Prop :=
| carried_none frame : carried action frame [] frame
| carried_on frame r frame' rs final :
    passes action frame r frame' → carried action frame' rs final → carried action frame (r :: rs) final.

(** The segments from one access code to another. *)
Fixpoint segments (code : option IfacConfig) (rs : list relay) (code' : option IfacConfig) : Prop :=
  match rs with
  | [] => code' = code
  | r :: rs => access (rl_in r) (rl_node r) = code ∧ segments (access (rl_out r) (rl_node r)) rs code'
  end.

(** Next hops are identifiers of sixteen bytes. *)
Definition relay_ok r : Prop :=
  node_ok (rl_node r) ∧
  ∀ e x, stored (ln_paths (rl_node r)) e → pe_next_hop e = Some x → length x = TRANSPORT_ID_LENGTH.

(** A hop is counted unless the frame comes from a local client. *)
Definition counted (meta : RxMeta) (now : Z) n : Z :=
  if is_local_client_interface (rx_interface_id meta) (begin_ingest meta now n) then 0 else 1.

Definition rl_counted r : Z := counted (rl_meta r) (rl_time r) (rl_node r).

Definition sum_counted (rs : list relay) : Z := foldr (λ r s, (rl_counted r + s)%Z) 0%Z rs.

(** What an admitted frame is handled in: only the clock, the queue, the
    discoveries and the duplicates differ. *)
Record prepared n n1 : Prop := {
  pp_ok : node_ok n → node_ok n1;
  pp_paths : ln_paths n1 = ln_paths n;
  pp_reverse : ln_reverse n1 = ln_reverse n;
  pp_access : ∀ id, access id n1 = access id n
}.

Lemma queues_access n n' id : queues n n' → access id n' = access id n.
Proof. intros (q & i & m & s & -> & Hm). unfold access. cbn. apply (si_ifac _ _ Hm). Qed.

Lemma prepared_begin meta now n : node_ok n → prepared n (begin_ingest meta now n).
Proof.
  intros Hok. destruct (begin_undisturbed meta now n Hok). split; try done.
  - intros _. eapply run_ok; [done|]. apply (run_begin_ingest (λ _, True) (λ _, True)).
  - intros id. unfold begin_ingest. cbv zeta. rewrite (queues_access _ _ id (expire_queues _ _)).
    unfold access. case_if; cbn; apply law_ifac_observe.
Qed.

Lemma prepared_suppress raw h link now n :
  prepared n (snd (suppress_duplicate raw h link now (count TransportStats.count_accepted n))).
Proof.
  set (n1 := count _ n). pose proof (run_suppress (λ _, True) (λ _, True) raw h link now n1) as Hr.
  split.
  - intros Hok. eapply run_ok; [|exact Hr]. eapply run_ok; [exact Hok|]. apply (run_count (λ _, True) (λ _, True)).
  - unfold suppress_duplicate. repeat (case_match || case_if); by simplify_eq.
  - unfold suppress_duplicate. repeat (case_match || case_if); by simplify_eq.
  - intros id. unfold suppress_duplicate. repeat (case_match || case_if); by simplify_eq.
Qed.

Lemma prepared_trans n1 n2 n3 : prepared n1 n2 → prepared n2 n3 → prepared n1 n3.
Proof. intros [H1 H2 H3 H4] [K1 K2 K3 K4]. split; [auto|congruence..|]. intros id. by rewrite K4. Qed.

End relays.

(** ** Ingestion *)

Section ingesting.
Context `{SHA : Sha256} `{HKDF : HkdfSha256} `{ED : Ed25519} `{HL : ModelLaws M D}.
Abbreviation LiteNode := (LiteNode M D).
Implicit Types n : LiteNode.

Lemma suppress_interfaces raw h link now n :
  ln_interfaces (snd (suppress_duplicate raw h link now n)) = ln_interfaces n.
Proof. unfold suppress_duplicate. repeat (case_match || case_if); by simplify_eq. Qed.

(** A frame that is neither dropped nor kept for the PLAIN sink: what it
    carries, and who handles it. *)
Lemma ingest_inner_inv frame meta now link endpoint n action n' e :
  node_ok n → ingest_inner frame meta now link endpoint n = (Ok action, n', e) →
  action ≠ IngestAction.Dropped → action ≠ IngestAction.Duplicate → action ≠ IngestAction.LocalPlain →
  ∃ clear view n1, prepared n n1 ∧ reads (access (rx_interface_id meta) n) frame clear ∧
    parse_view clear = Ok view ∧ (hops (pv_header view) < PATHFINDER_M)%Z ∧
    let h := received_header (pv_header view) (rx_interface_id meta) (begin_ingest meta now n) in
    (for_local h n1 = true ∧ capture_endpoint clear (hops h) endpoint = (Ok action, e)) ∨
    ∃ meta' result n2, rx_interface_id meta' = rx_interface_id meta ∧
      dispatch clear view h meta' now n1 = (result, n2) ∧ conclude clear h endpoint result n2 = (Ok action, n', e).
Proof.
  intros Hok Hin Hd Hdup Hpl. unfold ingest_inner in Hin. cbv zeta in Hin.
  pose proof (prepared_begin meta now n Hok) as Hbegin. set (n0 := begin_ingest meta now n) in *.
  pose proof (router_ingress_spec (rx_interface_id meta) (length frame) n0) as Hri.
  destruct (router_ingress _ _ _) as [[[]|err|] n1]; [destruct Hri as [-> _]|by simplify_eq..].
  rewrite registered_interface in Hin.
  replace (clear_packet frame (rx_interface_id meta) n0) with (clear_packet frame (rx_interface_id meta) n) in Hin
    by (symmetry; apply begin_ingest_clear).
  destruct (clear_packet frame _ n) as [[clear|]|[]|] eqn:Hc; [|by simplify_eq..].
  apply clear_packet_reads in Hc. unfold ingest_packet in Hin. case_if; [by simplify_eq|].
  destruct (parse_view clear) as [view|err|] eqn:Hp; cbn [omap_err obind] in Hin; [|by simplify_eq..].
  destruct (check_link_request _ _ _) as [[]|err|]; cbn [obind] in Hin; [|by simplify_eq..].
  destruct (for_plain_sink _ _).
  { case_if; [by simplify_eq|]. unfold capture_plain in Hin.
    repeat (case_match || case_if); by simplify_eq. }
  unfold process in Hin. cbv zeta in Hin. destruct (filtered _ _) eqn:Hf; [by simplify_eq|].
  assert (Hhops : (hops (pv_header view) < PATHFINDER_M)%Z).
  { unfold filtered in Hf. bool_hyps. lia. }
  pose proof (prepared_suppress clear (pv_header view) link now n0) as Hsup.
  pose proof (suppress_interfaces clear (pv_header view) link now (count TransportStats.count_accepted n0)) as Hif.
  destruct (suppress_duplicate _ _ _ _ _) as [[] n1]; cbn [snd] in *; [by simplify_eq|].
  rewrite registered_interface in Hin.
  rewrite (received_ext _ _ n0 n1) in Hin by (by rewrite Hif).
  exists clear, view, n1. split; [by eapply prepared_trans|]. split; [done|]. split; [done|]. split; [done|].
  cbv zeta. destruct (for_local _ _) eqn:Hl.
  - left. split; [done|]. destruct (capture_endpoint _ _ _). by simplify_eq.
  - right. destruct (dispatch _ _ _ _ _ _) as [result n2] eqn:Hdis. exists (registered_mode meta n0), result, n2.
    split; [apply registered_interface|]. by split.
Qed.

(** A forwarded frame was handed to the handler of its packet. *)
Lemma ingest_forwarded frame meta now n action n' :
  node_ok n → ingest frame meta now n = (Ok action, n') →
  action = IngestAction.ForwardedTransport ∨ action = IngestAction.ForwardedProof →
  ∃ clear view n1 meta', prepared n n1 ∧ reads (access (rx_interface_id meta) n) frame clear ∧
    parse_view clear = Ok view ∧ (hops (pv_header view) < PATHFINDER_M)%Z ∧
    rx_interface_id meta' = rx_interface_id meta ∧
    dispatch clear view (received_header (pv_header view) (rx_interface_id meta) (begin_ingest meta now n))
      meta' now n1 = (Ok action, n').
Proof.
  intros Hok Hin Ha. unfold ingest, ingest_with_local_link in Hin.
  destruct (ingest_inner _ _ _ _ _ _) as [[r m] e] eqn:Hi. injection Hin as -> ->.
  destruct (ingest_inner_inv _ _ _ _ _ _ _ _ _ Hok Hi) as (clear & view & n1 & H1 & H2 & H3 & H4 & H5);
    [by destruct Ha as [-> | ->]..|].
  exists clear, view, n1. destruct H5 as [[_ H5]|(meta' & result & n2 & H5 & H6 & H7)].
  { cbn in H5. by destruct Ha as [-> | ->]. }
  exists meta'. split_and!; try done. rewrite H6. unfold conclude in H7. cbv zeta in H7.
  destruct Ha as [-> | ->]; repeat (case_match || case_if); simplify_eq; done.
Qed.

(** A header as a node handles it. *)
Lemma received_hops h meta now n :
  (0 ≤ hops h < PATHFINDER_M)%Z →
  hops (received_header h (rx_interface_id meta) (begin_ingest meta now n)) = (hops h + counted meta now n)%Z.
Proof.
  intros Hh. unfold received_header, counted, PATHFINDER_M, sat_add8, sat_sub, u8_max in *. cbn.
  case_if; lia.
Qed.

End ingesting.

(** ** The message *)

(** Data for a single destination. *)
Definition is_message `{SHA : Sha256} (h : PacketHeader) : Prop :=
  packet_type (flags h) = Data ∧ destination_type (flags h) = Single ∧
  Wire.destination_hash h ≠ path_request_destination.

(** A proof of such data. *)
Definition is_receipt (h : PacketHeader) : Prop := packet_type (flags h) = Proof_ ∧ plain_proof h.

(** A packet that can be read back. *)
Definition sound (h : PacketHeader) (p : list Z) : Prop :=
  wf_header h ∧ header_size h + length p ≤ MTU ∧ (0 ≤ hops h)%Z.

#[export] Instance same_origin_preorder : PreOrder same_origin.
Proof.
  split; [done|]. intros h1 h2 h3 (? & ? & ? & ?) (? & ? & ? & ?). unfold same_origin. split_and!; congruence.
Qed.

Lemma same_origin_message `{SHA : Sha256} h h' : same_origin h h' → is_message h → is_message h'.
Proof. intros (? & ? & ? & _) (? & ? & ?). unfold is_message. split_and!; congruence. Qed.

Lemma same_origin_receipt h h' : same_origin h h' → is_receipt h → is_receipt h'.
Proof. intros (? & ? & ? & ?) (? & ? & ?). unfold is_receipt, plain_proof. split_and!; congruence. Qed.

Lemma same_origin_hash `{SHA : Sha256} h h' p :
  wf_header h → wf_header h' → same_origin h h' →
  packet_hash (packet_of h' p) (header_type (flags h')) = packet_hash (packet_of h p) (header_type (flags h)).
Proof.
  intros Hw Hw' (Hd & Ht & Hdest & Hc). rewrite !packet_hash_format, !pack_low_nibble by done.
  by rewrite Hd, Ht, Hdest, Hc.
Qed.

(** Changing the hop count of a packet. *)
Lemma insert_hops h p k : <[1 := k]> (packet_of h p) = packet_of (with_hops k h) p.
Proof. done. Qed.

Lemma sound_with_hops h p k : sound h p → (0 ≤ k)%Z → sound (with_hops k h) p ∧ same_origin h (with_hops k h).
Proof. by intros (? & ? & ?) ?. Qed.

Lemma parse_built h p : sound h p → ∃ raw off, parse_view (packet_of h p)
  = Ok {| pv_header := h; pv_payload := p; pv_raw := raw; payload_offset := off |}.
Proof. intros (Hw & Hl & _). rewrite parse_view_header_bytes by done. eauto. Qed.

Section forwarding.
Context `{SHA : Sha256} `{HKDF : HkdfSha256} `{ED : Ed25519} `{HL : ModelLaws M D}.
Abbreviation LiteNode := (LiteNode M D).
Implicit Types n : LiteNode.

Lemma copied h p k packet :
  sound h p → copy_for_forward (packet_of h p) k = Ok packet →
  PacketBuffer.as_slice packet = packet_of (with_hops k h) p.
Proof.
  intros (Hw & Hl & _) Hc. destruct (copy_ok (packet_of h p) k) as (b & Hb & Hs).
  { rewrite length_app, length_header_bytes by done. lia. }
  rewrite Hc in Hb. injection Hb as <-. rewrite Hs.
  rewrite (proj2 (Nat.ltb_lt _ _)); [done|]. cbn. lia.
Qed.

Lemma rewritten h p h' packet :
  sound h p → wf_header h' → (0 ≤ hops h')%Z → rewrite_with_header (packet_of h p) h h' = Ok packet →
  sound h' p ∧ PacketBuffer.as_slice packet = packet_of h' p.
Proof.
  intros Hs Hw' Hh' Hr. destruct (parse_built h p Hs) as (raw & off & Hp).
  pose proof (rewrite_with_header_inv _ _ _ _ Hp Hr) as Hc. cbn [pv_payload] in Hc. split; [|done].
  split; [done|]. split; [|done]. unfold rewrite_with_header in Hr. case_if; [done|]. obind_inv.
  apply build_packet_inv in Hr as [Hle Hs'].
  rewrite Hc in Hs'. apply app_inv_head in Hs' as <-. by rewrite length_header_bytes in Hle.
Qed.

(** The packet a transport node sends on is the packet it got, for the next hop. *)
Lemma forwarded_packet h p k now n target packet :
  sound h p → (0 ≤ k)%Z →
  (∀ e x, stored (ln_paths n) e → pe_next_hop e = Some x → length x = TRANSPORT_ID_LENGTH) →
  rewrite_forwarded_transport_packet (packet_of h p) h (with_hops k h) now n = Ok (Some (target, packet)) →
  ∃ h', sound h' p ∧ same_origin h h' ∧ hops h' = k ∧ PacketBuffer.as_slice packet = packet_of h' p.
Proof.
  intros Hs Hk Hnext. unfold rewrite_forwarded_transport_packet.
  destruct (PathTable.get_live _ _ _) as [path|] eqn:Hl; [|done]. apply live_stored in Hl.
  destruct Hs as (Hw & Hlen & Hh). destruct (Hw) as (Hd & Hc & _). destruct (pe_hops path ?= 1)%Z.
  - destruct (rewrite_with_header _ _ _) as [b|e|] eqn:Hr; cbn [omap_err obind]; [|done..]. intros [= <- <-].
    apply rewritten in Hr as [Hs' Hb]; try done. by eexists.
  - destruct (copy_for_forward _ _) as [b|e|] eqn:Hr; cbn [obind]; [|done..]. intros [= <- <-].
    apply copied in Hr; [|done]. by eexists (with_hops k h).
  - destruct (pe_next_hop path) as [next|] eqn:Hn; [|done].
    destruct (rewrite_with_header _ _ _) as [b|e|] eqn:Hr; cbn [omap_err obind]; [|done..]. intros [= <- <-].
    apply rewritten in Hr as [Hs' Hb]; try done; [by eexists|].
    split; [done|]. split; [done|]. split; [done|]. by apply (Hnext path).
Qed.

Lemma sent_emitted id packet reason lifetime n n' :
  sent id packet reason lifetime n n' →
  ∃ wire, wrap id packet n = Some wire ∧ emitted n' = Some (id, PacketBuffer.as_slice wire).
Proof.
  intros (wire & kept & Hw & _ & Hf). exists wire. split; [done|]. unfold emitted. by rewrite Hf, last_snoc.
Qed.
End forwarding.

(** ** Through one relay *)

Section one_relay.
Context `{SHA : Sha256} `{HKDF : HkdfSha256} `{ED : Ed25519} `{HL : ModelLaws M D}.
Implicit Types r : relay (M := M) (D := D).

(** The relay expects a proof under this hash where it sent the packet, to return
    it where the packet came from. *)
Definition expects (k : list Z) r : Prop :=
  ∀ t, (t < sat_add64 (rl_time r) (REVERSE_TIMEOUT_SECS * 1000))%Z →
  ReverseTable.get k t (ln_reverse (rl_after r))
    = Some {| re_proof_hash := k; re_receiving_interface := rl_in r; re_outbound_interface := rl_out r;
              re_expires_ms := sat_add64 (rl_time r) (REVERSE_TIMEOUT_SECS * 1000) |}.

(** What a packet is to a relay that forwards it. *)
Lemma relay_dispatches action frame r frame' h p :
  node_ok (rl_node r) → passes action frame r frame' →
  action = IngestAction.ForwardedTransport ∨ action = IngestAction.ForwardedProof →
  reads (access (rl_in r) (rl_node r)) frame (packet_of h p) → sound h p →
  ∃ view n1 meta, prepared (rl_node r) n1 ∧ rx_interface_id meta = rl_in r ∧ pv_header view = h ∧
    (0 ≤ hops h + rl_counted r)%Z ∧
    dispatch (packet_of h p) view (with_hops (hops h + rl_counted r) h) meta (rl_time r) n1
      = (Ok action, rl_after r).
Proof.
  intros Hok [Hin _] Ha Hr Hs.
  destruct (ingest_forwarded _ _ _ _ _ _ Hok Hin Ha) as (c & view & n1 & meta & Hp & Hc & Hv & Hh & Hm & Hd).
  assert (c = packet_of h p) as -> by (by eapply reads_functional).
  destruct (parse_built h p Hs) as (raw & off & Hv'). rewrite Hv in Hv'. injection Hv' as ->. cbn [pv_header] in *.
  pose proof (received_hops h (rl_meta r) (rl_time r) (rl_node r)) as Hhops. destruct Hs as (_ & _ & H0).
  fold (rl_counted r) in Hhops. exists {| pv_header := h; pv_payload := p; pv_raw := raw; payload_offset := off |}, n1, meta. split; [done|]. split; [done|]. split; [reflexivity|]. split.
  - unfold rl_counted, counted. case_if; lia.
  - rewrite <- Hhops by done. exact Hd.
Qed.

Lemma relay_message frame r frame' h p :
  relay_ok r → passes IngestAction.ForwardedTransport frame r frame' →
  reads (access (rl_in r) (rl_node r)) frame (packet_of h p) → sound h p → is_message h →
  ∃ h', sound h' p ∧ same_origin h h' ∧ hops h' = (hops h + rl_counted r)%Z ∧
    reads (access (rl_out r) (rl_node r)) frame' (packet_of h' p) ∧
    expects (truncated_packet_hash (packet_of h p) (header_type (flags h))) r.
Proof.
  intros [Hok Hnext] Hpass Hr Hs (Ht & Hdt & Hdest).
  destruct (relay_dispatches _ _ _ _ _ _ Hok Hpass (or_introl eq_refl) Hr Hs) as (view & n1 & meta & Hp & Hm & Hv & Hk & Hd).
  unfold dispatch in Hd. change (flags (with_hops _ h)) with (flags h) in Hd. rewrite Ht in Hd.
  unfold handle_data, route_link_packet in Hd. change (flags (with_hops _ h)) with (flags h) in Hd.
  rewrite Hdt, (bool_decide_eq_false_2 (Single = Link)), orb_true_r in Hd by done. cbn [orb] in Hd.
  change (Wire.destination_hash (with_hops _ h)) with (Wire.destination_hash h) in Hd.
  rewrite bool_decide_eq_false_2 in Hd by done. rewrite bool_decide_eq_false_2 in Hd by done. cbn [andb] in Hd.
  rewrite Hv in Hd. pose proof (pp_ok _ _ Hp Hok) as Hok1.
  destruct (forward_keeps _ _ _ _ _ _ _ Hok1 Hd) as (target & packet & g & _ & _ & Hrw & Hsent & Hrok & Hb).
  apply forwarded_packet in Hrw as (h' & Hs' & Hso & Hh' & Hc); [|done|done|by rewrite (pp_paths _ _ Hp)].
  destruct (sent_emitted _ _ _ _ _ _ Hsent) as (wire & Hw & He). destruct Hpass as [_ Hem].
  rewrite He in Hem. injection Hem as -> <-. exists h'. split; [done|]. split; [done|]. split; [done|].
  split; [rewrite <- (pp_access _ _ Hp); eapply wrap_reads; [done|apply Hs'..|done|done]|].
  intros t Hlt. apply ReverseTable.rev_get_Some; [done|]. split; [done|]. split; [done|]. exists g.
  by rewrite <- Hm.
Qed.

(** A proof visits a relay that has forwarded the packet: where the packet left,
    within thirty seconds, and while the relay still keeps what it recorded. *)
Record returns (k : list Z) r b : Prop := {
  rt_ok : node_ok (rl_node b);
  rt_access : ∀ id, access id (rl_node b) = access id (rl_node r);
  rt_interface : rl_in b = rl_out r;
  rt_time : (rl_time b < sat_add64 (rl_time r) (REVERSE_TIMEOUT_SECS * 1000))%Z;
  rt_kept : ReverseTable.get k (rl_time b) (ln_reverse (rl_node b))
    = ReverseTable.get k (rl_time b) (ln_reverse (rl_after r))
}.

(** A proof the relay expects, back through it. *)
Lemma relay_receipt k r frame b frame' h p :
  returns k r b → expects k r → passes IngestAction.ForwardedProof frame b frame' →
  reads (access (rl_in b) (rl_node b)) frame (packet_of h p) → sound h p → is_receipt h →
  Wire.destination_hash h = k →
  rl_out b = rl_in r ∧
  ∃ h', sound h' p ∧ same_origin h h' ∧ hops h' = (hops h + rl_counted b)%Z ∧
    reads (access (rl_in r) (rl_node r)) frame' (packet_of h' p).
Proof.
  intros [Hok Hacc Hif Htime Hkept] Hex Hpass Hr Hs [Ht Hplain] Hdest.
  destruct (relay_dispatches _ _ _ _ _ _ Hok Hpass (or_intror eq_refl) Hr Hs) as (view & n1 & meta & Hp & Hm & Hv & Hk & Hd).
  unfold dispatch in Hd. change (flags (with_hops _ h)) with (flags h) in Hd. rewrite Ht in Hd.
  rewrite handle_plain_proof in Hd by done. specialize (Hex _ Htime).
  rewrite <- Hkept, <- (pp_reverse _ _ Hp), <- Hdest, <- Hif in Hex.
  destruct (Hs) as (Hw & Hlen & _).
  pose proof (reverse_proof_spec (packet_of h p) (with_hops (hops h + rl_counted b) h) (rx_interface_id meta)
    (rl_time b) n1 _ (pp_ok _ _ Hp Hok) Hex (eq_sym Hm)) as Hrp. rewrite Hd in Hrp.
  destruct Hrp as [(_ & _ & packet & lifetime & Hcopy & Hsent & _)|([=] & _)].
  { rewrite length_app, length_header_bytes by done. lia. }
  apply copied in Hcopy; [|done]. cbn [re_receiving_interface] in Hsent.
  destruct (sent_emitted _ _ _ _ _ _ Hsent) as (wire & Hwire & He). destruct Hpass as [_ Hem].
  rewrite He in Hem. injection Hem as <- <-. split; [done|].
  destruct (sound_with_hops h p (hops h + rl_counted b) Hs Hk) as [Hs' Hso].
  eexists. split; [exact Hs'|]. split; [exact Hso|]. split; [done|].
  rewrite <- Hacc, <- (pp_access _ _ Hp). eapply wrap_reads; [by apply (pp_ok _ _ Hp)|apply Hs'..|done|done].
Qed.
End one_relay.

(** ** Along the chain *)

Section chain.
Context `{SHA : Sha256} `{HKDF : HkdfSha256} `{ED : Ed25519} `{HL : ModelLaws M D}.
Implicit Types r b : relay (M := M) (D := D).

Lemma sum_counted_cons r rs : sum_counted (r :: rs) = (rl_counted r + sum_counted rs)%Z.
Proof. done. Qed.

Lemma carried_message frame rs final :
  carried IngestAction.ForwardedTransport frame rs final → ∀ code code' h p,
  Forall relay_ok rs → segments code rs code' → reads code frame (packet_of h p) → sound h p → is_message h →
  ∃ h', sound h' p ∧ same_origin h h' ∧ hops h' = (hops h + sum_counted rs)%Z ∧
    reads code' final (packet_of h' p) ∧
    Forall (expects (truncated_packet_hash (packet_of h p) (header_type (flags h)))) rs.
Proof.
  induction 1 as [frame|frame r frame' rs final Hpass _ IH]; intros code code' h p Hrs Hseg Hr Hs Hm.
  { cbn in Hseg. subst code'. exists h. split; [done|]. split; [done|]. split; [cbn; lia|]. split; [done|constructor]. }
  apply Forall_cons in Hrs as [Hrok Hrs]. destruct Hseg as [<- Hseg].
  destruct (relay_message _ _ _ _ _ Hrok Hpass Hr Hs Hm) as (h1 & Hs1 & Ho1 & Hh1 & Hr1 & Hex).
  destruct (IH _ _ _ _ Hrs Hseg Hr1 Hs1 (same_origin_message _ _ Ho1 Hm)) as (h2 & Hs2 & Ho2 & Hh2 & Hr2 & Hall).
  exists h2. split; [done|]. split; [by etrans|]. split; [rewrite sum_counted_cons; lia|]. split; [done|].
  constructor; [done|].
  assert (Hk : truncated_packet_hash (packet_of h1 p) (header_type (flags h1))
    = truncated_packet_hash (packet_of h p) (header_type (flags h)))
    by (unfold truncated_packet_hash; f_equal; apply same_origin_hash; [apply Hs|apply Hs1|done]).
  by rewrite Hk in Hall.
Qed.

(** The segments in the other direction. *)
Fixpoint back_segments (code : option IfacConfig) (rs : list relay) (code' : option IfacConfig) : Prop :=
  match rs with
  | [] => code' = code
  | r :: rs => access (rl_out r) (rl_node r) = code ∧ back_segments (access (rl_in r) (rl_node r)) rs code'
  end.

Lemma back_segments_app rs rs' code code' :
  back_segments code (rs ++ rs') code' ↔ ∃ c, back_segments code rs c ∧ back_segments c rs' code'.
Proof.
  revert code. induction rs as [|r rs IH]; intros code; cbn.
  - split; [intros Hb; by exists code|]. by intros (c & -> & Hb).
  - rewrite IH. split; [intros (H1 & c & H2 & H3); by exists c|]. intros (c & [H1 H2] & H3). split; [done|by exists c].
Qed.

Lemma segments_back rs code code' : segments code rs code' → back_segments code' (reverse rs) code.
Proof.
  revert code. induction rs as [|r rs IH]; intros code; [done|]. intros [<- Hrest].
  rewrite reverse_cons. apply back_segments_app. eexists. split; [by apply IH|done].
Qed.

Lemma carried_receipt k frame bs final :
  carried IngestAction.ForwardedProof frame bs final → ∀ rs code code' h p,
  Forall2 (returns k) rs bs → Forall (expects k) rs → back_segments code rs code' →
  reads code frame (packet_of h p) → sound h p → is_receipt h → Wire.destination_hash h = k →
  Forall2 (λ r b, rl_out b = rl_in r) rs bs ∧
  ∃ h', sound h' p ∧ same_origin h h' ∧ hops h' = (hops h + sum_counted bs)%Z ∧ reads code' final (packet_of h' p).
Proof.
  induction 1 as [frame|frame b frame' bs final Hpass _ IH]; intros rs code code' h p Hret Hfw Hseg Hr Hs Hp Hk.
  { apply Forall2_nil_inv_r in Hret as ->. cbn in Hseg. subst code'. split; [done|].
    exists h. split; [done|]. split; [done|]. split; [cbn; lia|done]. }
  apply Forall2_cons_inv_r in Hret as (r & rs' & Hrb & Hret & ->). apply Forall_cons in Hfw as [Hex Hfw].
  destruct Hseg as [<- Hseg].
  destruct (relay_receipt k r frame b frame' h p) as (Hout & h1 & Hs1 & Ho1 & Hh1 & Hr1); try done.
  { by rewrite (rt_interface _ _ _ Hrb), (rt_access _ _ _ Hrb). }
  destruct (IH rs' (access (rl_in r) (rl_node r)) code' h1 p Hret Hfw Hseg) as (Hall & h2 & Hs2 & Ho2 & Hh2 & Hr2); try done.
  { by eapply same_origin_receipt. }
  { destruct Ho1 as (_ & _ & <- & _). done. }
  split; [by constructor|]. exists h2. split; [done|]. split; [by etrans|]. split; [rewrite sum_counted_cons; lia|done].
Qed.

(** A packet captured for the local endpoint. *)
Lemma captured frame meta now n buf n' e h p :
  node_ok n → PacketBuffer.wf MTU buf → reads (access (rx_interface_id meta) n) frame (packet_of h p) → sound h p →
  ingest_endpoint frame meta now buf n = (Ok IngestAction.LocalEndpoint, n', Some e) →
  sound (with_hops (hops h + counted meta now n) h) p ∧
  PacketBuffer.as_slice e = packet_of (with_hops (hops h + counted meta now n) h) p.
Proof.
  intros Hok Hbuf Hr Hs Hin.
  destruct (ingest_inner_inv _ _ _ _ _ _ _ _ _ Hok Hin) as (c & view & n1 & _ & Hc & Hv & Hh & Hcase); try done.
  assert (c = packet_of h p) as -> by (by eapply reads_functional).
  destruct (parse_built h p Hs) as (raw & off & Hv'). rewrite Hv in Hv'. injection Hv' as ->. cbn [pv_header] in *.
  destruct (Hs) as (Hw & Hlen & H0). cbv zeta in Hcase.
  rewrite received_hops in Hcase by done.
  assert (Hcap : capture_endpoint (packet_of h p) (hops h + counted meta now n) (Some buf)
    = (Ok IngestAction.LocalEndpoint, Some e)).
  { destruct Hcase as [[_ Hcap]|(meta' & result & n2 & _ & _ & Hcon)]; [exact Hcap|].
    unfold conclude in Hcon. cbv zeta in Hcon. rewrite received_hops in Hcon by done.
    destruct result as [[]|[]|]; try done; repeat (case_match || case_if); simplify_eq; done. }
  split; [apply sound_with_hops; [done|unfold counted; case_if; lia]|].
  unfold capture_endpoint in Hcap.
  destruct (PacketBuffer.extend_ok MTU (PacketBuffer.clear buf) (packet_of h p)) as (b & Hext & Hwf & Hbl & Hsl);
    [by apply PacketBuffer.wf_clear|cbn [PacketBuffer.clear pb_len]; rewrite length_app, length_header_bytes by done; lia|].
  rewrite Hext in Hcap. assert (Hcl : PacketBuffer.as_slice (PacketBuffer.clear buf) = []) by done.
  rewrite Hcl in Hsl. cbn [app] in Hsl. rewrite Hsl in Hcap. rewrite store_Ok in Hcap by (cbn; lia).
  injection Hcap as <-. apply (PacketBuffer.write_slice_content MTU b); [done|].
  by rewrite <- (PacketBuffer.length_as_slice MTU b Hwf), Hsl.
Qed.
End chain.

Lemma built_sound h p packet :
  wf_header h → (0 ≤ hops h)%Z → build_packet h p = Ok packet →
  sound h p ∧ PacketBuffer.as_slice packet = packet_of h p.
Proof.
  intros Hw Hh Hb. apply build_packet_inv in Hb as [Hl Hs]. rewrite length_header_bytes in Hl by done. done.
Qed.

Lemma length_packet_hash `{SHA : Sha256} raw ht : length (packet_hash raw ht) = PACKET_HASH_LENGTH.
Proof. unfold packet_hash. destruct raw; [apply length_replicate|apply sha256_length]. Qed.

(** C4: A message and its receipt. A data packet is sent towards a destination
    and forwarded by any number of transport nodes, over segments with or without
    access codes, until the destination's node hands it to its host. Then the
    host has the payload that was sent, the hop count has grown by the hops that
    count, and the packet hash is the sender's. If the destination answers with
    a proof of that hash and every node on the way back forwards it, each within
    thirty seconds, from the interface it sent the packet to, and before it has
    lost its record of the packet, then each queues it for the interface the
    packet came from, and what reaches the sender is a receipt it accepts for
    the packet it sent. *)
Theorem message_and_receipt `{SHA : Sha256} `{HKDF : HkdfSha256} `{ED : Ed25519} `{X : X25519}
    `{HL : ModelLaws M D} `{HL' : ModelLaws M' D'}
    (origin : LiteNode M' D') oi h0 p packet wire (rs : list (relay (M := M) (D := D))) final
    (destination : LiteNode M' D') meta now buf destination' e :
  node_ok origin → wf_header h0 → (0 ≤ hops h0)%Z → is_message h0 →
  build_packet h0 p = Ok packet → wrap oi packet origin = Some wire →
  Forall relay_ok rs → segments (access oi origin) rs (access (rx_interface_id meta) destination) →
  carried IngestAction.ForwardedTransport (PacketBuffer.as_slice wire) rs final →
  node_ok destination → PacketBuffer.wf MTU buf →
  ingest_endpoint final meta now buf destination = (Ok IngestAction.LocalEndpoint, destination', Some e) →
  let hash := packet_hash (PacketBuffer.as_slice packet) (header_type (flags h0)) in
  ∃ view, parse_view (PacketBuffer.as_slice e) = Ok view ∧ pv_payload view = p ∧
    same_origin h0 (pv_header view) ∧
    hops (pv_header view) = (hops h0 + sum_counted rs + counted meta now destination)%Z ∧
    packet_hash (PacketBuffer.as_slice e) (header_type (flags (pv_header view))) = hash ∧
    ∀ k implicit out m out' hp receipt (sender : LiteNode M' D') wire' bs back,
      build_proof (from_private_key k)
        (packet_hash (PacketBuffer.as_slice e) (header_type (flags (pv_header view)))) implicit out = (Ok m, out') →
      wf_header hp → (0 ≤ hops hp)%Z → is_receipt hp →
      Wire.destination_hash hp
        = truncated_packet_hash (PacketBuffer.as_slice e) (header_type (flags (pv_header view))) →
      build_packet hp (take m out') = Ok receipt →
      node_ok sender → access (rx_interface_id meta) sender = access (rx_interface_id meta) destination →
      wrap (rx_interface_id meta) receipt sender = Some wire' →
      Forall2 (returns (take TRANSPORT_ID_LENGTH hash)) (reverse rs) bs →
      carried IngestAction.ForwardedProof (PacketBuffer.as_slice wire') bs back →
      Forall2 (λ r b, rl_out b = rl_in r) (reverse rs) bs ∧
      ∃ clear v, clear_packet back oi origin = Ok (Some clear) ∧ parse_view clear = Ok v ∧
        same_origin hp (pv_header v) ∧ hops (pv_header v) = (hops hp + sum_counted bs)%Z ∧
        validate_proof (li_public_key (from_private_key k)) hash (pv_payload v) = true.
Proof.
  intros Hok Hw0 Hh0 Hm Hb Hwrap Hrs Hseg Hcar Hokd Hbuf Hin hash.
  destruct (built_sound _ _ _ Hw0 Hh0 Hb) as [Hs0 Hc0].
  assert (Hr0 : reads (access oi origin) (PacketBuffer.as_slice wire) (packet_of h0 p))
    by (eapply wrap_reads; [done|apply Hs0..|done|done]).
  destruct (carried_message _ _ _ Hcar _ _ _ _ Hrs Hseg Hr0 Hs0 Hm) as (h1 & Hs1 & Ho1 & Hh1 & Hr1 & Hall).
  destruct (captured _ _ _ _ _ _ _ _ _ Hokd Hbuf Hr1 Hs1 Hin) as [Hs2 He].
  destruct (parse_built _ _ Hs2) as (raw & off & Hv). rewrite He, Hv. eexists. split; [done|]. cbn [pv_payload pv_header].
  set (h2 := with_hops _ h1) in *. assert (Ho2 : same_origin h0 h2) by done.
  assert (Hhash : packet_hash (packet_of h2 p) (header_type (flags h2)) = hash)
    by (unfold hash; rewrite Hc0; apply same_origin_hash; [done|apply Hs2|done]).
  split; [done|]. split; [done|]. split; [cbn; lia|]. split; [done|].
  unfold truncated_packet_hash. rewrite Hhash.
  intros k implicit out m out' hp receipt sender wire' bs back Hproof Hwp Hhp Hrec Hdest Hbp Hoks Hacc Hwrap' Hret Hback.
  destruct (built_sound _ _ _ Hwp Hhp Hbp) as [Hsp Hcp].
  pose proof (built_proof_valid k hash implicit out (length_packet_hash _ _)) as Hval. rewrite Hproof in Hval.
  destruct Hval as (_ & _ & _ & Hval).
  assert (Hrp : reads (access (rx_interface_id meta) destination) (PacketBuffer.as_slice wire') (packet_of hp (take m out')))
    by (rewrite <- Hacc; eapply wrap_reads; [done|apply Hsp..|done|done]).
  rewrite <- Hc0 in Hall.
  destruct (carried_receipt _ _ _ _ Hback _ _ _ _ _ Hret (proj2 (Forall_reverse _ _) Hall) (segments_back _ _ _ Hseg) Hrp Hsp Hrec Hdest)
    as (Hif & h3 & Hs3 & Ho3 & Hh3 & Hr3).
  split; [done|]. destruct (parse_built _ _ Hs3) as (raw' & off' & Hv3).
  eexists _, _. split; [by apply clear_packet_reads|]. split; [exact Hv3|]. split; [done|]. split; [done|exact Hval].
Qed.

(** * Witness *)

Module JourneyExample.
Import NodeExample.
#[local] Existing Instances Toy.sha256 Toy.hkdf Toy.ed25519 Toy.x25519.

(** Two routers between an origin on the radio of the first and a destination on
    the radio of the second; the backbone joins them. *)
Definition tid2 : list Z := replicate 16 2%Z.
Definition far : LiteNode Router Z := RouterHost.new_router_const caps config tid2 registry None.
Definition near_events : list event :=
  [Receive ([81; 1]%Z ++ tid2 ++ destination ++ [0]%Z ++ announce) (RxMeta.new 2) 1000 None None].
Definition far_events : list event := [Receive announce_frame (RxMeta.new 1) 1000 None None].
Definition near1 : LiteNode Router Z := after near_events router.
Definition far1 : LiteNode Router Z := after far_events far.
(** A router that has received a frame. *)
Definition received (frame : list Z) (id now : Z) (n : LiteNode Router Z) : LiteNode Router Z :=
  snd (perform (Receive frame (RxMeta.new id) now None None) n).
Definition sent_by (n : LiteNode Router Z) : list Z := default [] (snd <$> emitted n).

Definition h0 : PacketHeader :=
  {| flags := unpack 80; hops := 0; transport_id := Some tid; Wire.destination_hash := destination;
     context := from_byte 0 |}.
Definition message : list Z := [9; 9]%Z.
Definition frame0 : list Z := Eval vm_compute in header_bytes h0 ++ message.
Definition packet0 : PacketBuffer := match build_packet h0 message with Ok b => b | _ => PacketBuffer.new MTU end.
Definition wire0 : PacketBuffer := default (PacketBuffer.new MTU) (wrap 1 packet0 endpoint).
Definition near2 := received frame0 1 2000 near1.
Definition frame1 : list Z := Eval vm_compute in sent_by near2.
Definition far2 := received frame1 2 2000 far1.
Definition frame2 : list Z := Eval vm_compute in sent_by far2.
Definition owner : LiteNode Endpoint OutboundDelivery := snd (register_local_destination destination endpoint).

(** The proof, and its way back. *)
Definition delivered := ingest_endpoint frame2 (RxMeta.new 1) 2000 (PacketBuffer.new MTU) owner.
Definition captured_packet : list Z := Eval vm_compute in
  PacketBuffer.as_slice (default (PacketBuffer.new MTU) (snd delivered)).
Definition hp : PacketHeader :=
  {| flags := unpack 3; hops := 0; transport_id := None;
     Wire.destination_hash := truncated_packet_hash captured_packet Header1; context := from_byte 0 |}.
Definition proof : list Z := Eval vm_compute in
  take 64 (snd (build_proof identity (packet_hash captured_packet Header1) true (zeros 64))).
Definition frame3 : list Z := Eval vm_compute in header_bytes hp ++ proof.
Definition receipt : PacketBuffer := match build_packet hp proof with Ok b => b | _ => PacketBuffer.new MTU end.
Definition wire3 : PacketBuffer := default (PacketBuffer.new MTU) (wrap 1 receipt owner).
Definition far3 := received frame3 1 (2000 + 500) far2.
Definition frame4 : list Z := Eval vm_compute in sent_by far3.
Definition near3 := received frame4 2 (2000 + 500) near2.
Definition frame5 : list Z := Eval vm_compute in sent_by near3.

Definition there : list (relay (M := Router) (D := Z)) :=
  [{| rl_node := near1; rl_meta := RxMeta.new 1; rl_time := 2000; rl_after := near2; rl_out := 2 |};
   {| rl_node := far1; rl_meta := RxMeta.new 2; rl_time := 2000; rl_after := far2; rl_out := 1 |}].
Definition back : list (relay (M := Router) (D := Z)) :=
  [{| rl_node := far2; rl_meta := RxMeta.new 1; rl_time := 2000 + 500; rl_after := far3; rl_out := 2 |};
   {| rl_node := near2; rl_meta := RxMeta.new 2; rl_time := 2000 + 500; rl_after := near3; rl_out := 1 |}].

Lemma received_ok raw id now : forallb (λ b, (0 <=? b) && (b <? 256))%Z raw = true → (0 <= now <= 1000000)%Z →
  event_ok (Receive raw (RxMeta.new id) now None None).
Proof. intros Hb Hn. split; [by apply bytes_check|]. split; [by apply TraceExample.clock_ok_small|done]. Qed.

Lemma near1_ok : trace_ok near1.
Proof.
  apply after_ok; [apply Forall_singleton, received_ok; [by vm_compute|lia]|].
  apply (new_trace_ok caps config tid registry None); [reflexivity|exact TraceExample.router_registry_bytes|intros m [=]].
Qed.

Lemma far1_ok : trace_ok far1.
Proof.
  apply after_ok; [apply Forall_singleton, received_ok; [by vm_compute|lia]|].
  apply (new_trace_ok caps config tid2 registry None); [reflexivity|exact TraceExample.router_registry_bytes|intros m [=]].
Qed.

Lemma near2_ok : trace_ok near2.
Proof. apply perform_ok; [apply received_ok; [by vm_compute|lia]|exact near1_ok]. Qed.

Lemma far2_ok : trace_ok far2.
Proof. apply perform_ok; [apply received_ok; [by vm_compute|lia]|exact far1_ok]. Qed.

(** All next hops of a table have the length of an identifier. *)
Definition next_hops_typed (t : PathTable) : bool :=
  forallb (λ o, match o with
                | Some e => match pe_next_hop e with Some x => length x =? 16 | None => true end
                | None => true
                end) (gt_entries t).

Lemma relay_ok_check (r : relay (M := Router) (D := Z)) :
  trace_ok (rl_node r) → next_hops_typed (ln_paths (rl_node r)) = true → relay_ok r.
Proof.
  intros Hok Ht. split; [apply Hok|]. intros e x [i Hi] Hx. unfold next_hops_typed in Ht.
  rewrite forallb_forall in Ht. assert (He : In (Some e) (gt_entries (ln_paths (rl_node r))))
    by (apply list_elem_of_In; by eapply list_elem_of_lookup_2).
  specialize (Ht _ He). cbv beta iota in Ht. rewrite Hx in Ht. by apply Nat.eqb_eq.
Qed.

Lemma there_ok : Forall relay_ok there.
Proof.
  repeat (apply Forall_cons; split); [| |by constructor].
  - apply relay_ok_check; [exact near1_ok|by vm_compute].
  - apply relay_ok_check; [exact far1_ok|by vm_compute].
Qed.

Lemma received_passes action frame id now n id' frame' :
  fst (ingest frame (RxMeta.new id) now n) = Ok action →
  emitted (received frame id now n) = Some (id', frame') →
  passes action frame {| rl_node := n; rl_meta := RxMeta.new id; rl_time := now;
    rl_after := received frame id now n; rl_out := id' |} frame'.
Proof.
  intros Ha He. split; [|exact He]. cbn [rl_meta rl_time rl_node rl_after]. unfold received, perform.
  rewrite ended_snd, <- Ha. unfold ingest, ingest_with_local_link. by destruct (fst (ingest_inner _ _ _ _ _ _)).
Qed.

Lemma there_carried : carried IngestAction.ForwardedTransport frame0 there frame2.
Proof.
  eapply carried_on; [apply (received_passes _ frame0 1 2000 near1 2 frame1); vm_compute; reflexivity|].
  eapply carried_on; [apply (received_passes _ frame1 2 2000 far1 1 frame2); vm_compute; reflexivity|]. constructor.
Qed.

Lemma back_carried : carried IngestAction.ForwardedProof frame3 back frame5.
Proof.
  eapply carried_on; [apply (received_passes _ frame3 1 (2000 + 500) far2 2 frame4); vm_compute; reflexivity|].
  eapply carried_on; [apply (received_passes _ frame4 2 (2000 + 500) near2 1 frame5); vm_compute; reflexivity|]. constructor.
Qed.

Lemma owner_ok : node_ok owner.
Proof. destruct endpoint_ok. by split. Qed.

Lemma hp_wf : wf_header hp.
Proof. split; [vm_compute; reflexivity|split; reflexivity]. Qed.

Lemma delivered_local :
  ingest_endpoint frame2 (RxMeta.new 1) 2000 (PacketBuffer.new MTU) owner
  = (Ok IngestAction.LocalEndpoint, snd (fst delivered), Some (default (PacketBuffer.new MTU) (snd delivered))).
Proof. vm_compute. reflexivity. Qed.

Lemma there_segments : segments (access 1 endpoint) there (access 1 owner).
Proof. split; [vm_compute; reflexivity|]. split; vm_compute; reflexivity. Qed.

(** The registry decides a router's access codes. *)
Lemma same_registry_access (n n' : LiteNode Router Z) id :
  r_registry (ln_interfaces n') = r_registry (ln_interfaces n) → access id n' = access id n.
Proof. intros Hr. unfold access. cbn. unfold Router.ifac. by rewrite Hr. Qed.

(** The proof comes back half a second later, before anything else happens. *)
Lemma same_node_returns k (n n' n'' : LiteNode Router Z) id id' id'' now :
  node_ok n' → r_registry (ln_interfaces n') = r_registry (ln_interfaces n) → (0 <= now <= 1000000)%Z →
  returns k {| rl_node := n; rl_meta := RxMeta.new id; rl_time := now; rl_after := n'; rl_out := id' |}
    {| rl_node := n'; rl_meta := RxMeta.new id'; rl_time := now + 500; rl_after := n''; rl_out := id'' |}.
Proof.
  intros Hok Hr Hn. split; cbn [rl_node rl_meta rl_time rl_after rl_out]; [done| |done| |done].
  - intros i. by apply same_registry_access.
  - unfold sat_add64, REVERSE_TIMEOUT_SECS, u64_max. lia.
Qed.

Lemma back_returns : Forall2 (returns (truncated_packet_hash frame0 Header2)) (reverse there) back.
Proof.
  unfold there, back. rewrite !reverse_cons, reverse_nil. cbn [app].
  apply Forall2_cons; split; [|apply Forall2_cons; split; [|constructor]].
  - apply same_node_returns; [exact (tr_node _ far2_ok)|vm_compute; reflexivity|lia].
  - apply same_node_returns; [exact (tr_node _ near2_ok)|vm_compute; reflexivity|lia].
Qed.
End JourneyExample.

#[local] Existing Instances Toy.sha256 Toy.hkdf Toy.ed25519 Toy.x25519.

(** Two bytes through two routers, and their proof back. *)
Lemma message_and_receipt_witness :
  let hash := packet_hash JourneyExample.frame0 Header2 in
  ∃ view clear v, parse_view JourneyExample.captured_packet = Ok view ∧ pv_payload view = JourneyExample.message ∧
    hops (pv_header view) = 3%Z ∧ clear_packet JourneyExample.frame5 1 NodeExample.endpoint = Ok (Some clear) ∧
    parse_view clear = Ok v ∧ hops (pv_header v) = 2%Z ∧
    validate_proof (li_public_key NodeExample.identity) hash (pv_payload v) = true.
Proof.
  intros hash.
  assert (Hp0 : PacketBuffer.as_slice JourneyExample.packet0 = JourneyExample.frame0) by (vm_compute; reflexivity).
  assert (Hw0 : PacketBuffer.as_slice JourneyExample.wire0 = JourneyExample.frame0) by (vm_compute; reflexivity).
  assert (Hw3 : PacketBuffer.as_slice JourneyExample.wire3 = JourneyExample.frame3) by (vm_compute; reflexivity).
  destruct (message_and_receipt NodeExample.endpoint 1 JourneyExample.h0 JourneyExample.message
    JourneyExample.packet0 JourneyExample.wire0 JourneyExample.there JourneyExample.frame2 JourneyExample.owner
    (RxMeta.new 1) 2000 (PacketBuffer.new MTU) (snd (fst JourneyExample.delivered))
    (default (PacketBuffer.new MTU) (snd JourneyExample.delivered))) as (view & Hv & Hp & _ & Hh & _ & Hback).
  - exact NodeExample.endpoint_ok.
  - repeat split; vm_compute; reflexivity.
  - vm_compute. congruence.
  - split; [reflexivity|]. split; [reflexivity|]. vm_compute. congruence.
  - vm_compute. reflexivity.
  - vm_compute. reflexivity.
  - exact JourneyExample.there_ok.
  - exact JourneyExample.there_segments.
  - rewrite Hw0. exact JourneyExample.there_carried.
  - exact JourneyExample.owner_ok.
  - apply PacketBuffer.wf_new.
  - exact JourneyExample.delivered_local.
  - assert (Ht : header_type (flags (pv_header view)) = Header1)
      by (vm_compute in Hv; injection Hv as <-; reflexivity).
    rewrite Ht in Hback.
    destruct (Hback (seqZ 0 64) true (zeros 64) 64
      (snd (build_proof NodeExample.identity (packet_hash JourneyExample.captured_packet Header1) true (zeros 64)))
      JourneyExample.hp JourneyExample.receipt JourneyExample.owner JourneyExample.wire3 JourneyExample.back
      JourneyExample.frame5) as (_ & clear & v & Hc & Hpv & _ & Hhv & Hval).
    + vm_compute. reflexivity.
    + exact JourneyExample.hp_wf.
    + vm_compute. congruence.
    + split; [reflexivity|]. split; vm_compute; congruence.
    + reflexivity.
    + vm_compute. reflexivity.
    + exact JourneyExample.owner_ok.
    + reflexivity.
    + vm_compute. reflexivity.
    + rewrite Hp0. exact JourneyExample.back_returns.
    + rewrite Hw3. exact JourneyExample.back_carried.
    + exists view, clear, v. split; [exact Hv|]. split; [exact Hp|]. split; [rewrite Hh; vm_compute; reflexivity|].
      split; [exact Hc|]. split; [exact Hpv|]. split; [rewrite Hhv; vm_compute; reflexivity|].
      rewrite Hp0 in Hval. exact Hval.
Defined.
